(* ===== verification/_CoqProject ===== *)
-Q . S2P
Prelude.v
Endian.v
Varint.v
ByteReader.v
Protocol.v
Parser.v
ParserSafety.v
WireFormat.v
ByteWriter.v
Serializer.v
ResponseFormat.v
RecordBatch.v
GroupCoordinator.v
GroupProperties.v
Storage.v
PartitionContext.v
PartitionProperties.v
RingProperties.v
LogStore.v
ClusterMetadata.v
ClusterProperties.v
MetadataHandler.v
RecordHandler.v
RecordProperties.v
Broker.v
Config.v
Shard.v
Socket.v
Reactor.v
Framing.v
Delivery.v
ReactorInvariant.v
Wakeup.v
System.v
Forwarding.v
