(* ===== verification/Prelude.v ===== *)
(** * TinyKafka: a model of the broker and its correctness

    TinyKafka (src/) is a Kafka-compatible broker in C++23.  Bytes that arrive
    on a connection are parsed into one of thirteen requests
    (src/src/protocol/parser.cpp), a broker dispatches the request
    (src/src/broker/broker.cpp) to the metadata handler, to the record handler
    with its partitions, or to the coordinator of consumer groups, and the
    response is serialized (src/src/protocol/serializer.cpp) into one frame.
    Each thread is a reactor (src/src/net/reactor.cpp): an epoll loop over its
    connections with partitions of its own; a request for a partition of another
    reactor goes through queues (src/src/shard/).  [main] loads the configuration
    (src/src/config/) and starts the reactors.

    ** Conventions

    A [uint8_t] is a [Z] in [0,256), a buffer or string a list of them; wider
    integers are [Z]s, with [wrap_uint]/[wrap_int] where the code casts and
    [int32_add]/[int64_add] where a signed overflow would be undefined
    behaviour.  An operation returns an [outcome]: [Ok] and [Err] are the two
    sides of a [std::expected]; [Fault] is undefined behaviour or a C++
    exception.  Code that threads a cursor, a buffer or contexts through its
    calls is written in a state monad of its own ([reader], [writer], [scan],
    [handler]).  Readings of clocks and results of system calls are arguments.

    ** Files

    - [Prelude]: bytes, machine integers, outcomes; the tactics [zlia] and
      [decide_now]; the rewrite database [sizes].
    - [Endian], [Varint], [ByteReader], [ByteWriter]: src/src/util/endian.hpp,
      varint.hpp, byte_reader.hpp and byte_writer.hpp.  [ByteReader] also has the
      judgements [safe] (no fault, typed result) and [parses] (reads back an
      encoding), with the hint databases of the same names.
    - [Protocol]: the structs of src/src/protocol/request.hpp and response.hpp,
      the API table of api_registry.hpp, and what it means to be well typed.
    - [Parser]: parser.cpp, every request kind.  [ParserSafety] shows that no
      input makes it misbehave (except in one place of the Fetch case,
      [parse_fetch_truncated_undefined]),
      [WireFormat] defines the encoding of requests and the round trip.
    - [Serializer]: serializer.cpp, sizes and writes.  [ResponseFormat] defines
      the frames and shows that exactly they are written.
    - [RecordBatch]: src/src/util/record_batch.hpp, the batch parser and the
      header-only counter, with the encoding of batches.
    - [GroupCoordinator]: src/src/broker/group_coordinator.cpp; the mutex makes
      each handler a step, [reachable] are the states after any sequence of
      them.  [GroupProperties] has the invariant, the fencing of generations and
      the refinement of the commit history.
    - [Storage]: src/src/storage/partition_log.hpp and log_reader.cpp over an
      explicit state of files, descriptors and submitted writes; [Env] holds what
      the system calls of one operation return.
    - [PartitionContext]: src/src/broker/partition_context.hpp.
      [PartitionProperties] relates its states to a list of batches ([log_inv]),
      [RingProperties] relates asynchronous appends, as the reactors do them, to
      synchronous ones ([settle] is the state once the submitted writes are
      done), and [LogStore] is the contract that a partition with a ring offers
      to its clients, with [PartitionContext] as an instance, and its runs with
      completions in between ([ring_run]).
    - [ClusterMetadata], [ClusterProperties]: src/src/cluster/metadata.cpp.
    - [MetadataHandler]: src/src/broker/metadata_handler.cpp.
    - [RecordHandler]: src/src/broker/record_handler.cpp; [RecordProperties]
      proves, against [LogStore], that it implements a map from partitions to
      lists of batches.
    - [Broker]: src/src/broker/broker.cpp, and the path of one frame through a
      reactor (src/src/net/reactor.cpp, the middle of handle_read).
    - [Config]: src/src/config/, the properties file, the command line and what
      a setting ends up as ([Setting], [Tracks]).
    - [Shard]: src/src/shard/, routing and the queues; [Wakeup] interleaves a
      reactor's construction and loop with the pushes of others, statement by
      statement, from the start of the program.
    - [Socket]: src/src/net/socket.cpp and server.cpp over a socket as the kernel
      keeps it.
    - [Reactor]: src/src/net/reactor.cpp, every handler as a function on the
      reactor ([WorkerReactor]) and what reactors share ([Shared]);
      [run_iteration] is a round of the loop.  [Framing] is about reading
      requests, [Delivery] about writing responses, [ReactorInvariant] has the
      handlers as a step relation ([reactor_step], to which a round of the loop is
      related by [iteration_steps]) and its invariant.
    - [System]: src/src/main.cpp, several reactors as a step relation
      ([system_step]); [Forwarding] follows requests between reactors.

    ** What is shown

    - Wire protocol: the parser is safe on all inputs and inverts the request
      encoding (C1, C2); the serializer fills its buffer with exactly the
      specified frame, or overflows it for a DescribeTopicPartitions response of
      127 topics or more (C3); from bytes to bytes, one frame per request with
      the request's correlation id and kind, with the same exception (C17,
      [handle_dispatch]).
    - Data path, with writes through io_uring: produce, fetch and list-offsets
      refine the map of logs, without interference between partitions (C4, C5,
      C28); what was produced to a partition is read back once its writes are
      done in order (C15, C16); offsets are dense (C14, for synchronous writes,
      to which C30 relates the ring); batches whose records have at most one
      header round-trip (C20, C23, C32).
    - Groups: invariant, fencing, offsets, assignment, eviction, totality and
      isolation of the coordinator (C6, C12, C13, C24 to C27, C29).
    - Metadata: the log parser is total and right on well-formed logs (C21,
      C22); the metadata requests describe the tables (C31,
      [handle_metadata_correct]).
    - Connections: a request is answered, from the bytes that arrive to the bytes
      sent (C7, C19, C33); the invariant of all reachable states of a reactor
      (C8); what a client will receive only grows at its end, but for completions
      that come too late (C9); frames of unacceptable length (C38).
    - Reactors together: a partition has one owner (C10), the undisturbed round
      trip of a forwarded request (C11), no wake-up is lost once a reactor has
      announced its descriptor (C18), queues are first in, first out (C37).
    - Configuration: precedence, validity and the file format (C34 to C36).
    - Where the code does not do what it means to: C39 and C40, and the theorems
      [parse_fetch_truncated_undefined], [serialize_describe_overflow],
      [two_headers_misparse], [unordered_completion_reorders],
      [full_ring_overtakes], [early_push_sleeps], [fetch_negative_partition_leaks],
      [fetch_after_roll_misses], [restart_reuses_offsets],
      [empty_group_keeps_generation], [generated_id_collision],
      [late_completion_truncates], [split_request_duplicates_offsets],
      [forwarded_overtaken] and [forwarded_to_wrong_client].

    ** Bounds and fuel

    Loops over a buffer use its length (plus one) as fuel: each iteration
    consumes at least a byte, and C22 and C32 show that more fuel changes
    nothing.  [recv_all] and [send_all] move a byte per iteration (C33); a reactor
    drains a queue in as many rounds as it has entries.  Varints have at most
    five bytes.  The theorems on logs assume fewer than 2^63 records, and files
    below 2^64 bytes where a fetch reads them.
    The properties of a partition assume that system calls succeed with fresh
    descriptors ([good_env]), those with a ring also that it has free entries and
    that the kernel completes the writes to one file in the order of submission
    ([in_order]); [produce_outcome] assumes none of it.

    ** Not modelled

    Exhaustion of memory; the logger (src/src/logging/) and the periodic metrics
    line; path normalisation (a path is a directory and a name); the life time
    of io_uring's buffers; the data a splice moves (a splice is recorded with its
    descriptors and sizes).  A handler of a reactor is one step of the system:
    what it shares with other threads is behind a mutex or in the files of its
    own partitions; a write to the unsynchronised [wakeup_fd_] is taken to be seen
    by later pushes.  The constructor of a reactor is modelled
    for the case that its listener and epoll descriptor were created. *)

From Stdlib Require Export ZArith Lia.
From stdpp Require Export base option list list_numbers gmap strings pretty.

#[global] Open Scope Z_scope.

(** ** Bytes, strings and sizes

    A [uint8_t] is a [Z] in [0, 256); a byte buffer ([std::vector<uint8_t>],
    [std::span<const uint8_t>]) and a [std::string] are lists of such bytes. *)
Abbreviation bytes := (list Z).

(** [size()] of a container, as an integer. *)
Definition zlen {A} (l : list A) : Z := Z.of_nat (length l).

(** [l.subspan(n)] and [l.first(n)]. *)
Definition zdrop {A} (n : Z) (l : list A) : list A := drop (Z.to_nat n) l.
Definition ztake {A} (n : Z) (l : list A) : list A := take (Z.to_nat n) l.

(** A string literal of the code, as its bytes. *)
Fixpoint str (s : string) : bytes :=
  match s with
  | EmptyString => []
  | String c s' => Z.of_N (Ascii.N_of_ascii c) :: str s'
  end.

(** [std::to_string] of an integer. *)
Definition to_string (z : Z) : bytes := str (pretty z).

(** ** Machine integers *)

Definition in_uint (w z : Z) : Prop := 0 ≤ z < 2 ^ w.
Definition in_int (w z : Z) : Prop := - 2 ^ (w - 1) ≤ z < 2 ^ (w - 1).

(** [static_cast] to a [w]-bit unsigned, resp. two's complement, integer. *)
Definition wrap_uint (w z : Z) : Z := z mod 2 ^ w.
Definition wrap_int (w z : Z) : Z := (z + 2 ^ (w - 1)) mod 2 ^ w - 2 ^ (w - 1).

Definition byte_ok (b : Z) : Prop := in_uint 8 b.
Definition bytes_ok (l : bytes) : Prop := Forall byte_ok l.

#[export] Instance in_uint_dec w z : Decision (in_uint w z).
Proof. unfold in_uint. apply _. Defined.
#[export] Instance in_int_dec w z : Decision (in_int w z).
Proof. unfold in_int. apply _. Defined.
#[export] Instance byte_ok_dec b : Decision (byte_ok b).
Proof. unfold byte_ok. apply _. Defined.
#[export] Instance bytes_ok_dec l : Decision (bytes_ok l).
Proof. unfold bytes_ok. apply _. Defined.

(** ** Outcomes

    [Ok]/[Err] are the two states of a [std::expected<T, std::error_code>];
    [Fault] stands for an execution that leaves the expected-based error
    protocol: undefined behaviour (out-of-bounds write, dereference of an
    [expected] that holds an error, signed overflow) or a C++ exception. *)
Inductive errc := message_size | protocol_not_supported | function_not_supported.
Inductive fault := undefined_behaviour | length_error | invalid_argument | out_of_range.

#[export] Instance errc_eq_dec : EqDecision errc.
Proof. solve_decision. Defined.
#[export] Instance fault_eq_dec : EqDecision fault.
Proof. solve_decision. Defined.

Inductive outcome (A : Type) :=
| Ok (a : A)
| Err (e : errc)
| Fault (f : fault).
Arguments Ok {A} a.
Arguments Err {A} e.
Arguments Fault {A} f.

#[export] Instance outcome_ret : MRet outcome := λ A a, Ok a.
#[export] Instance outcome_bind : MBind outcome := λ A B k m,
  match m with
  | Ok a => k a
  | Err e => Err e
  | Fault f => Fault f
  end.

(** [int32_t] addition: signed overflow is undefined behaviour. *)
Definition int32_add (a b : Z) : outcome Z :=
  if decide (in_int 32 (a + b)) then Ok (a + b) else Fault undefined_behaviour.

(** [int64_t] addition. *)
Definition int64_add (a b : Z) : outcome Z :=
  if decide (in_int 64 (a + b)) then Ok (a + b) else Fault undefined_behaviour.

(** ** Sizes: rewriting and arithmetic *)

Lemma zlen_cons {A} (x : A) l : zlen (x :: l) = 1 + zlen l.
Proof. unfold zlen. simpl length. lia. Qed.
Lemma zlen_app {A} (l k : list A) : zlen (l ++ k) = zlen l + zlen k.
Proof. unfold zlen. rewrite length_app. lia. Qed.
Lemma zlen_nonneg {A} (l : list A) : 0 ≤ zlen l.
Proof. unfold zlen. lia. Qed.
Lemma zlen_map {A B} (f : A → B) l : zlen (map f l) = zlen l.
Proof. unfold zlen. by rewrite length_map. Qed.
Lemma zlen_fmap {A B} (f : A → B) l : zlen (f <$> l) = zlen l.
Proof. unfold zlen. by rewrite length_fmap. Qed.
Lemma zlen_ztake {A} n (l : list A) : 0 ≤ n ≤ zlen l → zlen (ztake n l) = n.
Proof. unfold zlen, ztake. rewrite length_take. lia. Qed.
Lemma zlen_zdrop {A} n (l : list A) : 0 ≤ n ≤ zlen l → zlen (zdrop n l) = zlen l - n.
Proof. unfold zlen, zdrop. rewrite length_drop. lia. Qed.
Lemma zlen_replicate {A} n (x : A) : zlen (replicate n x) = Z.of_nat n.
Proof. unfold zlen. by rewrite length_replicate. Qed.
Lemma zlen_0_nil {A} (l : list A) : zlen l = 0 → l = [].
Proof. destruct l; [done|]. rewrite zlen_cons. pose proof (zlen_nonneg l). lia. Qed.

Create Rewrite HintDb sizes.
#[export] Hint Rewrite @zlen_cons @zlen_app @zlen_map @zlen_fmap @zlen_replicate : sizes.

Lemma zdrop_0 {A} (l : list A) : zdrop 0 l = l.
Proof. reflexivity. Qed.
Lemma ztake_0 {A} (l : list A) : ztake 0 l = [].
Proof. unfold ztake. apply take_0. Qed.
Lemma zdrop_app {A} (l k : list A) : zdrop (zlen l) (l ++ k) = k.
Proof. unfold zdrop, zlen. rewrite Nat2Z.id. apply drop_app_length. Qed.
Lemma ztake_app {A} (l k : list A) : ztake (zlen l) (l ++ k) = l.
Proof. unfold ztake, zlen. rewrite Nat2Z.id. apply take_app_length. Qed.
Lemma ztake_zdrop {A} n (l : list A) : ztake n l ++ zdrop n l = l.
Proof. apply take_drop. Qed.
Lemma zdrop_zdrop {A} n m (l : list A) :
  0 ≤ n → 0 ≤ m → zdrop n (zdrop m l) = zdrop (m + n) l.
Proof. intros. unfold zdrop. rewrite drop_drop. f_equal. lia. Qed.

(** [zlia]: linear arithmetic over sizes of lists built from constructors
    and appends. *)
Ltac zlen_facts :=
  repeat match goal with
  | |- context [zlen ?l] =>
      lazymatch goal with H : 0 ≤ zlen l |- _ => fail | _ => idtac end;
      pose proof (zlen_nonneg l)
  | _ : context [zlen ?l] |- _ =>
      lazymatch goal with H : 0 ≤ zlen l |- _ => fail | _ => idtac end;
      pose proof (zlen_nonneg l)
  end.
Ltac zlen_simpl :=
  autorewrite with sizes in *;
  repeat match goal with
  | |- context [zlen (@nil ?A)] => change (zlen (@nil A)) with 0
  | H : context [zlen (@nil ?A)] |- _ => change (zlen (@nil A)) with 0 in H
  end.
Ltac zlia := zlen_simpl; zlen_facts; lia.

(** [for (x : l) total += f(x);] *)
Definition zsum {A} (f : A → Z) (l : list A) : Z := foldr (λ x s, f x + s) 0 l.

Lemma zsum_ext {A} (f g : A → Z) l : (∀ x, f x = g x) → zsum f l = zsum g l.
Proof. intros E. induction l as [|x l IH]; [done|]. simpl. by rewrite E, IH. Qed.

Lemma zsum_const {A} (f : A → Z) c l : (∀ x, f x = c) → zsum f l = zlen l * c.
Proof. intros E. induction l as [|x l IH]; [done|]. simpl. rewrite E, IH, zlen_cons. lia. Qed.

Lemma zsum_nonneg {A} (f : A → Z) l : (∀ x, 0 ≤ f x) → 0 ≤ zsum f l.
Proof. intros E. induction l as [|x l IH]; [done|]. simpl. specialize (E x). lia. Qed.

Lemma zlen_concat_map {A B} (f : A → list B) l :
  zlen (concat (map f l)) = zsum (λ x, zlen (f x)) l.
Proof. induction l as [|x l IH]; [done|]. simpl. by rewrite zlen_app, IH. Qed.

(** Decide a closed proposition by evaluation. *)
Ltac decide_now := apply (bool_decide_unpack _); vm_compute; exact I.

(** ** Bits of integers *)

Lemma land_127 z : Z.land z 127 = z mod 128.
Proof. change 127 with (Z.ones 7). by rewrite Z.land_ones. Qed.
Lemma land_255 z : Z.land z 255 = z mod 256.
Proof. change 255 with (Z.ones 8). by rewrite Z.land_ones. Qed.

(** [lor] of two values with disjoint bits is their sum. *)
Lemma lor_shiftl_add s a b :
  0 ≤ s → 0 ≤ a < 2 ^ s → Z.lor a (Z.shiftl b s) = a + b * 2 ^ s.
Proof.
  intros Hs Ha. rewrite <-Z.shiftl_mul_pow2 by done.
  rewrite Z.add_nocarry_lxor; [rewrite Z.lxor_lor; [done|]|].
  all: apply Z.bits_inj'; intros i Hi; rewrite Z.land_spec, Z.bits_0.
  all: destruct (decide (i < s)).
  1,3: rewrite Z.shiftl_spec_low by lia; apply andb_false_r.
  all: rewrite <-(Z.mod_small a (2 ^ s)) by done.
  all: rewrite Z.mod_pow2_bits_high by lia; done.
Qed.

Lemma lor_mul_add s a b :
  0 ≤ s → 0 ≤ a < 2 ^ s → Z.lor (b * 2 ^ s) a = b * 2 ^ s + a.
Proof.
  intros. rewrite Z.lor_comm, <-Z.shiftl_mul_pow2, lor_shiftl_add by done.
  rewrite Z.shiftl_mul_pow2 by done. lia.
Qed.

Lemma wrap_uint_range w z : 0 ≤ w → in_uint w (wrap_uint w z).
Proof. intros. apply Z.mod_pos_bound, Z.pow_pos_nonneg; lia. Qed.
Lemma wrap_uint_small w z : in_uint w z → wrap_uint w z = z.
Proof. intros. by apply Z.mod_small. Qed.

Lemma pow2_half w : 0 < w → 2 ^ w = 2 * 2 ^ (w - 1).
Proof. intros. rewrite <-Z.pow_succ_r by lia. f_equal. lia. Qed.

Lemma wrap_int_range w z : 0 < w → in_int w (wrap_int w z).
Proof.
  intros Hw. unfold in_int, wrap_int. rewrite (pow2_half w Hw).
  pose proof (Z.mod_pos_bound (z + 2 ^ (w - 1)) (2 * 2 ^ (w - 1))).
  assert (0 < 2 ^ (w - 1)) by (apply Z.pow_pos_nonneg; lia). lia.
Qed.
Lemma wrap_int_small w z : 0 < w → in_int w z → wrap_int w z = z.
Proof.
  unfold in_int, wrap_int. intros Hw Hz.
  rewrite Z.mod_small; [lia|]. rewrite (pow2_half w Hw). lia.
Qed.
(** Two's complement conversion only depends on the value modulo [2^w]. *)
Lemma wrap_int_mod w z : 0 < w → wrap_int w (z mod 2 ^ w) = wrap_int w z.
Proof.
  intros. unfold wrap_int. by rewrite Zplus_mod_idemp_l.
Qed.
Lemma wrap_int_congr w a b : 0 < w → a mod 2 ^ w = b mod 2 ^ w → wrap_int w a = wrap_int w b.
Proof. intros Hw E. by rewrite <-(wrap_int_mod w a), E, wrap_int_mod. Qed.

(** ** Outcomes: inversion of binds *)

Lemma outcome_bind_Ok {A B} (m : outcome A) (k : A → outcome B) b :
  m ≫= k = Ok b ↔ ∃ a, m = Ok a ∧ k a = Ok b.
Proof. destruct m; simpl; naive_solver. Qed.

Lemma int32_add_Ok a b c : int32_add a b = Ok c ↔ c = a + b ∧ in_int 32 (a + b).
Proof. unfold int32_add. case_decide; naive_solver. Qed.

Lemma int64_add_Ok a b c : int64_add a b = Ok c ↔ c = a + b ∧ in_int 64 (a + b).
Proof. unfold int64_add. case_decide; naive_solver. Qed.

(** [str] and [to_string] are injective: distinct identifiers have distinct
    texts. *)
Lemma str_inj s t : str s = str t → s = t.
Proof.
  revert t. induction s as [|c s IH]; intros [|d t] E; simplify_eq/=; [done|].
  f_equal; [|by apply IH].
  apply (f_equal Ascii.ascii_of_N) in H. by rewrite !Ascii.ascii_N_embedding in H.
Qed.

Lemma to_string_inj a b : to_string a = to_string b → a = b.
Proof. intros E%str_inj. by apply (inj pretty). Qed.

Lemma str_bytes_ok s : bytes_ok (str s).
Proof.
  induction s as [|c s IH]; constructor; [|done].
  unfold byte_ok, in_uint. pose proof (Ascii.N_ascii_bounded c). lia.
Qed.
Lemma to_string_bytes_ok z : bytes_ok (to_string z).
Proof. apply str_bytes_ok. Qed.

(** The text of a number: decimal digits, after a minus sign for a negative
    one.  A separator that does not occur in it can be found again. *)
Lemma pretty_N_go_digits x s :
  Forall (λ c, 48 ≤ c ≤ 57) (str s) → Forall (λ c, 48 ≤ c ≤ 57) (str (pretty_N_go x s)).
Proof.
  revert s. induction (N.lt_wf_0 x) as [x _ IH]; intros s Hs.
  destruct (decide (x = 0%N)) as [->|]; [done|].
  rewrite pretty_N_go_step by lia. apply IH; [apply N.div_lt; lia|].
  constructor; [|done]. unfold pretty_N_char. by repeat case_match.
Qed.

Lemma to_string_digits z : 0 ≤ z → Forall (λ c, 48 ≤ c ≤ 57) (to_string z).
Proof.
  intros Hz. destruct z as [|p|p]; [by repeat constructor| |lia].
  by apply pretty_N_go_digits.
Qed.

Lemma to_string_chars z : Forall (λ c, 48 ≤ c ≤ 57 ∨ c = 45) (to_string z).
Proof.
  destruct z as [|p|p].
  1,2: eapply Forall_impl; [apply to_string_digits; lia|cbn; tauto].
  change (to_string (Z.neg p)) with (45 :: str (pretty_N_go (N.pos p) "")).
  constructor; [by right|].
  eapply Forall_impl; [by apply pretty_N_go_digits|cbn; tauto].
Qed.

Lemma app_separator_inj (c : Z) (a a' b b' : bytes) :
  c ∉ b → c ∉ b' → a ++ c :: b = a' ++ c :: b' → a = a' ∧ b = b'.
Proof.
  revert a'. induction a as [|x a IH]; intros [|x' a'] Hb Hb'; intros E; simplify_eq/=.
  - done.
  - set_solver.
  - set_solver.
  - by destruct (IH a' Hb Hb') as [-> ->].
Qed.
