(* ===== verification/Endian.v ===== *)
(** * Big-endian integers (src/src/util/endian.hpp)

    The unrolled store and load routines for 16-, 32- and 64-bit integers,
    and their equivalence with the positional reference [be_encode]/[be_decode].
    Shifts on [Z] are the C++20 shifts before conversion to the result width:
    [x << k] is reduced to the width of its (promoted) operand. *)

From S2P Require Import Prelude.

(** The [i]-th element of a fixed-extent span. *)
Definition byte_at (d : bytes) (i : nat) : Z := nth i d 0.

(** [static_cast<uint8_t>((value >> k) & 0xFF)] *)
Definition octet (value k : Z) : Z := wrap_uint 8 (Z.land (Z.shiftr value k) 255).

Definition write_int16_be (value : Z) : bytes :=
  [octet value 8; octet value 0].

Definition write_int32_be (value : Z) : bytes :=
  [octet value 24; octet value 16; octet value 8; octet value 0].

Definition write_int64_be (value : Z) : bytes :=
  [octet value 56; octet value 48; octet value 40; octet value 32;
   octet value 24; octet value 16; octet value 8; octet value 0].

(** The operands are promoted to [int]; the cast narrows the result. *)
Definition decode_int16_be (data : bytes) : Z :=
  wrap_int 16 (Z.lor (Z.shiftl (byte_at data 0) 8) (byte_at data 1)).

(** [static_cast<intW_t>(b) << k] *)
Definition shl (w b k : Z) : Z := wrap_int w (Z.shiftl b k).

Definition decode_int32_be (data : bytes) : Z :=
  Z.lor (Z.lor (Z.lor (shl 32 (byte_at data 0) 24) (shl 32 (byte_at data 1) 16))
               (shl 32 (byte_at data 2) 8))
        (byte_at data 3).

Definition decode_int64_be (data : bytes) : Z :=
  Z.lor (Z.lor (Z.lor (Z.lor (Z.lor (Z.lor (Z.lor
    (shl 64 (byte_at data 0) 56) (shl 64 (byte_at data 1) 48))
    (shl 64 (byte_at data 2) 40)) (shl 64 (byte_at data 3) 32))
    (shl 64 (byte_at data 4) 24)) (shl 64 (byte_at data 5) 16))
    (shl 64 (byte_at data 6) 8)) (byte_at data 7).

(** ** Reference: positional notation in base 256 *)

Fixpoint be_encode (n : nat) (v : Z) : bytes :=
  match n with
  | O => []
  | S n' => be_encode n' (v / 256) ++ [v mod 256]
  end.

Definition be_decode (l : bytes) : Z := foldl (λ acc b, acc * 256 + b) 0 l.

(** ** Lemmas *)

Lemma octet_div v k : 0 ≤ k → octet v k = v / 2 ^ k mod 256.
Proof.
  intros. unfold octet, wrap_uint. rewrite land_255, Z.shiftr_div_pow2 by done.
  by rewrite Z.mod_mod.
Qed.

Lemma octet_range v k : byte_ok (octet v k).
Proof. apply (wrap_uint_range 8); lia. Qed.

Lemma be_encode_length n v : length (be_encode n v) = n.
Proof. revert v. induction n as [|n IH]; intros v; [done|]. simpl. rewrite length_app, IH. simpl. lia. Qed.

Lemma be_encode_bytes_ok n v : bytes_ok (be_encode n v).
Proof.
  revert v. induction n as [|n IH]; intros v; [constructor|].
  apply Forall_app. split; [apply IH|]. apply Forall_singleton. by apply Z.mod_pos_bound.
Qed.

Lemma be_decode_snoc l b : be_decode (l ++ [b]) = be_decode l * 256 + b.
Proof. unfold be_decode. by rewrite foldl_app. Qed.

Lemma be_decode_encode n v : be_decode (be_encode n v) = v mod 256 ^ Z.of_nat n.
Proof.
  revert v. induction n as [|n IH]; intros v; [by rewrite Z.mod_1_r|].
  cbn [be_encode]. rewrite be_decode_snoc, IH, Nat2Z.inj_succ, Z.pow_succ_r by lia.
  rewrite (Z.rem_mul_r v 256) by lia. lia.
Qed.

Lemma be_decode_range l : bytes_ok l → 0 ≤ be_decode l < 256 ^ zlen l.
Proof.
  induction l as [|b l IH] using rev_ind; intros Hl; [done|].
  apply Forall_app in Hl as [Hl Hb]. inversion_clear Hb as [|?? Hb' _].
  specialize (IH Hl). unfold byte_ok, in_uint in Hb'.
  rewrite be_decode_snoc, zlen_app, Z.pow_add_r by zlia.
  change (256 ^ zlen [b]) with 256. lia.
Qed.

(** Left shift in a [w]-bit signed type: the top [w - k] bits of the result
    are the operand in two's complement. *)
Lemma shl_wrap w b k : 0 ≤ k < w → shl w b k = wrap_int (w - k) b * 2 ^ k.
Proof.
  intros Hk. unfold shl, wrap_int. rewrite Z.shiftl_mul_pow2 by lia.
  replace (2 ^ (w - 1)) with (2 ^ (w - k - 1) * 2 ^ k)
    by (rewrite <-Z.pow_add_r by lia; f_equal; lia).
  replace (2 ^ w) with (2 ^ (w - k) * 2 ^ k)
    by (rewrite <-Z.pow_add_r by lia; f_equal; lia).
  rewrite <-Z.mul_add_distr_r, Z.mul_mod_distr_r; [lia| |];
    apply Z.pow_nonzero; lia.
Qed.

Lemma shl_byte w b k : 0 ≤ k → k + 8 < w → byte_ok b → shl w b k = b * 2 ^ k.
Proof.
  intros Hk Hw Hb. rewrite shl_wrap, wrap_int_small; try lia.
  unfold byte_ok, in_uint, in_int in *.
  assert (2 ^ 8 ≤ 2 ^ (w - k - 1)) by (apply Z.pow_le_mono_r; lia). lia.
Qed.

(** Appending one more octet below the bits already assembled. *)
Lemma lor_octet w h b k :
  0 ≤ k → k + 8 < w → byte_ok b →
  Z.lor (h * 2 ^ (k + 8)) (shl w b k) = (h * 256 + b) * 2 ^ k.
Proof.
  intros Hk Hw Hb. rewrite shl_byte by done. unfold byte_ok, in_uint in Hb.
  rewrite lor_mul_add; [|lia|].
  - rewrite Z.pow_add_r by lia. lia.
  - rewrite Z.pow_add_r by lia. nia.
Qed.

Lemma lor_last h b : byte_ok b → Z.lor (h * 2 ^ 8) b = h * 256 + b.
Proof. intros. by rewrite lor_mul_add. Qed.

(** The sign of the assembled integer comes from its first octet. *)
Lemma wrap_int_split w h r k :
  0 ≤ k < w → 0 ≤ r < 2 ^ k →
  wrap_int w (h * 2 ^ k + r) = wrap_int (w - k) h * 2 ^ k + r.
Proof.
  intros Hk Hr. unfold wrap_int.
  replace (2 ^ (w - 1)) with (2 ^ (w - k - 1) * 2 ^ k)
    by (rewrite <-Z.pow_add_r by lia; f_equal; lia).
  replace (2 ^ w) with (2 ^ k * 2 ^ (w - k))
    by (rewrite <-Z.pow_add_r by lia; f_equal; lia).
  assert (0 < 2 ^ k) by (apply Z.pow_pos_nonneg; lia).
  assert (0 < 2 ^ (w - k)) by (apply Z.pow_pos_nonneg; lia).
  replace (h * 2 ^ k + r + 2 ^ (w - k - 1) * 2 ^ k)
    with (r + (h + 2 ^ (w - k - 1)) * 2 ^ k) by lia.
  rewrite Z.rem_mul_r, Z.div_add, Z.mod_add, (Z.div_small r), (Z.mod_small r) by lia.
  rewrite Z.add_0_l. lia.
Qed.

Ltac bytes_cases H := repeat (inversion_clear H as [|?? ?Hb H']; rename H' into H); clear H.
Ltac octets := repeat match goal with H : byte_ok _ |- _ => unfold byte_ok, in_uint in H end.

(** ** The load routines compute two's complement of the positional value *)

Lemma decode_int16_be_spec a b :
  bytes_ok [a; b] → decode_int16_be [a; b] = wrap_int 16 (be_decode [a; b]).
Proof.
  intros H. bytes_cases H. unfold decode_int16_be, byte_at, be_decode; cbn [nth foldl].
  rewrite Z.shiftl_mul_pow2, lor_last by done. f_equal; lia.
Qed.

Lemma decode_int32_be_spec a b c d :
  bytes_ok [a; b; c; d] → decode_int32_be [a; b; c; d] = wrap_int 32 (be_decode [a; b; c; d]).
Proof.
  intros H. bytes_cases H. unfold decode_int32_be, byte_at, be_decode; cbn [nth foldl].
  rewrite shl_wrap by lia.
  rewrite (lor_octet 32 _ _ 16), (lor_octet 32 _ _ 8), lor_last by done. octets.
  replace ((((0 * 256 + a) * 256 + b) * 256 + c) * 256 + d)
    with (a * 2 ^ 24 + ((b * 256 + c) * 256 + d)) by lia.
  rewrite wrap_int_split by lia. lia.
Qed.

Lemma decode_int64_be_spec a b c d e f g h :
  bytes_ok [a; b; c; d; e; f; g; h] →
  decode_int64_be [a; b; c; d; e; f; g; h] = wrap_int 64 (be_decode [a; b; c; d; e; f; g; h]).
Proof.
  intros H. bytes_cases H. unfold decode_int64_be, byte_at, be_decode; cbn [nth foldl].
  rewrite shl_wrap by lia.
  rewrite (lor_octet 64 _ _ 48), (lor_octet 64 _ _ 40), (lor_octet 64 _ _ 32),
    (lor_octet 64 _ _ 24), (lor_octet 64 _ _ 16), (lor_octet 64 _ _ 8), lor_last by done.
  octets.
  replace ((((((((0 * 256 + a) * 256 + b) * 256 + c) * 256 + d) * 256 + e) * 256 + f) * 256 + g)
           * 256 + h)
    with (a * 2 ^ 56 + ((((((b * 256 + c) * 256 + d) * 256 + e) * 256 + f) * 256 + g) * 256 + h))
    by lia.
  rewrite wrap_int_split by lia. lia.
Qed.

(** ** The store routines write the positional digits *)

Lemma write_int16_be_spec v : write_int16_be v = be_encode 2 v.
Proof. unfold write_int16_be. rewrite !octet_div by lia. by rewrite Z.div_1_r. Qed.

Lemma write_int32_be_spec v : write_int32_be v = be_encode 4 v.
Proof.
  unfold write_int32_be. rewrite !octet_div by lia. cbn [be_encode app].
  rewrite !Z.div_div, Z.div_1_r by lia. done.
Qed.

Lemma write_int64_be_spec v : write_int64_be v = be_encode 8 v.
Proof.
  unfold write_int64_be. rewrite !octet_div by lia. cbn [be_encode app].
  rewrite !Z.div_div, Z.div_1_r by lia. done.
Qed.

(** ** Round trips *)

Lemma decode_write_int16 v : in_int 16 v → decode_int16_be (write_int16_be v) = v.
Proof.
  intros Hv. rewrite write_int16_be_spec. cbn [be_encode app].
  rewrite decode_int16_be_spec by apply (be_encode_bytes_ok 2 v).
  change (wrap_int 16 (be_decode (be_encode 2 v)) = v).
  rewrite be_decode_encode. change (256 ^ Z.of_nat 2) with (2 ^ 16).
  by rewrite wrap_int_mod, wrap_int_small.
Qed.

Lemma decode_write_int32 v : in_int 32 v → decode_int32_be (write_int32_be v) = v.
Proof.
  intros Hv. rewrite write_int32_be_spec. cbn [be_encode app].
  rewrite decode_int32_be_spec by apply (be_encode_bytes_ok 4 v).
  change (wrap_int 32 (be_decode (be_encode 4 v)) = v).
  rewrite be_decode_encode. change (256 ^ Z.of_nat 4) with (2 ^ 32).
  by rewrite wrap_int_mod, wrap_int_small.
Qed.

Lemma decode_write_int64 v : in_int 64 v → decode_int64_be (write_int64_be v) = v.
Proof.
  intros Hv. rewrite write_int64_be_spec. cbn [be_encode app].
  rewrite decode_int64_be_spec by apply (be_encode_bytes_ok 8 v).
  change (wrap_int 64 (be_decode (be_encode 8 v)) = v).
  rewrite be_decode_encode. change (256 ^ Z.of_nat 8) with (2 ^ 64).
  by rewrite wrap_int_mod, wrap_int_small.
Qed.
