(* ===== verification/Varint.v ===== *)
(** * Variable-length integers and compact strings (src/src/util/varint.hpp)

    Unsigned LEB128-style varints of [uint32_t], the zigzag mapping of
    [int32_t], and length-prefixed strings.  A [uint32_t] needs at most five
    groups of seven bits, so five iterations of the [while] loops are enough;
    [write_unsigned_varint_step] and [varint_encoded_size_step] show that the
    fuel never runs out on 32-bit values. *)

From S2P Require Import Prelude.

(** [while (value > 0) { value >>= 7; ++size; }] *)
Fixpoint varint_size_loop (fuel : nat) (value size : Z) : Z :=
  match fuel with
  | O => size
  | S fuel' =>
      if value >? 0 then varint_size_loop fuel' (Z.shiftr value 7) (size + 1) else size
  end.

Definition varint_encoded_size (value : Z) : Z :=
  if value =? 0 then 1 else varint_size_loop 5 value 0.

(** [while (value > 0x7F) {...}] followed by the last group; the bytes are
    returned in the order they are stored in [buf]. *)
Fixpoint write_varint_loop (fuel : nat) (value : Z) : bytes :=
  match fuel with
  | O => []
  | S fuel' =>
      if value >? 127
      then wrap_uint 8 (Z.lor (Z.land value 127) 128) :: write_varint_loop fuel' (Z.shiftr value 7)
      else [wrap_uint 8 (Z.land value 127)]
  end.

Definition write_unsigned_varint (value : Z) : bytes := write_varint_loop 5 value.

Fixpoint read_varint_loop (buf : bytes) (value shift : Z) : outcome Z :=
  match buf with
  | [] => Err message_size
  | byte :: rest =>
      if shift >=? 28 then Err message_size
      else
        let value := Z.lor value (wrap_uint 32 (Z.shiftl (Z.land byte 127) shift)) in
        if Z.land byte 128 =? 0 then Ok value else read_varint_loop rest value (shift + 7)
  end.

Definition read_unsigned_varint (buf : bytes) : outcome Z := read_varint_loop buf 0 0.

Definition zigzag_encode (value : Z) : Z :=
  Z.lxor (wrap_uint 32 (Z.shiftl (wrap_uint 32 value) 1)) (wrap_uint 32 (Z.shiftr value 31)).

Definition zigzag_decode (encoded : Z) : Z :=
  Z.lxor (wrap_int 32 (Z.shiftr encoded 1)) (- wrap_int 32 (Z.land encoded 1)).

Definition signed_varint_encoded_size (value : Z) : Z :=
  varint_encoded_size (zigzag_encode value).

Definition write_signed_varint (value : Z) : bytes :=
  write_unsigned_varint (zigzag_encode value).

Definition read_signed_varint (buf : bytes) : outcome Z :=
  result ← read_unsigned_varint buf; Ok (zigzag_decode result).

Definition read_compact_string (buf : bytes) : outcome bytes :=
  match buf with
  | [] => Err message_size
  | _ =>
      len ← read_unsigned_varint buf;
      if len <? 1 then Err message_size
      else
        let str_len := len - 1 in
        let consumed := varint_encoded_size len in
        if zlen buf <? consumed + str_len then Err message_size
        else Ok (ztake str_len (zdrop consumed buf))
  end.

(** ** Loop equations *)

Lemma shiftr_7 v : Z.shiftr v 7 = v / 128.
Proof. by rewrite Z.shiftr_div_pow2. Qed.

Lemma write_varint_loop_fuel n m v :
  0 ≤ v < 128 ^ Z.of_nat n → (n ≤ m)%nat → (0 < n)%nat →
  write_varint_loop m v = write_varint_loop n v.
Proof.
  revert m v. induction n as [|n IH]; intros [|m] v Hv Hm Hn; [lia..|].
  cbn [write_varint_loop]. destruct (Z.gtb_spec v 127); [|done].
  rewrite !shiftr_7. f_equal.
  rewrite Nat2Z.inj_succ, Z.pow_succ_r in Hv by lia.
  destruct n as [|n]; [simpl in Hv; lia|].
  apply IH; [|lia..]. split; [apply Z.div_pos; lia|]. apply Z.div_lt_upper_bound; lia.
Qed.

(** The loop of [write_unsigned_varint], without fuel. *)
Lemma write_unsigned_varint_step v :
  in_uint 32 v →
  write_unsigned_varint v =
    if decide (v < 128) then [v]
    else (v mod 128 + 128) :: write_unsigned_varint (v / 128).
Proof.
  intros Hv. unfold in_uint in Hv. unfold write_unsigned_varint at 1.
  change (write_varint_loop 5 v) with
    (if v >? 127 then wrap_uint 8 (Z.lor (Z.land v 127) 128) :: write_varint_loop 4 (Z.shiftr v 7)
     else [wrap_uint 8 (Z.land v 127)]).
  rewrite !land_127. pose proof (Z.mod_pos_bound v 128 eq_refl) as Hm.
  destruct (Z.gtb_spec v 127) as [Hc|Hc].
  - rewrite decide_False by lia. f_equal.
    + change 128 with (Z.shiftl 1 7). rewrite lor_shiftl_add by (change (Z.shiftl 1 7) with 128; lia).
      change (Z.shiftl 1 7) with 128. rewrite wrap_uint_small by (unfold in_uint; lia). lia.
    + rewrite shiftr_7. symmetry. apply write_varint_loop_fuel; [|lia..].
      split; [apply Z.div_pos; lia|]. apply Z.div_lt_upper_bound; simpl; lia.
  - rewrite decide_True by lia. rewrite Z.mod_small by lia.
    by rewrite wrap_uint_small by (unfold in_uint; lia).
Qed.

Lemma varint_size_loop_acc n v s : varint_size_loop n v s = s + varint_size_loop n v 0.
Proof.
  revert v s. induction n as [|n IH]; intros v s; simpl; [lia|].
  destruct (v >? 0); [|lia]. rewrite IH, (IH _ 1). lia.
Qed.

Lemma varint_size_loop_fuel n m v :
  0 ≤ v < 128 ^ Z.of_nat n → (n ≤ m)%nat → varint_size_loop m v 0 = varint_size_loop n v 0.
Proof.
  revert m v. induction n as [|n IH]; intros m v Hv Hm.
  - simpl in Hv. assert (v = 0) as -> by lia. by destruct m.
  - destruct m as [|m]; [lia|]. cbn [varint_size_loop].
    destruct (Z.gtb_spec v 0); [|done].
    rewrite (varint_size_loop_acc m), (varint_size_loop_acc n), shiftr_7. f_equal.
    rewrite Nat2Z.inj_succ, Z.pow_succ_r in Hv by lia.
    apply IH; [|lia]. split; [apply Z.div_pos; lia|]. apply Z.div_lt_upper_bound; lia.
Qed.

Lemma varint_encoded_size_step v :
  in_uint 32 v →
  varint_encoded_size v = if decide (v < 128) then 1 else 1 + varint_encoded_size (v / 128).
Proof.
  intros Hv. unfold in_uint in Hv. unfold varint_encoded_size.
  destruct (Z.eqb_spec v 0) as [->|Hnz]; [done|].
  change (varint_size_loop 5 v 0) with
    (if v >? 0 then varint_size_loop 4 (Z.shiftr v 7) 1 else 0).
  destruct (Z.gtb_spec v 0); [|lia]. rewrite varint_size_loop_acc, shiftr_7.
  case_decide.
  - rewrite Z.div_small by lia. done.
  - destruct (Z.eqb_spec (v / 128) 0) as [E|E].
    + apply Z.div_small_iff in E; lia.
    + f_equal. symmetry. apply varint_size_loop_fuel; [|lia].
      split; [apply Z.div_pos; lia|]. apply Z.div_lt_upper_bound; simpl; lia.
Qed.

(** Induction along the groups of seven bits of a 32-bit value. *)
Lemma varint_ind (P : Z → Prop) :
  (∀ v, 0 ≤ v < 128 → P v) →
  (∀ v, in_uint 32 v → 128 ≤ v → in_uint 32 (v / 128) → P (v / 128) → P v) →
  ∀ v, in_uint 32 v → P v.
Proof.
  intros Hb Hs v. unfold in_uint. induction (Z.lt_wf 0 v) as [v _ IH]. intros Hv.
  destruct (decide (v < 128)); [apply Hb; lia|].
  assert (0 ≤ v / 128 < v) by (split; [apply Z.div_pos|apply Z.div_lt]; lia).
  apply Hs; unfold in_uint; [lia..|]. apply IH; lia.
Qed.

(** ** Sizes and ranges *)

Lemma varint_encoded_size_length v :
  in_uint 32 v → zlen (write_unsigned_varint v) = varint_encoded_size v.
Proof.
  revert v. apply varint_ind; intros v Hv.
  - rewrite write_unsigned_varint_step, varint_encoded_size_step by (unfold in_uint; lia).
    by rewrite !decide_True by lia.
  - intros Hge Hq IH.
    rewrite write_unsigned_varint_step, varint_encoded_size_step by done.
    by rewrite !decide_False, zlen_cons, IH by lia.
Qed.

Lemma varint_encoded_size_pos v : in_uint 32 v → 1 ≤ varint_encoded_size v.
Proof.
  revert v. apply varint_ind; intros v Hv; [|intros ? ? ?];
    rewrite varint_encoded_size_step by (unfold in_uint in *; lia); case_decide; lia.
Qed.

Lemma varint_encoded_size_le v n :
  0 ≤ n → in_uint 32 v → v < 2 ^ (7 * n) → varint_encoded_size v ≤ Z.max 1 n.
Proof.
  intros Hn Hv. revert v Hv n Hn.
  apply (varint_ind (λ v, ∀ n, 0 ≤ n → v < 2 ^ (7 * n) → varint_encoded_size v ≤ Z.max 1 n)).
  - intros v Hv n Hn _. rewrite varint_encoded_size_step by (unfold in_uint; lia).
    rewrite decide_True by lia. lia.
  - intros v Hv Hge Hq IH n Hn Hlt. rewrite varint_encoded_size_step by done.
    rewrite decide_False by lia.
    assert (1 < n).
    { destruct (decide (n ≤ 1)); [|lia].
      assert (2 ^ (7 * n) ≤ 2 ^ 7) by (apply Z.pow_le_mono_r; lia). lia. }
    assert (v / 128 < 2 ^ (7 * (n - 1))).
    { apply Z.div_lt_upper_bound; [lia|].
      replace (7 * n) with (7 + 7 * (n - 1)) in Hlt by lia.
      rewrite Z.pow_add_r in Hlt by lia. done. }
    specialize (IH (n - 1)). lia.
Qed.

Lemma write_unsigned_varint_bytes_ok v : in_uint 32 v → bytes_ok (write_unsigned_varint v).
Proof.
  revert v. apply varint_ind; intros v Hv.
  - rewrite write_unsigned_varint_step by (unfold in_uint; lia). rewrite decide_True by lia.
    apply Forall_singleton. unfold byte_ok, in_uint. lia.
  - intros Hge Hq IH. rewrite write_unsigned_varint_step by done. rewrite decide_False by lia.
    constructor; [|done]. unfold byte_ok, in_uint.
    pose proof (Z.mod_pos_bound v 128 eq_refl). lia.
Qed.

(** ** Round trip *)

Lemma land_128_low b : 0 ≤ b < 128 → Z.land b 128 = 0.
Proof.
  intros Hb. change 128 with (2 ^ 7). apply Z.bits_inj'. intros i Hi.
  rewrite Z.land_spec, Z.bits_0, Z.pow2_bits_eqb by lia.
  destruct (Z.eqb_spec 7 i) as [<-|]; [|apply andb_false_r].
  rewrite <-(Z.mod_small b (2 ^ 7)), Z.mod_pow2_bits_high by lia. done.
Qed.

Lemma land_128_high b : 0 ≤ b < 128 → Z.land (b + 128) 128 = 128.
Proof.
  intros Hb. replace (b + 128) with (Z.lor b (Z.shiftl 1 7))
    by (rewrite lor_shiftl_add by lia; lia).
  rewrite Z.land_lor_distr_l, land_128_low by done. done.
Qed.

(** One iteration of the read loop, in arithmetic form; the [k]-th group is
    added at weight [2^(7k)]. *)
Lemma read_varint_loop_cons b rest acc k :
  0 ≤ k ≤ 3 → 0 ≤ acc < 2 ^ (7 * k) →
  read_varint_loop (b :: rest) acc (7 * k) =
    (if Z.land b 128 =? 0 then Ok (acc + b mod 128 * 2 ^ (7 * k))
     else read_varint_loop rest (acc + b mod 128 * 2 ^ (7 * k)) (7 * (k + 1))) ∧
  0 ≤ acc + b mod 128 * 2 ^ (7 * k) < 2 ^ (7 * (k + 1)).
Proof.
  intros Hk Hacc. pose proof (Z.mod_pos_bound b 128 eq_refl) as Hb.
  assert (Hp : 2 ^ (7 * (k + 1)) = 128 * 2 ^ (7 * k))
    by (replace (7 * (k + 1)) with (7 + 7 * k) by lia; by rewrite Z.pow_add_r by lia).
  assert (2 ^ (7 * k) ≤ 2 ^ 21) by (apply Z.pow_le_mono_r; lia).
  split; [|nia].
  cbn [read_varint_loop]. destruct (Z.geb_spec (7 * k) 28); [lia|].
  rewrite land_127, wrap_uint_small, lor_shiftl_add by
    (first [lia | rewrite Z.shiftl_mul_pow2 by lia; unfold in_uint; nia]).
  by replace (7 * k + 7) with (7 * (k + 1)) by lia.
Qed.

Lemma read_varint_loop_write v : in_uint 32 v → ∀ rest acc k,
  0 ≤ k ≤ 3 → 0 ≤ acc < 2 ^ (7 * k) → v < 2 ^ (7 * (4 - k)) →
  read_varint_loop (write_unsigned_varint v ++ rest) acc (7 * k) = Ok (acc + v * 2 ^ (7 * k)).
Proof.
  revert v. apply (varint_ind (λ v, ∀ rest acc k,
    0 ≤ k ≤ 3 → 0 ≤ acc < 2 ^ (7 * k) → v < 2 ^ (7 * (4 - k)) → _)).
  - intros v Hv rest acc k Hk Hacc Hlt.
    rewrite write_unsigned_varint_step by (unfold in_uint; lia). rewrite decide_True by lia.
    cbn [app]. destruct (read_varint_loop_cons v rest acc k Hk Hacc) as [-> _].
    rewrite land_128_low, Z.mod_small by done. done.
  - intros v Hv Hge Hq IH rest acc k Hk Hacc Hlt.
    rewrite write_unsigned_varint_step by done. rewrite decide_False by lia. cbn [app].
    pose proof (Z.mod_pos_bound v 128 eq_refl) as Hm.
    destruct (read_varint_loop_cons (v mod 128 + 128)
      (write_unsigned_varint (v / 128) ++ rest) acc k Hk Hacc) as [-> Hb].
    rewrite land_128_high by done. cbn [Z.eqb].
    rewrite <-Z.add_mod_idemp_r, Z_mod_same_full, Z.add_0_r, Z.mod_mod in * by lia.
    assert (k < 3).
    { destruct (decide (k = 3)) as [->|]; [|lia]. change (2 ^ (7 * (4 - 3))) with 128 in Hlt. lia. }
    rewrite IH; [|lia|done|].
    + f_equal. replace (7 * (k + 1)) with (7 + 7 * k) by lia. rewrite Z.pow_add_r by lia.
      rewrite (Z.div_mod v 128) at 3 by lia. lia.
    + apply Z.div_lt_upper_bound; [lia|].
      replace (7 * (4 - k)) with (7 + 7 * (4 - (k + 1))) in Hlt by lia.
      by rewrite Z.pow_add_r in Hlt by lia.
Qed.

(** Values below [2^28] are read back. *)
Lemma read_write_unsigned_varint v rest :
  0 ≤ v < 2 ^ 28 → read_unsigned_varint (write_unsigned_varint v ++ rest) = Ok v.
Proof.
  intros Hv. unfold read_unsigned_varint.
  rewrite (read_varint_loop_write v) with (k := 0); [f_equal|..]; try (unfold in_uint); lia.
Qed.

(** A five-byte encoding is rejected: the fifth byte is read at shift 28. *)
Lemma read_varint_loop_write_large v : in_uint 32 v → ∀ rest acc k,
  0 ≤ k ≤ 4 → 0 ≤ acc < 2 ^ (7 * k) → 2 ^ (7 * (4 - k)) ≤ v →
  read_varint_loop (write_unsigned_varint v ++ rest) acc (7 * k) = Err message_size.
Proof.
  revert v. apply (varint_ind (λ v, ∀ rest acc k,
    0 ≤ k ≤ 4 → 0 ≤ acc < 2 ^ (7 * k) → 2 ^ (7 * (4 - k)) ≤ v → _)).
  - intros v Hv rest acc k Hk Hacc Hlt.
    assert (k = 4) as ->.
    { destruct (decide (k = 4)); [done|].
      assert (2 ^ 7 ≤ 2 ^ (7 * (4 - k))) by (apply Z.pow_le_mono_r; lia). lia. }
    rewrite write_unsigned_varint_step by (unfold in_uint; lia). by rewrite decide_True by lia.
  - intros v Hv Hge Hq IH rest acc k Hk Hacc Hlt.
    rewrite write_unsigned_varint_step by done. rewrite decide_False by lia. cbn [app].
    destruct (decide (k = 4)) as [->|Hk4]; [done|].
    pose proof (Z.mod_pos_bound v 128 eq_refl) as Hm.
    destruct (read_varint_loop_cons (v mod 128 + 128)
      (write_unsigned_varint (v / 128) ++ rest) acc k ltac:(lia) Hacc) as [-> Hb].
    rewrite land_128_high by done. cbn [Z.eqb]. apply IH; [lia|done|].
    apply Z.div_le_lower_bound; [lia|].
    replace (7 * (4 - k)) with (7 + 7 * (4 - (k + 1))) in Hlt by lia.
    by rewrite Z.pow_add_r in Hlt by lia.
Qed.

(** ** What a successful read says *)

Lemma read_varint_loop_spec buf : ∀ acc k v,
  0 ≤ k ≤ 4 → 0 ≤ acc < 2 ^ (7 * k) → read_varint_loop buf acc (7 * k) = Ok v →
  ∃ n, k < n ≤ 4 ∧ n - k ≤ zlen buf ∧ 0 ≤ v < 2 ^ (7 * n).
Proof.
  induction buf as [|b buf IH]; intros acc k v Hk Hacc E; [done|].
  destruct (decide (k = 4)) as [->|Hk4]; [done|].
  destruct (read_varint_loop_cons b buf acc k ltac:(lia) Hacc) as [E' Hb].
  rewrite E' in E. destruct (Z.land b 128 =? 0).
  - simplify_eq. exists (k + 1). zlia.
  - apply IH in E as (n & Hn & Hl & Hv); [|lia|done]. exists n. zlia.
Qed.

Lemma read_unsigned_varint_range buf v : read_unsigned_varint buf = Ok v → 0 ≤ v < 2 ^ 28.
Proof.
  intros E. apply (read_varint_loop_spec buf 0 0) in E as (n & Hn & _ & Hv); [|lia..].
  assert (2 ^ (7 * n) ≤ 2 ^ 28) by (apply Z.pow_le_mono_r; lia). lia.
Qed.

Lemma read_unsigned_varint_in_uint buf v : read_unsigned_varint buf = Ok v → in_uint 32 v.
Proof. intros E%read_unsigned_varint_range. unfold in_uint. lia. Qed.

(** The canonical size never exceeds what the input holds, so a reader that
    advances by it stays inside its span. *)
Lemma read_unsigned_varint_size buf v :
  read_unsigned_varint buf = Ok v → 1 ≤ varint_encoded_size v ≤ zlen buf.
Proof.
  intros E. pose proof (read_unsigned_varint_in_uint _ _ E) as Hu.
  split; [by apply varint_encoded_size_pos|].
  apply (read_varint_loop_spec buf 0 0) in E as (n & Hn & Hl & Hv); [|lia..].
  pose proof (varint_encoded_size_le v n ltac:(lia) Hu ltac:(lia)). lia.
Qed.

(** The first read error is always [message_size]. *)
Lemma read_varint_loop_fail buf : ∀ acc shift,
  match read_varint_loop buf acc shift with Ok _ => True | r => r = Err message_size end.
Proof.
  induction buf as [|b buf IH]; intros acc shift; [done|]. cbn [read_varint_loop].
  destruct (shift >=? 28); [done|]. destruct (Z.land b 128 =? 0); [done|]. apply IH.
Qed.

(** ** Zigzag *)

Lemma lxor_ones_32 x : in_uint 32 x → Z.lxor x (2 ^ 32 - 1) = 2 ^ 32 - 1 - x.
Proof.
  intros Hx. change (2 ^ 32 - 1) with (Z.ones 32).
  assert (E : Z.ldiff x (Z.ones 32) = 0).
  { rewrite Z.ldiff_ones_r by lia. unfold in_uint in Hx.
    by rewrite Z.shiftr_div_pow2, Z.div_small by lia. }
  rewrite Z.sub_nocarry_ldiff by done. apply Z.bits_inj'. intros i Hi.
  apply (f_equal (λ z, Z.testbit z i)) in E. rewrite Z.ldiff_spec, Z.bits_0 in E.
  rewrite Z.lxor_spec, Z.ldiff_spec. destruct (Z.testbit x i), (Z.testbit (Z.ones 32) i); done.
Qed.

Lemma shiftr_31 v : in_int 32 v → Z.shiftr v 31 = if decide (0 ≤ v) then 0 else -1.
Proof.
  unfold in_int. intros Hv. rewrite Z.shiftr_div_pow2 by lia. case_decide.
  - apply Z.div_small. lia.
  - symmetry. apply (Z.div_unique _ _ _ (v + 2 ^ 31)); lia.
Qed.

Lemma zigzag_encode_spec v :
  in_int 32 v → zigzag_encode v = if decide (0 ≤ v) then 2 * v else - 2 * v - 1.
Proof.
  intros Hv. unfold zigzag_encode. rewrite shiftr_31 by done.
  unfold in_int in Hv. unfold wrap_uint. rewrite Z.shiftl_mul_pow2 by lia. case_decide.
  - rewrite (Z.mod_small v), (Z.mod_small 0), Z.lxor_0_r, Z.mod_small by lia. lia.
  - change (-1 mod 2 ^ 32) with (2 ^ 32 - 1).
    assert (E : v mod 2 ^ 32 * 2 ^ 1 mod 2 ^ 32 = 2 ^ 32 + 2 * v).
    { symmetry. replace (v mod 2 ^ 32) with (v + 2 ^ 32)
        by (apply (Z.mod_unique _ _ (-1)); lia).
      apply (Z.mod_unique _ _ 1); lia. }
    rewrite E, lxor_ones_32 by (unfold in_uint; lia). lia.
Qed.

Lemma zigzag_encode_range v : in_int 32 v → in_uint 32 (zigzag_encode v).
Proof. intros Hv. rewrite zigzag_encode_spec by done. unfold in_int, in_uint in *. case_decide; lia. Qed.

Lemma zigzag_decode_spec e :
  in_uint 32 e → zigzag_decode e = if decide (e mod 2 = 0) then e / 2 else - (e / 2) - 1.
Proof.
  intros He. unfold zigzag_decode, in_uint in *.
  change (Z.land e 1) with (Z.land e (Z.ones 1)). rewrite Z.land_ones by lia.
  change (2 ^ 1) with 2. rewrite Z.shiftr_div_pow2 by lia. change (2 ^ 1) with 2.
  assert (0 ≤ e / 2 < 2 ^ 31) by (split; [apply Z.div_pos|apply Z.div_lt_upper_bound]; lia).
  pose proof (Z.mod_pos_bound e 2 eq_refl).
  rewrite !wrap_int_small by (unfold in_int; lia). case_decide as E.
  - rewrite E. change (-0) with 0. apply Z.lxor_0_r.
  - replace (e mod 2) with 1 by lia. change (- (1)) with (-1).
    rewrite Z.lxor_m1_r. unfold Z.lnot. lia.
Qed.

Lemma zigzag_decode_range e : in_uint 32 e → in_int 32 (zigzag_decode e).
Proof.
  intros He. rewrite zigzag_decode_spec by done. unfold in_uint, in_int in *.
  assert (0 ≤ e / 2 < 2 ^ 31) by (split; [apply Z.div_pos|apply Z.div_lt_upper_bound]; lia).
  case_decide; lia.
Qed.

Lemma zigzag_decode_encode v : in_int 32 v → zigzag_decode (zigzag_encode v) = v.
Proof.
  intros Hv. rewrite zigzag_decode_spec, zigzag_encode_spec by auto using zigzag_encode_range.
  destruct (decide (0 ≤ v)).
  - replace (2 * v) with (0 + v * 2) by lia. rewrite Z.mod_add, Z.div_add by lia.
    rewrite decide_True by done. change (0 / 2) with 0. lia.
  - replace (-2 * v - 1) with (1 + (- v - 1) * 2) by lia. rewrite Z.mod_add, Z.div_add by lia.
    rewrite decide_False by done. change (1 / 2) with 0. lia.
Qed.

Lemma zigzag_encode_decode e : in_uint 32 e → zigzag_encode (zigzag_decode e) = e.
Proof.
  intros He. rewrite zigzag_encode_spec, zigzag_decode_spec by auto using zigzag_decode_range.
  unfold in_uint in He. pose proof (Z.div_mod e 2 ltac:(lia)) as Hdm.
  pose proof (Z.mod_pos_bound e 2 eq_refl). assert (0 ≤ e / 2) by (apply Z.div_pos; lia).
  case_decide; case_decide; lia.
Qed.

Lemma read_write_signed_varint v rest :
  - 2 ^ 27 ≤ v < 2 ^ 27 → read_signed_varint (write_signed_varint v ++ rest) = Ok v.
Proof.
  intros Hv. assert (in_int 32 v) by (unfold in_int; lia).
  unfold read_signed_varint, write_signed_varint.
  rewrite read_write_unsigned_varint.
  - simpl. by rewrite zigzag_decode_encode.
  - rewrite zigzag_encode_spec by done. case_decide; lia.
Qed.

Lemma read_signed_varint_size buf v :
  read_signed_varint buf = Ok v →
  in_int 32 v ∧ 1 ≤ signed_varint_encoded_size v ≤ zlen buf.
Proof.
  unfold read_signed_varint. intros (e & E & ?)%outcome_bind_Ok. simplify_eq.
  pose proof (read_unsigned_varint_in_uint _ _ E).
  split; [by apply zigzag_decode_range|].
  unfold signed_varint_encoded_size. rewrite zigzag_encode_decode by done.
  by apply read_unsigned_varint_size.
Qed.

Lemma signed_varint_size_length v :
  in_int 32 v → zlen (write_signed_varint v) = signed_varint_encoded_size v.
Proof. intros. apply varint_encoded_size_length. by apply zigzag_encode_range. Qed.

(** ** Compact strings *)

Lemma read_compact_string_write s rest :
  zlen s < 2 ^ 28 - 1 →
  read_compact_string (write_unsigned_varint (zlen s + 1) ++ s ++ rest) = Ok s.
Proof.
  intros Hs. pose proof (zlen_nonneg s) as H0.
  assert (Hu : in_uint 32 (zlen s + 1)) by (unfold in_uint; lia).
  unfold read_compact_string.
  destruct (write_unsigned_varint (zlen s + 1) ++ s ++ rest) eqn:E.
  - apply (f_equal zlen) in E. rewrite zlen_app, varint_encoded_size_length in E by done.
    pose proof (varint_encoded_size_pos _ Hu). zlia.
  - rewrite <-E. clear E. rewrite read_write_unsigned_varint by lia. simpl.
    destruct (Z.ltb_spec (zlen s + 1) 1); [lia|].
    rewrite <-varint_encoded_size_length by done.
    destruct (Z.ltb_spec (zlen (write_unsigned_varint (zlen s + 1) ++ s ++ rest))
      (zlen (write_unsigned_varint (zlen s + 1)) + (zlen s + 1 - 1))) as [Hl|Hl]; [zlia|].
    rewrite zdrop_app. replace (zlen s + 1 - 1) with (zlen s) by lia. by rewrite ztake_app.
Qed.

(** The string that is read, re-measured, is what the input holds. *)
Lemma read_compact_string_size buf s :
  read_compact_string buf = Ok s →
  0 ≤ zlen s < 2 ^ 28 - 1 ∧
  1 ≤ varint_encoded_size (zlen s + 1) ∧
  varint_encoded_size (zlen s + 1) + zlen s ≤ zlen buf ∧
  s = ztake (zlen s) (zdrop (varint_encoded_size (zlen s + 1)) buf).
Proof.
  unfold read_compact_string. destruct buf as [|b buf]; [done|].
  set (bs := b :: buf). clearbody bs. clear b buf.
  intros (len & E & H)%outcome_bind_Ok.
  destruct (Z.ltb_spec len 1); [done|].
  destruct (Z.ltb_spec (zlen bs) (varint_encoded_size len + (len - 1))); [done|].
  pose proof (read_unsigned_varint_size _ _ E). pose proof (read_unsigned_varint_range _ _ E).
  injection H as <-. pose proof (zlen_nonneg bs).
  assert (Hz : zlen (ztake (len - 1) (zdrop (varint_encoded_size len) bs)) = len - 1).
  { rewrite zlen_ztake; [lia|]. rewrite zlen_zdrop by lia. lia. }
  rewrite Hz. replace (len - 1 + 1) with len by lia. repeat split; lia.
Qed.

Lemma read_compact_string_fail buf :
  match read_compact_string buf with Ok _ => True | r => r = Err message_size end.
Proof.
  unfold read_compact_string. destruct buf as [|b buf]; [done|].
  pose proof (read_varint_loop_fail (b :: buf) 0 0) as H. unfold read_unsigned_varint.
  destruct (read_varint_loop (b :: buf) 0 0); simplify_eq/=; [|done].
  destruct (a <? 1); [done|]. by destruct (_ <? _).
Qed.
