(* ===== verification/ByteReader.v ===== *)
(** * The input cursor (src/src/util/byte_reader.hpp)

    [ByteReader] is a span with an offset.  Every operation is a state
    transformer that returns the outcome together with the reader afterwards;
    the reader afterwards matters also on errors, since some callers carry on
    after a failed read.  The second half of the file is the reasoning layer
    shared by all parsers: a Hoare-style judgement [safe] and a round-trip
    judgement [parses], each with one rule per operation. *)

From S2P Require Import Prelude Endian Varint.

Record ByteReader := mkReader { data_ : bytes; offset_ : Z }.

Definition reader (A : Type) : Type := ByteReader → outcome A * ByteReader.

#[export] Instance reader_ret : MRet reader := λ A a r, (Ok a, r).
#[export] Instance reader_bind : MBind reader := λ A B k m r,
  match m r with
  | (Ok a, r') => k a r'
  | (Err e, r') => (Err e, r')
  | (Fault f, r') => (Fault f, r')
  end.

(** [return std::unexpected(e)], and behaviour outside [std::expected]. *)
Definition failed {A} (e : errc) : reader A := λ r, (Err e, r).
Definition faulty {A} (f : fault) : reader A := λ r, (Fault f, r).
Definition lift {A} (o : outcome A) : reader A := λ r, (o, r).

Definition remaining (r : ByteReader) : Z := zlen (data_ r) - offset_ r.
Definition offset (r : ByteReader) : Z := offset_ r.

(** [offset_ += n] *)
Definition advance (n : Z) (r : ByteReader) : ByteReader := mkReader (data_ r) (offset_ r + n).
(** [data_.subspan(offset_, n)] *)
Definition view (n : Z) (r : ByteReader) : bytes := ztake n (zdrop (offset_ r) (data_ r)).

Definition read_int8 : reader Z := λ r,
  if remaining r <? 1 then (Err message_size, r)
  else (Ok (byte_at (view 1 r) 0), advance 1 r).

Definition read_int16 : reader Z := λ r,
  if remaining r <? 2 then (Err message_size, r)
  else (Ok (decode_int16_be (view 2 r)), advance 2 r).

Definition read_int32 : reader Z := λ r,
  if remaining r <? 4 then (Err message_size, r)
  else (Ok (decode_int32_be (view 4 r)), advance 4 r).

Definition read_int64 : reader Z := λ r,
  if remaining r <? 8 then (Err message_size, r)
  else (Ok (decode_int64_be (view 8 r)), advance 8 r).

Definition read_bytes (n : Z) : reader bytes := λ r,
  if remaining r <? n then (Err message_size, r)
  else (Ok (view n r), advance n r).

(** The reader advances by the size of the canonical encoding of the value. *)
Definition read_varint : reader Z := λ r,
  match read_unsigned_varint (zdrop (offset_ r) (data_ r)) with
  | Ok v => (Ok v, advance (varint_encoded_size v) r)
  | o => (o, r)
  end.

Definition read_compact_string : reader bytes := λ r,
  match Varint.read_compact_string (zdrop (offset_ r) (data_ r)) with
  | Ok sv =>
      let consumed := varint_encoded_size (wrap_uint 32 (wrap_uint 32 (zlen sv) + 1)) + zlen sv in
      (Ok sv, advance consumed r)
  | o => (o, r)
  end.

Definition skip (n : Z) : reader unit := λ r,
  if remaining r <? n then (Err message_size, r) else (Ok tt, advance n r).

Definition read_signed_varint : reader Z := λ r,
  match Varint.read_signed_varint (zdrop (offset_ r) (data_ r)) with
  | Ok v => (Ok v, advance (signed_varint_encoded_size v) r)
  | o => (o, r)
  end.

Definition skip_varint : reader unit := λ r,
  match read_unsigned_varint (zdrop (offset_ r) (data_ r)) with
  | Ok v => (Ok tt, advance (varint_encoded_size v) r)
  | Err e => (Err e, r)
  | Fault f => (Fault f, r)
  end.

(** [for (i = 0; i < n; ++i) body], leaving the loop on the first error.  The
    recursion follows the binary digits of the count, so that a huge count in
    a short message is still cheap to evaluate; [for_count_rloop] relates it to
    the loop that counts. *)
Fixpoint rloop_pos {A} (p : positive) (body : A → reader A) (a : A) : reader A :=
  match p with
  | xH => body a
  | xO q => a1 ← rloop_pos q body a; rloop_pos q body a1
  | xI q => a1 ← body a; a2 ← rloop_pos q body a1; rloop_pos q body a2
  end.

Definition for_count {A} (n : Z) (body : A → reader A) (a : A) : reader A :=
  match n with
  | Zpos p => rloop_pos p body a
  | _ => mret a
  end.

Fixpoint rloop {A} (n : nat) (body : A → reader A) (a : A) : reader A :=
  match n with
  | O => mret a
  | S n' => a1 ← body a; rloop n' body a1
  end.

(** ** Loops *)

Lemma rloop_add {A} n m (body : A → reader A) a r :
  rloop (n + m) body a r = (a1 ← rloop n body a; rloop m body a1) r.
Proof.
  revert a r. induction n as [|n IH]; intros a r; [done|].
  simpl. unfold mbind, reader_bind. destruct (body a r) as [[a1|e|f] r1]; [apply IH|done..].
Qed.

Lemma rloop_pos_rloop {A} p (body : A → reader A) a r :
  rloop_pos p body a r = rloop (Pos.to_nat p) body a r.
Proof.
  revert a r. induction p as [q IH|q IH|]; intros a r; cbn [rloop_pos].
  - replace (Pos.to_nat q~1) with (S (Pos.to_nat q + Pos.to_nat q)) by lia.
    cbn [rloop]. unfold mbind at 1 3, reader_bind at 1 3.
    destruct (body a r) as [[a1|e|f] r1]; [|done..].
    rewrite rloop_add. unfold mbind, reader_bind. rewrite IH.
    destruct (rloop _ _ a1 r1) as [[a2|e|f] r2]; [apply IH|done..].
  - replace (Pos.to_nat q~0) with (Pos.to_nat q + Pos.to_nat q)%nat by lia.
    rewrite rloop_add. unfold mbind, reader_bind. rewrite IH.
    destruct (rloop _ _ a r) as [[a1|e|f] r1]; [apply IH|done..].
  - change (Pos.to_nat 1) with 1%nat. cbn [rloop]. unfold mbind, reader_bind.
    by destruct (body a r) as [[a1|e|f] r1].
Qed.

Lemma for_count_rloop {A} n (body : A → reader A) a r :
  for_count n body a r = rloop (Z.to_nat n) body a r.
Proof. destruct n as [|p|p]; [done|apply rloop_pos_rloop|done]. Qed.

(** ** Safety

    A reader is well formed when its offset lies inside its span.  [safe F m Q]
    says that from a well-formed reader, [m] only ever leaves a well-formed
    reader over the same span that has not moved backwards, that a result
    satisfies [Q], that an error is [message_size], and that a fault is one
    of [F]. *)
Definition reader_ok (r : ByteReader) : Prop := 0 ≤ offset_ r ≤ zlen (data_ r).

Definition moves (r r' : ByteReader) : Prop :=
  data_ r' = data_ r ∧ offset_ r ≤ offset_ r' ∧ reader_ok r'.

Definition safe {A} (F : fault → Prop) (m : reader A) (Q : A → Prop) : Prop :=
  ∀ r, reader_ok r → bytes_ok (data_ r) →
  moves r (m r).2 ∧
  match (m r).1 with
  | Ok a => Q a
  | Err e => e = message_size
  | Fault f => F f
  end.

Abbreviation no_fault := (λ _ : fault, False).

Lemma moves_refl r : reader_ok r → moves r r.
Proof. unfold moves. auto with lia. Qed.

Lemma moves_trans r1 r2 r3 : moves r1 r2 → moves r2 r3 → moves r1 r3.
Proof. unfold moves. intros (? & ? & ?) (? & ? & ?). split_and!; [congruence|lia|done]. Qed.

Lemma moves_advance n r : reader_ok r → 0 ≤ n ≤ remaining r → moves r (advance n r).
Proof. unfold moves, reader_ok, remaining, advance. simpl. intros. split_and!; [done|lia..]. Qed.

Lemma safe_ret {A} F (a : A) (Q : A → Prop) : Q a → safe F (mret a) Q.
Proof. intros Ha r Hr _. split; [by apply moves_refl|done]. Qed.

Lemma safe_bind {A B} F (m : reader A) (k : A → reader B) Q R :
  safe F m Q → (∀ a, Q a → safe F (k a) R) → safe F (m ≫= k) R.
Proof.
  intros Hm Hk r Hr Hb. destruct (Hm r Hr Hb) as [Hmv Hq].
  unfold mbind, reader_bind. destruct (m r) as [[a|e|f] r1]; simpl in *; [|done..].
  destruct Hmv as (Hd & Ho & Hr1).
  destruct (Hk a Hq r1 Hr1) as [Hmv2 HR]; [by rewrite Hd|].
  split; [|done]. eapply moves_trans; [|done]. done.
Qed.

Lemma safe_weaken {A} F (m : reader A) (P Q : A → Prop) :
  safe F m P → (∀ a, P a → Q a) → safe F m Q.
Proof.
  intros Hm HPQ r Hr Hb. destruct (Hm r Hr Hb) as [Hmv Hp]. split; [done|].
  destruct (m r).1; auto.
Qed.

(** Loop rule with an invariant indexed by the number of iterations done. *)
Lemma safe_rloop {A} F n (body : A → reader A) (I : nat → A → Prop) i a :
  (∀ j b, I j b → safe F (body b) (I (S j))) →
  I i a → safe F (rloop n body a) (I (i + n)%nat).
Proof.
  intros Hb. revert i a. induction n as [|n IH]; intros i a Ha.
  - rewrite Nat.add_0_r. by apply safe_ret.
  - cbn [rloop]. eapply safe_bind; [by apply Hb|]. intros a1 Ha1.
    rewrite Nat.add_succ_r. by apply (IH (S i)).
Qed.

Lemma safe_ext {A} F (m m' : reader A) Q : (∀ r, m' r = m r) → safe F m Q → safe F m' Q.
Proof. intros E Hm r Hr Hb. rewrite E. by apply Hm. Qed.

Lemma safe_for_count {A} F n (body : A → reader A) (I : nat → A → Prop) a :
  (∀ j b, I j b → safe F (body b) (I (S j))) →
  I 0%nat a → safe F (for_count n body a) (I (Z.to_nat n)).
Proof.
  intros Hb Ha. eapply safe_ext; [intros r; apply for_count_rloop|].
  by apply (safe_rloop F _ _ I 0%nat).
Qed.

(** Bytes of a view come from the span. *)
Lemma view_bytes_ok n r : bytes_ok (data_ r) → bytes_ok (view n r).
Proof. intros. by apply Forall_take, Forall_drop. Qed.

Lemma view_length n r : reader_ok r → 0 ≤ n ≤ remaining r → zlen (view n r) = n.
Proof.
  unfold reader_ok, remaining, view. intros. rewrite zlen_ztake; [done|].
  rewrite zlen_zdrop by lia. lia.
Qed.

(** A view of known size is a list of known bytes. *)
Lemma zlen_S_inv {A} n (l : list A) : 0 ≤ n → zlen l = 1 + n → ∃ x l', l = x :: l' ∧ zlen l' = n.
Proof. destruct l as [|x l]; intros; zlen_simpl; [lia|]. exists x, l. split; [done|lia]. Qed.

(** One rule per operation. *)
Lemma safe_read_guard {A} F n (f : bytes → A) Q :
  0 ≤ n → (∀ bs, bytes_ok bs → zlen bs = n → Q (f bs)) →
  safe F (λ r, if remaining r <? n then (Err message_size, r) else (Ok (f (view n r)), advance n r)) Q.
Proof.
  intros Hn HQ r Hr Hb. destruct (Z.ltb_spec (remaining r) n) as [Hl|Hl]; simpl.
  - split; [by apply moves_refl|done].
  - split; [by apply moves_advance|]. apply HQ; [by apply view_bytes_ok|].
    apply view_length; [done|lia].
Qed.

Lemma safe_read_int8 F : safe F read_int8 byte_ok.
Proof.
  apply (safe_read_guard F 1 (λ bs, byte_at bs 0)); [lia|].
  intros bs Hb Hl. destruct bs as [|b bs]; [done|]. by inversion_clear Hb.
Qed.

(** Reading a fixed-width integer yields a value of that width. *)
Lemma safe_read_int16 F : safe F read_int16 (in_int 16).
Proof.
  apply (safe_read_guard F 2 decode_int16_be); [lia|].
  intros bs _ _. by apply wrap_int_range.
Qed.

Lemma be_bytes4 (bs : bytes) : zlen bs = 4 → ∃ a b c d, bs = [a; b; c; d].
Proof.
  intros (a & t & -> & H)%(zlen_S_inv 3); [|lia].
  apply (zlen_S_inv 2) in H as (b & t2 & -> & H); [|lia].
  apply (zlen_S_inv 1) in H as (c & t3 & -> & H); [|lia].
  apply (zlen_S_inv 0) in H as (d & t4 & -> & H); [|lia].
  apply zlen_0_nil in H as ->. eauto.
Qed.

Lemma be_bytes8 (bs : bytes) : zlen bs = 8 → ∃ a b c d e f g h, bs = [a; b; c; d; e; f; g; h].
Proof.
  intros (a & t & -> & H)%(zlen_S_inv 7); [|lia].
  apply (zlen_S_inv 6) in H as (b & t2 & -> & H); [|lia].
  apply (zlen_S_inv 5) in H as (c & t3 & -> & H); [|lia].
  apply (zlen_S_inv 4) in H as (d & t4 & -> & H); [|lia].
  apply be_bytes4 in H as (e & f & g & h & ->). naive_solver.
Qed.

Lemma safe_read_int32 F : safe F read_int32 (in_int 32).
Proof.
  apply (safe_read_guard F 4 decode_int32_be); [lia|].
  intros bs Hb (a & b & c & d & ->)%be_bytes4.
  rewrite decode_int32_be_spec by done. by apply wrap_int_range.
Qed.

Lemma safe_read_int64 F : safe F read_int64 (in_int 64).
Proof.
  apply (safe_read_guard F 8 decode_int64_be); [lia|].
  intros bs Hb (a & b & c & d & e & f & g & h & ->)%be_bytes8.
  rewrite decode_int64_be_spec by done. by apply wrap_int_range.
Qed.

Lemma safe_read_bytes F n : 0 ≤ n → safe F (read_bytes n) (λ bs, bytes_ok bs ∧ zlen bs = n).
Proof. intros. by apply (safe_read_guard F n (λ bs, bs)). Qed.

Lemma safe_skip F n : 0 ≤ n → safe F (skip n) (λ _, True).
Proof. intros. by apply (safe_read_guard F n (λ _, tt)). Qed.

Lemma rest_length r : reader_ok r → zlen (zdrop (offset_ r) (data_ r)) = remaining r.
Proof. unfold reader_ok, remaining. intros. by rewrite zlen_zdrop by lia. Qed.

Lemma safe_read_varint F : safe F read_varint (λ v, 0 ≤ v < 2 ^ 28).
Proof.
  intros r Hr Hb. unfold read_varint.
  pose proof (read_varint_loop_fail (zdrop (offset_ r) (data_ r)) 0 0) as Hf.
  destruct (read_unsigned_varint _) as [v|e|f] eqn:E;
    unfold read_unsigned_varint in E; rewrite E in Hf; simplify_eq/=.
  - pose proof (read_unsigned_varint_size _ _ E) as Hs. rewrite rest_length in Hs by done.
    split; [apply moves_advance; [done|lia]|]. by eapply read_unsigned_varint_range.
  - split; [by apply moves_refl|done].
Qed.

Lemma safe_skip_varint F : safe F skip_varint (λ _, True).
Proof.
  eapply (safe_ext F (_ ← read_varint; mret tt)).
  - intros r. unfold skip_varint, read_varint, mbind, reader_bind.
    by destruct (read_unsigned_varint _).
  - eapply safe_bind; [apply safe_read_varint|]. intros. by apply safe_ret.
Qed.

Lemma safe_read_signed_varint F : safe F read_signed_varint (in_int 32).
Proof.
  intros r Hr Hb. unfold read_signed_varint.
  destruct (Varint.read_signed_varint _) as [v|e|f] eqn:E; simpl.
  - apply read_signed_varint_size in E as [Hi Hs]. rewrite rest_length in Hs by done.
    split; [apply moves_advance; [done|lia]|done].
  - split; [by apply moves_refl|].
    pose proof (read_varint_loop_fail (zdrop (offset_ r) (data_ r)) 0 0) as Hf.
    unfold Varint.read_signed_varint, read_unsigned_varint in E.
    destruct (read_varint_loop _ 0 0); by simplify_eq/=.
  - pose proof (read_varint_loop_fail (zdrop (offset_ r) (data_ r)) 0 0) as Hf.
    unfold Varint.read_signed_varint, read_unsigned_varint in E.
    destruct (read_varint_loop _ 0 0); by simplify_eq/=.
Qed.

(** A string as the parsers deliver it. *)
Definition string_ok (s : bytes) : Prop := bytes_ok s ∧ zlen s < 2 ^ 28 - 1.

Lemma compact_prefix (s : bytes) :
  zlen s < 2 ^ 28 - 1 → wrap_uint 32 (wrap_uint 32 (zlen s) + 1) = zlen s + 1.
Proof.
  intros. pose proof (zlen_nonneg s).
  rewrite (wrap_uint_small 32 (zlen s)), wrap_uint_small; unfold in_uint; lia.
Qed.

Lemma safe_read_compact_string F : safe F read_compact_string string_ok.
Proof.
  intros r Hr Hb. unfold read_compact_string.
  pose proof (read_compact_string_fail (zdrop (offset_ r) (data_ r))) as Hf.
  destruct (Varint.read_compact_string _) as [s|e|f] eqn:E; simplify_eq/=.
  - apply read_compact_string_size in E as (H1 & H2 & H3 & Hs).
    rewrite rest_length in H3 by done. rewrite compact_prefix by lia.
    split; [apply moves_advance; [done|lia]|]. split; [|lia].
    rewrite Hs. by apply Forall_take, Forall_drop, Forall_drop.
  - split; [by apply moves_refl|done].
Qed.

(** ** Round trips

    [parses m bs a]: wherever the bytes [bs] stand in the input, [m] started
    in front of them consumes exactly them and returns [a]. *)
Definition parses {A} (m : reader A) (bs : bytes) (a : A) : Prop :=
  ∀ pre post, m (mkReader (pre ++ bs ++ post) (zlen pre)) =
              (Ok a, mkReader (pre ++ bs ++ post) (zlen pre + zlen bs)).

Lemma parses_ret {A} (a : A) : parses (mret a) [] a.
Proof. intros pre post. change (zlen []) with 0. by rewrite Z.add_0_r. Qed.

Lemma parses_bind {A B} (m : reader A) (k : A → reader B) b1 b2 a b :
  parses m b1 a → parses (k a) b2 b → parses (m ≫= k) (b1 ++ b2) b.
Proof.
  intros Hm Hk pre post. unfold mbind, reader_bind.
  rewrite <-app_assoc, (Hm pre (b2 ++ post)).
  replace (pre ++ b1 ++ b2 ++ post) with ((pre ++ b1) ++ b2 ++ post) by (by rewrite <-app_assoc).
  rewrite <-zlen_app, (Hk (pre ++ b1) post), !zlen_app. do 2 f_equal. lia.
Qed.

(** A parse that ends a message needs no continuation. *)
Lemma parses_bind_ret {A B} (m : reader A) (k : A → reader B) bs a b :
  parses m bs a → parses (k a) [] b → parses (m ≫= k) bs b.
Proof. intros. rewrite <-(app_nil_r bs). by eapply parses_bind. Qed.

(** Counted loops that push one element per iteration. *)
Lemma parses_rloop {B} (body : list B → reader (list B)) (enc : B → bytes) (P : B → Prop)
    (xs acc : list B) :
  (∀ acc x, P x → parses (body acc) (enc x) (acc ++ [x])) →
  Forall P xs →
  parses (rloop (length xs) body acc) (concat (map enc xs)) (acc ++ xs).
Proof.
  intros Hb HP. revert acc. induction HP as [|x xs Hx HP IH]; intros acc.
  - rewrite app_nil_r. apply parses_ret.
  - replace (acc ++ x :: xs) with ((acc ++ [x]) ++ xs) by (by rewrite <-app_assoc).
    cbn [length rloop map concat]. eapply parses_bind; [by apply Hb|]. apply IH.
Qed.

Lemma parses_for_count {B} (body : list B → reader (list B)) (enc : B → bytes) (P : B → Prop)
    (xs : list B) n :
  n = zlen xs →
  (∀ acc x, P x → parses (body acc) (enc x) (acc ++ [x])) →
  Forall P xs →
  parses (for_count n body []) (concat (map enc xs)) xs.
Proof.
  intros -> Hb HP pre post. rewrite for_count_rloop. unfold zlen at 1. rewrite Nat2Z.id.
  by rewrite (parses_rloop body enc P xs [] Hb HP pre post).
Qed.

Lemma parses_guard {A} n (f : bytes → A) bs :
  zlen bs = n →
  parses (λ r, if remaining r <? n then (Err message_size, r)
               else (Ok (f (view n r)), advance n r)) bs (f bs).
Proof.
  intros <- pre post. unfold remaining, view, advance. simpl.
  destruct (Z.ltb_spec (zlen (pre ++ bs ++ post) - zlen pre) (zlen bs)); [zlia|].
  by rewrite zdrop_app, ztake_app.
Qed.

Lemma parses_int8 v : byte_ok v → parses read_int8 [v] v.
Proof. intros. by apply (parses_guard 1 (λ bs, byte_at bs 0)). Qed.

Lemma parses_int16 v : in_int 16 v → parses read_int16 (write_int16_be v) v.
Proof. intros Hv pre post. rewrite <-(decode_write_int16 v Hv) at 2. by apply (parses_guard 2). Qed.

Lemma parses_int32 v : in_int 32 v → parses read_int32 (write_int32_be v) v.
Proof. intros Hv pre post. rewrite <-(decode_write_int32 v Hv) at 2. by apply (parses_guard 4). Qed.

Lemma parses_int64 v : in_int 64 v → parses read_int64 (write_int64_be v) v.
Proof. intros Hv pre post. rewrite <-(decode_write_int64 v Hv) at 2. by apply (parses_guard 8). Qed.

Lemma parses_bytes bs n : n = zlen bs → parses (read_bytes n) bs bs.
Proof. intros ->. by apply (parses_guard (zlen bs) (λ bs, bs)). Qed.

Lemma parses_skip bs n : n = zlen bs → parses (skip n) bs tt.
Proof. intros ->. by apply (parses_guard (zlen bs) (λ _, tt)). Qed.

Lemma parses_varint v : 0 ≤ v < 2 ^ 28 → parses read_varint (write_unsigned_varint v) v.
Proof.
  intros Hv pre post. unfold read_varint. simpl.
  rewrite zdrop_app, read_write_unsigned_varint by done.
  rewrite varint_encoded_size_length by (unfold in_uint; lia). done.
Qed.

Lemma parses_signed_varint v :
  - 2 ^ 27 ≤ v < 2 ^ 27 → parses read_signed_varint (write_signed_varint v) v.
Proof.
  intros Hv pre post. unfold read_signed_varint. simpl.
  rewrite zdrop_app, read_write_signed_varint by done.
  rewrite signed_varint_size_length by (unfold in_int; lia). done.
Qed.

(** The wire form of a compact string. *)
Definition compact_string (s : bytes) : bytes := write_unsigned_varint (zlen s + 1) ++ s.

Lemma parses_compact_string s : zlen s < 2 ^ 28 - 1 → parses read_compact_string (compact_string s) s.
Proof.
  intros Hs pre post. unfold read_compact_string, compact_string, advance. simpl.
  rewrite zdrop_app, <-app_assoc, read_compact_string_write by done.
  pose proof (zlen_nonneg s). rewrite compact_prefix, !zlen_app by done.
  rewrite varint_encoded_size_length by (unfold in_uint; lia). done.
Qed.

(** Running a parser from the start of a buffer. *)
Definition run {A} (m : reader A) (buf : bytes) : outcome A := (m (mkReader buf 0)).1.

Lemma parses_run {A} (m : reader A) bs a post : parses m bs a → run m (bs ++ post) = Ok a.
Proof. intros Hm. specialize (Hm [] post). simpl in Hm.
  change (zlen []) with 0 in Hm. unfold run. by rewrite Hm. Qed.

Lemma safe_run {A} F (m : reader A) Q buf :
  safe F m Q → bytes_ok buf →
  match run m buf with Ok a => Q a | Err e => e = message_size | Fault f => F f end.
Proof.
  intros Hm Hb. unfold run. apply Hm; [|done].
  unfold reader_ok. simpl. pose proof (zlen_nonneg buf). lia.
Qed.
