(* ===== verification/Protocol.v ===== *)
(** * Requests and responses (src/src/protocol/request.hpp, response.hpp, api_registry.hpp)

    The C++ structs as records and the two [std::variant]s as inductive types.
    Field names carry a prefix for their struct, because record fields share
    one name space.  Integers are [Z]; the widths the structs declare are the
    predicates [request_typed] at the end of the file. *)

From S2P Require Import Prelude.

(** ** Requests *)

Record RequestHeader := mkRequestHeader {
  api_key : Z;
  api_version : Z;
  correlation_id : Z }.

Record ApiVersionsRequest := mkApiVersionsRequest { avr_header : RequestHeader }.

Record DescribeTopicPartitionsRequest := mkDescribeTopicPartitionsRequest {
  dtp_header : RequestHeader;
  dtp_topic_names : list bytes }.

Record FetchPartitionRequest := mkFetchPartitionRequest {
  fpr_partition_index : Z;
  fpr_fetch_offset : Z;
  fpr_max_bytes : Z }.

Record FetchTopicRequest := mkFetchTopicRequest {
  ftr_topic_id : bytes;
  ftr_partitions : list FetchPartitionRequest }.

Record FetchRequest := mkFetchRequest {
  fr_header : RequestHeader;
  fr_topics : list FetchTopicRequest;
  fr_max_bytes : Z }.

Record ProducePartitionRequest := mkProducePartitionRequest {
  ppr_partition_index : Z;
  ppr_records : bytes }.

Record ProduceTopicRequest := mkProduceTopicRequest {
  ptr_topic_name : bytes;
  ptr_partitions : list ProducePartitionRequest }.

Record ProduceRequest := mkProduceRequest {
  pr_header : RequestHeader;
  pr_topics : list ProduceTopicRequest }.

Record MetadataRequest := mkMetadataRequest {
  mr_header : RequestHeader;
  mr_topics : list bytes;
  mr_allow_auto_topic_creation : bool }.

Record ListOffsetsPartitionRequest := mkListOffsetsPartitionRequest {
  lopr_partition_index : Z;
  lopr_timestamp : Z }.

Record ListOffsetsTopicRequest := mkListOffsetsTopicRequest {
  lotr_topic_name : bytes;
  lotr_partitions : list ListOffsetsPartitionRequest }.

Record ListOffsetsRequest := mkListOffsetsRequest {
  lor_header : RequestHeader;
  lor_replica_id : Z;
  lor_isolation_level : Z;
  lor_topics : list ListOffsetsTopicRequest }.

Record FindCoordinatorRequest := mkFindCoordinatorRequest {
  fcr_header : RequestHeader;
  fcr_coordinator_key : bytes;
  fcr_key_type : Z }.

Record OffsetCommitPartitionRequest := mkOffsetCommitPartitionRequest {
  ocpr_partition_index : Z;
  ocpr_committed_offset : Z }.

Record OffsetCommitTopicRequest := mkOffsetCommitTopicRequest {
  octr_topic_name : bytes;
  octr_partitions : list OffsetCommitPartitionRequest }.

Record OffsetCommitRequest := mkOffsetCommitRequest {
  ocr_header : RequestHeader;
  ocr_group_id : bytes;
  ocr_member_id : bytes;
  ocr_generation_id : Z;
  ocr_topics : list OffsetCommitTopicRequest }.

Record OffsetFetchTopicRequest := mkOffsetFetchTopicRequest {
  oftr_topic_name : bytes;
  oftr_partition_indexes : list Z }.

Record OffsetFetchRequest := mkOffsetFetchRequest {
  ofr_header : RequestHeader;
  ofr_group_id : bytes;
  ofr_topics : list OffsetFetchTopicRequest }.

Record JoinGroupProtocol := mkJoinGroupProtocol {
  jgp_name : bytes;
  jgp_metadata : bytes }.

Record JoinGroupRequest := mkJoinGroupRequest {
  jgr_header : RequestHeader;
  jgr_group_id : bytes;
  jgr_session_timeout_ms : Z;
  jgr_member_id : bytes;
  jgr_protocol_type : bytes;
  jgr_protocols : list JoinGroupProtocol }.

Record SyncGroupAssignment := mkSyncGroupAssignment {
  sga_member_id : bytes;
  sga_assignment : bytes }.

Record SyncGroupRequest := mkSyncGroupRequest {
  sgr_header : RequestHeader;
  sgr_group_id : bytes;
  sgr_generation_id : Z;
  sgr_member_id : bytes;
  sgr_assignments : list SyncGroupAssignment }.

Record HeartbeatRequest := mkHeartbeatRequest {
  hbr_header : RequestHeader;
  hbr_group_id : bytes;
  hbr_generation_id : Z;
  hbr_member_id : bytes;
  hbr_group_instance_id : bytes }.

Record LeaveGroupRequest := mkLeaveGroupRequest {
  lgr_header : RequestHeader;
  lgr_group_id : bytes;
  lgr_member_id : bytes }.

(** [std::variant<...>] of the request structs, alternatives in order. *)
Inductive Request :=
| ReqApiVersions (r : ApiVersionsRequest)
| ReqDescribeTopicPartitions (r : DescribeTopicPartitionsRequest)
| ReqFetch (r : FetchRequest)
| ReqFindCoordinator (r : FindCoordinatorRequest)
| ReqHeartbeat (r : HeartbeatRequest)
| ReqJoinGroup (r : JoinGroupRequest)
| ReqLeaveGroup (r : LeaveGroupRequest)
| ReqListOffsets (r : ListOffsetsRequest)
| ReqMetadata (r : MetadataRequest)
| ReqOffsetCommit (r : OffsetCommitRequest)
| ReqOffsetFetch (r : OffsetFetchRequest)
| ReqProduce (r : ProduceRequest)
| ReqSyncGroup (r : SyncGroupRequest).

(** ** Responses *)

Record ApiVersionEntry := mkApiVersionEntry {
  ave_api_key : Z;
  ave_min_version : Z;
  ave_max_version : Z }.

Record ApiVersionsResponse := mkApiVersionsResponse {
  avp_correlation_id : Z;
  avp_error_code : Z;
  avp_api_keys : list ApiVersionEntry;
  avp_throttle_time_ms : Z }.

Record PartitionMetadata := mkPartitionMetadata {
  pm_error_code : Z;
  pm_partition_index : Z;
  pm_leader_id : Z;
  pm_leader_epoch : Z;
  pm_replica_nodes : list Z;
  pm_isr_nodes : list Z;
  pm_eligible_leader_replicas : list Z;
  pm_last_known_elr : list Z;
  pm_offline_replicas : list Z }.

Record TopicMetadata := mkTopicMetadata {
  tm_error_code : Z;
  tm_topic_name : bytes;
  tm_topic_id : bytes;
  tm_is_internal : bool;
  tm_authorized_operations : Z;
  tm_partitions : list PartitionMetadata }.

Record DescribeTopicPartitionsResponse := mkDescribeTopicPartitionsResponse {
  dtpp_correlation_id : Z;
  dtpp_throttle_time_ms : Z;
  dtpp_topics : list TopicMetadata }.

Record FetchPartitionResponse := mkFetchPartitionResponse {
  fpp_partition_index : Z;
  fpp_error_code : Z;
  fpp_records : bytes;
  fpp_splice_fd : Z;
  fpp_splice_offset : Z;
  fpp_splice_len : Z }.

Record FetchTopicResponse := mkFetchTopicResponse {
  ftp_topic_id : bytes;
  ftp_partitions : list FetchPartitionResponse }.

Record FetchResponse := mkFetchResponse {
  fp_correlation_id : Z;
  fp_throttle_time_ms : Z;
  fp_error_code : Z;
  fp_session_id : Z;
  fp_responses : list FetchTopicResponse }.

Record ProducePartitionResponse := mkProducePartitionResponse {
  ppp_partition_index : Z;
  ppp_error_code : Z;
  ppp_base_offset : Z;
  ppp_log_append_time_ms : Z;
  ppp_log_start_offset : Z }.

Record ProduceTopicResponse := mkProduceTopicResponse {
  ptp_topic_name : bytes;
  ptp_partitions : list ProducePartitionResponse }.

Record ProduceResponse := mkProduceResponse {
  pp_correlation_id : Z;
  pp_throttle_time_ms : Z;
  pp_responses : list ProduceTopicResponse }.

Record MetadataBroker := mkMetadataBroker {
  mb_node_id : Z;
  mb_host : bytes;
  mb_port : Z;
  mb_rack : bytes }.

Record MetadataTopicResponse := mkMetadataTopicResponse {
  mtp_error_code : Z;
  mtp_topic_name : bytes;
  mtp_topic_id : bytes;
  mtp_is_internal : bool;
  mtp_partitions : list PartitionMetadata;
  mtp_topic_authorized_operations : Z }.

Record MetadataResponse := mkMetadataResponse {
  mp_correlation_id : Z;
  mp_throttle_time_ms : Z;
  mp_brokers : list MetadataBroker;
  mp_cluster_id : bytes;
  mp_controller_id : Z;
  mp_topics : list MetadataTopicResponse;
  mp_cluster_authorized_operations : Z }.

Record ListOffsetsPartitionResponse := mkListOffsetsPartitionResponse {
  lopp_partition_index : Z;
  lopp_error_code : Z;
  lopp_offset : Z;
  lopp_timestamp : Z }.

Record ListOffsetsTopicResponse := mkListOffsetsTopicResponse {
  lotp_topic_name : bytes;
  lotp_partitions : list ListOffsetsPartitionResponse }.

Record ListOffsetsResponse := mkListOffsetsResponse {
  lop_correlation_id : Z;
  lop_throttle_time_ms : Z;
  lop_topics : list ListOffsetsTopicResponse }.

Record FindCoordinatorResponse := mkFindCoordinatorResponse {
  fcp_correlation_id : Z;
  fcp_throttle_time_ms : Z;
  fcp_error_code : Z;
  fcp_error_message : bytes;
  fcp_node_id : Z;
  fcp_host : bytes;
  fcp_port : Z }.

Record OffsetCommitPartitionResponse := mkOffsetCommitPartitionResponse {
  ocpp_partition_index : Z;
  ocpp_error_code : Z;
  ocpp_committed_leader_epoch : Z;
  ocpp_committed_metadata : bytes }.

Record OffsetCommitTopicResponse := mkOffsetCommitTopicResponse {
  octp_topic_name : bytes;
  octp_partitions : list OffsetCommitPartitionResponse }.

Record OffsetCommitResponse := mkOffsetCommitResponse {
  ocp_correlation_id : Z;
  ocp_throttle_time_ms : Z;
  ocp_topics : list OffsetCommitTopicResponse }.

Record OffsetFetchPartitionResponse := mkOffsetFetchPartitionResponse {
  ofpp_partition_index : Z;
  ofpp_committed_offset : Z;
  ofpp_committed_leader_epoch : Z;
  ofpp_committed_metadata : bytes;
  ofpp_error_code : Z }.

Record OffsetFetchTopicResponse := mkOffsetFetchTopicResponse {
  oftp_topic_name : bytes;
  oftp_partitions : list OffsetFetchPartitionResponse }.

Record OffsetFetchResponse := mkOffsetFetchResponse {
  ofp_correlation_id : Z;
  ofp_throttle_time_ms : Z;
  ofp_topics : list OffsetFetchTopicResponse }.

Record JoinGroupMember := mkJoinGroupMember {
  jgm_member_id : bytes;
  jgm_metadata : bytes }.

Record JoinGroupResponse := mkJoinGroupResponse {
  jgq_correlation_id : Z;
  jgq_throttle_time_ms : Z;
  jgq_error_code : Z;
  jgq_generation_id : Z;
  jgq_protocol_name : bytes;
  jgq_leader : bytes;
  jgq_member_id : bytes;
  jgq_members : list JoinGroupMember }.

Record SyncGroupResponse := mkSyncGroupResponse {
  sgp_correlation_id : Z;
  sgp_throttle_time_ms : Z;
  sgp_error_code : Z;
  sgp_protocol_type : bytes;
  sgp_protocol_name : bytes;
  sgp_assignment : bytes }.

Record HeartbeatResponse := mkHeartbeatResponse {
  hbp_correlation_id : Z;
  hbp_throttle_time_ms : Z;
  hbp_error_code : Z }.

Record LeaveGroupResponse := mkLeaveGroupResponse {
  lgp_correlation_id : Z;
  lgp_throttle_time_ms : Z;
  lgp_error_code : Z }.

Inductive Response :=
| RespApiVersions (r : ApiVersionsResponse)
| RespDescribeTopicPartitions (r : DescribeTopicPartitionsResponse)
| RespFetch (r : FetchResponse)
| RespFindCoordinator (r : FindCoordinatorResponse)
| RespHeartbeat (r : HeartbeatResponse)
| RespJoinGroup (r : JoinGroupResponse)
| RespLeaveGroup (r : LeaveGroupResponse)
| RespListOffsets (r : ListOffsetsResponse)
| RespMetadata (r : MetadataResponse)
| RespOffsetCommit (r : OffsetCommitResponse)
| RespOffsetFetch (r : OffsetFetchResponse)
| RespProduce (r : ProduceResponse)
| RespSyncGroup (r : SyncGroupResponse).

(** The APIs the broker advertises. *)
Definition kSupportedApis : list ApiVersionEntry :=
  [ mkApiVersionEntry 0 0 11; mkApiVersionEntry 1 0 16; mkApiVersionEntry 2 0 8;
    mkApiVersionEntry 3 0 12; mkApiVersionEntry 8 0 8; mkApiVersionEntry 9 0 8;
    mkApiVersionEntry 10 0 4; mkApiVersionEntry 11 0 9; mkApiVersionEntry 12 0 4;
    mkApiVersionEntry 13 0 5; mkApiVersionEntry 14 0 5; mkApiVersionEntry 18 0 4;
    mkApiVersionEntry 75 0 0 ].

(** The header every request and the correlation id every response carries. *)
Definition request_header (q : Request) : RequestHeader :=
  match q with
  | ReqApiVersions r => avr_header r
  | ReqDescribeTopicPartitions r => dtp_header r
  | ReqFetch r => fr_header r
  | ReqFindCoordinator r => fcr_header r
  | ReqHeartbeat r => hbr_header r
  | ReqJoinGroup r => jgr_header r
  | ReqLeaveGroup r => lgr_header r
  | ReqListOffsets r => lor_header r
  | ReqMetadata r => mr_header r
  | ReqOffsetCommit r => ocr_header r
  | ReqOffsetFetch r => ofr_header r
  | ReqProduce r => pr_header r
  | ReqSyncGroup r => sgr_header r
  end.

Definition response_correlation_id (p : Response) : Z :=
  match p with
  | RespApiVersions r => avp_correlation_id r
  | RespDescribeTopicPartitions r => dtpp_correlation_id r
  | RespFetch r => fp_correlation_id r
  | RespFindCoordinator r => fcp_correlation_id r
  | RespHeartbeat r => hbp_correlation_id r
  | RespJoinGroup r => jgq_correlation_id r
  | RespLeaveGroup r => lgp_correlation_id r
  | RespListOffsets r => lop_correlation_id r
  | RespMetadata r => mp_correlation_id r
  | RespOffsetCommit r => ocp_correlation_id r
  | RespOffsetFetch r => ofp_correlation_id r
  | RespProduce r => pp_correlation_id r
  | RespSyncGroup r => sgp_correlation_id r
  end.

(** The api key that selects each alternative. *)
Definition request_api_key (q : Request) : Z :=
  match q with
  | ReqProduce _ => 0
  | ReqFetch _ => 1
  | ReqListOffsets _ => 2
  | ReqMetadata _ => 3
  | ReqOffsetCommit _ => 8
  | ReqOffsetFetch _ => 9
  | ReqFindCoordinator _ => 10
  | ReqJoinGroup _ => 11
  | ReqHeartbeat _ => 12
  | ReqLeaveGroup _ => 13
  | ReqSyncGroup _ => 14
  | ReqApiVersions _ => 18
  | ReqDescribeTopicPartitions _ => 75
  end.

(** ** The declared widths

    [request_typed q]: every integer of [q] lies in the range of its C++ type,
    every string and blob is made of bytes and, like every compact array, no
    longer than a length prefix below [2^28] can announce.  The topic lists of
    DescribeTopicPartitions and Metadata have wider counts. *)
Definition array_typed {A} (P : A → Prop) (l : list A) : Prop :=
  Forall P l ∧ zlen l < 2 ^ 28 - 1.
Definition wide_array_typed {A} (P : A → Prop) (l : list A) : Prop :=
  Forall P l ∧ zlen l < 2 ^ 32.
Definition blob_typed (s : bytes) : Prop := bytes_ok s ∧ zlen s < 2 ^ 28 - 1.
Definition uuid_typed (s : bytes) : Prop := bytes_ok s ∧ zlen s = 16.

Definition header_typed (h : RequestHeader) : Prop :=
  in_int 16 (api_key h) ∧ in_int 16 (api_version h) ∧ in_int 32 (correlation_id h).

Definition fetch_partition_typed (p : FetchPartitionRequest) : Prop :=
  in_int 32 (fpr_partition_index p) ∧ in_int 64 (fpr_fetch_offset p) ∧ in_int 32 (fpr_max_bytes p).
Definition fetch_topic_typed (t : FetchTopicRequest) : Prop :=
  uuid_typed (ftr_topic_id t) ∧ array_typed fetch_partition_typed (ftr_partitions t).
Definition produce_partition_typed (p : ProducePartitionRequest) : Prop :=
  in_int 32 (ppr_partition_index p) ∧ blob_typed (ppr_records p).
Definition produce_topic_typed (t : ProduceTopicRequest) : Prop :=
  blob_typed (ptr_topic_name t) ∧ array_typed produce_partition_typed (ptr_partitions t).
Definition list_offsets_partition_typed (p : ListOffsetsPartitionRequest) : Prop :=
  in_int 32 (lopr_partition_index p) ∧ in_int 64 (lopr_timestamp p).
Definition list_offsets_topic_typed (t : ListOffsetsTopicRequest) : Prop :=
  blob_typed (lotr_topic_name t) ∧ array_typed list_offsets_partition_typed (lotr_partitions t).
Definition offset_commit_partition_typed (p : OffsetCommitPartitionRequest) : Prop :=
  in_int 32 (ocpr_partition_index p) ∧ in_int 64 (ocpr_committed_offset p).
Definition offset_commit_topic_typed (t : OffsetCommitTopicRequest) : Prop :=
  blob_typed (octr_topic_name t) ∧ array_typed offset_commit_partition_typed (octr_partitions t).
Definition offset_fetch_topic_typed (t : OffsetFetchTopicRequest) : Prop :=
  blob_typed (oftr_topic_name t) ∧ array_typed (in_int 32) (oftr_partition_indexes t).
Definition join_protocol_typed (p : JoinGroupProtocol) : Prop :=
  blob_typed (jgp_name p) ∧ blob_typed (jgp_metadata p).
Definition sync_assignment_typed (a : SyncGroupAssignment) : Prop :=
  blob_typed (sga_member_id a) ∧ blob_typed (sga_assignment a).

Definition request_typed (q : Request) : Prop :=
  header_typed (request_header q) ∧
  match q with
  | ReqApiVersions r => True
  | ReqDescribeTopicPartitions r => wide_array_typed blob_typed (dtp_topic_names r)
  | ReqFetch r => array_typed fetch_topic_typed (fr_topics r) ∧ in_int 32 (fr_max_bytes r)
  | ReqFindCoordinator r => blob_typed (fcr_coordinator_key r) ∧ in_int 8 (fcr_key_type r)
  | ReqHeartbeat r =>
      blob_typed (hbr_group_id r) ∧ in_int 32 (hbr_generation_id r) ∧
      blob_typed (hbr_member_id r) ∧ blob_typed (hbr_group_instance_id r)
  | ReqJoinGroup r =>
      blob_typed (jgr_group_id r) ∧ in_int 32 (jgr_session_timeout_ms r) ∧
      blob_typed (jgr_member_id r) ∧ blob_typed (jgr_protocol_type r) ∧
      array_typed join_protocol_typed (jgr_protocols r)
  | ReqLeaveGroup r => blob_typed (lgr_group_id r) ∧ blob_typed (lgr_member_id r)
  | ReqListOffsets r =>
      in_int 32 (lor_replica_id r) ∧ in_int 8 (lor_isolation_level r) ∧
      array_typed list_offsets_topic_typed (lor_topics r)
  | ReqMetadata r => wide_array_typed blob_typed (mr_topics r)
  | ReqOffsetCommit r =>
      blob_typed (ocr_group_id r) ∧ blob_typed (ocr_member_id r) ∧
      in_int 32 (ocr_generation_id r) ∧ array_typed offset_commit_topic_typed (ocr_topics r)
  | ReqOffsetFetch r =>
      blob_typed (ofr_group_id r) ∧ array_typed offset_fetch_topic_typed (ofr_topics r)
  | ReqProduce r => array_typed produce_topic_typed (pr_topics r)
  | ReqSyncGroup r =>
      blob_typed (sgr_group_id r) ∧ in_int 32 (sgr_generation_id r) ∧
      blob_typed (sgr_member_id r) ∧ array_typed sync_assignment_typed (sgr_assignments r)
  end.
