(* ===== verification/Parser.v ===== *)
(** * The request parser (src/src/protocol/parser.cpp)

    [parse_request] is one function with a [switch] over the api key; each
    [case] block is one definition here, with the loops over arrays as
    separate bodies.  The early returns of the code are the bind of the
    [reader] monad.  The vectors are built with [push_back], i.e. [acc ++ [x]].
    Allocation ([reserve]) is not modelled: all counts are below [2^32]. *)

From S2P Require Import Prelude Varint ByteReader Protocol.

(** Skip the client id when its length is positive, then the header tag
    buffer: the same prefix in every case but ApiVersions. *)
Definition parse_client_id : reader unit :=
  client_id_len ← read_int16;
  _ ← (if client_id_len >? 0 then skip client_id_len else mret tt);
  skip 1.

(** [*len > 0 ? *len - 1 : 0], the element count of a compact array. *)
Definition compact_count (len : Z) : Z := if len >? 0 then wrap_uint 32 (len - 1) else 0.

(** The bytes of a compact field, read when its length prefix exceeds 1. *)
Definition parse_compact_bytes : reader bytes :=
  len ← read_varint;
  if len >? 1 then read_bytes (wrap_uint 32 (len - 1)) else mret [].

(** Keep the [std::expected] of a read instead of returning its error, and
    the later [*expected]. *)
Definition attempt {A} (m : reader A) : reader (outcome A) := λ r, let '(o, r') := m r in (Ok o, r').
Definition deref {A} (o : outcome A) : reader A :=
  match o with
  | Ok a => mret a
  | _ => faulty undefined_behaviour
  end.

(** *** case 75: DescribeTopicPartitions *)
Definition parse_dtp_topic (acc : list bytes) : reader (list bytes) :=
  name ← read_compact_string;
  _ ← skip 1;
  mret (acc ++ [name]).

Definition parse_describe_topic_partitions (h : RequestHeader) : reader Request :=
  _ ← parse_client_id;
  array_len ← read_varint;
  let topic_count := wrap_uint 32 (array_len - 1) in
  topic_names ← for_count topic_count parse_dtp_topic [];
  partition_limit ← read_int32;
  cursor_flag ← read_int8;
  _ ← (if negb (cursor_flag =? 255) then
         cursor_name ← read_compact_string;
         cursor_partition ← read_int32;
         skip 1
       else mret tt);
  _ ← skip 1;
  mret (ReqDescribeTopicPartitions (mkDescribeTopicPartitionsRequest h topic_names)).

(** *** case 1: Fetch *)

(** After [part_max_bytes] is read, the code tests the [expected] of the
    request-level [max_bytes] once more (which holds a value at this point)
    instead of the one just read, and then dereferences [*part_max_bytes]. *)
Definition parse_fetch_partition (acc : list FetchPartitionRequest)
    : reader (list FetchPartitionRequest) :=
  part_idx ← read_int32;
  _ ← skip 4;
  fetch_offset ← read_int64;
  _ ← skip 4;
  _ ← skip 8;
  part_max_bytes ← attempt read_int32;
  _ ← skip 1;
  mb ← deref part_max_bytes;
  mret (acc ++ [mkFetchPartitionRequest part_idx fetch_offset mb]).

Definition parse_fetch_topic (acc : list FetchTopicRequest) : reader (list FetchTopicRequest) :=
  tid ← read_bytes 16;
  part_array_len ← read_varint;
  parts ← for_count (compact_count part_array_len) parse_fetch_partition [];
  _ ← skip 1;
  mret (acc ++ [mkFetchTopicRequest tid parts]).

Definition parse_forgotten_topic (acc : unit) : reader unit :=
  _ ← skip 16;
  fpart_len ← read_varint;
  _ ← skip (compact_count fpart_len * 4);
  skip 1.

Definition parse_fetch (h : RequestHeader) : reader Request :=
  _ ← parse_client_id;
  max_wait_ms ← read_int32;
  min_bytes ← read_int32;
  max_bytes ← read_int32;
  isolation_level ← read_int8;
  session_id ← read_int32;
  session_epoch ← read_int32;
  topic_array_len ← read_varint;
  topics ← for_count (compact_count topic_array_len) parse_fetch_topic [];
  forgotten_len ← read_varint;
  _ ← for_count (compact_count forgotten_len) parse_forgotten_topic tt;
  rack_id_len ← read_varint;
  _ ← (if rack_id_len >? 1 then skip (wrap_uint 32 (rack_id_len - 1)) else mret tt);
  _ ← skip 1;
  mret (ReqFetch (mkFetchRequest h topics max_bytes)).

(** *** case 2: ListOffsets *)
Definition parse_list_offsets_partition (acc : list ListOffsetsPartitionRequest)
    : reader (list ListOffsetsPartitionRequest) :=
  part_idx ← read_int32;
  timestamp ← read_int64;
  _ ← skip 1;
  mret (acc ++ [mkListOffsetsPartitionRequest part_idx timestamp]).

Definition parse_list_offsets_topic (acc : list ListOffsetsTopicRequest)
    : reader (list ListOffsetsTopicRequest) :=
  name ← read_compact_string;
  part_array_len ← read_varint;
  parts ← for_count (compact_count part_array_len) parse_list_offsets_partition [];
  _ ← skip 1;
  mret (acc ++ [mkListOffsetsTopicRequest name parts]).

Definition parse_list_offsets (h : RequestHeader) : reader Request :=
  _ ← parse_client_id;
  replica_id ← read_int32;
  isolation_level ← read_int8;
  topic_array_len ← read_varint;
  topics ← for_count (compact_count topic_array_len) parse_list_offsets_topic [];
  _ ← skip 1;
  mret (ReqListOffsets (mkListOffsetsRequest h replica_id (wrap_int 8 isolation_level) topics)).

(** *** case 3: Metadata *)
Definition parse_metadata_topic (acc : list bytes) : reader (list bytes) :=
  name_len ← read_int16;
  if name_len >? 0 then
    name_bytes ← read_bytes name_len;
    mret (acc ++ [name_bytes])
  else mret acc.

Definition parse_metadata (h : RequestHeader) : reader Request :=
  _ ← parse_client_id;
  topics_array_len ← read_int32;
  topic_names ← (if topics_array_len >? 0
                 then for_count topics_array_len parse_metadata_topic []
                 else mret []);
  allow_create ← read_int8;
  mret (ReqMetadata (mkMetadataRequest h topic_names (negb (allow_create =? 0)))).

(** *** case 0: Produce *)
Definition parse_produce_partition (acc : list ProducePartitionRequest)
    : reader (list ProducePartitionRequest) :=
  part_idx ← read_int32;
  records ← parse_compact_bytes;
  _ ← skip 1;
  mret (acc ++ [mkProducePartitionRequest part_idx records]).

Definition parse_produce_topic (acc : list ProduceTopicRequest)
    : reader (list ProduceTopicRequest) :=
  name ← read_compact_string;
  part_array_len ← read_varint;
  parts ← for_count (compact_count part_array_len) parse_produce_partition [];
  _ ← skip 1;
  mret (acc ++ [mkProduceTopicRequest name parts]).

Definition parse_produce (h : RequestHeader) : reader Request :=
  _ ← parse_client_id;
  tx_id_len ← read_varint;
  _ ← (if tx_id_len >? 1 then skip (wrap_uint 32 (tx_id_len - 1)) else mret tt);
  acks ← read_int16;
  timeout ← read_int32;
  topic_array_len ← read_varint;
  topics ← for_count (compact_count topic_array_len) parse_produce_topic [];
  _ ← skip 1;
  mret (ReqProduce (mkProduceRequest h topics)).

(** *** case 8: OffsetCommit *)
Definition parse_offset_commit_partition (acc : list OffsetCommitPartitionRequest)
    : reader (list OffsetCommitPartitionRequest) :=
  part_idx ← read_int32;
  committed_offset ← read_int64;
  _ ← skip 1;
  mret (acc ++ [mkOffsetCommitPartitionRequest part_idx committed_offset]).

Definition parse_offset_commit_topic (acc : list OffsetCommitTopicRequest)
    : reader (list OffsetCommitTopicRequest) :=
  name ← read_compact_string;
  part_array_len ← read_varint;
  parts ← for_count (compact_count part_array_len) parse_offset_commit_partition [];
  _ ← skip 1;
  mret (acc ++ [mkOffsetCommitTopicRequest name parts]).

Definition parse_offset_commit (h : RequestHeader) : reader Request :=
  _ ← parse_client_id;
  group_id ← read_compact_string;
  member_id ← read_compact_string;
  generation_id ← read_int32;
  topic_array_len ← read_varint;
  topics ← for_count (compact_count topic_array_len) parse_offset_commit_topic [];
  _ ← skip 1;
  mret (ReqOffsetCommit (mkOffsetCommitRequest h group_id member_id generation_id topics)).

(** *** case 9: OffsetFetch *)
Definition parse_partition_index (acc : list Z) : reader (list Z) :=
  part_idx ← read_int32;
  mret (acc ++ [part_idx]).

Definition parse_offset_fetch_topic (acc : list OffsetFetchTopicRequest)
    : reader (list OffsetFetchTopicRequest) :=
  name ← read_compact_string;
  part_array_len ← read_varint;
  partition_indexes ← for_count (compact_count part_array_len) parse_partition_index [];
  _ ← skip 1;
  mret (acc ++ [mkOffsetFetchTopicRequest name partition_indexes]).

Definition parse_offset_fetch (h : RequestHeader) : reader Request :=
  _ ← parse_client_id;
  group_id ← read_compact_string;
  topic_array_len ← read_varint;
  topics ← for_count (compact_count topic_array_len) parse_offset_fetch_topic [];
  _ ← skip 1;
  mret (ReqOffsetFetch (mkOffsetFetchRequest h group_id topics)).

(** *** case 10: FindCoordinator *)
Definition parse_find_coordinator (h : RequestHeader) : reader Request :=
  _ ← parse_client_id;
  key ← read_compact_string;
  key_type ← read_int8;
  _ ← skip 1;
  mret (ReqFindCoordinator (mkFindCoordinatorRequest h key (wrap_int 8 key_type))).

(** *** case 11: JoinGroup *)
Definition parse_join_protocol (acc : list JoinGroupProtocol) : reader (list JoinGroupProtocol) :=
  name ← read_compact_string;
  metadata ← parse_compact_bytes;
  _ ← skip 1;
  mret (acc ++ [mkJoinGroupProtocol name metadata]).

Definition parse_join_group (h : RequestHeader) : reader Request :=
  _ ← parse_client_id;
  group_id ← read_compact_string;
  session_timeout ← read_int32;
  member_id ← read_compact_string;
  protocol_type ← read_compact_string;
  proto_array_len ← read_varint;
  protocols ← for_count (compact_count proto_array_len) parse_join_protocol [];
  _ ← skip 1;
  mret (ReqJoinGroup
          (mkJoinGroupRequest h group_id session_timeout member_id protocol_type protocols)).

(** *** case 12: Heartbeat *)
Definition parse_heartbeat (h : RequestHeader) : reader Request :=
  _ ← parse_client_id;
  group_id ← read_compact_string;
  generation_id ← read_int32;
  member_id ← read_compact_string;
  group_instance_id ← read_compact_string;
  _ ← skip 1;
  mret (ReqHeartbeat (mkHeartbeatRequest h group_id generation_id member_id group_instance_id)).

(** *** case 13: LeaveGroup *)
Definition parse_leave_group (h : RequestHeader) : reader Request :=
  _ ← parse_client_id;
  group_id ← read_compact_string;
  member_id ← read_compact_string;
  _ ← skip 1;
  mret (ReqLeaveGroup (mkLeaveGroupRequest h group_id member_id)).

(** *** case 14: SyncGroup *)
Definition parse_sync_assignment (acc : list SyncGroupAssignment)
    : reader (list SyncGroupAssignment) :=
  mid ← read_compact_string;
  assign_bytes ← parse_compact_bytes;
  _ ← skip 1;
  mret (acc ++ [mkSyncGroupAssignment mid assign_bytes]).

Definition parse_sync_group (h : RequestHeader) : reader Request :=
  _ ← parse_client_id;
  group_id ← read_compact_string;
  generation_id ← read_int32;
  member_id ← read_compact_string;
  assign_array_len ← read_varint;
  assignments ← for_count (compact_count assign_array_len) parse_sync_assignment [];
  _ ← skip 1;
  mret (ReqSyncGroup (mkSyncGroupRequest h group_id generation_id member_id assignments)).

(** *** The dispatch *)
Definition parse_body (api_key : Z) (h : RequestHeader) : reader Request :=
  match api_key with
  | 18 => mret (ReqApiVersions (mkApiVersionsRequest h))
  | 75 => parse_describe_topic_partitions h
  | 1 => parse_fetch h
  | 2 => parse_list_offsets h
  | 3 => parse_metadata h
  | 0 => parse_produce h
  | 8 => parse_offset_commit h
  | 9 => parse_offset_fetch h
  | 10 => parse_find_coordinator h
  | 11 => parse_join_group h
  | 12 => parse_heartbeat h
  | 13 => parse_leave_group h
  | 14 => parse_sync_group h
  | _ => failed function_not_supported
  end.

Definition parse_header : reader RequestHeader :=
  api_key ← read_int16;
  api_version ← read_int16;
  correlation_id ← read_int32;
  mret (mkRequestHeader api_key api_version correlation_id).

Definition parse_request (buf : bytes) : outcome Request :=
  run (h ← parse_header; parse_body (api_key h) h) buf.
