(* ===== verification/ParserSafety.v ===== *)
(** * The parser is memory safe and well typed

    On every byte string, [parse_request] keeps its reader inside the input,
    and either returns a well-typed request or one of the two documented
    errors.  The one exception is the Fetch case, which can dereference an
    [expected] without a value; it is isolated here and exhibited. *)

From S2P Require Import Prelude Endian Varint ByteReader Protocol Parser.

(** ** Automation for [safe] *)

Lemma safe_read_string F : safe F read_compact_string blob_typed.
Proof.
  eapply safe_weaken; [apply safe_read_compact_string|].
  by intros s [??].
Qed.

Lemma safe_skip_nat F n : 0 ≤ n → safe F (skip n) (λ _, True).
Proof. apply safe_skip. Qed.

Create HintDb safe.
#[export] Hint Resolve safe_read_int8 safe_read_int16 safe_read_int32 safe_read_int64
  safe_read_varint safe_read_string safe_read_signed_varint safe_skip_varint : safe.

(** Walk through a monadic block: bind by bind, with the rule of each
    operation from the database. *)
Ltac safe_side :=
  solve [ lia | unfold in_uint, in_int in *; lia | done ].
Ltac safe_leaf :=
  first [ solve [eauto with safe nocore]
        | apply safe_skip; safe_side
        | apply safe_read_bytes; safe_side ].
Ltac safe_intro := let H := fresh "H" in intros ? H; cbn beta in H.
Ltac safe_step :=
  lazymatch goal with
  | |- safe _ (mbind _ _) _ => eapply safe_bind; [safe_leaf|safe_intro]
  | |- safe _ (mret _) _ => apply safe_ret
  end.
Ltac safe_steps := repeat safe_step.

Lemma safe_client_id F : safe F parse_client_id (λ _, True).
Proof.
  unfold parse_client_id. safe_step.
  eapply (safe_bind F _ _ (λ _, True)); [|intros; safe_leaf].
  destruct (Z.gtb_spec a 0); [safe_leaf|by apply safe_ret].
Qed.

Lemma compact_count_spec len : 0 ≤ len < 2 ^ 28 → 0 ≤ compact_count len < 2 ^ 28 - 1.
Proof.
  intros. unfold compact_count. destruct (Z.gtb_spec len 0); [|lia].
  rewrite wrap_uint_small by (unfold in_uint; lia). lia.
Qed.

Lemma safe_compact_bytes F : safe F parse_compact_bytes blob_typed.
Proof.
  unfold parse_compact_bytes. safe_step. destruct (Z.gtb_spec a 1).
  - rewrite wrap_uint_small by (unfold in_uint; lia).
    eapply safe_weaken; [apply safe_read_bytes; lia|].
    intros bs [? E]. split; [done|lia].
  - apply safe_ret. split; [constructor|]. change (zlen []) with 0. lia.
Qed.
#[export] Hint Resolve safe_client_id safe_compact_bytes : safe.

(** A counted loop whose body pushes one well-typed element. *)
Lemma safe_push_loop {A} F n (body : list A → reader (list A)) (P : A → Prop) :
  0 ≤ n →
  (∀ acc, safe F (body acc) (λ acc', ∃ x, acc' = acc ++ [x] ∧ P x)) →
  safe F (for_count n body []) (λ l, Forall P l ∧ zlen l = n).
Proof.
  intros Hn Hb. eapply safe_weaken.
  - apply (safe_for_count F n body (λ j acc, Forall P acc ∧ length acc = j)).
    + intros j acc [Hp Hl]. eapply safe_weaken; [apply Hb|].
      intros acc' (x & -> & Hx). rewrite Forall_app, length_app, Hl. simpl.
      split; [by auto|lia].
    + done.
  - intros l [Hp Hl]. split; [done|]. unfold zlen. lia.
Qed.

Lemma safe_compact_loop {A} F len (body : list A → reader (list A)) (P : A → Prop) :
  0 ≤ len < 2 ^ 28 →
  (∀ acc, safe F (body acc) (λ acc', ∃ x, acc' = acc ++ [x] ∧ P x)) →
  safe F (for_count (compact_count len) body []) (array_typed P).
Proof.
  intros Hlen Hb. pose proof (compact_count_spec len Hlen).
  eapply safe_weaken; [apply safe_push_loop; [lia|done]|].
  intros l [Hp Hl]. split; [done|lia].
Qed.

Ltac safe_loop L :=
  eapply safe_bind; [apply safe_compact_loop; [done|apply L]|safe_intro].
Ltac safe_push := apply safe_ret; eexists; split; [reflexivity|].

(** ** The array bodies *)

Lemma safe_dtp_topic F acc :
  safe F (parse_dtp_topic acc) (λ acc', ∃ x, acc' = acc ++ [x] ∧ blob_typed x).
Proof. unfold parse_dtp_topic. safe_steps. eauto. Qed.

Lemma safe_attempt {A} F (m : reader A) Q :
  safe F m Q → safe F (attempt m) (λ o, match o with Ok a => Q a | _ => True end).
Proof.
  intros Hm r Hr Hb. unfold attempt. destruct (Hm r Hr Hb) as [Hmv Hq].
  destruct (m r) as [[a|e|f] r']; simpl in *; done.
Qed.

Abbreviation ub := (λ f, f = undefined_behaviour).

Lemma safe_deref {A} (o : outcome A) (Q : A → Prop) :
  match o with Ok a => Q a | _ => True end → safe ub (deref o) Q.
Proof.
  destruct o; intros HQ; [by apply safe_ret|..]; intros r Hr _; (split; [by apply moves_refl|done]).
Qed.

Lemma safe_fetch_partition acc :
  safe ub (parse_fetch_partition acc) (λ acc', ∃ x, acc' = acc ++ [x] ∧ fetch_partition_typed x).
Proof.
  unfold parse_fetch_partition. safe_steps.
  eapply safe_bind; [apply safe_attempt, safe_read_int32|intros o Ho]. safe_step.
  eapply safe_bind; [by apply (safe_deref o (in_int 32))|intros mb Hmb].
  safe_push. done.
Qed.

Lemma safe_fetch_topic acc :
  safe ub (parse_fetch_topic acc) (λ acc', ∃ x, acc' = acc ++ [x] ∧ fetch_topic_typed x).
Proof.
  unfold parse_fetch_topic. safe_steps. safe_loop safe_fetch_partition. safe_step. safe_push. done.
Qed.

Lemma safe_forgotten_topic F acc : safe F (parse_forgotten_topic acc) (λ _, True).
Proof.
  unfold parse_forgotten_topic. safe_steps.
  eapply safe_bind; [apply safe_skip|intros; safe_leaf].
  pose proof (compact_count_spec a0 ltac:(done)). lia.
Qed.

Lemma safe_list_offsets_partition F acc :
  safe F (parse_list_offsets_partition acc)
    (λ acc', ∃ x, acc' = acc ++ [x] ∧ list_offsets_partition_typed x).
Proof. unfold parse_list_offsets_partition. safe_steps. eexists. split; done. Qed.

Lemma safe_list_offsets_topic F acc :
  safe F (parse_list_offsets_topic acc)
    (λ acc', ∃ x, acc' = acc ++ [x] ∧ list_offsets_topic_typed x).
Proof.
  unfold parse_list_offsets_topic. safe_steps. safe_loop (safe_list_offsets_partition F).
  safe_step. safe_push. done.
Qed.

Lemma safe_produce_partition F acc :
  safe F (parse_produce_partition acc)
    (λ acc', ∃ x, acc' = acc ++ [x] ∧ produce_partition_typed x).
Proof. unfold parse_produce_partition. safe_steps. eexists. split; done. Qed.

Lemma safe_produce_topic F acc :
  safe F (parse_produce_topic acc) (λ acc', ∃ x, acc' = acc ++ [x] ∧ produce_topic_typed x).
Proof.
  unfold parse_produce_topic. safe_steps. safe_loop (safe_produce_partition F).
  safe_step. safe_push. done.
Qed.

Lemma safe_offset_commit_partition F acc :
  safe F (parse_offset_commit_partition acc)
    (λ acc', ∃ x, acc' = acc ++ [x] ∧ offset_commit_partition_typed x).
Proof. unfold parse_offset_commit_partition. safe_steps. eexists. split; done. Qed.

Lemma safe_offset_commit_topic F acc :
  safe F (parse_offset_commit_topic acc)
    (λ acc', ∃ x, acc' = acc ++ [x] ∧ offset_commit_topic_typed x).
Proof.
  unfold parse_offset_commit_topic. safe_steps. safe_loop (safe_offset_commit_partition F).
  safe_step. safe_push. done.
Qed.

Lemma safe_partition_index F acc :
  safe F (parse_partition_index acc) (λ acc', ∃ x, acc' = acc ++ [x] ∧ in_int 32 x).
Proof. unfold parse_partition_index. safe_steps. eexists. split; done. Qed.

Lemma safe_offset_fetch_topic F acc :
  safe F (parse_offset_fetch_topic acc)
    (λ acc', ∃ x, acc' = acc ++ [x] ∧ offset_fetch_topic_typed x).
Proof.
  unfold parse_offset_fetch_topic. safe_steps. safe_loop (safe_partition_index F).
  safe_step. safe_push. done.
Qed.

Lemma safe_join_protocol F acc :
  safe F (parse_join_protocol acc) (λ acc', ∃ x, acc' = acc ++ [x] ∧ join_protocol_typed x).
Proof. unfold parse_join_protocol. safe_steps. eexists. split; done. Qed.

Lemma safe_sync_assignment F acc :
  safe F (parse_sync_assignment acc) (λ acc', ∃ x, acc' = acc ++ [x] ∧ sync_assignment_typed x).
Proof. unfold parse_sync_assignment. safe_steps. eexists. split; done. Qed.

(** Unlike the other arrays, an empty topic name is dropped. *)
Lemma safe_metadata_topics F n :
  in_int 32 n → safe F (for_count n parse_metadata_topic []) (wide_array_typed blob_typed).
Proof.
  intros Hn. unfold in_int in Hn. eapply safe_weaken.
  - apply (safe_for_count F n _ (λ j acc, Forall blob_typed acc ∧ (length acc ≤ j)%nat)); [|done].
    intros j acc [Hp Hl]. unfold parse_metadata_topic. safe_step.
    destruct (Z.gtb_spec a 0).
    + safe_steps. rewrite Forall_app, length_app, Forall_singleton. simpl.
      destruct H1 as [? Ha]. unfold in_int in H. split_and!; [done| |lia].
      split; [done|]. rewrite Ha. lia.
    + apply safe_ret. split; [done|lia].
  - intros l [Hp Hl]. split; [done|]. unfold zlen. lia.
Qed.

(** ** The cases *)

(** What the body of the case for key [k] returns. *)
Definition case_result (k : Z) (h : RequestHeader) (q : Request) : Prop :=
  request_typed q ∧ request_header q = h ∧ request_api_key q = k.

Ltac safe_case := apply safe_ret; split_and!; (done || (split_and!; done)).

Section cases.
Context (h : RequestHeader) (Hh : header_typed h).

Lemma safe_describe_topic_partitions F :
  safe F (parse_describe_topic_partitions h) (case_result 75 h).
Proof using Hh.
  unfold parse_describe_topic_partitions. safe_steps.
  pose proof (wrap_uint_range 32 (a0 - 1) ltac:(lia)) as Hc. unfold in_uint in Hc.
  eapply safe_bind; [apply safe_push_loop; [lia|apply safe_dtp_topic]|].
  intros l [Hl Hn]. safe_steps. eapply (safe_bind F _ _ (λ _, True)).
  - destruct (negb _); [safe_steps; safe_leaf|by apply safe_ret].
  - intros ? _. safe_step. apply safe_ret. split_and!; [|done..]. split; [done|].
    split; [done|]. simpl. lia.
Qed.

Lemma safe_fetch : safe ub (parse_fetch h) (case_result 1 h).
Proof using Hh.
  unfold parse_fetch. safe_steps. safe_loop safe_fetch_topic. safe_step.
  eapply safe_bind; [apply (safe_for_count ub _ _ (λ _ _, True)); [|done]|].
  { intros. apply safe_forgotten_topic. }
  intros ? _. safe_step. eapply (safe_bind ub _ _ (λ _, True)).
  - destruct (Z.gtb_spec a10 1); [|by apply safe_ret].
    apply safe_skip. apply wrap_uint_range. lia.
  - intros ? _. safe_step. safe_case.
Qed.

Lemma safe_list_offsets F : safe F (parse_list_offsets h) (case_result 2 h).
Proof using Hh.
  unfold parse_list_offsets. safe_steps. safe_loop (safe_list_offsets_topic F). safe_step.
  apply safe_ret. split_and!; [|done..]. split_and!; [done..| |done]. by apply wrap_int_range.
Qed.

Lemma safe_metadata F : safe F (parse_metadata h) (case_result 3 h).
Proof using Hh.
  unfold parse_metadata. safe_steps. eapply (safe_bind F _ _ (wide_array_typed blob_typed)).
  - destruct (Z.gtb_spec a0 0); [by apply safe_metadata_topics|].
    apply safe_ret. by split; [constructor|].
  - safe_intro. safe_step. safe_case.
Qed.

Lemma safe_produce F : safe F (parse_produce h) (case_result 0 h).
Proof using Hh.
  unfold parse_produce. safe_steps. eapply (safe_bind F _ _ (λ _, True)).
  - destruct (Z.gtb_spec a0 1); [|by apply safe_ret].
    apply safe_skip. apply wrap_uint_range. lia.
  - intros ? _. safe_steps. safe_loop (safe_produce_topic F). safe_step. safe_case.
Qed.

Lemma safe_offset_commit F : safe F (parse_offset_commit h) (case_result 8 h).
Proof using Hh.
  unfold parse_offset_commit. safe_steps. safe_loop (safe_offset_commit_topic F). safe_step. safe_case.
Qed.

Lemma safe_offset_fetch F : safe F (parse_offset_fetch h) (case_result 9 h).
Proof using Hh.
  unfold parse_offset_fetch. safe_steps. safe_loop (safe_offset_fetch_topic F). safe_step. safe_case.
Qed.

Lemma safe_find_coordinator F : safe F (parse_find_coordinator h) (case_result 10 h).
Proof using Hh.
  unfold parse_find_coordinator. safe_steps. split_and!; [|done..].
  split_and!; [done..|]. by apply wrap_int_range.
Qed.

Lemma safe_join_group F : safe F (parse_join_group h) (case_result 11 h).
Proof using Hh.
  unfold parse_join_group. safe_steps. safe_loop (safe_join_protocol F). safe_step. safe_case.
Qed.

Lemma safe_heartbeat F : safe F (parse_heartbeat h) (case_result 12 h).
Proof using Hh. unfold parse_heartbeat. do 6 safe_step. safe_case. Qed.

Lemma safe_leave_group F : safe F (parse_leave_group h) (case_result 13 h).
Proof using Hh. unfold parse_leave_group. do 4 safe_step. safe_case. Qed.

Lemma safe_sync_group F : safe F (parse_sync_group h) (case_result 14 h).
Proof using Hh.
  unfold parse_sync_group. safe_steps. safe_loop (safe_sync_assignment F). safe_step. safe_case.
Qed.

End cases.

#[export] Hint Resolve safe_describe_topic_partitions safe_fetch safe_list_offsets safe_metadata
  safe_produce safe_offset_commit safe_offset_fetch safe_find_coordinator safe_join_group
  safe_heartbeat safe_leave_group safe_sync_group : safe.

Definition supported_keys : list Z := [0; 1; 2; 3; 8; 9; 10; 11; 12; 13; 14; 18; 75].

(** The dispatch, by key: one safe block per supported key, and an
    unconditional error for every other key. *)
Lemma parse_body_cases F k h :
  header_typed h →
  (k = 1 ∧ safe ub (parse_body k h) (case_result k h)) ∨
  (k ≠ 1 ∧ (k ∈ supported_keys) ∧ safe F (parse_body k h) (case_result k h)) ∨
  ((k ∉ supported_keys) ∧ parse_body k h = failed function_not_supported).
Proof.
  intros Hh. destruct (decide (k = 1)) as [->|Hk1]; [left; split; [done|by apply safe_fetch]|].
  destruct (decide (k ∈ supported_keys)) as [Hk|Hk]; right; [left|right]; (split; [done|]).
  - split; [done|]. unfold supported_keys in Hk. rewrite !elem_of_cons in Hk.
    destruct_or! Hk; subst; try done; cbn [parse_body];
      solve [eauto with safe nocore | by apply safe_ret | by apply elem_of_nil in Hk].
  - unfold supported_keys in Hk. rewrite !elem_of_cons in Hk.
    unfold parse_body.
    repeat (match goal with |- context [match ?x with _ => _ end] => destruct x end;
            try reflexivity; try (exfalso; apply Hk; tauto)).
Qed.

Lemma safe_header F : safe F parse_header header_typed.
Proof. unfold parse_header. safe_steps. done. Qed.

Lemma parse_header_key buf h r :
  parse_header (mkReader buf 0) = (Ok h, r) → api_key h = decode_int16_be (ztake 2 buf).
Proof.
  unfold parse_header, mbind, reader_bind. unfold read_int16 at 1.
  destruct (remaining _ <? 2); [done|]. simpl.
  destruct (read_int16 _) as [[v|e|f] r1]; [|done..].
  destruct (read_int32 _) as [[c|e|f] r2]; [|done..]. intros E. injection E as <- _. reflexivity.
Qed.

(** ** The parser as a whole *)

(** C1: On every byte string, whatever its length and content, the parser
    returns a well-typed request of the kind its api key announces, or
    [message_size], or [function_not_supported] (only for keys without a
    case); it can leave this protocol only by undefined behaviour, and only in
    the Fetch case.  In every case its reader never leaves the input. *)
Theorem parse_request_safe (buf : bytes) :
  bytes_ok buf →
  reader_ok ((h ← parse_header; parse_body (api_key h) h) (mkReader buf 0)).2 ∧
  match parse_request buf with
  | Ok q => request_typed q ∧ request_api_key q = api_key (request_header q)
  | Err e =>
      e = message_size ∨
      (e = function_not_supported ∧ (decode_int16_be (ztake 2 buf) ∉ supported_keys))
  | Fault f => f = undefined_behaviour ∧ decode_int16_be (ztake 2 buf) = 1
  end.
Proof.
  intros Hb. assert (Hr0 : reader_ok (mkReader buf 0))
    by (unfold reader_ok; simpl; pose proof (zlen_nonneg buf); lia).
  destruct (safe_header no_fault (mkReader buf 0) Hr0 Hb) as [(Hd & _ & Hr) Hq].
  pose proof (parse_header_key buf) as Hk.
  unfold parse_request, run, mbind, reader_bind.
  destruct (parse_header (mkReader buf 0)) as [[h|e|f] r1]; simpl in *; [|by split; [|left]|done].
  specialize (Hk h r1 eq_refl). rewrite <-Hk, <-Hd in *.
  destruct (parse_body_cases no_fault (api_key h) h Hq)
    as [[E Hs]|[(_ & _ & Hs)|[Hn ->]]]; [| |by split; [|right]].
  all: destruct (Hs r1 Hr Hb) as [(_ & _ & Hr2) Hres]; (split; [done|]).
  all: destruct (parse_body _ h r1) as [[q|e|f] r2]; simpl in *; auto; [|done..].
  all: destruct Hres as (Ht & Heq & Hkey); by rewrite Heq.
Qed.

Definition sample_heartbeat : bytes :=
  [0; 12; 0; 0; 0; 0; 0; 7; 255; 255; 0; 3; 103; 49; 0; 0; 0; 1; 3; 109; 49; 1; 0].

Lemma parse_request_safe_witness :
  bytes_ok sample_heartbeat ∧
  request_typed (ReqHeartbeat (mkHeartbeatRequest (mkRequestHeader 12 0 7)
    (str "g1") 1 (str "m1") [])).
Proof.
  split; [decide_now|].
  pose proof (parse_request_safe sample_heartbeat
    ltac:(decide_now)) as [_ H].
  vm_compute in H. destruct H as [H _]. exact H.
Defined.

(** The Fetch case tests the wrong [expected] after reading a partition's
    [max_bytes]: on a message that ends right after one more byte, the missing
    field is dereferenced. *)
Theorem parse_fetch_truncated_undefined :
  ∃ buf, bytes_ok buf ∧ parse_request buf = Fault undefined_behaviour.
Proof.
  exists ([0; 1; 0; 16; 0; 0; 0; 7; 255; 255; 0] ++ replicate 21 0 ++ [2] ++ replicate 16 0 ++ [2]
          ++ replicate 28 0 ++ [0]).
  split; [decide_now|by vm_compute].
Qed.
