(* ===== verification/WireFormat.v ===== *)
(** * The request wire format, and the parser as its inverse

    A specification of the bytes of each request, written as encoders, and
    the theorem that [parse_request] inverts them.  Fields the broker reads
    past without keeping (client id, tag bytes, epochs, transactional id, rack,
    forgotten topics, cursor, ...) are in [Ignored] and stay arbitrary. *)

From S2P Require Import Prelude Endian Varint ByteReader Protocol Parser.

Record Ignored := mkIgnored {
  ig_client_id : option bytes;
  ig_tag : Z;
  ig_int8 : Z;
  ig_int16 : Z;
  ig_int32 : Z;
  ig_int64 : Z;
  ig_tx_id : bytes;
  ig_rack : bytes;
  ig_cursor : option (Z * bytes * Z);
  ig_forgotten : list (bytes * list Z) }.

Definition cursor_typed (c : Z * bytes * Z) : Prop :=
  byte_ok c.1.1 ∧ c.1.1 ≠ 255 ∧ zlen c.1.2 < 2 ^ 28 - 1 ∧ in_int 32 c.2.
Definition forgotten_typed (f : bytes * list Z) : Prop :=
  zlen f.1 = 16 ∧ zlen f.2 < 2 ^ 28 - 1.

(** Ranges of the ignored fields. *)
Record ignored_ok (ig : Ignored) : Prop := {
  igok_client : match ig_client_id ig with Some c => zlen c < 2 ^ 15 | None => True end;
  igok_int8 : byte_ok (ig_int8 ig);
  igok_int16 : in_int 16 (ig_int16 ig);
  igok_int32 : in_int 32 (ig_int32 ig);
  igok_tx : zlen (ig_tx_id ig) < 2 ^ 28 - 1;
  igok_rack : zlen (ig_rack ig) < 2 ^ 28 - 1;
  igok_cursor : match ig_cursor ig with Some c => cursor_typed c | None => True end;
  igok_forgotten : Forall forgotten_typed (ig_forgotten ig) ∧ zlen (ig_forgotten ig) < 2 ^ 28 - 1 }.

Section encoders.
Context (ig : Ignored).

Definition enc_header (h : RequestHeader) : bytes :=
  write_int16_be (api_key h) ++ write_int16_be (api_version h) ++
  write_int32_be (correlation_id h).

Definition enc_tag : bytes := [ig_tag ig].

Definition enc_client_id : bytes :=
  match ig_client_id ig with
  | Some c => write_int16_be (zlen c) ++ c ++ enc_tag
  | None => write_int16_be (-1) ++ enc_tag
  end.

(** A null cursor is the flag 255; any other flag announces a cursor. *)
Definition enc_cursor : bytes :=
  match ig_cursor ig with
  | Some (flag, name, partition) => [flag] ++ compact_string name ++ write_int32_be partition ++ enc_tag
  | None => [255]
  end.

Definition enc_dtp_topic (name : bytes) : bytes := compact_string name ++ enc_tag.

Definition enc_describe_topic_partitions (r : DescribeTopicPartitionsRequest) : bytes :=
  enc_client_id ++ write_unsigned_varint (zlen (dtp_topic_names r) + 1) ++
  concat (map enc_dtp_topic (dtp_topic_names r)) ++
  write_int32_be (ig_int32 ig) ++ enc_cursor ++ enc_tag.

Definition enc_fetch_partition (p : FetchPartitionRequest) : bytes :=
  write_int32_be (fpr_partition_index p) ++ write_int32_be (ig_int32 ig) ++
  write_int64_be (fpr_fetch_offset p) ++ write_int32_be (ig_int32 ig) ++
  write_int64_be (ig_int64 ig) ++ write_int32_be (fpr_max_bytes p) ++ enc_tag.

Definition enc_fetch_topic (t : FetchTopicRequest) : bytes :=
  ftr_topic_id t ++ write_unsigned_varint (zlen (ftr_partitions t) + 1) ++
  concat (map enc_fetch_partition (ftr_partitions t)) ++ enc_tag.

Definition enc_forgotten (f : bytes * list Z) : bytes :=
  f.1 ++ write_unsigned_varint (zlen f.2 + 1) ++ concat (map write_int32_be f.2) ++ enc_tag.

Definition enc_fetch (r : FetchRequest) : bytes :=
  enc_client_id ++ write_int32_be (ig_int32 ig) ++ write_int32_be (ig_int32 ig) ++
  write_int32_be (fr_max_bytes r) ++ [ig_int8 ig] ++ write_int32_be (ig_int32 ig) ++
  write_int32_be (ig_int32 ig) ++
  write_unsigned_varint (zlen (fr_topics r) + 1) ++ concat (map enc_fetch_topic (fr_topics r)) ++
  write_unsigned_varint (zlen (ig_forgotten ig) + 1) ++
  concat (map enc_forgotten (ig_forgotten ig)) ++
  write_unsigned_varint (zlen (ig_rack ig) + 1) ++ ig_rack ig ++ enc_tag.

Definition enc_list_offsets_partition (p : ListOffsetsPartitionRequest) : bytes :=
  write_int32_be (lopr_partition_index p) ++ write_int64_be (lopr_timestamp p) ++ enc_tag.

Definition enc_list_offsets_topic (t : ListOffsetsTopicRequest) : bytes :=
  compact_string (lotr_topic_name t) ++ write_unsigned_varint (zlen (lotr_partitions t) + 1) ++
  concat (map enc_list_offsets_partition (lotr_partitions t)) ++ enc_tag.

(** An [int8_t] field as its byte. *)
Definition enc_int8 (v : Z) : bytes := [wrap_uint 8 v].

Definition enc_list_offsets (r : ListOffsetsRequest) : bytes :=
  enc_client_id ++ write_int32_be (lor_replica_id r) ++ enc_int8 (lor_isolation_level r) ++
  write_unsigned_varint (zlen (lor_topics r) + 1) ++
  concat (map enc_list_offsets_topic (lor_topics r)) ++ enc_tag.

Definition enc_metadata_topic (name : bytes) : bytes := write_int16_be (zlen name) ++ name.

Definition enc_metadata (r : MetadataRequest) : bytes :=
  enc_client_id ++ write_int32_be (zlen (mr_topics r)) ++
  concat (map enc_metadata_topic (mr_topics r)) ++
  [if mr_allow_auto_topic_creation r then 1 else 0].

Definition enc_produce_partition (p : ProducePartitionRequest) : bytes :=
  write_int32_be (ppr_partition_index p) ++ compact_string (ppr_records p) ++ enc_tag.

Definition enc_produce_topic (t : ProduceTopicRequest) : bytes :=
  compact_string (ptr_topic_name t) ++ write_unsigned_varint (zlen (ptr_partitions t) + 1) ++
  concat (map enc_produce_partition (ptr_partitions t)) ++ enc_tag.

Definition enc_produce (r : ProduceRequest) : bytes :=
  enc_client_id ++ write_unsigned_varint (zlen (ig_tx_id ig) + 1) ++ ig_tx_id ig ++
  write_int16_be (ig_int16 ig) ++ write_int32_be (ig_int32 ig) ++
  write_unsigned_varint (zlen (pr_topics r) + 1) ++ concat (map enc_produce_topic (pr_topics r)) ++
  enc_tag.

Definition enc_offset_commit_partition (p : OffsetCommitPartitionRequest) : bytes :=
  write_int32_be (ocpr_partition_index p) ++ write_int64_be (ocpr_committed_offset p) ++ enc_tag.

Definition enc_offset_commit_topic (t : OffsetCommitTopicRequest) : bytes :=
  compact_string (octr_topic_name t) ++ write_unsigned_varint (zlen (octr_partitions t) + 1) ++
  concat (map enc_offset_commit_partition (octr_partitions t)) ++ enc_tag.

Definition enc_offset_commit (r : OffsetCommitRequest) : bytes :=
  enc_client_id ++ compact_string (ocr_group_id r) ++ compact_string (ocr_member_id r) ++
  write_int32_be (ocr_generation_id r) ++ write_unsigned_varint (zlen (ocr_topics r) + 1) ++
  concat (map enc_offset_commit_topic (ocr_topics r)) ++ enc_tag.

Definition enc_offset_fetch_topic (t : OffsetFetchTopicRequest) : bytes :=
  compact_string (oftr_topic_name t) ++
  write_unsigned_varint (zlen (oftr_partition_indexes t) + 1) ++
  concat (map write_int32_be (oftr_partition_indexes t)) ++ enc_tag.

Definition enc_offset_fetch (r : OffsetFetchRequest) : bytes :=
  enc_client_id ++ compact_string (ofr_group_id r) ++
  write_unsigned_varint (zlen (ofr_topics r) + 1) ++
  concat (map enc_offset_fetch_topic (ofr_topics r)) ++ enc_tag.

Definition enc_find_coordinator (r : FindCoordinatorRequest) : bytes :=
  enc_client_id ++ compact_string (fcr_coordinator_key r) ++ enc_int8 (fcr_key_type r) ++ enc_tag.

Definition enc_join_protocol (p : JoinGroupProtocol) : bytes :=
  compact_string (jgp_name p) ++ compact_string (jgp_metadata p) ++ enc_tag.

Definition enc_join_group (r : JoinGroupRequest) : bytes :=
  enc_client_id ++ compact_string (jgr_group_id r) ++ write_int32_be (jgr_session_timeout_ms r) ++
  compact_string (jgr_member_id r) ++ compact_string (jgr_protocol_type r) ++
  write_unsigned_varint (zlen (jgr_protocols r) + 1) ++
  concat (map enc_join_protocol (jgr_protocols r)) ++ enc_tag.

Definition enc_heartbeat (r : HeartbeatRequest) : bytes :=
  enc_client_id ++ compact_string (hbr_group_id r) ++ write_int32_be (hbr_generation_id r) ++
  compact_string (hbr_member_id r) ++ compact_string (hbr_group_instance_id r) ++ enc_tag.

Definition enc_leave_group (r : LeaveGroupRequest) : bytes :=
  enc_client_id ++ compact_string (lgr_group_id r) ++ compact_string (lgr_member_id r) ++ enc_tag.

Definition enc_sync_assignment (a : SyncGroupAssignment) : bytes :=
  compact_string (sga_member_id a) ++ compact_string (sga_assignment a) ++ enc_tag.

Definition enc_sync_group (r : SyncGroupRequest) : bytes :=
  enc_client_id ++ compact_string (sgr_group_id r) ++ write_int32_be (sgr_generation_id r) ++
  compact_string (sgr_member_id r) ++ write_unsigned_varint (zlen (sgr_assignments r) + 1) ++
  concat (map enc_sync_assignment (sgr_assignments r)) ++ enc_tag.

(** The bytes of a request, after the four-byte frame length. *)
Definition encode_request (q : Request) : bytes :=
  enc_header (request_header q) ++
  match q with
  | ReqApiVersions r => []
  | ReqDescribeTopicPartitions r => enc_describe_topic_partitions r
  | ReqFetch r => enc_fetch r
  | ReqFindCoordinator r => enc_find_coordinator r
  | ReqHeartbeat r => enc_heartbeat r
  | ReqJoinGroup r => enc_join_group r
  | ReqLeaveGroup r => enc_leave_group r
  | ReqListOffsets r => enc_list_offsets r
  | ReqMetadata r => enc_metadata r
  | ReqOffsetCommit r => enc_offset_commit r
  | ReqOffsetFetch r => enc_offset_fetch r
  | ReqProduce r => enc_produce r
  | ReqSyncGroup r => enc_sync_group r
  end.

End encoders.

(** ** What the encoders accept *)

(** A request that the wire format can carry: it is well typed, its header
    has the key of its kind, topic names of a Metadata request are not empty
    (the parser drops empty ones) and fit their 16-bit length, and the two wide
    arrays fit their counts. *)
Definition wire_ok (q : Request) : Prop :=
  request_typed q ∧ api_key (request_header q) = request_api_key q ∧
  match q with
  | ReqDescribeTopicPartitions r => zlen (dtp_topic_names r) < 2 ^ 28 - 1
  | ReqMetadata r =>
      zlen (mr_topics r) < 2 ^ 31 ∧ Forall (λ n : bytes, 0 < zlen n < 2 ^ 15) (mr_topics r)
  | _ => True
  end.

(** ** Round trips of the building blocks *)

Lemma parses_bind_nil {A B} (m : reader A) (k : A → reader B) bs a b :
  parses m [] a → parses (k a) bs b → parses (m ≫= k) bs b.
Proof. apply (parses_bind m k [] bs). Qed.

Lemma parses_tag ig : parses (skip 1) (enc_tag ig) tt.
Proof. by apply parses_skip. Qed.

Lemma parses_string s : blob_typed s → parses read_compact_string (compact_string s) s.
Proof. intros [_ ?]. by apply parses_compact_string. Qed.

Lemma parses_count {A} (l : list A) :
  zlen l < 2 ^ 28 - 1 → parses read_varint (write_unsigned_varint (zlen l + 1)) (zlen l + 1).
Proof. intros. apply parses_varint. zlia. Qed.

Lemma parses_array_count {A} (P : A → Prop) l :
  array_typed P l → parses read_varint (write_unsigned_varint (zlen l + 1)) (zlen l + 1).
Proof. intros [_ ?]. by apply parses_count. Qed.

Lemma compact_count_succ {A} (l : list A) :
  zlen l < 2 ^ 28 - 1 → compact_count (zlen l + 1) = zlen l.
Proof.
  intros. pose proof (zlen_nonneg l). unfold compact_count.
  destruct (Z.gtb_spec (zlen l + 1) 0); [|lia].
  rewrite wrap_uint_small; unfold in_uint; lia.
Qed.

Lemma parses_blob s : blob_typed s → parses parse_compact_bytes (compact_string s) s.
Proof.
  intros [_ Hs]. unfold parse_compact_bytes, compact_string. pose proof (zlen_nonneg s).
  eapply parses_bind; [by apply parses_count|].
  destruct (Z.gtb_spec (zlen s + 1) 1).
  - apply parses_bytes. rewrite wrap_uint_small; unfold in_uint; lia.
  - rewrite (zlen_0_nil s) by lia. apply parses_ret.
Qed.

(** An ignored string field. *)
Lemma parses_opt_skip (s : bytes) :
  zlen s < 2 ^ 28 - 1 →
  parses (if zlen s + 1 >? 1 then skip (wrap_uint 32 (zlen s + 1 - 1)) else mret tt) s tt.
Proof.
  intros. pose proof (zlen_nonneg s). destruct (Z.gtb_spec (zlen s + 1) 1).
  - apply parses_skip. rewrite wrap_uint_small; unfold in_uint; lia.
  - rewrite (zlen_0_nil s) by lia. apply parses_ret.
Qed.

Lemma parses_compact_loop {A} (body : list A → reader (list A)) enc (P : A → Prop) xs :
  array_typed P xs →
  (∀ acc x, P x → parses (body acc) (enc x) (acc ++ [x])) →
  parses (for_count (compact_count (zlen xs + 1)) body []) (concat (map enc xs)) xs.
Proof. intros [? ?] ?. eapply parses_for_count; [|done..]. by rewrite compact_count_succ. Qed.

Lemma wrap_int_uint_8 v : in_int 8 v → wrap_int 8 (wrap_uint 8 v) = v.
Proof. intros. unfold wrap_uint. rewrite wrap_int_mod by lia. by rewrite wrap_int_small. Qed.

Lemma parses_enc_int8 v : parses read_int8 (enc_int8 v) (wrap_uint 8 v).
Proof. apply parses_int8. by apply (wrap_uint_range 8). Qed.

Lemma parses_client_id ig : ignored_ok ig → parses parse_client_id (enc_client_id ig) tt.
Proof.
  intros Hig. pose proof (igok_client _ Hig) as Hc. unfold parse_client_id, enc_client_id.
  destruct (ig_client_id ig) as [c|].
  - pose proof (zlen_nonneg c).
    eapply parses_bind; [apply parses_int16; unfold in_int; lia|].
    eapply parses_bind; [|apply parses_tag].
    destruct (Z.gtb_spec (zlen c) 0); [by apply parses_skip|].
    rewrite (zlen_0_nil c) by lia. apply parses_ret.
  - eapply parses_bind; [by apply parses_int16|].
    apply parses_bind_nil with tt; [apply parses_ret|apply parses_tag].
Qed.

Create HintDb parses.
#[export] Hint Resolve parses_tag parses_string parses_blob parses_client_id parses_int16
  parses_int32 parses_int64 parses_count parses_array_count parses_enc_int8 parses_int8 : parses.

(** Follow a monadic block and its encoding field by field. *)
Ltac p_leaf := solve [ eauto with parses nocore | by apply parses_skip ].
Ltac p_step :=
  first [ eapply parses_bind; [p_leaf|] | eapply parses_bind_ret; [p_leaf|] ]; cbn beta.
Ltac p_steps := repeat p_step; try apply parses_ret.
Ltac p_loop L := eapply parses_bind; [eapply parses_compact_loop; [eassumption|apply L]|]; cbn beta.

Section round_trips.
Context (ig : Ignored) (Hig : ignored_ok ig).

Lemma ig_int32_ok : in_int 32 (ig_int32 ig).
Proof using Hig. by apply igok_int32. Qed.
Lemma ig_int16_ok : in_int 16 (ig_int16 ig).
Proof using Hig. by apply igok_int16. Qed.
Hint Resolve ig_int32_ok ig_int16_ok : parses.

(** *** Array elements *)

Lemma parses_dtp_topic acc x :
  blob_typed x → parses (parse_dtp_topic acc) (enc_dtp_topic ig x) (acc ++ [x]).
Proof using. intros. unfold parse_dtp_topic, enc_dtp_topic. p_steps. Qed.

Lemma parses_attempt {A} (m : reader A) bs a : parses m bs a → parses (attempt m) bs (Ok a).
Proof using. intros Hm pre post. unfold attempt. by rewrite Hm. Qed.

Lemma parses_fetch_partition acc x :
  fetch_partition_typed x →
  parses (parse_fetch_partition acc) (enc_fetch_partition ig x) (acc ++ [x]).
Proof using.
  intros (? & ? & ?). unfold parse_fetch_partition, enc_fetch_partition.
  do 5 p_step. eapply parses_bind; [by apply parses_attempt, parses_int32|]. cbn beta.
  p_step. apply parses_bind_nil with (fpr_max_bytes x); [apply parses_ret|].
  destruct x. apply parses_ret.
Qed.

Lemma parses_fetch_topic acc x :
  fetch_topic_typed x → parses (parse_fetch_topic acc) (enc_fetch_topic ig x) (acc ++ [x]).
Proof using.
  intros [[_ Hid] Hp]. unfold parse_fetch_topic, enc_fetch_topic.
  eapply parses_bind; [by apply parses_bytes|]. cbn beta.
  p_step. p_loop parses_fetch_partition. destruct x. p_steps.
Qed.

Lemma parses_list_offsets_partition acc x :
  list_offsets_partition_typed x →
  parses (parse_list_offsets_partition acc) (enc_list_offsets_partition ig x) (acc ++ [x]).
Proof using.
  intros [? ?]. unfold parse_list_offsets_partition, enc_list_offsets_partition.
  destruct x. p_steps.
Qed.

Lemma parses_list_offsets_topic acc x :
  list_offsets_topic_typed x →
  parses (parse_list_offsets_topic acc) (enc_list_offsets_topic ig x) (acc ++ [x]).
Proof using.
  intros [? ?]. unfold parse_list_offsets_topic, enc_list_offsets_topic.
  do 2 p_step. p_loop parses_list_offsets_partition. destruct x. p_steps.
Qed.

Lemma parses_produce_partition acc x :
  produce_partition_typed x →
  parses (parse_produce_partition acc) (enc_produce_partition ig x) (acc ++ [x]).
Proof using.
  intros [? ?]. unfold parse_produce_partition, enc_produce_partition. destruct x. p_steps.
Qed.

Lemma parses_produce_topic acc x :
  produce_topic_typed x →
  parses (parse_produce_topic acc) (enc_produce_topic ig x) (acc ++ [x]).
Proof using.
  intros [? ?]. unfold parse_produce_topic, enc_produce_topic.
  do 2 p_step. p_loop parses_produce_partition. destruct x. p_steps.
Qed.

Lemma parses_offset_commit_partition acc x :
  offset_commit_partition_typed x →
  parses (parse_offset_commit_partition acc) (enc_offset_commit_partition ig x) (acc ++ [x]).
Proof using.
  intros [? ?]. unfold parse_offset_commit_partition, enc_offset_commit_partition.
  destruct x. p_steps.
Qed.

Lemma parses_offset_commit_topic acc x :
  offset_commit_topic_typed x →
  parses (parse_offset_commit_topic acc) (enc_offset_commit_topic ig x) (acc ++ [x]).
Proof using.
  intros [? ?]. unfold parse_offset_commit_topic, enc_offset_commit_topic.
  do 2 p_step. p_loop parses_offset_commit_partition. destruct x. p_steps.
Qed.

Lemma parses_partition_index acc x :
  in_int 32 x → parses (parse_partition_index acc) (write_int32_be x) (acc ++ [x]).
Proof using. intros. unfold parse_partition_index. p_steps. Qed.

Lemma parses_offset_fetch_topic acc x :
  offset_fetch_topic_typed x →
  parses (parse_offset_fetch_topic acc) (enc_offset_fetch_topic ig x) (acc ++ [x]).
Proof using.
  intros [? ?]. unfold parse_offset_fetch_topic, enc_offset_fetch_topic.
  do 2 p_step. p_loop parses_partition_index. destruct x. p_steps.
Qed.

Lemma parses_join_protocol acc x :
  join_protocol_typed x →
  parses (parse_join_protocol acc) (enc_join_protocol ig x) (acc ++ [x]).
Proof using. intros [? ?]. unfold parse_join_protocol, enc_join_protocol. destruct x. p_steps. Qed.

Lemma parses_sync_assignment acc x :
  sync_assignment_typed x →
  parses (parse_sync_assignment acc) (enc_sync_assignment ig x) (acc ++ [x]).
Proof using. intros [? ?]. unfold parse_sync_assignment, enc_sync_assignment. destruct x. p_steps. Qed.

Lemma parses_metadata_topic acc x :
  0 < zlen x < 2 ^ 15 →
  parses (parse_metadata_topic acc) (enc_metadata_topic x) (acc ++ [x]).
Proof using.
  intros Hx. unfold parse_metadata_topic, enc_metadata_topic.
  eapply parses_bind; [apply parses_int16; unfold in_int; lia|]. cbn beta.
  destruct (Z.gtb_spec (zlen x) 0); [|lia].
  eapply parses_bind_ret; [by apply parses_bytes|apply parses_ret].
Qed.

Lemma zlen_int32s (l : list Z) : zlen (concat (map write_int32_be l)) = zlen l * 4.
Proof using. induction l as [|x l IH]; [done|]. cbn [map concat].
  rewrite zlen_app, IH, zlen_cons. change (zlen (write_int32_be x)) with 4. lia. Qed.

Lemma parses_forgotten_topic u x :
  forgotten_typed x → parses (parse_forgotten_topic u) (enc_forgotten ig x) tt.
Proof using.
  intros [? ?]. unfold parse_forgotten_topic, enc_forgotten.
  eapply parses_bind; [by apply parses_skip|]. cbn beta. p_step.
  eapply parses_bind; [apply parses_skip|apply parses_tag].
  by rewrite compact_count_succ, zlen_int32s.
Qed.

Lemma parses_forgotten n :
  n = zlen (ig_forgotten ig) →
  parses (for_count n parse_forgotten_topic tt) (concat (map (enc_forgotten ig) (ig_forgotten ig))) tt.
Proof using Hig.
  intros -> pre post. destruct (igok_forgotten _ Hig) as [Hf _].
  rewrite for_count_rloop. unfold zlen at 1. rewrite Nat2Z.id. revert pre post.
  change (parses (rloop (length (ig_forgotten ig)) parse_forgotten_topic tt)
    (concat (map (enc_forgotten ig) (ig_forgotten ig))) tt).
  induction Hf as [|f fs Hf _ IH]; [apply parses_ret|].
  simpl. eapply parses_bind; [by apply parses_forgotten_topic|apply IH].
Qed.
(** *** The cases *)

Lemma parses_header h : header_typed h → parses parse_header (enc_header h) h.
Proof using. intros (? & ? & ?). unfold parse_header, enc_header. destruct h. p_steps. Qed.

Lemma parses_describe r :
  array_typed blob_typed (dtp_topic_names r) →
  parses (parse_describe_topic_partitions (dtp_header r)) (enc_describe_topic_partitions ig r)
    (ReqDescribeTopicPartitions r).
Proof using Hig.
  intros [Hp Hl]. pose proof (zlen_nonneg (dtp_topic_names r)).
  unfold parse_describe_topic_partitions, enc_describe_topic_partitions, enc_cursor.
  do 2 p_step.
  eapply parses_bind; [eapply parses_for_count; [|apply parses_dtp_topic|done]|].
  { rewrite wrap_uint_small; unfold in_uint; lia. }
  cbn beta. p_step. pose proof (igok_cursor _ Hig) as Hc.
  destruct (ig_cursor ig) as [[[flag name] partition]|].
  - destruct Hc as (? & Hne & ? & ?). rewrite <-(app_assoc [flag]).
    eapply (parses_bind _ _ [flag]); [by apply parses_int8|]. cbn beta.
    destruct (Z.eqb_spec flag 255); [done|]. cbn [negb].
    eapply (parses_bind _ _ (compact_string name ++ _)).
    + eapply parses_bind; [by apply parses_compact_string|]. p_step. apply parses_tag.
    + destruct r. p_steps.
  - eapply (parses_bind _ _ [255]); [by apply parses_int8|]. cbn [Z.eqb negb].
    eapply parses_bind_nil; [apply parses_ret|]. destruct r. p_steps.
Qed.

Lemma parses_fetch r :
  array_typed fetch_topic_typed (fr_topics r) → in_int 32 (fr_max_bytes r) →
  parses (parse_fetch (fr_header r)) (enc_fetch ig r) (ReqFetch r).
Proof using Hig.
  intros Ht Hm. unfold parse_fetch, enc_fetch. pose proof (igok_int8 _ Hig).
  destruct (igok_forgotten _ Hig) as [_ Hf]. pose proof (igok_rack _ Hig).
  do 8 p_step. p_loop parses_fetch_topic. p_step.
  eapply parses_bind; [apply parses_forgotten; by rewrite compact_count_succ|]. cbn beta.
  p_step. eapply parses_bind; [by apply parses_opt_skip|]. destruct r. p_steps.
Qed.

Lemma parses_list_offsets r :
  in_int 32 (lor_replica_id r) → in_int 8 (lor_isolation_level r) →
  array_typed list_offsets_topic_typed (lor_topics r) →
  parses (parse_list_offsets (lor_header r)) (enc_list_offsets ig r) (ReqListOffsets r).
Proof using Hig.
  intros Hr Hi Ht. unfold parse_list_offsets, enc_list_offsets.
  do 4 p_step. p_loop parses_list_offsets_topic. p_step.
  rewrite wrap_int_uint_8 by done. destruct r. apply parses_ret.
Qed.

Lemma parses_metadata r :
  zlen (mr_topics r) < 2 ^ 31 → Forall (λ n : bytes, 0 < zlen n < 2 ^ 15) (mr_topics r) →
  parses (parse_metadata (mr_header r)) (enc_metadata ig r) (ReqMetadata r).
Proof using Hig.
  intros Hl Ht. unfold parse_metadata, enc_metadata. pose proof (zlen_nonneg (mr_topics r)).
  p_step. eapply parses_bind; [apply parses_int32; unfold in_int; lia|]. cbn beta.
  apply parses_bind with (mr_topics r).
  - destruct (Z.gtb_spec (zlen (mr_topics r)) 0).
    + eapply parses_for_count; [done| |done]. apply parses_metadata_topic.
    + rewrite (zlen_0_nil (mr_topics r)) by lia. apply parses_ret.
  - cbn beta. destruct r as [h ts []]; cbn [mr_allow_auto_topic_creation];
      (eapply parses_bind_ret; [by apply parses_int8|apply parses_ret]).
Qed.

Lemma parses_produce r :
  array_typed produce_topic_typed (pr_topics r) →
  parses (parse_produce (pr_header r)) (enc_produce ig r) (ReqProduce r).
Proof using Hig.
  intros Ht. unfold parse_produce, enc_produce. pose proof (igok_tx _ Hig).
  do 2 p_step. eapply parses_bind; [by apply parses_opt_skip|]. cbn beta.
  do 3 p_step. p_loop parses_produce_topic. destruct r. p_steps.
Qed.

Lemma parses_offset_commit r :
  blob_typed (ocr_group_id r) → blob_typed (ocr_member_id r) →
  in_int 32 (ocr_generation_id r) → array_typed offset_commit_topic_typed (ocr_topics r) →
  parses (parse_offset_commit (ocr_header r)) (enc_offset_commit ig r) (ReqOffsetCommit r).
Proof using Hig.
  intros. unfold parse_offset_commit, enc_offset_commit.
  do 5 p_step. p_loop parses_offset_commit_topic. destruct r. p_steps.
Qed.

Lemma parses_offset_fetch r :
  blob_typed (ofr_group_id r) → array_typed offset_fetch_topic_typed (ofr_topics r) →
  parses (parse_offset_fetch (ofr_header r)) (enc_offset_fetch ig r) (ReqOffsetFetch r).
Proof using Hig.
  intros. unfold parse_offset_fetch, enc_offset_fetch.
  do 3 p_step. p_loop parses_offset_fetch_topic. destruct r. p_steps.
Qed.

Lemma parses_find_coordinator r :
  blob_typed (fcr_coordinator_key r) → in_int 8 (fcr_key_type r) →
  parses (parse_find_coordinator (fcr_header r)) (enc_find_coordinator ig r) (ReqFindCoordinator r).
Proof using Hig.
  intros. unfold parse_find_coordinator, enc_find_coordinator. do 4 p_step.
  rewrite wrap_int_uint_8 by done. destruct r. apply parses_ret.
Qed.

Lemma parses_join_group r :
  blob_typed (jgr_group_id r) → in_int 32 (jgr_session_timeout_ms r) →
  blob_typed (jgr_member_id r) → blob_typed (jgr_protocol_type r) →
  array_typed join_protocol_typed (jgr_protocols r) →
  parses (parse_join_group (jgr_header r)) (enc_join_group ig r) (ReqJoinGroup r).
Proof using Hig.
  intros. unfold parse_join_group, enc_join_group.
  do 6 p_step. p_loop parses_join_protocol. destruct r. p_steps.
Qed.

Lemma parses_heartbeat r :
  blob_typed (hbr_group_id r) → in_int 32 (hbr_generation_id r) →
  blob_typed (hbr_member_id r) → blob_typed (hbr_group_instance_id r) →
  parses (parse_heartbeat (hbr_header r)) (enc_heartbeat ig r) (ReqHeartbeat r).
Proof using Hig. intros. unfold parse_heartbeat, enc_heartbeat. destruct r. p_steps. Qed.

Lemma parses_leave_group r :
  blob_typed (lgr_group_id r) → blob_typed (lgr_member_id r) →
  parses (parse_leave_group (lgr_header r)) (enc_leave_group ig r) (ReqLeaveGroup r).
Proof using Hig. intros. unfold parse_leave_group, enc_leave_group. destruct r. p_steps. Qed.

Lemma parses_sync_group r :
  blob_typed (sgr_group_id r) → in_int 32 (sgr_generation_id r) →
  blob_typed (sgr_member_id r) → array_typed sync_assignment_typed (sgr_assignments r) →
  parses (parse_sync_group (sgr_header r)) (enc_sync_group ig r) (ReqSyncGroup r).
Proof using Hig.
  intros. unfold parse_sync_group, enc_sync_group.
  do 5 p_step. p_loop parses_sync_assignment. destruct r. p_steps.
Qed.
End round_trips.

#[export] Hint Resolve parses_describe parses_fetch parses_list_offsets parses_metadata
  parses_produce parses_offset_commit parses_offset_fetch parses_find_coordinator
  parses_join_group parses_heartbeat parses_leave_group parses_sync_group : parses.

Lemma parse_encoded (ig : Ignored) (q : Request) (post : bytes) :
  ignored_ok ig → wire_ok q → parse_request (encode_request ig q ++ post) = Ok q.
Proof.
  intros Hig ([Hh Ht] & Hk & Hx). apply parses_run. unfold encode_request.
  eapply parses_bind; [by apply parses_header|]. cbn beta. rewrite Hk.
  destruct q; cbn [request_api_key parse_body request_header] in *; destruct_and?;
    try solve [eauto with parses nocore].
  - destruct r. apply parses_ret.
  - apply parses_describe; [done|]. by destruct Ht.
Qed.

(** C2: The parser inverts the wire format: for each of the thirteen request
    kinds, every request the format can carry is read back unchanged from its
    encoding, whatever the ignored fields contain and whatever bytes follow the
    message. *)
Theorem parse_request_roundtrip (ig : Ignored) (q : Request) (post : bytes) :
  ignored_ok ig → wire_ok q → parse_request (encode_request ig q ++ post) = Ok q.
Proof. apply parse_encoded. Qed.

Definition sample_ignored : Ignored :=
  mkIgnored (Some (str "client")) 0 1 (-1) 500 (-1) [] (str "rack-a")
    (Some (1, str "next", 3)) [(replicate 16 9, [4; 5])].

Definition sample_fetch : Request :=
  ReqFetch (mkFetchRequest (mkRequestHeader 1 16 42)
    [mkFetchTopicRequest (replicate 16 7) [mkFetchPartitionRequest 0 (-1) 1048576;
                                           mkFetchPartitionRequest 1 1000 65536]] 52428800).

Lemma sample_ignored_ok : ignored_ok sample_ignored.
Proof.
  split; [decide_now..| |].
  - split_and!; decide_now.
  - split; [|decide_now]. apply Forall_singleton. split; decide_now.
Qed.

Lemma parse_request_roundtrip_witness :
  ignored_ok sample_ignored ∧ wire_ok sample_fetch ∧
  parse_request (encode_request sample_ignored sample_fetch ++ []) = Ok sample_fetch.
Proof.
  pose proof sample_ignored_ok as Hi.
  assert (Hw : wire_ok sample_fetch).
  { split_and!; [|done..]. split; [split_and!; decide_now|]. split; [|decide_now].
    split; [|decide_now]. apply Forall_singleton. split.
    - split; decide_now.
    - split; [|decide_now]. apply Forall_cons. split; [split_and!; decide_now|].
      apply Forall_singleton. split_and!; decide_now. }
  split; [exact Hi|]. split; [exact Hw|].
  exact (parse_request_roundtrip sample_ignored sample_fetch [] Hi Hw).
Defined.
