(* ===== verification/ByteWriter.v ===== *)
(** * The output cursor (src/src/util/byte_writer.hpp)

    [ByteWriter] is a mutable span with an offset.  A write that does not fit
    is an assertion failure in a debug build and an out-of-bounds store
    otherwise; both are [Fault undefined_behaviour] here.  The judgement
    [emits m bs] characterises a sequence of writes completely: it stores
    exactly [bs] when they fit and faults when they do not. *)

From S2P Require Import Prelude Endian Varint.

Record ByteWriter := mkWriter { wdata_ : bytes; woffset_ : Z }.

(** A sequence of writes; the sizes [write_varint] returns are not used by
    any caller. *)
Definition writer : Type := ByteWriter → outcome ByteWriter.

Definition wdone : writer := λ w, Ok w.
Definition wseq (m1 m2 : writer) : writer := λ w, w1 ← m1 w; m2 w1.
Notation "m1 >>> m2" := (wseq m1 m2) (at level 66, right associativity).

(** Copy [bs] to [data_ + offset_] and advance. *)
Definition put (bs : bytes) (w : ByteWriter) : ByteWriter :=
  mkWriter (ztake (woffset_ w) (wdata_ w) ++ bs ++ zdrop (woffset_ w + zlen bs) (wdata_ w))
           (woffset_ w + zlen bs).

Definition store (bs : bytes) : writer := λ w,
  if woffset_ w + zlen bs <=? zlen (wdata_ w) then Ok (put bs w) else Fault undefined_behaviour.

Definition write_int8 (value : Z) : writer := store [value].
Definition write_int16 (value : Z) : writer := store (write_int16_be value).
Definition write_int32 (value : Z) : writer := store (write_int32_be value).
Definition write_int64 (value : Z) : writer := store (write_int64_be value).
Definition write_bytes (data : bytes) : writer := store data.
Definition write_varint (value : Z) : writer := store (write_unsigned_varint value).
Definition write_signed_varint (value : Z) : writer := store (Varint.write_signed_varint value).

(** [static_cast<uint32_t>(n) + 1] *)
Definition u32_succ (n : Z) : Z := wrap_uint 32 (wrap_uint 32 n + 1).

Definition write_compact_string (s : bytes) : writer :=
  write_varint (u32_succ (zlen s)) >>> write_bytes s.

(** [for (const auto& x : l) f(x);] *)
Fixpoint for_each {A} (f : A → writer) (l : list A) : writer :=
  match l with
  | [] => wdone
  | x :: l' => f x >>> for_each f l'
  end.

(** [std::vector<uint8_t> buf(n); ByteWriter writer(buf); ...; return buf;] *)
Definition with_buffer (n : Z) (m : writer) : outcome bytes :=
  w ← m (mkWriter (replicate (Z.to_nat n) 0) 0); Ok (wdata_ w).

(** ** Reasoning *)

Definition writer_ok (w : ByteWriter) : Prop := 0 ≤ woffset_ w ≤ zlen (wdata_ w).

Definition emits (m : writer) (bs : bytes) : Prop :=
  ∀ w, writer_ok w → m w = store bs w.

Lemma put_nil w : put [] w = w.
Proof.
  unfold put. change (zlen (@nil Z)) with 0. rewrite Z.add_0_r. destruct w. simpl.
  by rewrite ztake_zdrop.
Qed.

Lemma put_length bs w :
  writer_ok w → woffset_ w + zlen bs ≤ zlen (wdata_ w) → zlen (wdata_ (put bs w)) = zlen (wdata_ w).
Proof.
  unfold writer_ok, put. intros. simpl. pose proof (zlen_nonneg bs).
  rewrite !zlen_app, zlen_ztake, zlen_zdrop by lia. lia.
Qed.

Lemma put_ok bs w :
  writer_ok w → woffset_ w + zlen bs ≤ zlen (wdata_ w) → writer_ok (put bs w).
Proof.
  intros Hw Hl. unfold writer_ok. rewrite put_length by done. unfold put, writer_ok in *.
  simpl. zlia.
Qed.

Lemma put_put b1 b2 w :
  writer_ok w → woffset_ w + zlen b1 + zlen b2 ≤ zlen (wdata_ w) →
  put b2 (put b1 w) = put (b1 ++ b2) w.
Proof.
  unfold writer_ok. intros Hw Hl. pose proof (zlen_nonneg b1). pose proof (zlen_nonneg b2).
  assert (Ht : zlen (ztake (woffset_ w) (wdata_ w) ++ b1) = woffset_ w + zlen b1)
    by (rewrite zlen_app, zlen_ztake by lia; done).
  unfold put. cbn [wdata_ woffset_]. f_equal; [|zlia].
  rewrite (app_assoc (ztake _ _) b1), <-Ht, ztake_app, <-!app_assoc. do 3 f_equal.
  rewrite <-zdrop_zdrop by zlia. rewrite (app_assoc (ztake _ _)), zdrop_app.
  rewrite zdrop_zdrop by lia. f_equal. zlia.
Qed.

Lemma emits_store bs : emits (store bs) bs.
Proof. by intros w _. Qed.

Lemma emits_done : emits wdone [].
Proof.
  intros w Hw. unfold wdone, store, writer_ok in *. change (zlen (@nil Z)) with 0.
  destruct (Z.leb_spec (woffset_ w + 0) (zlen (wdata_ w))); [|lia]. by rewrite put_nil.
Qed.

Lemma emits_seq m1 m2 b1 b2 : emits m1 b1 → emits m2 b2 → emits (m1 >>> m2) (b1 ++ b2).
Proof.
  intros H1 H2 w Hw. unfold wseq. rewrite H1 by done. unfold store.
  rewrite zlen_app. pose proof (zlen_nonneg b2).
  destruct (Z.leb_spec (woffset_ w + zlen b1) (zlen (wdata_ w))) as [Hl|Hl]; simpl.
  - rewrite H2 by (by apply put_ok). unfold store. rewrite put_length by done.
    replace (woffset_ (put b1 w) + zlen b2) with (woffset_ w + (zlen b1 + zlen b2))
      by (unfold put; simpl; lia).
    destruct (Z.leb_spec (woffset_ w + (zlen b1 + zlen b2)) (zlen (wdata_ w))); [|done].
    rewrite put_put by (try done; lia). done.
  - destruct (Z.leb_spec (woffset_ w + (zlen b1 + zlen b2)) (zlen (wdata_ w))); [lia|done].
Qed.

Lemma emits_for_each {A} (f : A → writer) (enc : A → bytes) l :
  (∀ x, emits (f x) (enc x)) → emits (for_each f l) (concat (map enc l)).
Proof.
  intros Hf. induction l as [|x l IH]; [apply emits_done|]. simpl. by apply emits_seq.
Qed.

Lemma emits_if (b : bool) m1 m2 b1 b2 :
  emits m1 b1 → emits m2 b2 → emits (if b then m1 else m2) (if b then b1 else b2).
Proof. by destruct b. Qed.

(** Filling a buffer: the whole output when the sizes agree, a fault when the
    buffer is too small. *)
Lemma with_buffer_emits m bs n :
  emits m bs → 0 ≤ n →
  with_buffer n m =
    if n <? zlen bs then Fault undefined_behaviour
    else Ok (bs ++ replicate (Z.to_nat (n - zlen bs)) 0).
Proof.
  intros Hm Hn. unfold with_buffer. rewrite Hm.
  2:{ unfold writer_ok. simpl. rewrite zlen_replicate. lia. }
  unfold store. cbn [woffset_ wdata_]. rewrite zlen_replicate, Z2Nat.id by done.
  destruct (Z.ltb_spec n (zlen bs)) as [Hl|Hl].
  - destruct (Z.leb_spec (0 + zlen bs) n); [lia|done].
  - destruct (Z.leb_spec (0 + zlen bs) n); [|lia]. simpl. f_equal.
    unfold put, ztake, zdrop. simpl. f_equal.
    rewrite drop_replicate. f_equal. pose proof (zlen_nonneg bs). lia.
Qed.

Lemma with_buffer_exact m bs n :
  emits m bs → n = zlen bs → with_buffer n m = Ok bs.
Proof.
  intros Hm ->. rewrite (with_buffer_emits m bs) by (try done; apply zlen_nonneg).
  rewrite Z.ltb_irrefl, Z.sub_diag. simpl. by rewrite app_nil_r.
Qed.

(** [size] of a compact-string prefix is always in range. *)
Lemma u32_succ_range n : in_uint 32 (u32_succ n).
Proof. by apply wrap_uint_range. Qed.

Definition cstr (s : bytes) : bytes := write_unsigned_varint (u32_succ (zlen s)) ++ s.

Lemma emits_compact_string s : emits (write_compact_string s) (cstr s).
Proof. apply emits_seq; apply emits_store. Qed.

Lemma zlen_cstr s : zlen (cstr s) = varint_encoded_size (u32_succ (zlen s)) + zlen s.
Proof. unfold cstr. rewrite zlen_app, varint_encoded_size_length by apply u32_succ_range. done. Qed.

Create HintDb emits.
#[export] Hint Resolve emits_store emits_done emits_compact_string emits_if : emits.
