(* ===== verification/Serializer.v ===== *)
(** * The response serializer (src/src/protocol/serializer.cpp)

    [serialize] visits the response variant; each lambda is one definition.
    It first computes [body_size], allocates [4 + body_size] zeroed bytes and
    then writes the fields.  [size_t] arithmetic on container sizes does not
    wrap; the casts of sizes to [uint32_t] and [int32_t] are written out. *)

From S2P Require Import Prelude Endian Varint ByteWriter Protocol.

Definition kResponseHeaderV1Size : Z := 5.

(** [varint_encoded_size(static_cast<uint32_t>(l.size()) + 1)] *)
Definition count_size {A} (l : list A) : Z := varint_encoded_size (u32_succ (zlen l)).
(** [writer.write_varint(static_cast<uint32_t>(l.size()) + 1)] *)
Definition write_count {A} (l : list A) : writer := write_varint (u32_succ (zlen l)).

(** [s.empty() ? 0 : static_cast<uint32_t>(s.size()) + 1] *)
Definition nullable_varint (s : bytes) : Z :=
  match s with [] => 0 | _ => u32_succ (zlen s) end.
(** [if (s.empty()) write_varint(0) else write_compact_string(s)] *)
Definition write_nullable (s : bytes) : writer :=
  match s with [] => write_varint 0 | _ => write_compact_string s end.
(** [if (!b.empty()) write_bytes(b)] *)
Definition write_nonempty (b : bytes) : writer :=
  match b with [] => wdone | _ => write_bytes b end.

Definition write_compact_int32_array (arr : list Z) : writer :=
  write_count arr >>> for_each write_int32 arr.

Definition compact_int32_array_size (arr : list Z) : Z := count_size arr + zlen arr * 4.

Definition partition_entry_size (p : PartitionMetadata) : Z :=
  14 + compact_int32_array_size (pm_replica_nodes p) + compact_int32_array_size (pm_isr_nodes p) +
  compact_int32_array_size (pm_eligible_leader_replicas p) +
  compact_int32_array_size (pm_last_known_elr p) +
  compact_int32_array_size (pm_offline_replicas p) + 1.

(** *** ApiVersionsResponse *)
Definition ser_api_versions (r : ApiVersionsResponse) : outcome bytes :=
  let count := u32_succ (zlen (avp_api_keys r)) in
  let varint_len := varint_encoded_size count in
  let body_size := 4 + 2 + varint_len + zlen (avp_api_keys r) * 7 + 4 + 1 in
  with_buffer (4 + body_size) (
    write_int32 (wrap_int 32 body_size) >>>
    write_int32 (avp_correlation_id r) >>>
    write_int16 (avp_error_code r) >>>
    write_varint count >>>
    for_each (λ entry,
      write_int16 (ave_api_key entry) >>>
      write_int16 (ave_min_version entry) >>>
      write_int16 (ave_max_version entry) >>>
      write_int8 0) (avp_api_keys r) >>>
    write_int32 (avp_throttle_time_ms r) >>>
    write_int8 0).

(** *** DescribeTopicPartitionsResponse *)
Definition dtp_topic_size (t : TopicMetadata) : Z :=
  2 + varint_encoded_size (u32_succ (zlen (tm_topic_name t))) + zlen (tm_topic_name t) +
  16 + 1 + 4 + 1 +
  match tm_partitions t with
  | [] => 1
  | _ => count_size (tm_partitions t) + zsum partition_entry_size (tm_partitions t)
  end.

Definition write_dtp_partition (p : PartitionMetadata) : writer :=
  write_int16 (pm_error_code p) >>>
  write_int32 (pm_partition_index p) >>>
  write_int32 (pm_leader_id p) >>>
  write_int32 (pm_leader_epoch p) >>>
  write_compact_int32_array (pm_replica_nodes p) >>>
  write_compact_int32_array (pm_isr_nodes p) >>>
  write_compact_int32_array (pm_eligible_leader_replicas p) >>>
  write_compact_int32_array (pm_last_known_elr p) >>>
  write_compact_int32_array (pm_offline_replicas p) >>>
  write_int8 0.

Definition write_dtp_topic (t : TopicMetadata) : writer :=
  write_int16 (tm_error_code t) >>>
  write_compact_string (tm_topic_name t) >>>
  write_bytes (tm_topic_id t) >>>
  write_int8 (if tm_is_internal t then 1 else 0) >>>
  match tm_partitions t with
  | [] => write_int8 1
  | _ => write_count (tm_partitions t) >>> for_each write_dtp_partition (tm_partitions t)
  end >>>
  write_int32 (tm_authorized_operations t) >>>
  write_int8 0.

Definition ser_describe_topic_partitions (r : DescribeTopicPartitionsResponse) : outcome bytes :=
  let body_size := kResponseHeaderV1Size + 4 + 1 + zsum dtp_topic_size (dtpp_topics r) + 2 in
  with_buffer (4 + body_size) (
    write_int32 (wrap_int 32 body_size) >>>
    write_int32 (dtpp_correlation_id r) >>>
    write_int8 0 >>>
    write_int32 (dtpp_throttle_time_ms r) >>>
    write_count (dtpp_topics r) >>>
    for_each write_dtp_topic (dtpp_topics r) >>>
    write_int8 255 >>>
    write_int8 0).

(** *** FetchResponse *)
Definition fetch_partition_size (p : FetchPartitionResponse) : Z :=
  35 + count_size (fpp_records p) + zlen (fpp_records p) + 1.
Definition fetch_topic_size (t : FetchTopicResponse) : Z :=
  16 + count_size (ftp_partitions t) + zsum fetch_partition_size (ftp_partitions t) + 1.

Definition write_fetch_partition (p : FetchPartitionResponse) : writer :=
  write_int32 (fpp_partition_index p) >>>
  write_int16 (fpp_error_code p) >>>
  write_int64 0 >>>
  write_int64 0 >>>
  write_int64 0 >>>
  write_varint 1 >>>
  write_int32 0 >>>
  write_count (fpp_records p) >>>
  write_nonempty (fpp_records p) >>>
  write_int8 0.

Definition write_fetch_topic (t : FetchTopicResponse) : writer :=
  write_bytes (ftp_topic_id t) >>>
  write_count (ftp_partitions t) >>>
  for_each write_fetch_partition (ftp_partitions t) >>>
  write_int8 0.

Definition ser_fetch (r : FetchResponse) : outcome bytes :=
  let body_size := 4 + 1 + 4 + 2 + 4 + count_size (fp_responses r) +
                   zsum fetch_topic_size (fp_responses r) + 1 in
  with_buffer (4 + body_size) (
    write_int32 (wrap_int 32 body_size) >>>
    write_int32 (fp_correlation_id r) >>>
    write_int8 0 >>>
    write_int32 (fp_throttle_time_ms r) >>>
    write_int16 (fp_error_code r) >>>
    write_int32 (fp_session_id r) >>>
    write_count (fp_responses r) >>>
    for_each write_fetch_topic (fp_responses r) >>>
    write_int8 0).

(** *** MetadataResponse *)
Definition metadata_broker_size (b : MetadataBroker) : Z :=
  4 + varint_encoded_size (u32_succ (zlen (mb_host b))) + zlen (mb_host b) + 4 +
  varint_encoded_size (nullable_varint (mb_rack b)) + zlen (mb_rack b) + 1.

Definition metadata_partition_size (p : PartitionMetadata) : Z :=
  2 + 4 + 4 + 4 + compact_int32_array_size (pm_replica_nodes p) +
  compact_int32_array_size (pm_isr_nodes p) + compact_int32_array_size (pm_offline_replicas p) +
  compact_int32_array_size (pm_eligible_leader_replicas p) +
  compact_int32_array_size (pm_last_known_elr p) + 1.

Definition metadata_topic_size (t : MetadataTopicResponse) : Z :=
  2 + varint_encoded_size (nullable_varint (mtp_topic_name t)) + zlen (mtp_topic_name t) +
  16 + 1 + 4 + count_size (mtp_partitions t) +
  zsum metadata_partition_size (mtp_partitions t) + 1.

Definition write_metadata_broker (b : MetadataBroker) : writer :=
  write_int32 (mb_node_id b) >>>
  write_compact_string (mb_host b) >>>
  write_int32 (mb_port b) >>>
  write_nullable (mb_rack b) >>>
  write_int8 0.

Definition write_metadata_partition (p : PartitionMetadata) : writer :=
  write_int16 (pm_error_code p) >>>
  write_int32 (pm_partition_index p) >>>
  write_int32 (pm_leader_id p) >>>
  write_int32 (pm_leader_epoch p) >>>
  write_compact_int32_array (pm_replica_nodes p) >>>
  write_compact_int32_array (pm_isr_nodes p) >>>
  write_compact_int32_array (pm_offline_replicas p) >>>
  write_compact_int32_array (pm_eligible_leader_replicas p) >>>
  write_compact_int32_array (pm_last_known_elr p) >>>
  write_int8 0.

Definition write_metadata_topic (t : MetadataTopicResponse) : writer :=
  write_int16 (mtp_error_code t) >>>
  write_nullable (mtp_topic_name t) >>>
  write_bytes (mtp_topic_id t) >>>
  write_int8 (if mtp_is_internal t then 1 else 0) >>>
  write_count (mtp_partitions t) >>>
  for_each write_metadata_partition (mtp_partitions t) >>>
  write_int32 (mtp_topic_authorized_operations t) >>>
  write_int8 0.

Definition ser_metadata (r : MetadataResponse) : outcome bytes :=
  let body_size :=
    4 + 1 + 4 + count_size (mp_brokers r) + zsum metadata_broker_size (mp_brokers r) +
    varint_encoded_size (nullable_varint (mp_cluster_id r)) + zlen (mp_cluster_id r) + 4 +
    count_size (mp_topics r) + zsum metadata_topic_size (mp_topics r) + 4 + 1 in
  with_buffer (4 + body_size) (
    write_int32 (wrap_int 32 body_size) >>>
    write_int32 (mp_correlation_id r) >>>
    write_int8 0 >>>
    write_int32 (mp_throttle_time_ms r) >>>
    write_count (mp_brokers r) >>>
    for_each write_metadata_broker (mp_brokers r) >>>
    write_nullable (mp_cluster_id r) >>>
    write_int32 (mp_controller_id r) >>>
    write_count (mp_topics r) >>>
    for_each write_metadata_topic (mp_topics r) >>>
    write_int32 (mp_cluster_authorized_operations r) >>>
    write_int8 0).

(** *** FindCoordinatorResponse *)
Definition ser_find_coordinator (r : FindCoordinatorResponse) : outcome bytes :=
  let err_varint := nullable_varint (fcp_error_message r) in
  let host_varint := u32_succ (zlen (fcp_host r)) in
  let body_size := 4 + 1 + 4 + 2 + varint_encoded_size err_varint + zlen (fcp_error_message r) +
                   4 + varint_encoded_size host_varint + zlen (fcp_host r) + 4 + 1 in
  with_buffer (4 + body_size) (
    write_int32 (wrap_int 32 body_size) >>>
    write_int32 (fcp_correlation_id r) >>>
    write_int8 0 >>>
    write_int32 (fcp_throttle_time_ms r) >>>
    write_int16 (fcp_error_code r) >>>
    write_nullable (fcp_error_message r) >>>
    write_int32 (fcp_node_id r) >>>
    write_compact_string (fcp_host r) >>>
    write_int32 (fcp_port r) >>>
    write_int8 0).

(** *** OffsetCommitResponse *)
Definition offset_commit_partition_size (p : OffsetCommitPartitionResponse) : Z :=
  4 + 2 + 4 + varint_encoded_size (u32_succ (zlen (ocpp_committed_metadata p))) +
  zlen (ocpp_committed_metadata p) + 1.
Definition offset_commit_topic_size (t : OffsetCommitTopicResponse) : Z :=
  varint_encoded_size (u32_succ (zlen (octp_topic_name t))) + zlen (octp_topic_name t) +
  count_size (octp_partitions t) + zsum offset_commit_partition_size (octp_partitions t) + 1.

Definition write_offset_commit_partition (p : OffsetCommitPartitionResponse) : writer :=
  write_int32 (ocpp_partition_index p) >>>
  write_int16 (ocpp_error_code p) >>>
  write_int32 (ocpp_committed_leader_epoch p) >>>
  write_nullable (ocpp_committed_metadata p) >>>
  write_int8 0.
Definition write_offset_commit_topic (t : OffsetCommitTopicResponse) : writer :=
  write_compact_string (octp_topic_name t) >>>
  write_count (octp_partitions t) >>>
  for_each write_offset_commit_partition (octp_partitions t) >>>
  write_int8 0.

Definition ser_offset_commit (r : OffsetCommitResponse) : outcome bytes :=
  let body_size := 4 + 1 + 4 + count_size (ocp_topics r) +
                   zsum offset_commit_topic_size (ocp_topics r) + 1 in
  with_buffer (4 + body_size) (
    write_int32 (wrap_int 32 body_size) >>>
    write_int32 (ocp_correlation_id r) >>>
    write_int8 0 >>>
    write_int32 (ocp_throttle_time_ms r) >>>
    write_count (ocp_topics r) >>>
    for_each write_offset_commit_topic (ocp_topics r) >>>
    write_int8 0).

(** *** OffsetFetchResponse *)
Definition offset_fetch_partition_size (p : OffsetFetchPartitionResponse) : Z :=
  4 + 8 + 4 + varint_encoded_size (u32_succ (zlen (ofpp_committed_metadata p))) +
  zlen (ofpp_committed_metadata p) + 2 + 1.
Definition offset_fetch_topic_size (t : OffsetFetchTopicResponse) : Z :=
  varint_encoded_size (u32_succ (zlen (oftp_topic_name t))) + zlen (oftp_topic_name t) +
  count_size (oftp_partitions t) + zsum offset_fetch_partition_size (oftp_partitions t) + 1.

Definition write_offset_fetch_partition (p : OffsetFetchPartitionResponse) : writer :=
  write_int32 (ofpp_partition_index p) >>>
  write_int64 (ofpp_committed_offset p) >>>
  write_int32 (ofpp_committed_leader_epoch p) >>>
  write_nullable (ofpp_committed_metadata p) >>>
  write_int16 (ofpp_error_code p) >>>
  write_int8 0.
Definition write_offset_fetch_topic (t : OffsetFetchTopicResponse) : writer :=
  write_compact_string (oftp_topic_name t) >>>
  write_count (oftp_partitions t) >>>
  for_each write_offset_fetch_partition (oftp_partitions t) >>>
  write_int8 0.

Definition ser_offset_fetch (r : OffsetFetchResponse) : outcome bytes :=
  let body_size := 4 + 1 + 4 + count_size (ofp_topics r) +
                   zsum offset_fetch_topic_size (ofp_topics r) + 1 in
  with_buffer (4 + body_size) (
    write_int32 (wrap_int 32 body_size) >>>
    write_int32 (ofp_correlation_id r) >>>
    write_int8 0 >>>
    write_int32 (ofp_throttle_time_ms r) >>>
    write_count (ofp_topics r) >>>
    for_each write_offset_fetch_topic (ofp_topics r) >>>
    write_int8 0).

(** *** ListOffsetsResponse *)
Definition list_offsets_topic_size (t : ListOffsetsTopicResponse) : Z :=
  varint_encoded_size (u32_succ (zlen (lotp_topic_name t))) + zlen (lotp_topic_name t) +
  count_size (lotp_partitions t) + zlen (lotp_partitions t) * (4 + 2 + 8 + 8 + 1) + 1.

Definition write_list_offsets_partition (p : ListOffsetsPartitionResponse) : writer :=
  write_int32 (lopp_partition_index p) >>>
  write_int16 (lopp_error_code p) >>>
  write_int64 (lopp_offset p) >>>
  write_int64 (lopp_timestamp p) >>>
  write_int8 0.
Definition write_list_offsets_topic (t : ListOffsetsTopicResponse) : writer :=
  write_compact_string (lotp_topic_name t) >>>
  write_count (lotp_partitions t) >>>
  for_each write_list_offsets_partition (lotp_partitions t) >>>
  write_int8 0.

Definition ser_list_offsets (r : ListOffsetsResponse) : outcome bytes :=
  let body_size := 4 + 1 + 4 + count_size (lop_topics r) +
                   zsum list_offsets_topic_size (lop_topics r) + 1 in
  with_buffer (4 + body_size) (
    write_int32 (wrap_int 32 body_size) >>>
    write_int32 (lop_correlation_id r) >>>
    write_int8 0 >>>
    write_int32 (lop_throttle_time_ms r) >>>
    write_count (lop_topics r) >>>
    for_each write_list_offsets_topic (lop_topics r) >>>
    write_int8 0).

(** *** JoinGroupResponse *)
Definition join_member_size (m : JoinGroupMember) : Z :=
  varint_encoded_size (u32_succ (zlen (jgm_member_id m))) + zlen (jgm_member_id m) +
  count_size (jgm_metadata m) + zlen (jgm_metadata m) + 1.
Definition write_join_member (m : JoinGroupMember) : writer :=
  write_compact_string (jgm_member_id m) >>>
  write_count (jgm_metadata m) >>>
  write_nonempty (jgm_metadata m) >>>
  write_int8 0.

Definition ser_join_group (r : JoinGroupResponse) : outcome bytes :=
  let body_size :=
    4 + 1 + 4 + 2 + 4 +
    (varint_encoded_size (nullable_varint (jgq_protocol_name r)) + zlen (jgq_protocol_name r)) +
    (varint_encoded_size (u32_succ (zlen (jgq_leader r))) + zlen (jgq_leader r)) +
    (varint_encoded_size (u32_succ (zlen (jgq_member_id r))) + zlen (jgq_member_id r)) +
    count_size (jgq_members r) + zsum join_member_size (jgq_members r) + 1 in
  with_buffer (4 + body_size) (
    write_int32 (wrap_int 32 body_size) >>>
    write_int32 (jgq_correlation_id r) >>>
    write_int8 0 >>>
    write_int32 (jgq_throttle_time_ms r) >>>
    write_int16 (jgq_error_code r) >>>
    write_int32 (jgq_generation_id r) >>>
    write_nullable (jgq_protocol_name r) >>>
    write_compact_string (jgq_leader r) >>>
    write_compact_string (jgq_member_id r) >>>
    write_count (jgq_members r) >>>
    for_each write_join_member (jgq_members r) >>>
    write_int8 0).

(** *** HeartbeatResponse and LeaveGroupResponse *)
Definition ser_heartbeat (r : HeartbeatResponse) : outcome bytes :=
  let body_size := 4 + 1 + 4 + 2 + 1 in
  with_buffer (4 + body_size) (
    write_int32 (wrap_int 32 body_size) >>>
    write_int32 (hbp_correlation_id r) >>>
    write_int8 0 >>>
    write_int32 (hbp_throttle_time_ms r) >>>
    write_int16 (hbp_error_code r) >>>
    write_int8 0).

Definition ser_leave_group (r : LeaveGroupResponse) : outcome bytes :=
  let body_size := 4 + 1 + 4 + 2 + 1 in
  with_buffer (4 + body_size) (
    write_int32 (wrap_int 32 body_size) >>>
    write_int32 (lgp_correlation_id r) >>>
    write_int8 0 >>>
    write_int32 (lgp_throttle_time_ms r) >>>
    write_int16 (lgp_error_code r) >>>
    write_int8 0).

(** *** SyncGroupResponse *)
Definition ser_sync_group (r : SyncGroupResponse) : outcome bytes :=
  let pt_varint := nullable_varint (sgp_protocol_type r) in
  let pn_varint := nullable_varint (sgp_protocol_name r) in
  let body_size :=
    4 + 1 + 4 + 2 + varint_encoded_size pt_varint + zlen (sgp_protocol_type r) +
    varint_encoded_size pn_varint + zlen (sgp_protocol_name r) +
    count_size (sgp_assignment r) + zlen (sgp_assignment r) + 1 in
  with_buffer (4 + body_size) (
    write_int32 (wrap_int 32 body_size) >>>
    write_int32 (sgp_correlation_id r) >>>
    write_int8 0 >>>
    write_int32 (sgp_throttle_time_ms r) >>>
    write_int16 (sgp_error_code r) >>>
    write_nullable (sgp_protocol_type r) >>>
    write_nullable (sgp_protocol_name r) >>>
    write_count (sgp_assignment r) >>>
    write_nonempty (sgp_assignment r) >>>
    write_int8 0).

(** *** ProduceResponse *)
Definition produce_topic_size (t : ProduceTopicResponse) : Z :=
  varint_encoded_size (u32_succ (zlen (ptp_topic_name t))) + zlen (ptp_topic_name t) + 1 +
  match ptp_partitions t with
  | [] => 1
  | _ => count_size (ptp_partitions t) +
         zlen (ptp_partitions t) * (4 + 2 + 8 + 8 + 8 + 1 + 1 + 1)
  end.

Definition write_produce_partition (p : ProducePartitionResponse) : writer :=
  write_int32 (ppp_partition_index p) >>>
  write_int16 (ppp_error_code p) >>>
  write_int64 (ppp_base_offset p) >>>
  write_int64 (ppp_log_append_time_ms p) >>>
  write_int64 (ppp_log_start_offset p) >>>
  write_int8 1 >>>
  write_int8 0 >>>
  write_int8 0.
Definition write_produce_topic (t : ProduceTopicResponse) : writer :=
  write_compact_string (ptp_topic_name t) >>>
  write_count (ptp_partitions t) >>>
  for_each write_produce_partition (ptp_partitions t) >>>
  write_int8 0.

Definition ser_produce (r : ProduceResponse) : outcome bytes :=
  let body_size := 4 + 1 + count_size (pp_responses r) +
                   zsum produce_topic_size (pp_responses r) + 4 + 1 in
  with_buffer (4 + body_size) (
    write_int32 (wrap_int 32 body_size) >>>
    write_int32 (pp_correlation_id r) >>>
    write_int8 0 >>>
    write_count (pp_responses r) >>>
    for_each write_produce_topic (pp_responses r) >>>
    write_int32 (pp_throttle_time_ms r) >>>
    write_int8 0).

(** [std::visit] over the response variant. *)
Definition serialize (resp : Response) : outcome bytes :=
  match resp with
  | RespApiVersions r => ser_api_versions r
  | RespDescribeTopicPartitions r => ser_describe_topic_partitions r
  | RespFetch r => ser_fetch r
  | RespMetadata r => ser_metadata r
  | RespFindCoordinator r => ser_find_coordinator r
  | RespOffsetCommit r => ser_offset_commit r
  | RespOffsetFetch r => ser_offset_fetch r
  | RespListOffsets r => ser_list_offsets r
  | RespJoinGroup r => ser_join_group r
  | RespHeartbeat r => ser_heartbeat r
  | RespLeaveGroup r => ser_leave_group r
  | RespSyncGroup r => ser_sync_group r
  | RespProduce r => ser_produce r
  end.
