(* ===== verification/ResponseFormat.v ===== *)
(** * The response format, and the serializer as its implementation

    The bytes of each response as plain concatenations of its fields, and the
    refinement theorem: computing a size, allocating a buffer and filling it
    through a [ByteWriter] produces exactly the length-prefixed format, with no
    byte left unwritten and none written out of bounds. *)

From S2P Require Import Prelude Endian Varint ByteWriter Protocol Serializer.

(** A count or length prefix, and the composite fields. *)
Definition enc_count {A} (l : list A) : bytes := write_unsigned_varint (u32_succ (zlen l)).
Definition enc_array {A} (enc : A → bytes) (l : list A) : bytes := enc_count l ++ concat (map enc l).
Definition enc_nullable (s : bytes) : bytes := match s with [] => [0] | _ => cstr s end.
Definition enc_bool (b : bool) : bytes := [if b then 1 else 0].

Definition body_api_versions (r : ApiVersionsResponse) : bytes :=
  write_int32_be (avp_correlation_id r) ++ write_int16_be (avp_error_code r) ++
  enc_array (λ e, write_int16_be (ave_api_key e) ++ write_int16_be (ave_min_version e) ++
                  write_int16_be (ave_max_version e) ++ [0]) (avp_api_keys r) ++
  write_int32_be (avp_throttle_time_ms r) ++ [0].

Definition enc_dtp_partition_resp (p : PartitionMetadata) : bytes :=
  write_int16_be (pm_error_code p) ++ write_int32_be (pm_partition_index p) ++
  write_int32_be (pm_leader_id p) ++ write_int32_be (pm_leader_epoch p) ++
  enc_array write_int32_be (pm_replica_nodes p) ++ enc_array write_int32_be (pm_isr_nodes p) ++
  enc_array write_int32_be (pm_eligible_leader_replicas p) ++
  enc_array write_int32_be (pm_last_known_elr p) ++
  enc_array write_int32_be (pm_offline_replicas p) ++ [0].

Definition enc_dtp_topic_resp (t : TopicMetadata) : bytes :=
  write_int16_be (tm_error_code t) ++ cstr (tm_topic_name t) ++ tm_topic_id t ++
  enc_bool (tm_is_internal t) ++ enc_array enc_dtp_partition_resp (tm_partitions t) ++
  write_int32_be (tm_authorized_operations t) ++ [0].

Definition body_describe (r : DescribeTopicPartitionsResponse) : bytes :=
  write_int32_be (dtpp_correlation_id r) ++ [0] ++ write_int32_be (dtpp_throttle_time_ms r) ++
  enc_array enc_dtp_topic_resp (dtpp_topics r) ++ [255] ++ [0].

Definition enc_fetch_partition_resp (p : FetchPartitionResponse) : bytes :=
  write_int32_be (fpp_partition_index p) ++ write_int16_be (fpp_error_code p) ++
  write_int64_be 0 ++ write_int64_be 0 ++ write_int64_be 0 ++ write_unsigned_varint 1 ++
  write_int32_be 0 ++ cstr (fpp_records p) ++ [0].

Definition enc_fetch_topic_resp (t : FetchTopicResponse) : bytes :=
  ftp_topic_id t ++ enc_array enc_fetch_partition_resp (ftp_partitions t) ++ [0].

Definition body_fetch (r : FetchResponse) : bytes :=
  write_int32_be (fp_correlation_id r) ++ [0] ++ write_int32_be (fp_throttle_time_ms r) ++
  write_int16_be (fp_error_code r) ++ write_int32_be (fp_session_id r) ++
  enc_array enc_fetch_topic_resp (fp_responses r) ++ [0].

Definition enc_broker_resp (b : MetadataBroker) : bytes :=
  write_int32_be (mb_node_id b) ++ cstr (mb_host b) ++ write_int32_be (mb_port b) ++
  enc_nullable (mb_rack b) ++ [0].

Definition enc_metadata_partition_resp (p : PartitionMetadata) : bytes :=
  write_int16_be (pm_error_code p) ++ write_int32_be (pm_partition_index p) ++
  write_int32_be (pm_leader_id p) ++ write_int32_be (pm_leader_epoch p) ++
  enc_array write_int32_be (pm_replica_nodes p) ++ enc_array write_int32_be (pm_isr_nodes p) ++
  enc_array write_int32_be (pm_offline_replicas p) ++
  enc_array write_int32_be (pm_eligible_leader_replicas p) ++
  enc_array write_int32_be (pm_last_known_elr p) ++ [0].

Definition enc_metadata_topic_resp (t : MetadataTopicResponse) : bytes :=
  write_int16_be (mtp_error_code t) ++ enc_nullable (mtp_topic_name t) ++ mtp_topic_id t ++
  enc_bool (mtp_is_internal t) ++ enc_array enc_metadata_partition_resp (mtp_partitions t) ++
  write_int32_be (mtp_topic_authorized_operations t) ++ [0].

Definition body_metadata (r : MetadataResponse) : bytes :=
  write_int32_be (mp_correlation_id r) ++ [0] ++ write_int32_be (mp_throttle_time_ms r) ++
  enc_array enc_broker_resp (mp_brokers r) ++ enc_nullable (mp_cluster_id r) ++
  write_int32_be (mp_controller_id r) ++ enc_array enc_metadata_topic_resp (mp_topics r) ++
  write_int32_be (mp_cluster_authorized_operations r) ++ [0].

Definition body_find_coordinator (r : FindCoordinatorResponse) : bytes :=
  write_int32_be (fcp_correlation_id r) ++ [0] ++ write_int32_be (fcp_throttle_time_ms r) ++
  write_int16_be (fcp_error_code r) ++ enc_nullable (fcp_error_message r) ++
  write_int32_be (fcp_node_id r) ++ cstr (fcp_host r) ++ write_int32_be (fcp_port r) ++ [0].

Definition enc_offset_commit_partition_resp (p : OffsetCommitPartitionResponse) : bytes :=
  write_int32_be (ocpp_partition_index p) ++ write_int16_be (ocpp_error_code p) ++
  write_int32_be (ocpp_committed_leader_epoch p) ++ enc_nullable (ocpp_committed_metadata p) ++ [0].
Definition enc_offset_commit_topic_resp (t : OffsetCommitTopicResponse) : bytes :=
  cstr (octp_topic_name t) ++ enc_array enc_offset_commit_partition_resp (octp_partitions t) ++ [0].
Definition body_offset_commit (r : OffsetCommitResponse) : bytes :=
  write_int32_be (ocp_correlation_id r) ++ [0] ++ write_int32_be (ocp_throttle_time_ms r) ++
  enc_array enc_offset_commit_topic_resp (ocp_topics r) ++ [0].

Definition enc_offset_fetch_partition_resp (p : OffsetFetchPartitionResponse) : bytes :=
  write_int32_be (ofpp_partition_index p) ++ write_int64_be (ofpp_committed_offset p) ++
  write_int32_be (ofpp_committed_leader_epoch p) ++ enc_nullable (ofpp_committed_metadata p) ++
  write_int16_be (ofpp_error_code p) ++ [0].
Definition enc_offset_fetch_topic_resp (t : OffsetFetchTopicResponse) : bytes :=
  cstr (oftp_topic_name t) ++ enc_array enc_offset_fetch_partition_resp (oftp_partitions t) ++ [0].
Definition body_offset_fetch (r : OffsetFetchResponse) : bytes :=
  write_int32_be (ofp_correlation_id r) ++ [0] ++ write_int32_be (ofp_throttle_time_ms r) ++
  enc_array enc_offset_fetch_topic_resp (ofp_topics r) ++ [0].

Definition enc_list_offsets_partition_resp (p : ListOffsetsPartitionResponse) : bytes :=
  write_int32_be (lopp_partition_index p) ++ write_int16_be (lopp_error_code p) ++
  write_int64_be (lopp_offset p) ++ write_int64_be (lopp_timestamp p) ++ [0].
Definition enc_list_offsets_topic_resp (t : ListOffsetsTopicResponse) : bytes :=
  cstr (lotp_topic_name t) ++ enc_array enc_list_offsets_partition_resp (lotp_partitions t) ++ [0].
Definition body_list_offsets (r : ListOffsetsResponse) : bytes :=
  write_int32_be (lop_correlation_id r) ++ [0] ++ write_int32_be (lop_throttle_time_ms r) ++
  enc_array enc_list_offsets_topic_resp (lop_topics r) ++ [0].

Definition enc_join_member_resp (m : JoinGroupMember) : bytes :=
  cstr (jgm_member_id m) ++ cstr (jgm_metadata m) ++ [0].
Definition body_join_group (r : JoinGroupResponse) : bytes :=
  write_int32_be (jgq_correlation_id r) ++ [0] ++ write_int32_be (jgq_throttle_time_ms r) ++
  write_int16_be (jgq_error_code r) ++ write_int32_be (jgq_generation_id r) ++
  enc_nullable (jgq_protocol_name r) ++ cstr (jgq_leader r) ++ cstr (jgq_member_id r) ++
  enc_array enc_join_member_resp (jgq_members r) ++ [0].

Definition body_heartbeat (r : HeartbeatResponse) : bytes :=
  write_int32_be (hbp_correlation_id r) ++ [0] ++ write_int32_be (hbp_throttle_time_ms r) ++
  write_int16_be (hbp_error_code r) ++ [0].

Definition body_leave_group (r : LeaveGroupResponse) : bytes :=
  write_int32_be (lgp_correlation_id r) ++ [0] ++ write_int32_be (lgp_throttle_time_ms r) ++
  write_int16_be (lgp_error_code r) ++ [0].

Definition body_sync_group (r : SyncGroupResponse) : bytes :=
  write_int32_be (sgp_correlation_id r) ++ [0] ++ write_int32_be (sgp_throttle_time_ms r) ++
  write_int16_be (sgp_error_code r) ++ enc_nullable (sgp_protocol_type r) ++
  enc_nullable (sgp_protocol_name r) ++ cstr (sgp_assignment r) ++ [0].

Definition enc_produce_partition_resp (p : ProducePartitionResponse) : bytes :=
  write_int32_be (ppp_partition_index p) ++ write_int16_be (ppp_error_code p) ++
  write_int64_be (ppp_base_offset p) ++ write_int64_be (ppp_log_append_time_ms p) ++
  write_int64_be (ppp_log_start_offset p) ++ [1] ++ [0] ++ [0].
Definition enc_produce_topic_resp (t : ProduceTopicResponse) : bytes :=
  cstr (ptp_topic_name t) ++ enc_array enc_produce_partition_resp (ptp_partitions t) ++ [0].
Definition body_produce (r : ProduceResponse) : bytes :=
  write_int32_be (pp_correlation_id r) ++ [0] ++
  enc_array enc_produce_topic_resp (pp_responses r) ++
  write_int32_be (pp_throttle_time_ms r) ++ [0].

Definition response_body (p : Response) : bytes :=
  match p with
  | RespApiVersions r => body_api_versions r
  | RespDescribeTopicPartitions r => body_describe r
  | RespFetch r => body_fetch r
  | RespFindCoordinator r => body_find_coordinator r
  | RespHeartbeat r => body_heartbeat r
  | RespJoinGroup r => body_join_group r
  | RespLeaveGroup r => body_leave_group r
  | RespListOffsets r => body_list_offsets r
  | RespMetadata r => body_metadata r
  | RespOffsetCommit r => body_offset_commit r
  | RespOffsetFetch r => body_offset_fetch r
  | RespProduce r => body_produce r
  | RespSyncGroup r => body_sync_group r
  end.

(** A frame: the length of the body as an [int32_t], then the body. *)
Definition frame (body : bytes) : bytes := write_int32_be (wrap_int 32 (zlen body)) ++ body.

(** The topic ids are [std::array<uint8_t, 16>]. *)
Definition topic_ids_ok (p : Response) : Prop :=
  match p with
  | RespDescribeTopicPartitions r => Forall (λ t, zlen (tm_topic_id t) = 16) (dtpp_topics r)
  | RespFetch r => Forall (λ t, zlen (ftp_topic_id t) = 16) (fp_responses r)
  | RespMetadata r => Forall (λ t, zlen (mtp_topic_id t) = 16) (mp_topics r)
  | _ => True
  end.

(** The one-byte topic count assumed by [DescribeTopicPartitions]. *)
Definition describe_count_ok (p : Response) : Prop :=
  match p with
  | RespDescribeTopicPartitions r => zlen (dtpp_topics r) < 127
  | _ => True
  end.

(** ** What the composite writes emit *)

Lemma emits_eq m b b' : emits m b → b = b' → emits m b'.
Proof. by intros ? <-. Qed.

Lemma emits_count {A} (l : list A) : emits (write_count l) (enc_count l).
Proof. apply emits_store. Qed.

Lemma emits_array {A} (f : A → writer) (enc : A → bytes) l :
  (∀ x, emits (f x) (enc x)) → emits (write_count l >>> for_each f l) (enc_array enc l).
Proof. intros. apply emits_seq; [apply emits_count|by apply emits_for_each]. Qed.

Lemma emits_int32_array l : emits (write_compact_int32_array l) (enc_array write_int32_be l).
Proof. apply emits_array. intros. apply emits_store. Qed.

Lemma emits_nullable s : emits (write_nullable s) (enc_nullable s).
Proof. destruct s; [apply emits_store|apply emits_compact_string]. Qed.

Lemma emits_nonempty b : emits (write_nonempty b) b.
Proof. destruct b; [apply emits_done|apply emits_store]. Qed.

(** [write_varint(size + 1); if (!b.empty()) write_bytes(b);] *)
Lemma emits_blob b m bs : emits m bs → emits (write_count b >>> write_nonempty b >>> m) (cstr b ++ bs).
Proof.
  intros Hm. unfold cstr. rewrite <-app_assoc.
  apply emits_seq; [apply emits_count|]. by apply emits_seq; [apply emits_nonempty|].
Qed.

(** A counted loop in the middle of a sequence. *)
Lemma emits_array_then {A} (f : A → writer) (enc : A → bytes) l m bs :
  (∀ x, emits (f x) (enc x)) → emits m bs →
  emits (write_count l >>> for_each f l >>> m) (enc_array enc l ++ bs).
Proof.
  intros Hf Hm. unfold enc_array. rewrite <-app_assoc.
  apply emits_seq; [apply emits_count|]. by apply emits_seq; [apply emits_for_each|].
Qed.

Create HintDb emits_elem.
#[export] Hint Resolve emits_int32_array emits_nullable emits_compact_string : emits_elem.

Ltac e_leaf := solve [ apply emits_store | eauto with emits_elem nocore ].
Ltac e_steps :=
  repeat first
    [ e_leaf
    | eapply emits_array_then; [intros; solve [eauto with emits_elem nocore]|]
    | eapply emits_blob
    | eapply emits_seq; [e_leaf|] ].

Lemma emits_dtp_partition p : emits (write_dtp_partition p) (enc_dtp_partition_resp p).
Proof. unfold write_dtp_partition, enc_dtp_partition_resp. e_steps. Qed.

Lemma emits_dtp_partitions l :
  emits (match l with [] => write_int8 1 | _ => write_count l >>> for_each write_dtp_partition l end)
    (enc_array enc_dtp_partition_resp l).
Proof. destruct l; [apply emits_store|]. apply emits_array, emits_dtp_partition. Qed.
#[export] Hint Resolve emits_dtp_partition emits_dtp_partitions : emits_elem.

Lemma emits_dtp_topic t : emits (write_dtp_topic t) (enc_dtp_topic_resp t).
Proof. unfold write_dtp_topic, enc_dtp_topic_resp. e_steps. Qed.

Lemma emits_fetch_partition p : emits (write_fetch_partition p) (enc_fetch_partition_resp p).
Proof. unfold write_fetch_partition, enc_fetch_partition_resp. e_steps. Qed.
#[export] Hint Resolve emits_dtp_topic emits_fetch_partition : emits_elem.

Lemma emits_fetch_topic t : emits (write_fetch_topic t) (enc_fetch_topic_resp t).
Proof. unfold write_fetch_topic, enc_fetch_topic_resp. e_steps. Qed.

Lemma emits_metadata_broker b : emits (write_metadata_broker b) (enc_broker_resp b).
Proof. unfold write_metadata_broker, enc_broker_resp. e_steps. Qed.

Lemma emits_metadata_partition p :
  emits (write_metadata_partition p) (enc_metadata_partition_resp p).
Proof. unfold write_metadata_partition, enc_metadata_partition_resp. e_steps. Qed.
#[export] Hint Resolve emits_fetch_topic emits_metadata_broker emits_metadata_partition : emits_elem.

Lemma emits_metadata_topic t : emits (write_metadata_topic t) (enc_metadata_topic_resp t).
Proof. unfold write_metadata_topic, enc_metadata_topic_resp. e_steps. Qed.

Lemma emits_offset_commit_partition p :
  emits (write_offset_commit_partition p) (enc_offset_commit_partition_resp p).
Proof. unfold write_offset_commit_partition, enc_offset_commit_partition_resp. e_steps. Qed.
#[export] Hint Resolve emits_metadata_topic emits_offset_commit_partition : emits_elem.

Lemma emits_offset_commit_topic t :
  emits (write_offset_commit_topic t) (enc_offset_commit_topic_resp t).
Proof. unfold write_offset_commit_topic, enc_offset_commit_topic_resp. e_steps. Qed.

Lemma emits_offset_fetch_partition p :
  emits (write_offset_fetch_partition p) (enc_offset_fetch_partition_resp p).
Proof. unfold write_offset_fetch_partition, enc_offset_fetch_partition_resp. e_steps. Qed.
#[export] Hint Resolve emits_offset_commit_topic emits_offset_fetch_partition : emits_elem.

Lemma emits_offset_fetch_topic t :
  emits (write_offset_fetch_topic t) (enc_offset_fetch_topic_resp t).
Proof. unfold write_offset_fetch_topic, enc_offset_fetch_topic_resp. e_steps. Qed.

Lemma emits_list_offsets_partition p :
  emits (write_list_offsets_partition p) (enc_list_offsets_partition_resp p).
Proof. unfold write_list_offsets_partition, enc_list_offsets_partition_resp. e_steps. Qed.
#[export] Hint Resolve emits_offset_fetch_topic emits_list_offsets_partition : emits_elem.

Lemma emits_list_offsets_topic t :
  emits (write_list_offsets_topic t) (enc_list_offsets_topic_resp t).
Proof. unfold write_list_offsets_topic, enc_list_offsets_topic_resp. e_steps. Qed.

Lemma emits_join_member m : emits (write_join_member m) (enc_join_member_resp m).
Proof. unfold write_join_member, enc_join_member_resp. e_steps. Qed.

Lemma emits_produce_partition p : emits (write_produce_partition p) (enc_produce_partition_resp p).
Proof. unfold write_produce_partition, enc_produce_partition_resp. e_steps. Qed.
#[export] Hint Resolve emits_list_offsets_topic emits_join_member emits_produce_partition : emits_elem.

Lemma emits_produce_topic t : emits (write_produce_topic t) (enc_produce_topic_resp t).
Proof. unfold write_produce_topic, enc_produce_topic_resp. e_steps. Qed.
#[export] Hint Resolve emits_produce_topic : emits_elem.

(** ** Sizes of the fields *)

Lemma zlen_int16_be v : zlen (write_int16_be v) = 2.
Proof. done. Qed.
Lemma zlen_int32_be v : zlen (write_int32_be v) = 4.
Proof. done. Qed.
Lemma zlen_int64_be v : zlen (write_int64_be v) = 8.
Proof. done. Qed.
Lemma zlen_bool b : zlen (enc_bool b) = 1.
Proof. done. Qed.
Lemma zlen_enc_array {A} (enc : A → bytes) l :
  zlen (enc_array enc l) = count_size l + zsum (λ x, zlen (enc x)) l.
Proof.
  unfold enc_array, enc_count, count_size.
  by rewrite zlen_app, zlen_concat_map, varint_encoded_size_length by apply u32_succ_range.
Qed.
Lemma zlen_int32_array l : zlen (enc_array write_int32_be l) = compact_int32_array_size l.
Proof. rewrite zlen_enc_array. unfold compact_int32_array_size. by rewrite (zsum_const _ 4). Qed.
Lemma zlen_nullable s :
  zlen (enc_nullable s) = varint_encoded_size (nullable_varint s) + zlen s.
Proof. destruct s; [done|]. apply zlen_cstr. Qed.
(** An empty string measured with its compact prefix takes one byte as well. *)
Lemma zlen_nullable_compact s :
  zlen (enc_nullable s) = varint_encoded_size (u32_succ (zlen s)) + zlen s.
Proof. destruct s; [done|]. apply zlen_cstr. Qed.
Lemma zlen_one (b : Z) : zlen [b] = 1.
Proof. done. Qed.
Lemma zlen_varint_1 : zlen (write_unsigned_varint 1) = 1.
Proof. done. Qed.
Lemma zlen_cstr_count b : zlen (cstr b) = count_size b + zlen b.
Proof. apply zlen_cstr. Qed.

Create Rewrite HintDb fields.
#[export] Hint Rewrite @zlen_app zlen_int16_be zlen_int32_be zlen_int64_be zlen_bool
  zlen_one zlen_varint_1 : fields.

(** Measure a concatenation of fields. *)
Ltac measure := autorewrite with fields; rewrite ?zlen_int32_array, ?zlen_enc_array, ?zlen_cstr.

Lemma size_dtp_partition p : zlen (enc_dtp_partition_resp p) = partition_entry_size p.
Proof. unfold enc_dtp_partition_resp, partition_entry_size. measure. lia. Qed.

Lemma size_dtp_topic t : zlen (tm_topic_id t) = 16 → zlen (enc_dtp_topic_resp t) = dtp_topic_size t.
Proof.
  intros Hid. unfold enc_dtp_topic_resp, dtp_topic_size. measure.
  rewrite Hid, (zsum_ext _ _ _ size_dtp_partition).
  destruct (tm_partitions t); [change (count_size (@nil PartitionMetadata)) with 1; simpl; lia|lia].
Qed.

Lemma size_fetch_partition p : zlen (enc_fetch_partition_resp p) = fetch_partition_size p.
Proof. unfold enc_fetch_partition_resp, fetch_partition_size, count_size. measure. lia. Qed.

Lemma size_fetch_topic t :
  zlen (ftp_topic_id t) = 16 → zlen (enc_fetch_topic_resp t) = fetch_topic_size t.
Proof.
  intros Hid. unfold enc_fetch_topic_resp, fetch_topic_size. measure.
  rewrite Hid, (zsum_ext _ _ _ size_fetch_partition). lia.
Qed.

Lemma size_broker b : zlen (enc_broker_resp b) = metadata_broker_size b.
Proof. unfold enc_broker_resp, metadata_broker_size. measure. rewrite zlen_nullable. lia. Qed.

Lemma size_metadata_partition p : zlen (enc_metadata_partition_resp p) = metadata_partition_size p.
Proof. unfold enc_metadata_partition_resp, metadata_partition_size. measure. lia. Qed.

Lemma size_metadata_topic t :
  zlen (mtp_topic_id t) = 16 → zlen (enc_metadata_topic_resp t) = metadata_topic_size t.
Proof.
  intros Hid. unfold enc_metadata_topic_resp, metadata_topic_size. measure.
  rewrite Hid, zlen_nullable, (zsum_ext _ _ _ size_metadata_partition). lia.
Qed.

Lemma size_offset_commit_partition p :
  zlen (enc_offset_commit_partition_resp p) = offset_commit_partition_size p.
Proof.
  unfold enc_offset_commit_partition_resp, offset_commit_partition_size. measure.
  rewrite zlen_nullable_compact. lia.
Qed.

Lemma size_offset_commit_topic t :
  zlen (enc_offset_commit_topic_resp t) = offset_commit_topic_size t.
Proof.
  unfold enc_offset_commit_topic_resp, offset_commit_topic_size. measure.
  rewrite (zsum_ext _ _ _ size_offset_commit_partition). lia.
Qed.

Lemma size_offset_fetch_partition p :
  zlen (enc_offset_fetch_partition_resp p) = offset_fetch_partition_size p.
Proof.
  unfold enc_offset_fetch_partition_resp, offset_fetch_partition_size. measure.
  rewrite zlen_nullable_compact. lia.
Qed.

Lemma size_offset_fetch_topic t :
  zlen (enc_offset_fetch_topic_resp t) = offset_fetch_topic_size t.
Proof.
  unfold enc_offset_fetch_topic_resp, offset_fetch_topic_size. measure.
  rewrite (zsum_ext _ _ _ size_offset_fetch_partition). lia.
Qed.

Lemma size_list_offsets_topic t :
  zlen (enc_list_offsets_topic_resp t) = list_offsets_topic_size t.
Proof.
  unfold enc_list_offsets_topic_resp, list_offsets_topic_size. measure.
  rewrite (zsum_const _ 23) by done. lia.
Qed.

Lemma size_join_member m : zlen (enc_join_member_resp m) = join_member_size m.
Proof. unfold enc_join_member_resp, join_member_size, count_size. measure. lia. Qed.

Lemma size_produce_topic t : zlen (enc_produce_topic_resp t) = produce_topic_size t.
Proof.
  unfold enc_produce_topic_resp, produce_topic_size. measure.
  rewrite (zsum_const _ 33) by done.
  destruct (ptp_partitions t);
    [change (count_size (@nil ProducePartitionResponse)) with 1; zlia|lia].
Qed.

(** ** The frames *)

(** The pattern of every lambda: a size, a buffer of [4 + size] bytes, the
    length field and the body. *)
Lemma ser_frame m body n :
  emits m body → n = zlen body →
  with_buffer (4 + n) (write_int32 (wrap_int 32 n) >>> m) = Ok (frame body).
Proof.
  intros Hm ->. apply with_buffer_exact.
  - unfold frame. apply emits_seq; [apply emits_store|done].
  - unfold frame. by rewrite zlen_app, zlen_int32_be.
Qed.

Lemma ser_frame_short m body n :
  emits m body → 0 ≤ n < zlen body →
  with_buffer (4 + n) (write_int32 (wrap_int 32 n) >>> m) = Fault undefined_behaviour.
Proof.
  intros Hm Hn.
  rewrite (with_buffer_emits _ (write_int32_be (wrap_int 32 n) ++ body)); [| |lia].
  - rewrite zlen_app, zlen_int32_be. destruct (Z.ltb_spec (4 + n) (4 + zlen body)); [done|lia].
  - apply emits_seq; [apply emits_store|done].
Qed.

Lemma zsum_Forall_ext {A} (P : A → Prop) (f g : A → Z) l :
  (∀ x, P x → f x = g x) → Forall P l → zsum f l = zsum g l.
Proof. intros E. induction 1 as [|x l Hx _ IH]; [done|]. simpl. by rewrite E, IH. Qed.

Lemma emits_body_describe r :
  emits (write_int32 (dtpp_correlation_id r) >>> write_int8 0 >>>
         write_int32 (dtpp_throttle_time_ms r) >>> write_count (dtpp_topics r) >>>
         for_each write_dtp_topic (dtpp_topics r) >>> write_int8 255 >>> write_int8 0)
    (body_describe r).
Proof. unfold body_describe. e_steps. Qed.

Lemma size_body_describe r :
  Forall (λ t, zlen (tm_topic_id t) = 16) (dtpp_topics r) →
  zlen (body_describe r) =
  4 + 1 + 4 + count_size (dtpp_topics r) + zsum dtp_topic_size (dtpp_topics r) + 2.
Proof.
  intros Hid. unfold body_describe. measure.
  rewrite (zsum_Forall_ext _ _ dtp_topic_size _ size_dtp_topic Hid). lia.
Qed.

Lemma varint_size_small v : 0 ≤ v < 128 → varint_encoded_size v = 1.
Proof.
  intros. rewrite varint_encoded_size_step by (unfold in_uint; lia). by rewrite decide_True by lia.
Qed.

Lemma u32_succ_small n : 0 ≤ n < 2 ^ 32 - 1 → u32_succ n = n + 1.
Proof.
  intros. unfold u32_succ. rewrite (wrap_uint_small 32 n), wrap_uint_small; unfold in_uint; lia.
Qed.

(** The serializer, response by response. *)
Lemma serialize_frame p :
  topic_ids_ok p → describe_count_ok p → serialize p = Ok (frame (response_body p)).
Proof.
  destruct p as [r|r|r|r|r|r|r|r|r|r|r|r|r]; cbn [topic_ids_ok describe_count_ok]; intros Hid Hc;
    cbn [serialize response_body].
  - apply ser_frame; [unfold body_api_versions|].
    + eapply emits_seq; [e_leaf|]. eapply emits_seq; [e_leaf|].
      eapply emits_array_then; [intros; e_steps|e_steps].
    + unfold body_api_versions. measure. rewrite (zsum_const _ 7) by done. unfold count_size. lia.
  - apply ser_frame; [apply emits_body_describe|]. rewrite size_body_describe by done.
    unfold count_size, kResponseHeaderV1Size. pose proof (zlen_nonneg (dtpp_topics r)).
    rewrite u32_succ_small, varint_size_small by lia. lia.
  - apply ser_frame; unfold body_fetch; [e_steps|]. measure.
    rewrite (zsum_Forall_ext _ _ fetch_topic_size _ size_fetch_topic Hid). lia.
  - apply ser_frame; unfold body_find_coordinator; [e_steps|]. measure. rewrite zlen_nullable. lia.
  - apply ser_frame; unfold body_heartbeat; [e_steps|done].
  - apply ser_frame; unfold body_join_group; [e_steps|]. measure.
    rewrite zlen_nullable, (zsum_ext _ _ _ size_join_member). lia.
  - apply ser_frame; unfold body_leave_group; [e_steps|done].
  - apply ser_frame; unfold body_list_offsets; [e_steps|]. measure.
    rewrite (zsum_ext _ _ _ size_list_offsets_topic). lia.
  - apply ser_frame; unfold body_metadata; [e_steps|]. measure.
    rewrite zlen_nullable, (zsum_ext _ _ _ size_broker),
      (zsum_Forall_ext _ _ metadata_topic_size _ size_metadata_topic Hid). lia.
  - apply ser_frame; unfold body_offset_commit; [e_steps|]. measure.
    rewrite (zsum_ext _ _ _ size_offset_commit_topic). lia.
  - apply ser_frame; unfold body_offset_fetch; [e_steps|]. measure.
    rewrite (zsum_ext _ _ _ size_offset_fetch_topic). lia.
  - apply ser_frame; unfold body_produce; [e_steps|]. measure.
    rewrite (zsum_ext _ _ _ size_produce_topic). lia.
  - apply ser_frame; unfold body_sync_group; [e_steps|]. measure.
    rewrite !zlen_nullable. unfold count_size. lia.
Qed.

(** Every body starts with the correlation id of the response. *)
Lemma response_body_correlation p :
  ∃ rest, response_body p = write_int32_be (response_correlation_id p) ++ rest.
Proof. destruct p; eexists; reflexivity. Qed.

(** *** Buffers keep their size *)

(** A write that returns has not changed the size of the buffer. *)
Definition keeps (m : writer) : Prop :=
  ∀ w w', writer_ok w → m w = Ok w' → writer_ok w' ∧ zlen (wdata_ w') = zlen (wdata_ w).

Lemma keeps_store bs : keeps (store bs).
Proof.
  intros w w' Hw. unfold store. destruct (Z.leb_spec (woffset_ w + zlen bs) (zlen (wdata_ w))); [|done].
  intros [= <-]. split; [by apply put_ok|by apply put_length].
Qed.
Lemma keeps_done : keeps wdone.
Proof. by intros w w' Hw [= <-]. Qed.
Lemma keeps_seq m1 m2 : keeps m1 → keeps m2 → keeps (m1 >>> m2).
Proof.
  intros H1 H2 w w' Hw (w1 & E1 & E2)%outcome_bind_Ok.
  destruct (H1 _ _ Hw E1) as [Hw1 <-]. by apply (H2 w1).
Qed.
Lemma keeps_for_each {A} (f : A → writer) l : (∀ x, keeps (f x)) → keeps (for_each f l).
Proof. intros Hf. induction l as [|x l IH]; cbn; [apply keeps_done|by apply keeps_seq]. Qed.

Ltac keeps_tac :=
  repeat lazymatch goal with
  | |- keeps (_ >>> _) => apply keeps_seq
  | |- keeps (for_each _ _) => apply keeps_for_each; intros
  | |- keeps wdone => apply keeps_done
  | |- keeps (store _) => apply keeps_store
  | |- keeps (match ?x with _ => _ end) => destruct x
  | |- keeps (write_count _) => apply keeps_store
  | |- keeps (?f _) => unfold f
  | |- keeps (?f _ _) => unfold f
  | |- keeps (?f _ _ _) => unfold f
  | |- keeps (?f) => unfold f
  end.

Lemma with_buffer_nonempty n x m out : keeps m → with_buffer n (write_int32 x >>> m) = Ok out → out ≠ [].
Proof.
  intros Hm (w & Hw & [= <-])%outcome_bind_Ok. unfold wseq in Hw.
  apply outcome_bind_Ok in Hw as (w1 & E1 & E2).
  assert (writer_ok (mkWriter (replicate (Z.to_nat n) 0) 0)) as Hok by (unfold writer_ok; cbn; zlia).
  destruct (keeps_store _ _ _ Hok E1) as [Hw1 Hl]. destruct (Hm _ _ Hw1 E2) as [_ Hl'].
  unfold write_int32, store in E1. rewrite zlen_int32_be in E1.
  destruct (Z.leb_spec (woffset_ (mkWriter (replicate (Z.to_nat n) 0) 0) + 4) (zlen (wdata_ (mkWriter (replicate (Z.to_nat n) 0) 0)))) as [H4|]; [|done].
  cbn in H4. intros E. rewrite E in Hl'. cbn in Hl. change (zlen []) with 0 in Hl'. lia.
Qed.

(** Whatever the response, what [serialize] returns has a length field. *)
Lemma serialize_nonempty p out : serialize p = Ok out → out ≠ [].
Proof. destruct p; cbn [serialize]; apply with_buffer_nonempty; keeps_tac. Qed.

(** The prefix of a frame is the number of bytes that follow, and the body
    starts with the correlation id. *)
Lemma frame_prefix p :
  in_int 32 (response_correlation_id p) → zlen (response_body p) < 2 ^ 31 →
  decode_int32_be (ztake 4 (frame (response_body p))) = zlen (frame (response_body p)) - 4 ∧
  decode_int32_be (ztake 4 (zdrop 4 (frame (response_body p)))) = response_correlation_id p.
Proof.
  intros Hcid Hl. pose proof (zlen_nonneg (response_body p)).
  destruct (response_body_correlation p) as [rest E]. unfold frame.
  rewrite wrap_int_small by (unfold in_int; lia). split.
  - rewrite (ztake_app (write_int32_be _)), decode_write_int32, zlen_app, zlen_int32_be
      by (unfold in_int; lia). lia.
  - rewrite (zdrop_app (write_int32_be _)), E, (ztake_app (write_int32_be _)). by apply decode_write_int32.
Qed.

(** A DescribeTopicPartitions response with 127 topics or more does not
    fit the buffer: its size computation reserves one byte for the topic count,
    whose varint takes two bytes or more, so the serializer writes past the
    end. *)
Lemma serialize_describe_overflow (r : DescribeTopicPartitionsResponse) :
  Forall (λ t, zlen (tm_topic_id t) = 16) (dtpp_topics r) →
  127 ≤ zlen (dtpp_topics r) < 2 ^ 32 - 1 →
  serialize (RespDescribeTopicPartitions r) = Fault undefined_behaviour.
Proof.
  intros Hid Hl. apply ser_frame_short with (body_describe r); [apply emits_body_describe|].
  assert (0 ≤ zsum dtp_topic_size (dtpp_topics r)).
  { rewrite <-(zsum_Forall_ext _ _ dtp_topic_size _ size_dtp_topic Hid). apply zsum_nonneg.
    intros. apply zlen_nonneg. }
  rewrite size_body_describe by done. unfold count_size, kResponseHeaderV1Size.
  rewrite u32_succ_small by lia.
  rewrite varint_encoded_size_step by (unfold in_uint; lia). rewrite decide_False by lia.
  assert (1 ≤ varint_encoded_size ((zlen (dtpp_topics r) + 1) / 128)); [|lia].
  apply varint_encoded_size_pos. unfold in_uint.
  split; [apply Z.div_pos; lia|apply Z.div_lt_upper_bound; lia].
Qed.

(** The number of topics of a DescribeTopicPartitions response. *)
Definition described_topics (p : Response) : Z :=
  match p with RespDescribeTopicPartitions r => zlen (dtpp_topics r) | _ => 0 end.

Lemma serialize_exact p :
  topic_ids_ok p → described_topics p < 2 ^ 32 - 1 →
  serialize p = if described_topics p <? 127 then Ok (frame (response_body p)) else Fault undefined_behaviour.
Proof.
  intros Hid Hn. destruct (Z.ltb_spec (described_topics p) 127).
  - apply serialize_frame; [done|]. by destruct p.
  - destruct p; cbn in *; try lia. by apply serialize_describe_overflow.
Qed.

(** C3: The serializer implements the response format.  For a response whose
    topic ids have 16 bytes, and which has fewer than 127 topics if it is a
    DescribeTopicPartitions response, the buffer it sizes beforehand is filled
    exactly, with no write outside it, and the result is the frame of the
    response's body; a DescribeTopicPartitions response with 127 topics or more
    is always written past the end of the buffer.  When the body is shorter than
    [2^31] bytes and the correlation id is an [int32], the frame starts with the
    number of bytes that follow, and then the correlation id. *)
Theorem serialize_correct (p : Response) :
  topic_ids_ok p → described_topics p < 2 ^ 32 - 1 →
  serialize p = (if described_topics p <? 127 then Ok (frame (response_body p)) else Fault undefined_behaviour) ∧
  (in_int 32 (response_correlation_id p) → zlen (response_body p) < 2 ^ 31 →
   decode_int32_be (ztake 4 (frame (response_body p))) = zlen (frame (response_body p)) - 4 ∧
   decode_int32_be (ztake 4 (zdrop 4 (frame (response_body p)))) = response_correlation_id p).
Proof. intros. split; [by apply serialize_exact|by apply frame_prefix]. Qed.

Definition sample_join_response : Response :=
  RespJoinGroup (mkJoinGroupResponse 7 0 0 1 (str "range") (str "member-1") (str "member-1")
    [mkJoinGroupMember (str "member-1") [1; 2; 3]; mkJoinGroupMember (str "member-2") []]).

Definition sample_unknown_topic : TopicMetadata :=
  mkTopicMetadata 3 (str "t") (replicate 16 0) false 0 [].
Definition sample_describe_response (n : nat) : Response :=
  RespDescribeTopicPartitions (mkDescribeTopicPartitionsResponse 1 0 (replicate n sample_unknown_topic)).

Lemma serialize_correct_witness :
  (serialize sample_join_response = Ok (frame (response_body sample_join_response)) ∧
   decode_int32_be (ztake 4 (zdrop 4 (frame (response_body sample_join_response)))) = 7) ∧
  serialize (sample_describe_response 126) = Ok (frame (response_body (sample_describe_response 126))) ∧
  serialize (sample_describe_response 127) = Fault undefined_behaviour.
Proof.
  split_and!.
  - exact (proj1 (serialize_correct sample_join_response I ltac:(decide_now))).
  - apply (proj2 (serialize_correct sample_join_response I ltac:(decide_now))); decide_now.
  - exact (proj1 (serialize_correct (sample_describe_response 126) ltac:(decide_now) ltac:(decide_now))).
  - exact (proj1 (serialize_correct (sample_describe_response 127) ltac:(decide_now) ltac:(decide_now))).
Defined.
