(* ===== verification/RecordBatch.v ===== *)
(** * Record batches (src/src/util/record_batch.hpp)

    The full parser of v2 record batches, the header-only counter that
    [produce] uses, a specification of the batch format as an encoder, and the
    relation between the three.  [values.reserve(static_cast<size_t>(n))] with
    a negative [n] exceeds [max_size()] and throws [std::length_error]. *)

From S2P Require Import Prelude Endian Varint ByteReader Parser.

(** One header of a record: its key and value are skipped. *)
Definition parse_record_header (u : unit) : reader unit :=
  h_key_len ← read_signed_varint;
  _ ← (if h_key_len >? 0 then read_bytes h_key_len else mret []);
  h_val_len ← read_signed_varint;
  _ ← (if h_val_len >? 0 then read_bytes h_val_len else mret []);
  mret tt.

(** The body of the loop over the records. *)
Definition parse_record (values : list bytes) : reader (list bytes) :=
  body_size ← read_signed_varint;
  if body_size <=? 0 then mret values
  else
    attrs ← read_int8;
    timestamp_delta ← read_signed_varint;
    offset_delta ← read_signed_varint;
    key_len ← read_signed_varint;
    _ ← (if key_len >? 0 then read_bytes key_len else mret []);
    value_len ← read_signed_varint;
    value ← (if value_len >? 0 then read_bytes value_len else mret []);
    headers_count ← read_varint;
    _ ← (if headers_count >? 0
         then for_count (wrap_uint 32 (headers_count - 1)) parse_record_header tt
         else mret tt);
    mret (values ++ [value]).

Definition single_record_batch : reader (list bytes) :=
  base_offset ← read_int64;
  batch_length ← read_int32;
  partition_leader_epoch ← read_int32;
  magic ← read_int8;
  if negb (magic =? 2) then failed protocol_not_supported
  else
    crc ← read_int32;
    attributes ← read_int16;
    last_offset_delta ← read_int32;
    base_timestamp ← read_int64;
    max_timestamp ← read_int64;
    producer_id ← read_int64;
    producer_epoch ← read_int16;
    base_sequence ← read_int32;
    record_count ← lift (int32_add last_offset_delta 1);
    if record_count <? 0 then faulty length_error
    else for_count record_count parse_record [].

Definition parse_single_record_batch (data : bytes) : outcome (list bytes) :=
  run single_record_batch data.

(** The exit of the loop: an error when nothing was parsed. *)
Definition batches_done (all_values : list bytes) (e : errc) : outcome (list bytes) :=
  match all_values with [] => Err e | _ => Ok all_values end.

Fixpoint parse_batches (fuel : nat) (data : bytes) (offset : Z) (all_values : list bytes)
    : outcome (list bytes) :=
  match fuel with
  | O => batches_done all_values message_size
  | S fuel' =>
      if offset + 12 <=? zlen data then
        let header_reader := mkReader (zdrop offset data) 0 in
        let '(header_bo, r1) := read_int64 header_reader in
        let '(header_bl, _) := read_int32 r1 in
        match header_bo, header_bl with
        | Ok _, Ok bl =>
            if bl <? 0 then batches_done all_values message_size
            else
              let batch_size := 12 + bl in
              if offset + batch_size >? zlen data then batches_done all_values message_size
              else
                match parse_single_record_batch (ztake batch_size (zdrop offset data)) with
                | Ok result => parse_batches fuel' data (offset + batch_size) (all_values ++ result)
                | Err e => batches_done all_values e
                | Fault f => Fault f
                end
        | _, _ => batches_done all_values message_size
        end
      else batches_done all_values message_size
  end.

(** Every iteration consumes at least twelve bytes, so one unit of fuel per
    byte is more than enough; see [parse_batches_fuel]. *)
Definition parse_record_batch (data : bytes) : outcome (list bytes) :=
  parse_batches (S (length data)) data 0 [].

Definition batch_count_reader : reader Z :=
  _ ← attempt read_int64;
  _ ← attempt read_int32;
  _ ← attempt read_int32;
  magic ← attempt read_int8;
  match magic with
  | Ok 2 =>
      _ ← attempt read_int32;
      _ ← attempt read_int16;
      last_offset_delta ← read_int32;
      lift (int32_add last_offset_delta 1)
  | _ => failed protocol_not_supported
  end.

Definition record_batch_count (data : bytes) : outcome Z :=
  if zlen data <? 28 then Err message_size else run batch_count_reader data.

(** ** The batch format *)

Record BatchRecord := mkBatchRecord {
  rec_attributes : Z;
  rec_timestamp_delta : Z;
  rec_offset_delta : Z;
  rec_key : option bytes;
  rec_value : option bytes;
  rec_headers : list (option bytes * option bytes) }.

Record Batch := mkBatch {
  bat_base_offset : Z;
  bat_leader_epoch : Z;
  bat_crc : Z;
  bat_attributes : Z;
  bat_base_timestamp : Z;
  bat_max_timestamp : Z;
  bat_producer_id : Z;
  bat_producer_epoch : Z;
  bat_base_sequence : Z;
  bat_records : list BatchRecord }.

(** Optional bytes: length [-1] for none. *)
Definition enc_opt_bytes (o : option bytes) : bytes :=
  match o with
  | Some b => write_signed_varint (zlen b) ++ b
  | None => write_signed_varint (-1)
  end.

Definition enc_record_header (h : option bytes * option bytes) : bytes :=
  enc_opt_bytes h.1 ++ enc_opt_bytes h.2.

Definition enc_record_body (r : BatchRecord) : bytes :=
  [rec_attributes r] ++ write_signed_varint (rec_timestamp_delta r) ++
  write_signed_varint (rec_offset_delta r) ++ enc_opt_bytes (rec_key r) ++
  enc_opt_bytes (rec_value r) ++ write_signed_varint (zlen (rec_headers r)) ++
  concat (map enc_record_header (rec_headers r)).

Definition enc_record (r : BatchRecord) : bytes :=
  write_signed_varint (zlen (enc_record_body r)) ++ enc_record_body r.

(** What follows the batch length field. *)
Definition enc_batch_body (b : Batch) : bytes :=
  write_int32_be (bat_leader_epoch b) ++ [2] ++ write_int32_be (bat_crc b) ++
  write_int16_be (bat_attributes b) ++ write_int32_be (zlen (bat_records b) - 1) ++
  write_int64_be (bat_base_timestamp b) ++ write_int64_be (bat_max_timestamp b) ++
  write_int64_be (bat_producer_id b) ++ write_int16_be (bat_producer_epoch b) ++
  write_int32_be (bat_base_sequence b) ++ concat (map enc_record (bat_records b)).

Definition enc_batch (b : Batch) : bytes :=
  write_int64_be (bat_base_offset b) ++ write_int32_be (zlen (enc_batch_body b)) ++ enc_batch_body b.

Definition record_value (r : BatchRecord) : bytes := default [] (rec_value r).
Definition batch_values (b : Batch) : list bytes := map record_value (bat_records b).

Definition small (z : Z) : Prop := - 2 ^ 27 ≤ z < 2 ^ 27.
Definition opt_bytes_ok (o : option bytes) : Prop :=
  match o with Some b => zlen b < 2 ^ 27 | None => True end.

(** Records whose fields fit, with at most one header. *)
Definition record_ok (r : BatchRecord) : Prop :=
  byte_ok (rec_attributes r) ∧ small (rec_timestamp_delta r) ∧ small (rec_offset_delta r) ∧
  opt_bytes_ok (rec_key r) ∧ opt_bytes_ok (rec_value r) ∧
  Forall (λ h, opt_bytes_ok h.1 ∧ opt_bytes_ok h.2) (rec_headers r) ∧
  zlen (rec_headers r) ≤ 1 ∧ zlen (enc_record_body r) < 2 ^ 27.

Definition batch_ok (b : Batch) : Prop :=
  in_int 64 (bat_base_offset b) ∧ in_int 32 (bat_leader_epoch b) ∧ in_int 32 (bat_crc b) ∧
  in_int 16 (bat_attributes b) ∧ in_int 64 (bat_base_timestamp b) ∧
  in_int 64 (bat_max_timestamp b) ∧ in_int 64 (bat_producer_id b) ∧
  in_int 16 (bat_producer_epoch b) ∧ in_int 32 (bat_base_sequence b) ∧
  Forall record_ok (bat_records b) ∧ 0 < zlen (bat_records b) ∧ zlen (enc_batch_body b) < 2 ^ 31.

(** ** The full parser inverts the format *)

Lemma parses_opt_bytes o :
  opt_bytes_ok o →
  ∃ n bs, enc_opt_bytes o = write_signed_varint n ++ bs ∧ small n ∧
    parses (if n >? 0 then read_bytes n else mret []) bs (default [] o).
Proof.
  unfold small. destruct o as [b|]; simpl; intros H.
  - pose proof (zlen_nonneg b). exists (zlen b), b. split_and!; [done|lia..|].
    destruct (Z.gtb_spec (zlen b) 0); [by apply parses_bytes|].
    rewrite (zlen_0_nil b) by lia. apply parses_ret.
  - exists (-1), []. rewrite app_nil_r. split_and!; [done|lia..|]. apply parses_ret.
Qed.

(** A length-prefixed field inside a block. *)
Lemma parses_bind_opt_bytes {B} o (k : bytes → reader B) bs b :
  opt_bytes_ok o → parses (k (default [] o)) bs b →
  parses (n ← read_signed_varint; x ← (if n >? 0 then read_bytes n else mret []); k x)
    (enc_opt_bytes o ++ bs) b.
Proof.
  intros (n & cs & -> & Hn & Hp)%parses_opt_bytes Hk. rewrite <-app_assoc.
  eapply parses_bind; [by apply parses_signed_varint|]. by eapply parses_bind.
Qed.

Lemma parses_record_header u h :
  opt_bytes_ok h.1 ∧ opt_bytes_ok h.2 → parses (parse_record_header u) (enc_record_header h) tt.
Proof.
  intros [? ?]. unfold parse_record_header, enc_record_header.
  apply parses_bind_opt_bytes; [done|]. rewrite <-(app_nil_r (enc_opt_bytes h.2)).
  apply parses_bind_opt_bytes; [done|]. apply parses_ret.
Qed.

(** At most one header: the zigzag count [2n] read as an unsigned compact
    count [n + 1] agrees for [n ≤ 1]. *)
Lemma parses_record_headers hs :
  Forall (λ h, opt_bytes_ok h.1 ∧ opt_bytes_ok h.2) hs → zlen hs ≤ 1 →
  parses (headers_count ← read_varint;
          if headers_count >? 0
          then for_count (wrap_uint 32 (headers_count - 1)) parse_record_header tt
          else mret tt)
    (write_signed_varint (zlen hs) ++ concat (map enc_record_header hs)) tt.
Proof.
  intros Hhs Hl. destruct hs as [|h [|h2 hs]]; [| |zlia].
  - eapply (parses_bind _ _ _ []); [by apply (parses_varint 0)|apply parses_ret].
  - inversion_clear Hhs. eapply parses_bind; [by apply (parses_varint 2)|].
    cbn. rewrite app_nil_r. by apply parses_record_header.
Qed.

Lemma enc_record_body_pos r : 0 < zlen (enc_record_body r).
Proof. unfold enc_record_body. rewrite zlen_app. change (zlen [_]) with 1. zlia. Qed.

Lemma parses_record acc r :
  record_ok r → parses (parse_record acc) (enc_record r) (acc ++ [record_value r]).
Proof.
  intros (? & ? & ? & ? & ? & ? & ? & ?). pose proof (enc_record_body_pos r).
  unfold parse_record, enc_record.
  eapply parses_bind; [apply parses_signed_varint; lia|]. cbn beta.
  destruct (Z.leb_spec (zlen (enc_record_body r)) 0); [lia|].
  unfold enc_record_body.
  eapply (parses_bind _ _ [_]); [by apply parses_int8|]. cbn beta.
  eapply parses_bind; [by apply parses_signed_varint|]. cbn beta.
  eapply parses_bind; [by apply parses_signed_varint|]. cbn beta.
  apply parses_bind_opt_bytes; [done|]. apply parses_bind_opt_bytes; [done|].
  intros pre post.
  pose proof (parses_bind_ret _ (λ _, mret (acc ++ [record_value r])) _ tt _
    (parses_record_headers _ ltac:(eassumption) ltac:(eassumption)) (parses_ret _) pre post) as E.
  unfold mbind, reader_bind in *. rewrite <-E. by destruct (read_varint _) as [[]].
Qed.

(** The loop over the records, collecting their values. *)
Lemma parses_records rs acc :
  Forall record_ok rs →
  parses (rloop (length rs) parse_record acc) (concat (map enc_record rs)) (acc ++ map record_value rs).
Proof.
  intros Hrs. revert acc. induction Hrs as [|r rs Hr _ IH]; intros acc.
  - rewrite app_nil_r. apply parses_ret.
  - replace (acc ++ map record_value (r :: rs)) with ((acc ++ [record_value r]) ++ map record_value rs)
      by (by rewrite <-app_assoc).
    cbn [length rloop map concat]. eapply parses_bind; [by apply parses_record|apply IH].
Qed.

Lemma enc_record_pos r : 1 ≤ zlen (enc_record r).
Proof. unfold enc_record. pose proof (enc_record_body_pos r). zlia. Qed.

Lemma enc_records_length rs : zlen rs ≤ zlen (concat (map enc_record rs)).
Proof.
  rewrite zlen_concat_map. induction rs as [|r rs IH]; [done|]. cbn [zsum foldr].
  pose proof (enc_record_pos r). unfold zsum in *. zlia.
Qed.

Lemma batch_count_bound b : batch_ok b → zlen (bat_records b) < 2 ^ 31.
Proof.
  intros (_ & _ & _ & _ & _ & _ & _ & _ & _ & _ & _ & Hl).
  pose proof (enc_records_length (bat_records b)). unfold enc_batch_body in Hl.
  rewrite !zlen_app in Hl. zlia.
Qed.

Lemma parses_single_batch b : batch_ok b → parses single_record_batch (enc_batch b) (batch_values b).
Proof.
  intros Hb. pose proof (batch_count_bound b Hb) as Hc.
  destruct Hb as (? & ? & ? & ? & ? & ? & ? & ? & ? & ? & Hpos & ?).
  pose proof (zlen_nonneg (enc_batch_body b)).
  unfold single_record_batch, enc_batch.
  eapply parses_bind; [by apply parses_int64|]. cbn beta.
  eapply parses_bind; [apply parses_int32; unfold in_int; lia|]. cbn beta.
  unfold enc_batch_body.
  eapply parses_bind; [by apply parses_int32|]. cbn beta.
  eapply (parses_bind _ _ [2]); [by apply parses_int8|]. cbn [Z.eqb Pos.eqb negb].
  eapply parses_bind; [by apply parses_int32|]. cbn beta.
  eapply parses_bind; [by apply parses_int16|]. cbn beta.
  eapply parses_bind; [apply parses_int32; unfold in_int; lia|]. cbn beta.
  do 3 (eapply parses_bind; [by apply parses_int64|]; cbn beta).
  eapply parses_bind; [by apply parses_int16|]. cbn beta.
  eapply parses_bind; [by apply parses_int32|]. cbn beta.
  unfold int32_add. rewrite decide_True by (unfold in_int; lia).
  intros pre post. unfold mbind, reader_bind, lift. cbn beta iota.
  destruct (Z.ltb_spec (zlen (bat_records b) - 1 + 1) 0); [lia|].
  rewrite for_count_rloop.
  replace (Z.to_nat (zlen (bat_records b) - 1 + 1)) with (length (bat_records b))
    by (unfold zlen; lia).
  by rewrite (parses_records (bat_records b) []).
Qed.

(** ** The loop over the batches *)

(** [bs] is the twelve-byte batch header: base offset and batch length. *)
Definition enc_batch_head (b : Batch) : bytes :=
  write_int64_be (bat_base_offset b) ++ write_int32_be (zlen (enc_batch_body b)).

Lemma enc_batch_split b : enc_batch b = enc_batch_head b ++ enc_batch_body b.
Proof. unfold enc_batch, enc_batch_head. by rewrite <-app_assoc. Qed.

Lemma enc_batch_head_length b : zlen (enc_batch_head b) = 12.
Proof. reflexivity. Qed.

Lemma read_batch_head b post :
  batch_ok b →
  ∃ r, read_int64 (mkReader (enc_batch_head b ++ post) 0) = (Ok (bat_base_offset b), r) ∧
       (read_int32 r).1 = Ok (zlen (enc_batch_body b)).
Proof.
  intros (Hbo & _ & _ & _ & _ & _ & _ & _ & _ & _ & _ & Hl).
  pose proof (zlen_nonneg (enc_batch_body b)). unfold enc_batch_head. rewrite <-app_assoc.
  pose proof (parses_int64 _ Hbo [] (write_int32_be (zlen (enc_batch_body b)) ++ post)) as E.
  rewrite !app_nil_l in E. change (zlen []) with 0 in E.
  eexists. split; [exact E|].
  assert (in_int 32 (zlen (enc_batch_body b))) as Hi by (unfold in_int; lia).
  pose proof (parses_int32 _ Hi (write_int64_be (bat_base_offset b)) post) as E2.
  rewrite Z.add_0_l, E2. done.
Qed.

(** A complete batch is one iteration. *)
Lemma parse_batches_batch fuel pre b post acc :
  batch_ok b →
  parse_batches (S fuel) (pre ++ enc_batch b ++ post) (zlen pre) acc =
  parse_batches fuel (pre ++ enc_batch b ++ post) (zlen pre + zlen (enc_batch b)) (acc ++ batch_values b).
Proof.
  intros Hb. pose proof (zlen_nonneg (enc_batch_body b)).
  assert (zlen (enc_batch b) = 12 + zlen (enc_batch_body b)) as Hl.
  { by rewrite enc_batch_split, zlen_app, enc_batch_head_length. }
  cbn [parse_batches]. rewrite zdrop_app.
  destruct (Z.leb_spec (zlen pre + 12) (zlen (pre ++ enc_batch b ++ post))); [|zlia].
  destruct (read_batch_head b (enc_batch_body b ++ post) Hb) as (r & E1 & E2).
  rewrite app_assoc, <-enc_batch_split in E1. rewrite E1.
  destruct (read_int32 r) as [o r2]. cbn [fst] in E2. rewrite E2.
  destruct (Z.ltb_spec (zlen (enc_batch_body b)) 0); [lia|].
  destruct (Z.gtb_spec (zlen pre + (12 + zlen (enc_batch_body b))) (zlen (pre ++ enc_batch b ++ post))); [zlia|].
  rewrite <-Hl, ztake_app. unfold parse_single_record_batch.
  rewrite <-(app_nil_r (enc_batch b)) at 1.
  by rewrite (parses_run _ _ _ _ (parses_single_batch b Hb)).
Qed.

(** An incomplete batch ends the loop. *)
Lemma parse_batches_partial fuel pre b n acc :
  batch_ok b → 0 ≤ n < zlen (enc_batch b) →
  parse_batches fuel (pre ++ ztake n (enc_batch b)) (zlen pre) acc = batches_done acc message_size.
Proof.
  intros Hb Hn. destruct fuel as [|fuel]; [done|]. cbn [parse_batches]. rewrite zdrop_app.
  rewrite zlen_app, zlen_ztake by lia.
  destruct (Z.leb_spec (zlen pre + 12) (zlen pre + n)); [|done].
  assert (ztake n (enc_batch b) = enc_batch_head b ++ ztake (n - 12) (enc_batch_body b)) as ->.
  { rewrite enc_batch_split. unfold ztake.
    rewrite take_app_ge by (change (length (enc_batch_head b)) with 12%nat; lia).
    change (length (enc_batch_head b)) with 12%nat. do 2 f_equal. lia. }
  destruct (read_batch_head b (ztake (n - 12) (enc_batch_body b)) Hb) as (r & -> & E2).
  destruct (read_int32 r) as [o r2]. cbn [fst] in E2. rewrite E2.
  destruct (Z.ltb_spec (zlen (enc_batch_body b)) 0); [done|].
  rewrite enc_batch_split, zlen_app, enc_batch_head_length in Hn.
  destruct (Z.gtb_spec (zlen pre + (12 + zlen (enc_batch_body b))) (zlen pre + n)); [done|lia].
Qed.

Lemma batch_values_nonempty b : batch_ok b → batch_values b ≠ [].
Proof.
  intros Hb E. destruct Hb as (_ & _ & _ & _ & _ & _ & _ & _ & _ & _ & Hp & _).
  unfold batch_values in E. apply map_eq_nil in E. rewrite E in Hp. zlia.
Qed.

Lemma enc_batch_length b : 12 ≤ zlen (enc_batch b).
Proof. rewrite enc_batch_split, zlen_app, enc_batch_head_length. zlia. Qed.

Lemma parse_batches_complete bs b n pre acc fuel :
  Forall batch_ok bs → batch_ok b → 0 ≤ n < zlen (enc_batch b) →
  (length bs ≤ fuel)%nat →
  parse_batches fuel (pre ++ concat (map enc_batch bs) ++ ztake n (enc_batch b)) (zlen pre) acc =
  batches_done (acc ++ concat (map batch_values bs)) message_size.
Proof.
  intros Hbs Hb Hn. revert pre acc fuel. induction Hbs as [|c bs Hc _ IH]; intros pre acc fuel Hf.
  - cbn. rewrite app_nil_r. by apply parse_batches_partial.
  - destruct fuel as [|fuel]; [cbn in Hf; lia|]. cbn [map concat]. rewrite <-!app_assoc.
    rewrite (parse_batches_batch fuel pre c) by done.
    rewrite <-zlen_app, (app_assoc pre).
    rewrite IH by (cbn in Hf; lia). by rewrite <-!app_assoc.
Qed.

Lemma parse_batches_fuel data fuel1 fuel2 off acc :
  0 ≤ off → zlen data - off < Z.of_nat fuel1 → zlen data - off < Z.of_nat fuel2 →
  parse_batches fuel1 data off acc = parse_batches fuel2 data off acc.
Proof.
  revert fuel2 off acc. induction fuel1 as [|n1 IH]; intros [|n2] off acc Ho H1 H2;
    [done|cbn [parse_batches]; destruct (Z.leb_spec (off + 12) (zlen data)); [lia|done]..|].
  cbn [parse_batches]. destruct (Z.leb_spec (off + 12) (zlen data)); [|done].
  destruct (read_int64 _) as [[] r1], (read_int32 r1) as [[bl| |] r2]; try done.
  destruct (Z.ltb_spec bl 0); [done|]. destruct (off + (12 + bl) >? zlen data); [done|].
  destruct (parse_single_record_batch _); [|done..]. apply IH; lia.
Qed.

(** ** The header-only count against the full parser *)

Lemma bind_ok {A B} (m : reader A) (k : A → reader B) r a r1 :
  m r = (Ok a, r1) → (m ≫= k) r = k a r1.
Proof. intros E. unfold mbind, reader_bind. by rewrite E. Qed.

Lemma attempt_ok {A B} (m : reader A) (k : outcome A → reader B) r a r1 :
  m r = (Ok a, r1) → (attempt m ≫= k) r = k (Ok a) r1.
Proof. intros E. unfold mbind, reader_bind, attempt. by rewrite E. Qed.

Lemma bind_inv {A B} (m : reader A) (k : A → reader B) r b r2 :
  (m ≫= k) r = (Ok b, r2) → ∃ a r1, m r = (Ok a, r1) ∧ k a r1 = (Ok b, r2).
Proof. unfold mbind, reader_bind. destruct (m r) as [[] r1]; naive_solver. Qed.

(** A fixed-width read inside the span succeeds. *)
Lemma guard_ok {A} n (f : bytes → A) data off :
  off + n ≤ zlen data →
  (if remaining (mkReader data off) <? n then (Err message_size, mkReader data off)
   else (Ok (f (view n (mkReader data off))), advance n (mkReader data off))) =
  (Ok (f (view n (mkReader data off))), mkReader data (off + n)).
Proof. intros. unfold remaining. cbn [data_ offset_]. destruct (Z.ltb_spec (zlen data - off) n); [lia|done]. Qed.

Definition int64_at (data : bytes) (off : Z) := decode_int64_be (view 8 (mkReader data off)).
Definition int32_at (data : bytes) (off : Z) := decode_int32_be (view 4 (mkReader data off)).
Definition int16_at (data : bytes) (off : Z) := decode_int16_be (view 2 (mkReader data off)).
Definition int8_at (data : bytes) (off : Z) := byte_at (view 1 (mkReader data off)) 0.

Lemma read_int64_at data off : off + 8 ≤ zlen data →
  read_int64 (mkReader data off) = (Ok (int64_at data off), mkReader data (off + 8)).
Proof. apply (guard_ok 8 decode_int64_be). Qed.
Lemma read_int32_at data off : off + 4 ≤ zlen data →
  read_int32 (mkReader data off) = (Ok (int32_at data off), mkReader data (off + 4)).
Proof. apply (guard_ok 4 decode_int32_be). Qed.
Lemma read_int16_at data off : off + 2 ≤ zlen data →
  read_int16 (mkReader data off) = (Ok (int16_at data off), mkReader data (off + 2)).
Proof. apply (guard_ok 2 decode_int16_be). Qed.
Lemma read_int8_at data off : off + 1 ≤ zlen data →
  read_int8 (mkReader data off) = (Ok (int8_at data off), mkReader data (off + 1)).
Proof. apply (guard_ok 1 (λ bs, byte_at bs 0)). Qed.

(** Run the fixed-width reads of a header whose bytes are all present. *)
Ltac read_step read read_at :=
  match goal with
  | |- context [mbind ?k read (mkReader ?d ?o)] =>
      rewrite (bind_ok read k _ _ _ (read_at d o ltac:(lia)))
  | |- context [mbind ?k (attempt read) (mkReader ?d ?o)] =>
      rewrite (attempt_ok read k _ _ _ (read_at d o ltac:(lia)))
  end; cbn beta;
  repeat match goal with
  | |- context [Z.add (Zpos ?p) (Zpos ?q)] =>
      let z := eval vm_compute in (Z.add (Zpos p) (Zpos q)) in change (Z.add (Zpos p) (Zpos q)) with z
  | |- context [Z.add 0 ?z] => change (Z.add 0 z) with z
  end.
Ltac read_header :=
  repeat first [ read_step read_int64 read_int64_at | read_step read_int32 read_int32_at
               | read_step read_int16 read_int16_at | read_step read_int8 read_int8_at ].

(** The fixed part of a batch, once its 57 bytes are there. *)
Lemma single_record_batch_header data :
  57 ≤ zlen data →
  run single_record_batch data =
  if negb (int8_at data 16 =? 2) then Err protocol_not_supported
  else n ← int32_add (int32_at data 23) 1;
       if n <? 0 then Fault length_error
       else (for_count n parse_record [] (mkReader data 57)).1.
Proof.
  intros Hl. unfold run, single_record_batch. read_header.
  destruct (negb _); [done|]. read_header.
  unfold mbind at 1, reader_bind, lift. cbn -[int32_add].
  destruct (int32_add _ 1) as [n| |]; [|done..]. cbn. by destruct (n <? 0).
Qed.

Lemma record_batch_count_header data :
  28 ≤ zlen data →
  record_batch_count data =
  if negb (int8_at data 16 =? 2) then Err protocol_not_supported
  else int32_add (int32_at data 23) 1.
Proof.
  intros Hl. unfold record_batch_count. destruct (Z.ltb_spec (zlen data) 28); [lia|].
  unfold run, batch_count_reader. read_header.
  destruct (int8_at data 16) as [|[p|[p|p|]|]|p]; try done. cbn [negb Z.eqb Pos.eqb]. by read_header.
Qed.

(** The parser returns at most one value per counted record. *)
Lemma parse_record_values vs r vs' r' :
  parse_record vs r = (Ok vs', r') → zlen vs' ≤ zlen vs + 1.
Proof.
  unfold parse_record. intros (n & r1 & _ & E)%bind_inv.
  destruct (n <=? 0). { injection E as <- _. lia. }
  repeat (apply bind_inv in E as (? & ? & _ & E)). injection E as <- _. zlia.
Qed.

Lemma rloop_records_values n vs r vs' r' :
  rloop n parse_record vs r = (Ok vs', r') → zlen vs' ≤ zlen vs + Z.of_nat n.
Proof.
  revert vs r. induction n as [|n IH]; intros vs r; [intros [= <- _]; lia|].
  cbn [rloop]. intros (vs1 & r1 & H1%parse_record_values & H2%IH)%bind_inv. lia.
Qed.

(** The count of a blob that starts with a batch. *)
Lemma count_enc_batch b rest :
  batch_ok b → record_batch_count (enc_batch b ++ rest) = Ok (zlen (batch_values b)).
Proof.
  intros Hb. pose proof (batch_count_bound b Hb) as Hc.
  pose proof (parses_single_batch b Hb) as Hp.
  destruct Hb as (? & ? & ? & ? & ? & ? & ? & ? & ? & ? & ? & ?).
  rewrite record_batch_count_header by (unfold enc_batch, enc_batch_body, write_int64_be, write_int32_be, write_int16_be; zlia).
  unfold batch_values. rewrite zlen_map.
  assert (int8_at (enc_batch b ++ rest) 16 = 2) as -> by reflexivity.
  assert (int32_at (enc_batch b ++ rest) 23 = zlen (bat_records b) - 1) as ->.
  { rewrite <-(decode_write_int32 (zlen (bat_records b) - 1)) by (unfold in_int; lia). reflexivity. }
  unfold int32_add. rewrite decide_True by (unfold in_int; lia). cbn. f_equal. lia.
Qed.

(** Complete batches followed by one cut short. *)
Lemma parse_record_batch_complete bs b n :
  Forall batch_ok bs → batch_ok b → 0 ≤ n < zlen (enc_batch b) →
  parse_record_batch (concat (map enc_batch bs) ++ ztake n (enc_batch b)) =
  batches_done (concat (map batch_values bs)) message_size.
Proof.
  intros Hbs Hb Hn. unfold parse_record_batch.
  rewrite (parse_batches_complete bs b n [] []); [done|done..|].
  assert (zlen bs ≤ zlen (concat (map enc_batch bs))) as Hl.
  { rewrite zlen_concat_map. clear. induction bs as [|c bs IH]; [done|].
    pose proof (enc_batch_length c). unfold zsum in *. cbn [foldr]. zlia. }
  unfold zlen in Hl. rewrite length_app. lia.
Qed.

(** ** Properties *)

(** C20: reading back a segment: the bytes of one or more complete, uncompressed
    batches whose records have at most one header each, followed by such a batch
    cut short at any point, parse to exactly the values of the complete batches,
    in order.  ([two_headers_misparse] shows what a second header does.) *)
Theorem parse_record_batch_roundtrip bs b n :
  bs ≠ [] → Forall batch_ok bs → batch_ok b → 0 ≤ n < zlen (enc_batch b) →
  parse_record_batch (concat (map enc_batch bs) ++ ztake n (enc_batch b)) =
  Ok (concat (map batch_values bs)).
Proof.
  intros Hne Hbs Hb Hn. rewrite parse_record_batch_complete by done.
  destruct Hbs as [|c bs Hc _]; [done|]. cbn [map concat app batches_done].
  pose proof (batch_values_nonempty c Hc). by destruct (batch_values c).
Qed.

Definition sample_batch : Batch :=
  mkBatch 0 0 7 0 1000 1000 (-1) (-1) (-1)
    [mkBatchRecord 0 0 0 None (Some (str "hi")) [];
     mkBatchRecord 0 5 1 (Some (str "k")) None [(Some (str "h"), None)]].

#[export] Instance opt_bytes_ok_dec o : Decision (opt_bytes_ok o).
Proof. destruct o; unfold opt_bytes_ok; apply _. Defined.
#[export] Instance record_ok_dec r : Decision (record_ok r).
Proof. unfold record_ok, small. apply _. Defined.

Lemma parse_record_batch_roundtrip_witness :
  parse_record_batch (enc_batch sample_batch ++ enc_batch sample_batch ++ ztake 40 (enc_batch sample_batch)) =
  Ok [str "hi"; []; str "hi"; []].
Proof.
  assert (batch_ok sample_batch) as Hb by (unfold batch_ok; decide_now).
  apply (parse_record_batch_roundtrip [sample_batch; sample_batch] sample_batch 40);
    [done|by repeat constructor|done|decide_now].
Defined.

(** The count of headers is written as a zigzag varint but read as an unsigned
    one, less one: 0 and 1 come out right, while a record with two headers is
    read as having three, so the reader takes the bytes that follow for a header
    and the batch cannot be read back. *)
Definition two_headers_batch : Batch :=
  mkBatch 0 0 7 0 1000 1000 (-1) (-1) (-1)
    [mkBatchRecord 0 0 0 None (Some (str "one")) [(Some (str "h"), Some (str "a")); (Some (str "i"), None)];
     mkBatchRecord 0 5 1 None (Some (str "two")) []].

Lemma two_headers_misparse :
  record_batch_count (enc_batch two_headers_batch) = Ok 2 ∧
  parse_record_batch (enc_batch two_headers_batch) = Err message_size.
Proof. split; vm_compute; reflexivity. Qed.

(** C32: the loop over the batches terminates within the fuel it is given:
    more fuel never changes the result, on any input. *)
Theorem parse_record_batch_terminates data k :
  parse_batches (S (length data) + k) data 0 [] = parse_record_batch data.
Proof. unfold parse_record_batch. apply parse_batches_fuel; unfold zlen; lia. Qed.

(** C23: the header-only count used by [produce] agrees with the full parser on
    every buffer that holds a batch header: they reject the same buffers with
    the same error, a negative count makes the parser throw
    [std::length_error], and otherwise a successful parse returns no more
    values than were counted. *)
Theorem record_batch_count_agrees data :
  57 ≤ zlen data →
  match record_batch_count data with
  | Err e => parse_single_record_batch data = Err e
  | Fault f => parse_single_record_batch data = Fault f
  | Ok n =>
      if n <? 0 then parse_single_record_batch data = Fault length_error
      else ∀ vs, parse_single_record_batch data = Ok vs → zlen vs ≤ n
  end.
Proof.
  intros Hl. rewrite record_batch_count_header by lia. unfold parse_single_record_batch.
  rewrite single_record_batch_header by done. destruct (negb _); [done|].
  destruct (int32_add _ 1) as [n|e|f]; [|done..]. cbn.
  destruct (Z.ltb_spec n 0); [done|]. intros vs. rewrite for_count_rloop.
  destruct (rloop _ _ _ _) as [o r] eqn:E. cbn. intros ->.
  apply rloop_records_values in E. zlia.
Qed.

(** A batch header whose last offset delta is [-2]. *)
Definition negative_batch : bytes :=
  write_int64_be 0 ++ write_int32_be 45 ++ write_int32_be 0 ++ [2] ++ write_int32_be 0 ++
  write_int16_be 0 ++ write_int32_be (-2) ++ replicate 30 0.

Lemma record_batch_count_agrees_witness :
  record_batch_count negative_batch = Ok (-1) ∧
  parse_single_record_batch negative_batch = Fault length_error.
Proof. split; [done|]. exact (record_batch_count_agrees negative_batch ltac:(decide_now)). Defined.

(** On a well-formed blob the count is the number of records of its first
    batch, whatever follows it. *)
Theorem record_batch_count_first_batch b rest :
  batch_ok b → record_batch_count (enc_batch b ++ rest) = Ok (zlen (batch_values b)).
Proof. apply count_enc_batch. Qed.

(** Two batches of two records: two are counted, four are parsed. *)
Lemma record_batch_count_first_batch_witness :
  record_batch_count (enc_batch sample_batch ++ enc_batch sample_batch) = Ok 2 ∧
  parse_record_batch (enc_batch sample_batch ++ enc_batch sample_batch) =
    Ok [str "hi"; []; str "hi"; []].
Proof.
  split; [|reflexivity]. apply (record_batch_count_first_batch sample_batch).
  unfold batch_ok; decide_now.
Defined.
