(* ===== verification/GroupCoordinator.v ===== *)
(** * Consumer groups (src/src/broker/group_coordinator.hpp, group_coordinator.cpp)

    The coordinator keeps a map of groups and a counter for generated member
    ids.  Every handler holds the coordinator's mutex from its first to its
    last statement, so concurrent requests are a sequence of handler calls:
    [exec] runs one of them and [reachable] closes the initial state under it.
    Readings of [steady_clock] are arguments, in nanoseconds; the counters are
    [int32_t], whose overflow is undefined behaviour. *)

From S2P Require Import Prelude Protocol.

Inductive GroupState := Empty | AwaitingSync | Stable | Dead.

#[export] Instance GroupState_eq_dec : EqDecision GroupState.
Proof. solve_decision. Defined.

Record MemberInfo := mkMemberInfo {
  mi_member_id : bytes;
  mi_protocol_metadata : bytes;
  mi_assignment : bytes;
  mi_last_heartbeat : Z }.

Record GroupMetadata := mkGroupMetadata {
  gm_state : GroupState;
  gm_generation : Z;
  gm_session_timeout_ms : Z;
  gm_members : list MemberInfo;
  gm_committed_offsets : gmap bytes (gmap Z Z) }.

(** A value-initialised [GroupMetadata], as [groups_[id]] inserts it. *)
Definition new_group : GroupMetadata := mkGroupMetadata Empty 0 30000 [] ∅.

Record GroupCoordinator := mkGroupCoordinator {
  groups_ : gmap bytes GroupMetadata;
  next_member_id_ : Z }.

Definition new_coordinator : GroupCoordinator := mkGroupCoordinator ∅ 0.

(** [groups_[id]]: the group, default-constructed when absent. *)
Definition group (s : GroupCoordinator) (id : bytes) : GroupMetadata :=
  default new_group (groups_ s !! id).
(** Store a group back through the reference. *)
Definition set_group (s : GroupCoordinator) (id : bytes) (g : GroupMetadata) : GroupCoordinator :=
  mkGroupCoordinator (<[id := g]> (groups_ s)) (next_member_id_ s).

(** The loops that look for a member stop at the first match. *)
Fixpoint find_member (id : bytes) (ms : list MemberInfo) : option MemberInfo :=
  match ms with
  | [] => None
  | m :: ms' => if decide (mi_member_id m = id) then Some m else find_member id ms'
  end.
Fixpoint update_member (id : bytes) (f : MemberInfo → MemberInfo) (ms : list MemberInfo)
    : list MemberInfo :=
  match ms with
  | [] => []
  | m :: ms' => if decide (mi_member_id m = id) then f m :: ms' else m :: update_member id f ms'
  end.

Definition touch (now : Z) (m : MemberInfo) : MemberInfo :=
  mkMemberInfo (mi_member_id m) (mi_protocol_metadata m) (mi_assignment m) now.
Definition assign (a : bytes) (m : MemberInfo) : MemberInfo :=
  mkMemberInfo (mi_member_id m) (mi_protocol_metadata m) a (mi_last_heartbeat m).

Definition member_ids (ms : list MemberInfo) : list bytes := map mi_member_id ms.

Definition handle_find_coordinator (r : FindCoordinatorRequest) : FindCoordinatorResponse :=
  mkFindCoordinatorResponse (correlation_id (fcr_header r)) 0 0 [] 1 (str "localhost") 9092.

(** The id of a joining member and the counter afterwards. *)
Definition join_member_id (r : JoinGroupRequest) (next : Z) : outcome (bytes * Z) :=
  match jgr_member_id r with
  | [] => n ← int32_add next 1; mret (str "member-" ++ to_string n, n)
  | id => mret (id, next)
  end.

Definition first_protocol_metadata (ps : list JoinGroupProtocol) : bytes :=
  match ps with p :: _ => jgp_metadata p | [] => [] end.
Definition first_protocol_name (ps : list JoinGroupProtocol) : bytes :=
  match ps with p :: _ => jgp_name p | [] => [] end.

(** The member list after a join. *)
Definition join_members (now : Z) (member metadata : bytes) (ms : list MemberInfo) : list MemberInfo :=
  match find_member member ms with
  | None => ms ++ [mkMemberInfo member metadata [] now]
  | Some _ => update_member member (touch now) ms
  end.

(** The generation after a join. *)
Definition join_generation (g : GroupMetadata) : outcome Z :=
  if gm_generation g =? 0 then mret 1
  else if decide (gm_state g = Stable) then int32_add (gm_generation g) 1
  else mret (gm_generation g).

(** [members[0].member_id] *)
Definition leader_id (ms : list MemberInfo) : outcome bytes :=
  match ms with m :: _ => mret (mi_member_id m) | [] => Fault undefined_behaviour end.

Definition response_member (m : MemberInfo) : JoinGroupMember :=
  mkJoinGroupMember (mi_member_id m) (mi_protocol_metadata m).

Definition handle_join_group (now : Z) (r : JoinGroupRequest) (s : GroupCoordinator)
    : outcome (JoinGroupResponse * GroupCoordinator) :=
  '(member, next) ← join_member_id r (next_member_id_ s);
  let meta := group s (jgr_group_id r) in
  let members := join_members now member (first_protocol_metadata (jgr_protocols r)) (gm_members meta) in
  generation ← join_generation meta;
  leader ← leader_id members;
  let meta' := mkGroupMetadata AwaitingSync generation (jgr_session_timeout_ms r) members
                 (gm_committed_offsets meta) in
  mret (mkJoinGroupResponse (correlation_id (jgr_header r)) 0 0 generation
          (first_protocol_name (jgr_protocols r)) leader member (map response_member members),
        mkGroupCoordinator (<[jgr_group_id r := meta']> (groups_ s)) next).

(** The assignments of a sync, in order; [clock i] is the time read when the
    [i]-th of them adds a member. *)
Fixpoint apply_assignments (clock : nat → Z) (as_ : list SyncGroupAssignment) (ms : list MemberInfo)
    : list MemberInfo :=
  match as_ with
  | [] => ms
  | a :: as' =>
      apply_assignments (λ i, clock (S i)) as'
        match find_member (sga_member_id a) ms with
        | Some _ => update_member (sga_member_id a) (assign (sga_assignment a)) ms
        | None => ms ++ [mkMemberInfo (sga_member_id a) [] (sga_assignment a) (clock 0%nat)]
        end
  end.

(** The assignment of the requesting member, empty when it is not there. *)
Definition assignment_of (id : bytes) (ms : list MemberInfo) : bytes :=
  match find_member id ms with Some m => mi_assignment m | None => [] end.

(** [groups_.find(id)] with the generation the request carries. *)
Definition find_generation (s : GroupCoordinator) (id : bytes) (generation : Z) : option GroupMetadata :=
  g ← groups_ s !! id; if gm_generation g =? generation then Some g else None.

Definition sync_response (r : SyncGroupRequest) (error_code : Z) (assignment : bytes) : SyncGroupResponse :=
  mkSyncGroupResponse (correlation_id (sgr_header r)) 0 error_code [] [] assignment.

Definition handle_sync_group (clock : nat → Z) (r : SyncGroupRequest) (s : GroupCoordinator)
    : SyncGroupResponse * GroupCoordinator :=
  match find_generation s (sgr_group_id r) (sgr_generation_id r) with
  | None => (sync_response r 82 [], s)
  | Some meta =>
      match sgr_assignments r with
      | [] => (sync_response r 0 (assignment_of (sgr_member_id r) (gm_members meta)), s)
      | _ =>
          let members := apply_assignments clock (sgr_assignments r) (gm_members meta) in
          (sync_response r 0 (assignment_of (sgr_member_id r) members),
           set_group s (sgr_group_id r)
             (mkGroupMetadata Stable (gm_generation meta) (gm_session_timeout_ms meta) members
                (gm_committed_offsets meta)))
      end
  end.

(** [now - m.last_heartbeat > timeout], a nanosecond duration against
    milliseconds. *)
Definition expired (now timeout_ms : Z) (m : MemberInfo) : bool :=
  now - mi_last_heartbeat m >? timeout_ms * 1000000.

(** What follows [std::erase_if]: the group becomes empty, or starts a new
    generation when the list became shorter. *)
Definition after_erase (meta : GroupMetadata) (members : list MemberInfo) : outcome GroupMetadata :=
  let with_state st gen :=
    mkGroupMetadata st gen (gm_session_timeout_ms meta) members (gm_committed_offsets meta) in
  match members with
  | [] => mret (with_state Empty (gm_generation meta))
  | _ =>
      if zlen members <? zlen (gm_members meta)
      then generation ← int32_add (gm_generation meta) 1; mret (with_state AwaitingSync generation)
      else mret (with_state (gm_state meta) (gm_generation meta))
  end.

Definition heartbeat_response (r : HeartbeatRequest) (error_code : Z) : HeartbeatResponse :=
  mkHeartbeatResponse (correlation_id (hbr_header r)) 0 error_code.

Definition handle_heartbeat (now : Z) (r : HeartbeatRequest) (s : GroupCoordinator)
    : outcome (HeartbeatResponse * GroupCoordinator) :=
  match find_generation s (hbr_group_id r) (hbr_generation_id r) with
  | None => mret (heartbeat_response r 82, s)
  | Some meta =>
      if decide (gm_state meta = Stable) then
        let touched := update_member (hbr_member_id r) (touch now) (gm_members meta) in
        let members := List.filter (λ m, negb (expired now (gm_session_timeout_ms meta) m)) touched in
        meta' ← after_erase meta members;
        mret (heartbeat_response r 0, set_group s (hbr_group_id r) meta')
      else mret (heartbeat_response r 82, s)
  end.

Definition leave_response (r : LeaveGroupRequest) (error_code : Z) : LeaveGroupResponse :=
  mkLeaveGroupResponse (correlation_id (lgr_header r)) 0 error_code.

Definition handle_leave_group (r : LeaveGroupRequest) (s : GroupCoordinator)
    : outcome (LeaveGroupResponse * GroupCoordinator) :=
  match groups_ s !! lgr_group_id r with
  | None => mret (leave_response r 25, s)
  | Some meta =>
      let members := List.filter (λ m, negb (bool_decide (mi_member_id m = lgr_member_id r))) (gm_members meta) in
      if zlen members <? zlen (gm_members meta) then
        meta' ← after_erase meta members;
        mret (leave_response r 0, set_group s (lgr_group_id r) meta')
      else mret (leave_response r 25, s)
  end.

(** [committed_offsets[topic][partition] = offset] *)
Definition store_offset (topic : bytes) (p : OffsetCommitPartitionRequest)
    (offsets : gmap bytes (gmap Z Z)) : gmap bytes (gmap Z Z) :=
  <[topic := <[ocpr_partition_index p := ocpr_committed_offset p]> (default ∅ (offsets !! topic))]> offsets.

Definition commit_topic (offsets : gmap bytes (gmap Z Z)) (t : OffsetCommitTopicRequest)
    : gmap bytes (gmap Z Z) :=
  fold_left (λ os p, store_offset (octr_topic_name t) p os) (octr_partitions t) offsets.

Definition commit_topic_response (t : OffsetCommitTopicRequest) : OffsetCommitTopicResponse :=
  mkOffsetCommitTopicResponse (octr_topic_name t)
    (map (λ p, mkOffsetCommitPartitionResponse (ocpr_partition_index p) 0 (-1) []) (octr_partitions t)).

Definition handle_offset_commit (r : OffsetCommitRequest) (s : GroupCoordinator)
    : OffsetCommitResponse * GroupCoordinator :=
  let meta := group s (ocr_group_id r) in
  let offsets := fold_left commit_topic (ocr_topics r) (gm_committed_offsets meta) in
  (mkOffsetCommitResponse (correlation_id (ocr_header r)) 0 (map commit_topic_response (ocr_topics r)),
   set_group s (ocr_group_id r)
     (mkGroupMetadata (gm_state meta) (gm_generation meta) (gm_session_timeout_ms meta)
        (gm_members meta) offsets)).

(** The two nested [find]s, with [-1] when either fails. *)
Definition stored_offset (offsets : gmap bytes (gmap Z Z)) (topic : bytes) (partition : Z) : Z :=
  match offsets !! topic with
  | Some m => match m !! partition with Some o => o | None => -1 end
  | None => -1
  end.

Definition fetch_topic_response (offsets : gmap bytes (gmap Z Z)) (t : OffsetFetchTopicRequest)
    : OffsetFetchTopicResponse :=
  mkOffsetFetchTopicResponse (oftr_topic_name t)
    (map (λ i, mkOffsetFetchPartitionResponse i (stored_offset offsets (oftr_topic_name t) i) (-1) [] 0)
       (oftr_partition_indexes t)).

Definition handle_offset_fetch (r : OffsetFetchRequest) (s : GroupCoordinator)
    : OffsetFetchResponse * GroupCoordinator :=
  let meta := group s (ofr_group_id r) in
  (mkOffsetFetchResponse (correlation_id (ofr_header r)) 0
     (map (fetch_topic_response (gm_committed_offsets meta)) (ofr_topics r)),
   set_group s (ofr_group_id r) meta).

(** ** Runs *)

(** A handler call with the clock readings it makes. *)
Inductive op :=
| OpJoin (now : Z) (r : JoinGroupRequest)
| OpSync (clock : nat → Z) (r : SyncGroupRequest)
| OpHeartbeat (now : Z) (r : HeartbeatRequest)
| OpLeave (r : LeaveGroupRequest)
| OpCommit (r : OffsetCommitRequest)
| OpFetch (r : OffsetFetchRequest).

Definition exec (o : op) (s : GroupCoordinator) : outcome (Response * GroupCoordinator) :=
  match o with
  | OpJoin now r => '(p, s') ← handle_join_group now r s; mret (RespJoinGroup p, s')
  | OpSync clock r => let '(p, s') := handle_sync_group clock r s in mret (RespSyncGroup p, s')
  | OpHeartbeat now r => '(p, s') ← handle_heartbeat now r s; mret (RespHeartbeat p, s')
  | OpLeave r => '(p, s') ← handle_leave_group r s; mret (RespLeaveGroup p, s')
  | OpCommit r => let '(p, s') := handle_offset_commit r s in mret (RespOffsetCommit p, s')
  | OpFetch r => let '(p, s') := handle_offset_fetch r s in mret (RespOffsetFetch p, s')
  end.

Definition op_group (o : op) : bytes :=
  match o with
  | OpJoin _ r => jgr_group_id r
  | OpSync _ r => sgr_group_id r
  | OpHeartbeat _ r => hbr_group_id r
  | OpLeave r => lgr_group_id r
  | OpCommit r => ocr_group_id r
  | OpFetch r => ofr_group_id r
  end.

Fixpoint exec_all (os : list op) (s : GroupCoordinator) : outcome GroupCoordinator :=
  match os with
  | [] => mret s
  | o :: os' => '(_, s') ← exec o s; exec_all os' s'
  end.

(** The states after [n] handler calls. *)
Inductive reachable : nat → GroupCoordinator → Prop :=
| reachable_init : reachable 0 new_coordinator
| reachable_step n s o p s' : reachable n s → exec o s = Ok (p, s') → reachable (S n) s'.

(** ** Member lists *)

Lemma find_member_None id ms : find_member id ms = None ↔ id ∉ member_ids ms.
Proof.
  induction ms as [|m ms IH]; cbn; [set_solver|]. rewrite elem_of_cons.
  destruct (decide (mi_member_id m = id)); naive_solver.
Qed.

Lemma find_member_id id ms m : find_member id ms = Some m → mi_member_id m = id.
Proof. induction ms; cbn; [done|]. case_decide; naive_solver. Qed.

Lemma find_member_app id ms1 ms2 :
  find_member id (ms1 ++ ms2) =
  match find_member id ms1 with Some m => Some m | None => find_member id ms2 end.
Proof. induction ms1; cbn; [done|]. by case_decide. Qed.

Section update.
Context (f : MemberInfo → MemberInfo) (Hf : ∀ m, mi_member_id (f m) = mi_member_id m).

Lemma update_member_ids id ms : member_ids (update_member id f ms) = member_ids ms.
Proof.
  unfold member_ids. induction ms as [|m ms IH]; cbn; [done|].
  case_decide; cbn; by rewrite ?Hf, ?IH.
Qed.

Lemma find_update_member id id' ms :
  find_member id (update_member id' f ms) =
  if decide (id = id') then f <$> find_member id ms else find_member id ms.
Proof.
  induction ms as [|m ms IH]; cbn; [by case_decide|].
  destruct (decide (mi_member_id m = id')) as [<-|]; cbn; rewrite ?Hf.
  - destruct (decide (mi_member_id m = id)) as [<-|]; [by rewrite decide_True|].
    by rewrite decide_False by congruence.
  - destruct (decide (mi_member_id m = id)) as [<-|]; [by rewrite decide_False|done].
Qed.
End update.

Lemma length_update_member id f ms : length (update_member id f ms) = length ms.
Proof. induction ms; cbn; [done|]. case_decide; cbn; congruence. Qed.

Lemma join_members_ids now id md ms :
  member_ids (join_members now id md ms) =
  if decide (id ∈ member_ids ms) then member_ids ms else member_ids ms ++ [id].
Proof.
  unfold join_members. destruct (find_member id ms) eqn:E.
  - rewrite update_member_ids by done. rewrite decide_True; [done|].
    destruct (decide (id ∈ member_ids ms)) as [|Hn]; [done|].
    apply find_member_None in Hn. congruence.
  - apply find_member_None in E. rewrite decide_False by done.
    unfold member_ids. by rewrite map_app.
Qed.

Lemma join_members_nonempty now id md ms : join_members now id md ms ≠ [].
Proof.
  intros E. pose proof (join_members_ids now id md ms) as H. rewrite E in H.
  case_decide; [|by destruct (member_ids ms)]. by destruct (member_ids ms); [set_solver|].
Qed.

Lemma assign_ids a ms clock :
  member_ids (match find_member (sga_member_id a) ms with
              | Some _ => update_member (sga_member_id a) (assign (sga_assignment a)) ms
              | None => ms ++ [mkMemberInfo (sga_member_id a) [] (sga_assignment a) clock]
              end) =
  if decide (sga_member_id a ∈ member_ids ms) then member_ids ms
  else member_ids ms ++ [sga_member_id a].
Proof.
  destruct (find_member _ ms) eqn:E.
  - rewrite update_member_ids by done. rewrite decide_True; [done|].
    destruct (decide (sga_member_id a ∈ member_ids ms)) as [|Hn]; [done|].
    apply find_member_None in Hn. congruence.
  - apply find_member_None in E. rewrite decide_False by done.
    unfold member_ids. by rewrite map_app.
Qed.

Lemma apply_assignments_NoDup as_ clock ms :
  NoDup (member_ids ms) → NoDup (member_ids (apply_assignments clock as_ ms)).
Proof.
  revert clock ms. induction as_ as [|a as_ IH]; intros clock ms Hd; [done|].
  cbn. apply IH. rewrite assign_ids. case_decide as Hn; [done|].
  apply NoDup_app. split_and!; [done|set_solver|apply NoDup_singleton].
Qed.

Lemma apply_assignments_incl as_ clock ms id :
  id ∈ member_ids (apply_assignments clock as_ ms) ↔ id ∈ member_ids ms ∨ id ∈ map sga_member_id as_.
Proof.
  revert clock ms. induction as_ as [|a as_ IH]; intros clock ms; cbn [map apply_assignments];
    [set_solver|].
  rewrite IH, assign_ids. case_decide; set_solver.
Qed.

(** The last assignment a sync carries for a member. *)
Fixpoint last_assignment (id : bytes) (as_ : list SyncGroupAssignment) : option bytes :=
  match as_ with
  | [] => None
  | a :: as' =>
      match last_assignment id as' with
      | Some x => Some x
      | None => if decide (sga_member_id a = id) then Some (sga_assignment a) else None
      end
  end.

Lemma apply_assignments_assignment as_ clock ms id :
  assignment_of id (apply_assignments clock as_ ms) =
  default (assignment_of id ms) (last_assignment id as_).
Proof.
  revert clock ms. induction as_ as [|a as_ IH]; intros clock ms; [done|].
  cbn [apply_assignments last_assignment]. rewrite IH.
  destruct (last_assignment id as_); [done|]. cbn. unfold assignment_of.
  destruct (find_member (sga_member_id a) ms) as [m|] eqn:E.
  - rewrite find_update_member by done.
    destruct (decide (sga_member_id a = id)) as [<-|].
    + rewrite decide_True by done. by rewrite E.
    + by rewrite decide_False by done.
  - rewrite find_member_app. cbn. case_decide as Ha.
    + by rewrite <-Ha, E.
    + by destruct (find_member id ms).
Qed.

Lemma filter_ids_sublist f ms : member_ids (List.filter f ms) `sublist_of` member_ids ms.
Proof.
  induction ms as [|m ms IH]; [done|]. cbn. destruct (f m); by constructor.
Qed.

(** ** What one call does to its group *)

(** [commits] tells whether the call may store offsets. *)
Inductive group_step (commits : bool) (g : GroupMetadata) : GroupMetadata → Prop :=
| gs_join now member md timeout gen :
    join_generation g = Ok gen →
    group_step commits g (mkGroupMetadata AwaitingSync gen timeout
                    (join_members now member md (gm_members g)) (gm_committed_offsets g))
| gs_sync clock as_ :
    as_ ≠ [] →
    group_step commits g (mkGroupMetadata Stable (gm_generation g) (gm_session_timeout_ms g)
                    (apply_assignments clock as_ (gm_members g)) (gm_committed_offsets g))
| gs_erase ms g' :
    member_ids ms `sublist_of` member_ids (gm_members g) →
    after_erase g ms = Ok g' →
    group_step commits g g'
| gs_same : group_step commits g g
| gs_commit os :
    commits = true →
    group_step commits g (mkGroupMetadata (gm_state g) (gm_generation g) (gm_session_timeout_ms g)
                    (gm_members g) os).

Lemma find_generation_Some s id gen g :
  find_generation s id gen = Some g ↔ groups_ s !! id = Some g ∧ gm_generation g = gen.
Proof.
  unfold find_generation. destruct (groups_ s !! id) as [g0|]; cbn; [|naive_solver].
  destruct (Z.eqb_spec (gm_generation g0) gen); naive_solver.
Qed.

Lemma group_Some s id g : groups_ s !! id = Some g → group s id = g.
Proof. unfold group. by intros ->. Qed.

(** A call leaves the coordinator alone, or steps one group and moves the id
    counter by at most one. *)
Definition coordinator_step (commits : bool) (id : bytes) (s s' : GroupCoordinator) : Prop :=
  s' = s ∨
  ∃ g', group_step commits (group s id) g' ∧ groups_ s' = <[id := g']> (groups_ s) ∧
        next_member_id_ s ≤ next_member_id_ s' ≤ next_member_id_ s + 1.

Lemma set_group_step commits s id g' :
  group_step commits (group s id) g' → coordinator_step commits id s (set_group s id g').
Proof. intros. right. exists g'. split_and!; [done|done|cbn; lia..]. Qed.

Lemma join_step now r s p s' :
  handle_join_group now r s = Ok (p, s') → coordinator_step false (jgr_group_id r) s s'.
Proof.
  unfold handle_join_group.
  intros ([member next] & Hid & (gen & Hg & (l & _ & [= _ <-])%outcome_bind_Ok)%outcome_bind_Ok)%outcome_bind_Ok.
  right. eexists. split; [by apply gs_join|]. split; [done|]. cbn.
  unfold join_member_id in Hid. destruct (jgr_member_id r).
  - apply outcome_bind_Ok in Hid as (n & [-> _]%int32_add_Ok & [= _ <-]). lia.
  - injection Hid as _ <-. lia.
Qed.

Lemma sync_step clock r s p s' :
  handle_sync_group clock r s = (p, s') → coordinator_step false (sgr_group_id r) s s'.
Proof.
  unfold handle_sync_group. destruct (find_generation _ _ _) as [g|] eqn:E; [|intros [= _ <-]; by left].
  apply find_generation_Some in E as [E%group_Some _].
  destruct (sgr_assignments r) as [|a as_]; intros [= _ <-]; [by left|].
  apply set_group_step. rewrite E. by apply (gs_sync false g clock (a :: as_)).
Qed.

Lemma heartbeat_step now r s p s' :
  handle_heartbeat now r s = Ok (p, s') → coordinator_step false (hbr_group_id r) s s'.
Proof.
  unfold handle_heartbeat. destruct (find_generation _ _ _) as [g|] eqn:E; [|intros [= _ <-]; by left].
  apply find_generation_Some in E as [E%group_Some _].
  case_decide; [|intros [= _ <-]; by left].
  intros (g' & Hg' & [= _ <-])%outcome_bind_Ok. apply set_group_step. rewrite E.
  eapply gs_erase; [|done].
  rewrite <-(update_member_ids (touch now) (λ _, eq_refl) (hbr_member_id r) (gm_members g)). apply filter_ids_sublist.
Qed.

Lemma leave_step r s p s' :
  handle_leave_group r s = Ok (p, s') → coordinator_step false (lgr_group_id r) s s'.
Proof.
  unfold handle_leave_group. destruct (groups_ s !! _) as [g|] eqn:E; [|intros [= _ <-]; by left].
  apply group_Some in E. destruct (_ <? _); [|intros [= _ <-]; by left].
  intros (g' & Hg' & [= _ <-])%outcome_bind_Ok. apply set_group_step. rewrite E.
  eapply gs_erase; [|done]. apply filter_ids_sublist.
Qed.

Definition is_commit (o : op) : bool := match o with OpCommit _ => true | _ => false end.

Lemma exec_step o s p s' : exec o s = Ok (p, s') → coordinator_step (is_commit o) (op_group o) s s'.
Proof.
  destruct o; cbn.
  - intros ([] & ?%join_step & [= _ <-])%outcome_bind_Ok. done.
  - destruct (handle_sync_group _ _ _) eqn:E. intros [= _ <-]. by eapply sync_step.
  - intros ([] & ?%heartbeat_step & [= _ <-])%outcome_bind_Ok. done.
  - intros ([] & ?%leave_step & [= _ <-])%outcome_bind_Ok. done.
  - intros [= _ <-]. by apply set_group_step, gs_commit.
  - intros [= _ <-]. apply set_group_step, gs_same.
Qed.

(** ** The invariant *)

Record group_ok (g : GroupMetadata) : Prop := {
  ok_members : NoDup (member_ids (gm_members g));
  ok_empty : gm_state g = Empty ↔ gm_members g = [];
  ok_alive : gm_state g ≠ Dead;
  ok_generation : 0 ≤ gm_generation g;
  ok_started : gm_state g = AwaitingSync → 1 ≤ gm_generation g }.

Lemma new_group_ok : group_ok new_group.
Proof. split; cbn; [constructor|done..|lia|done]. Qed.

Lemma after_erase_Ok g ms g' :
  after_erase g ms = Ok g' →
  gm_members g' = ms ∧ gm_committed_offsets g' = gm_committed_offsets g ∧
  match ms with
  | [] => gm_state g' = Empty ∧ gm_generation g' = gm_generation g
  | _ => if decide (zlen ms < zlen (gm_members g))
         then gm_state g' = AwaitingSync ∧ gm_generation g' = gm_generation g + 1
         else gm_state g' = gm_state g ∧ gm_generation g' = gm_generation g
  end.
Proof.
  unfold after_erase. destruct ms as [|m ms]; [by intros [= <-]|].
  destruct (Z.ltb_spec (zlen (m :: ms)) (zlen (gm_members g))).
  - rewrite decide_True by done. intros (n & [-> _]%int32_add_Ok & [= <-])%outcome_bind_Ok. done.
  - rewrite decide_False by lia. by intros [= <-].
Qed.

Lemma join_generation_Ok g gen :
  group_ok g → join_generation g = Ok gen → 1 ≤ gen ∧ gm_generation g ≤ gen ≤ gm_generation g + 1.
Proof.
  intros Hok. pose proof (ok_generation g Hok). unfold join_generation.
  destruct (Z.eqb_spec (gm_generation g) 0); [intros [= <-]; lia|].
  case_decide; [intros [-> _]%int32_add_Ok|intros [= <-]]; lia.
Qed.

Lemma group_step_ok c g g' : group_ok g → group_step c g g' → group_ok g'.
Proof.
  intros Hok Hs. pose proof (ok_generation g Hok) as Hgen.
  destruct Hs as [now member md timeout gen Hg|clock as_ Has|ms g' Hsub He| |os _].
  - apply join_generation_Ok in Hg; [|done]. split; cbn; [|split; [done|]|done|lia..].
    + rewrite join_members_ids. case_decide; [apply Hok|].
      apply NoDup_app. split_and!; [apply Hok|set_solver|apply NoDup_singleton].
    + by intros ?%join_members_nonempty.
  - split; cbn; [apply apply_assignments_NoDup, Hok|split; [done|]|done..].
    intros E. destruct as_ as [|a as_]; [done|].
    assert (sga_member_id a ∈ member_ids (apply_assignments clock (a :: as_) (gm_members g))) as Hin
      by (apply apply_assignments_incl; cbn; set_solver).
    rewrite E in Hin. cbn in Hin. set_solver.
  - apply after_erase_Ok in He as (Hm & _ & He).
    assert (NoDup (member_ids ms)) by (eapply sublist_NoDup; [apply Hok|done]).
    destruct ms as [|m ms].
    + destruct He as [E1 E2]. split; rewrite ?Hm, ?E1, ?E2; done.
    + case_decide; destruct He as [E1 E2]; split; rewrite ?Hm, ?E1, ?E2; try done; try lia; try apply Hok.
      rewrite (ok_empty g Hok). split; [|done]. intros E. rewrite E in Hsub.
      by apply sublist_nil_r in Hsub.
  - done.
  - split; apply Hok.
Qed.

Lemma group_step_generation c g g' :
  group_ok g → group_step c g g' → gm_generation g ≤ gm_generation g' ≤ gm_generation g + 1.
Proof.
  intros Hok [now member md timeout gen Hg|clock as_ Has|ms g1 Hsub He| |os _]; cbn; [|lia| |lia..].
  - apply join_generation_Ok in Hg; [lia|done].
  - apply after_erase_Ok in He as (_ & _ & He). destruct ms; [|case_decide]; lia.
Qed.

Definition coordinator_ok (s : GroupCoordinator) : Prop :=
  map_Forall (λ _, group_ok) (groups_ s) ∧ 0 ≤ next_member_id_ s.

Lemma group_lookup_ok s id : coordinator_ok s → group_ok (group s id).
Proof.
  intros [Hg _]. unfold group. destruct (groups_ s !! id) eqn:E; [by eapply Hg|apply new_group_ok].
Qed.

Lemma coordinator_step_ok commits id s s' :
  coordinator_ok s → coordinator_step commits id s s' → coordinator_ok s'.
Proof.
  intros Hok [->|(g' & Hg & Hm & Hn)]; [done|]. split; [|destruct Hok; lia].
  rewrite Hm. apply map_Forall_insert_2; [|apply Hok].
  eapply group_step_ok; [|done]. by apply group_lookup_ok.
Qed.

Lemma group_step_offsets g g' :
  group_step false g g' → gm_committed_offsets g' = gm_committed_offsets g.
Proof. intros [| |ms g1 _ (_ & ? & _)%after_erase_Ok| |]; by cbn. Qed.

Lemma group_step_lookup c id s s' :
  coordinator_ok s → coordinator_step c id s s' →
  ∀ id', gm_generation (group s id') ≤ gm_generation (group s' id') ≤ gm_generation (group s id') + 1.
Proof.
  intros Hok [->|(g' & Hg & Hm & Hn)] id'; [lia|]. unfold group at 2 3. rewrite Hm.
  destruct (decide (id' = id)) as [->|].
  - rewrite lookup_insert_eq. cbn. eapply group_step_generation; [by apply group_lookup_ok|done].
  - rewrite lookup_insert_ne by done. fold (group s id'). lia.
Qed.

(** After [n] calls the counters are at most [n]. *)
Lemma reachable_bounds n s :
  reachable n s →
  coordinator_ok s ∧ next_member_id_ s ≤ Z.of_nat n ∧ ∀ id, gm_generation (group s id) ≤ Z.of_nat n.
Proof.
  induction 1 as [|n s o p s' _ (Hok & Hn & Hg) Hs%exec_step].
  - split_and!; [split; [apply map_Forall_empty|done]|done|]. intros id. unfold group, new_coordinator.
    cbn [groups_]. rewrite lookup_empty. cbn. lia.
  - split_and!.
    + by eapply coordinator_step_ok.
    + destruct Hs as [->|(g' & _ & _ & ?)]; lia.
    + intros id. pose proof (group_step_lookup _ _ _ _ Hok Hs id). specialize (Hg id). lia.
Qed.
