(* ===== verification/GroupProperties.v ===== *)
(** * Properties of the consumer-group coordinator

    What the handlers of [GroupCoordinator] guarantee over all their runs: the
    group invariant, the absence of overflow, isolation of groups, fencing of
    old generations, the effect of each handler, and the refinement of the
    offset store to the history of commits. *)

From S2P Require Import Prelude Protocol GroupCoordinator.

(** ** Runs of the coordinator *)

(** C6: in every state the handlers can reach, in whatever order they are
    called: member ids of a group are unique, a group is [Empty] exactly when
    it has no members, no group is ever [Dead], generations are never negative
    and a group that waits for a sync has started its first generation. *)
Theorem group_invariant n s id g :
  reachable n s → groups_ s !! id = Some g →
  NoDup (member_ids (gm_members g)) ∧
  (gm_state g = Empty ↔ gm_members g = []) ∧
  gm_state g ≠ Dead ∧
  0 ≤ gm_generation g ∧ (gm_state g = AwaitingSync → 1 ≤ gm_generation g).
Proof. intros ([Hok _] & _)%reachable_bounds [? ? ? ? ?]%Hok. done. Qed.

(** Concrete calls for the examples. *)
Definition a_header : RequestHeader := mkRequestHeader 11 9 7.
Definition a_join (group member : string) : JoinGroupRequest :=
  mkJoinGroupRequest a_header (str group) 10000 (str member) (str "consumer")
    [mkJoinGroupProtocol (str "range") (str "meta")].
Definition a_sync (group : string) (gen : Z) (member : string) (as_ : list SyncGroupAssignment) : SyncGroupRequest :=
  mkSyncGroupRequest a_header (str group) gen (str member) as_.
Definition a_heartbeat (group : string) (gen : Z) (member : string) : HeartbeatRequest :=
  mkHeartbeatRequest a_header (str group) gen (str member) [].
Definition a_leave (group member : string) : LeaveGroupRequest :=
  mkLeaveGroupRequest a_header (str group) (str member).
Definition a_commit (group topic : string) (p o : Z) : OffsetCommitRequest :=
  mkOffsetCommitRequest a_header (str group) [] 0
    [mkOffsetCommitTopicRequest (str topic) [mkOffsetCommitPartitionRequest p o]].

(** The call returns: names its result for what follows. *)
Ltac run_call e p s' H :=
  assert (∃ x, e = Ok x) as [[p s'] H] by (eexists; vm_compute; reflexivity).

Definition state_after (os : list op) : GroupCoordinator :=
  match exec_all os new_coordinator with Ok s => s | _ => new_coordinator end.

Lemma exec_all_reachable os s s' n :
  reachable n s → exec_all os s = Ok s' → reachable (n + length os) s'.
Proof.
  revert n s. induction os as [|o os IH]; intros n s Hr; cbn.
  - intros [= <-]. by rewrite Nat.add_0_r.
  - intros ([p s1] & H1 & H2)%outcome_bind_Ok. rewrite Nat.add_succ_r.
    apply (IH (S n) s1); [by eapply reachable_step|done].
Qed.

Lemma state_after_reachable n os :
  n = length os → match exec_all os new_coordinator with Ok _ => true | _ => false end = true →
  reachable n (state_after os).
Proof.
  intros -> H. unfold state_after. destruct (exec_all _ _) as [s| |] eqn:E; [|done..].
  apply (exec_all_reachable os _ _ 0 reachable_init E).
Qed.

Lemma group_invariant_witness :
  let s := state_after [OpJoin 5 (a_join "g" "a"); OpJoin 6 (a_join "g" "")] in
  gm_state (group s (str "g")) = AwaitingSync ∧
  member_ids (gm_members (group s (str "g"))) = [str "a"; str "member-1"] ∧
  NoDup (member_ids (gm_members (group s (str "g")))).
Proof.
  intros s. split_and!; [reflexivity|reflexivity|].
  eapply (group_invariant 2 s (str "g")); [|reflexivity].
  by apply state_after_reachable.
Defined.

Lemma leader_id_join now id md ms : ∃ l, leader_id (join_members now id md ms) = Ok l.
Proof.
  pose proof (join_members_nonempty now id md ms). destruct (join_members now id md ms); [done|].
  by eexists.
Qed.

Lemma int32_add_succ z : 0 ≤ z < 2 ^ 31 - 1 → int32_add z 1 = Ok (z + 1).
Proof. intros. by apply int32_add_Ok; unfold in_int; split; [|lia]. Qed.

Lemma after_erase_total g ms :
  0 ≤ gm_generation g < 2 ^ 31 - 1 → ∃ g', after_erase g ms = Ok g'.
Proof.
  intros H. unfold after_erase. destruct ms; [by eexists|].
  rewrite int32_add_succ by done. destruct (_ <? _); by eexists.
Qed.

(** C26: no handler reaches undefined behaviour (an [int32_t] overflow of a
    generation or of the member-id counter, or [members[0]] of an empty list)
    before the coordinator has served [2^31 - 1] calls: every call returns. *)
Theorem exec_total n s o :
  reachable n s → Z.of_nat n < 2 ^ 31 - 1 → ∃ p s', exec o s = Ok (p, s').
Proof.
  intros ([Hok Hpos] & Hn & Hg)%reachable_bounds Hb.
  assert (∀ id, 0 ≤ gm_generation (group s id) < 2 ^ 31 - 1) as Hgen.
  { intros id. specialize (Hg id). split; [|lia]. apply ok_generation, group_lookup_ok. done. }
  destruct o as [now r|clock r|now r|r|r|r]; cbn.
  - unfold handle_join_group, join_member_id, join_generation. specialize (Hgen (jgr_group_id r)).
    rewrite int32_add_succ by lia. rewrite int32_add_succ by lia.
    destruct (jgr_member_id r) as [|c m]; cbn; (destruct (gm_generation _ =? 0); cbn; [|case_decide; cbn]);
      edestruct leader_id_join as [l ->]; cbn; eauto.
  - destruct (handle_sync_group clock r s); eauto.
  - unfold handle_heartbeat. destruct (find_generation _ _ _) as [g|] eqn:E; cbn; [|eauto].
    apply find_generation_Some in E as [<-%group_Some _]. case_decide; cbn; [|eauto].
    edestruct after_erase_total as [g' ->]; [apply Hgen|]. cbn. eauto.
  - unfold handle_leave_group. destruct (groups_ s !! _) as [g|] eqn:E; cbn; [|eauto].
    apply group_Some in E as <-. destruct (_ <? _); cbn; [|eauto].
    edestruct after_erase_total as [g' ->]; [apply Hgen|]. cbn. eauto.
  - eauto.
  - eauto.
Qed.

Lemma exec_total_witness : ∃ p s', exec (OpJoin 5 (a_join "g" "")) new_coordinator = Ok (p, s').
Proof. apply (exec_total 0); [constructor|decide_now]. Defined.

(** C27: a call only touches the group it names, never removes a group, and
    moves that group's generation up by at most one. *)
Theorem exec_isolated n s o p s' :
  reachable n s → exec o s = Ok (p, s') →
  (∀ id, id ≠ op_group o → groups_ s' !! id = groups_ s !! id) ∧
  (∀ id g, groups_ s !! id = Some g →
     ∃ g', groups_ s' !! id = Some g' ∧
           gm_generation g ≤ gm_generation g' ≤ gm_generation g + 1).
Proof.
  intros (Hok & _)%reachable_bounds Hs%exec_step.
  pose proof (group_step_lookup _ _ _ _ Hok Hs) as Hgen. split.
  - intros id Hid. destruct Hs as [->|(g' & _ & -> & _)]; [done|]. by rewrite lookup_insert_ne.
  - intros id g Hg. specialize (Hgen id). rewrite (group_Some _ _ _ Hg) in Hgen.
    assert (is_Some (groups_ s' !! id)) as [g' Hg'].
    { destruct Hs as [->|(g' & _ & -> & _)]; [by eexists|]. rewrite lookup_insert_is_Some'.
      right. by eexists. }
    exists g'. by rewrite (group_Some _ _ _ Hg') in Hgen.
Qed.

Lemma exec_isolated_witness :
  let s := state_after [OpJoin 5 (a_join "g" "a"); OpJoin 5 (a_join "h" "a")] in
  ∃ p s', exec (OpLeave (a_leave "g" "a")) s = Ok (p, s') ∧
  groups_ s' !! str "h" = groups_ s !! str "h".
Proof.
  intros s. run_call (exec (OpLeave (a_leave "g" "a")) s) p s' E. exists p, s'. split; [exact E|].
  eapply (exec_isolated 2 s); [|exact E|by decide_now]. by apply state_after_reachable.
Defined.

(** Runs move generations and the id counter upwards. *)
Lemma exec_all_monotone os s s' n :
  reachable n s → exec_all os s = Ok s' →
  next_member_id_ s ≤ next_member_id_ s' ∧
  ∀ id, gm_generation (group s id) ≤ gm_generation (group s' id).
Proof.
  revert n s. induction os as [|o os IH]; intros n s Hr; cbn.
  - intros [= <-]. split; [lia|]. intros; lia.
  - intros ([p s1] & H1 & H2)%outcome_bind_Ok.
    destruct (IH (S n) s1) as [Hn Hg]; [by eapply reachable_step|done|].
    apply reachable_bounds in Hr as (Hok & _). apply exec_step in H1. split.
    + destruct H1 as [->|(g' & _ & _ & ?)]; lia.
    + intros id. specialize (Hg id). pose proof (group_step_lookup _ _ _ _ Hok H1 id). lia.
Qed.

(** A generation other than the current one is refused. *)
Lemma find_generation_stale s id gen :
  gm_generation (group s id) ≠ gen → find_generation s id gen = None.
Proof.
  intros H. destruct (find_generation s id gen) as [g|] eqn:E; [|done].
  apply find_generation_Some in E as [E%group_Some <-]. congruence.
Qed.

(** What a successful join computes. *)
Lemma handle_join_group_Ok now r s p s' :
  handle_join_group now r s = Ok (p, s') →
  ∃ member next gen leader,
    join_member_id r (next_member_id_ s) = Ok (member, next) ∧
    let meta := group s (jgr_group_id r) in
    let members := join_members now member (first_protocol_metadata (jgr_protocols r)) (gm_members meta) in
    join_generation meta = Ok gen ∧ leader_id members = Ok leader ∧
    group s' (jgr_group_id r) =
      mkGroupMetadata AwaitingSync gen (jgr_session_timeout_ms r) members (gm_committed_offsets meta) ∧
    next_member_id_ s' = next ∧
    p = mkJoinGroupResponse (correlation_id (jgr_header r)) 0 0 gen
          (first_protocol_name (jgr_protocols r)) leader member (map response_member members).
Proof.
  unfold handle_join_group.
  intros ([member next] & Hid & (gen & Hg & (l & Hl & [= <- <-])%outcome_bind_Ok)%outcome_bind_Ok)%outcome_bind_Ok.
  exists member, next, gen, l. split_and!; try done.
  unfold group at 1. cbn [groups_]. by rewrite lookup_insert_eq.
Qed.

(** C12: a join to a stable group starts the next generation, and from then on,
    after any further calls, heartbeats and syncs that carry the old generation
    are answered with error 82 and change nothing. *)
Theorem join_fences_old_generation n s now r p s' os s'' :
  reachable n s →
  gm_state (group s (jgr_group_id r)) = Stable → 0 < gm_generation (group s (jgr_group_id r)) →
  handle_join_group now r s = Ok (p, s') → exec_all os s' = Ok s'' →
  jgq_generation_id p = gm_generation (group s (jgr_group_id r)) + 1 ∧
  (∀ now' hb, hbr_group_id hb = jgr_group_id r →
     hbr_generation_id hb = gm_generation (group s (jgr_group_id r)) →
     handle_heartbeat now' hb s'' = Ok (heartbeat_response hb 82, s'')) ∧
  (∀ clock sy, sgr_group_id sy = jgr_group_id r →
     sgr_generation_id sy = gm_generation (group s (jgr_group_id r)) →
     handle_sync_group clock sy s'' = (sync_response sy 82 [], s'')).
Proof.
  intros Hr Hst Hpos Hj Hos.
  assert (reachable (S n) s') as Hr' by (eapply (reachable_step n s (OpJoin now r)); [done|]; cbn; by rewrite Hj).
  destruct (exec_all_monotone os s' s'' _ Hr' Hos) as [_ Hmono].
  apply handle_join_group_Ok in Hj as (member & next & gen & leader & _ & Hg & _ & Hgr & _ & ->).
  unfold join_generation in Hg. destruct (Z.eqb_spec (gm_generation (group s (jgr_group_id r))) 0); [lia|].
  rewrite decide_True in Hg by done. apply int32_add_Ok in Hg as [-> _].
  specialize (Hmono (jgr_group_id r)). rewrite Hgr in Hmono. cbn in Hmono.
  split_and!; [done| |].
  - intros now' hb E1 E2. unfold handle_heartbeat. rewrite find_generation_stale; [done|]. rewrite E1, E2. lia.
  - intros clock sy E1 E2. unfold handle_sync_group. rewrite find_generation_stale; [done|]. rewrite E1, E2. lia.
Qed.

(** A stable group of one member in generation 1. *)
Definition stable_run : list op :=
  [OpJoin 5 (a_join "g" "a"); OpSync (λ _, 6) (a_sync "g" 1 "a" [mkSyncGroupAssignment (str "a") (str "p0")])].

Lemma join_fences_old_generation_witness :
  let s := state_after stable_run in
  let s' := state_after (stable_run ++ [OpJoin 7 (a_join "g" "b")]) in
  handle_heartbeat 8 (a_heartbeat "g" 1 "a") s' = Ok (heartbeat_response (a_heartbeat "g" 1 "a") 82, s').
Proof.
  intros s s'.
  assert (∃ p, handle_join_group 7 (a_join "g" "b") s = Ok (p, s')) as [p Hp] by (eexists; reflexivity).
  apply (join_fences_old_generation 2 s 7 (a_join "g" "b") p s' [] s');
    [by apply state_after_reachable|reflexivity|decide_now|exact Hp|reflexivity..].
Defined.

(** A group that every member has left keeps its generation when the next
    member joins: a member of the previous incarnation is not fenced. *)
Theorem empty_group_keeps_generation now r s p s' :
  gm_state (group s (jgr_group_id r)) = Empty → gm_generation (group s (jgr_group_id r)) ≠ 0 →
  handle_join_group now r s = Ok (p, s') →
  jgq_generation_id p = gm_generation (group s (jgr_group_id r)).
Proof.
  intros Hst Hne (member & next & gen & leader & _ & Hg & _ & _ & _ & ->)%handle_join_group_Ok.
  unfold join_generation in Hg. destruct (Z.eqb_spec (gm_generation (group s (jgr_group_id r))) 0); [done|].
  rewrite decide_False in Hg by congruence. by injection Hg as <-.
Qed.

(** [a] left; [b] joined and synced; a late heartbeat of [a] is accepted. *)
Lemma empty_group_keeps_generation_witness :
  let s := state_after (stable_run ++ [OpLeave (a_leave "g" "a")]) in
  let s2 := state_after (stable_run ++ [OpLeave (a_leave "g" "a"); OpJoin 7 (a_join "g" "b");
              OpSync (λ _, 8) (a_sync "g" 1 "b" [mkSyncGroupAssignment (str "b") (str "p0")])]) in
  (∃ p s', handle_join_group 7 (a_join "g" "b") s = Ok (p, s') ∧ jgq_generation_id p = 1) ∧
  ∃ s3, handle_heartbeat 9 (a_heartbeat "g" 1 "a") s2 = Ok (heartbeat_response (a_heartbeat "g" 1 "a") 0, s3).
Proof.
  intros s s2. split; [|eexists; reflexivity].
  run_call (handle_join_group 7 (a_join "g" "b") s) p s' H. exists p, s'. split; [exact H|].
  apply (empty_group_keeps_generation 7 (a_join "g" "b") s p s'); [decide_now|decide_now|exact H].
Defined.

Lemma join_members_keeps now id md ms id' m :
  find_member id' ms = Some m →
  ∃ m', find_member id' (join_members now id md ms) = Some m' ∧
        mi_protocol_metadata m' = mi_protocol_metadata m ∧ mi_assignment m' = mi_assignment m.
Proof.
  intros Hm. unfold join_members. destruct (find_member id ms).
  - rewrite find_update_member by done. case_decide; rewrite Hm; by eexists.
  - rewrite find_member_app, Hm. by eexists.
Qed.

(** C29: a join adds the member at the end of the group, unless it is already
    there, and loses no other member's metadata or assignment; the group then
    waits for a sync, with the requested session timeout and its offsets kept;
    the response names the first member as leader and lists the members. *)
Theorem handle_join_group_correct now r s p s' :
  handle_join_group now r s = Ok (p, s') →
  let g := group s (jgr_group_id r) in
  let g' := group s' (jgr_group_id r) in
  gm_state g' = AwaitingSync ∧ gm_session_timeout_ms g' = jgr_session_timeout_ms r ∧
  gm_committed_offsets g' = gm_committed_offsets g ∧
  gm_generation g' = (if decide (gm_generation g = 0) then 1
                      else if decide (gm_state g = Stable) then gm_generation g + 1
                      else gm_generation g) ∧
  member_ids (gm_members g') =
    member_ids (gm_members g) ++
    (if decide (jgq_member_id p ∈ member_ids (gm_members g)) then [] else [jgq_member_id p]) ∧
  (∀ id m, find_member id (gm_members g) = Some m →
     ∃ m', find_member id (gm_members g') = Some m' ∧
           mi_protocol_metadata m' = mi_protocol_metadata m ∧ mi_assignment m' = mi_assignment m) ∧
  jgq_error_code p = 0 ∧ jgq_generation_id p = gm_generation g' ∧
  head (member_ids (gm_members g')) = Some (jgq_leader p) ∧
  jgq_members p = map response_member (gm_members g') ∧
  (jgr_member_id r ≠ [] → jgq_member_id p = jgr_member_id r).
Proof.
  intros (member & next & gen & leader & Hid & Hg & Hl & Hgr & _ & ->)%handle_join_group_Ok.
  cbn zeta. rewrite Hgr. cbn. split_and!; try done.
  - unfold join_generation in Hg. destruct (Z.eqb_spec (gm_generation (group s (jgr_group_id r))) 0).
    + rewrite decide_True by done. by injection Hg.
    + rewrite decide_False by done. case_decide; [by apply int32_add_Ok in Hg as [-> _]|by injection Hg].
  - rewrite join_members_ids. case_decide; by rewrite ?app_nil_r.
  - intros id m. apply join_members_keeps.
  - destruct (join_members _ _ _ _); [done|]. by injection Hl as <-.
  - unfold join_member_id in Hid. by destruct (jgr_member_id r); [|injection Hid].
Qed.

Lemma handle_join_group_correct_witness :
  let s := state_after stable_run in
  ∃ p s', handle_join_group 7 (a_join "g" "b") s = Ok (p, s') ∧
  gm_generation (group s' (str "g")) = 2 ∧ head (member_ids (gm_members (group s' (str "g")))) = Some (jgq_leader p).
Proof.
  intros s. run_call (handle_join_group 7 (a_join "g" "b") s) p s' H. exists p, s'.
  destruct (handle_join_group_correct 7 (a_join "g" "b") s p s' H) as (_ & _ & _ & E & _ & _ & _ & _ & Hl & _).
  split_and!; [exact H|exact E|exact Hl].
Defined.

(** Two joins without a member id never get the same generated id,
    whatever happens in between and whichever groups they join. *)
Theorem generated_ids_distinct n s now1 r1 p1 s1 os s2 now2 r2 p2 s3 :
  reachable n s → jgr_member_id r1 = [] → jgr_member_id r2 = [] →
  handle_join_group now1 r1 s = Ok (p1, s1) → exec_all os s1 = Ok s2 →
  handle_join_group now2 r2 s2 = Ok (p2, s3) →
  jgq_member_id p1 ≠ jgq_member_id p2.
Proof.
  intros Hr E1 E2 H1 Hos H2.
  assert (reachable (S n) s1) as Hr1 by (eapply (reachable_step n s (OpJoin now1 r1)); [done|]; cbn; by rewrite H1).
  destruct (exec_all_monotone os s1 s2 _ Hr1 Hos) as [Hmono _].
  apply handle_join_group_Ok in H1 as (m1 & n1 & g1 & l1 & Hid1 & _ & _ & _ & Hn1 & ->).
  apply handle_join_group_Ok in H2 as (m2 & n2 & g2 & l2 & Hid2 & _ & _ & _ & _ & ->).
  unfold join_member_id in Hid1, Hid2. rewrite E1 in Hid1. rewrite E2 in Hid2.
  apply outcome_bind_Ok in Hid1 as (k1 & [-> _]%int32_add_Ok & [= <- <-]).
  apply outcome_bind_Ok in Hid2 as (k2 & [-> _]%int32_add_Ok & [= <- <-]).
  cbn [jgq_member_id]. intros H%(app_inv_head (str "member-"))%to_string_inj. lia.
Qed.

Lemma generated_ids_distinct_witness :
  let s1 := state_after [OpJoin 5 (a_join "g" "")] in
  ∃ p1 p2 s3, handle_join_group 5 (a_join "g" "") new_coordinator = Ok (p1, s1) ∧
  handle_join_group 6 (a_join "h" "") s1 = Ok (p2, s3) ∧ jgq_member_id p1 ≠ jgq_member_id p2.
Proof.
  intros s1.
  assert (∃ p1, handle_join_group 5 (a_join "g" "") new_coordinator = Ok (p1, s1)) as [p1 H1]
    by (eexists; reflexivity).
  run_call (handle_join_group 6 (a_join "h" "") s1) p2 s3 H2.
  exists p1, p2, s3. split_and!; [exact H1|exact H2|].
  apply (generated_ids_distinct 0 new_coordinator 5 (a_join "g" "") p1 s1 [] s1 6 (a_join "h" "") p2 s3);
    [constructor|done..].
Defined.

(** A generated id can still be one that a client chose for itself: the
    anonymous join then takes over that member instead of adding one. *)
Theorem generated_id_collision now r s p s' :
  jgr_member_id r = [] →
  str "member-" ++ to_string (next_member_id_ s + 1) ∈ member_ids (gm_members (group s (jgr_group_id r))) →
  handle_join_group now r s = Ok (p, s') →
  jgq_member_id p ∈ member_ids (gm_members (group s (jgr_group_id r))) ∧
  member_ids (gm_members (group s' (jgr_group_id r))) = member_ids (gm_members (group s (jgr_group_id r))).
Proof.
  intros E Hin (member & next & gen & leader & Hid & Hg & Hl & Hgr & _ & ->)%handle_join_group_Ok.
  unfold join_member_id in Hid. rewrite E in Hid.
  apply outcome_bind_Ok in Hid as (k & [-> _]%int32_add_Ok & [= <- <-]).
  split; [done|]. rewrite Hgr. cbn [gm_members]. rewrite join_members_ids. by rewrite decide_True.
Qed.

Lemma generated_id_collision_witness :
  let s := state_after [OpJoin 5 (a_join "g" "member-1")] in
  ∃ p s', handle_join_group 6 (a_join "g" "") s = Ok (p, s') ∧
  member_ids (gm_members (group s' (str "g"))) = [str "member-1"].
Proof.
  intros s. run_call (handle_join_group 6 (a_join "g" "") s) p s' H. exists p, s'. split; [exact H|].
  apply (generated_id_collision 6 (a_join "g" "") s p s'); [done| |done].
  decide_now.
Defined.



(** With unique ids the early exit of the update loop makes no difference. *)
Lemma update_member_map id f ms :
  NoDup (member_ids ms) →
  update_member id f ms = map (λ m, if decide (mi_member_id m = id) then f m else m) ms.
Proof.
  intros Hd. induction ms as [|m ms IH]; [done|]. apply NoDup_cons in Hd as [Hn Hd]. cbn.
  case_decide as E; [|by rewrite IH]. f_equal. symmetry. clear IH Hd. subst id.
  induction ms as [|m' ms IH]; [done|]. cbn in *. apply not_elem_of_cons in Hn as [Hm Hn].
  rewrite decide_False by done. by rewrite IH.
Qed.

(** A member within the session timeout, and a member as a heartbeat of [id]
    leaves it. *)
Definition live (now timeout_ms : Z) (m : MemberInfo) : Prop :=
  now - mi_last_heartbeat m ≤ timeout_ms * 1000000.
Definition seen (now : Z) (id : bytes) (m : MemberInfo) : MemberInfo :=
  if decide (mi_member_id m = id) then touch now m else m.
#[export] Instance live_dec now t m : Decision (live now t m).
Proof. unfold live. apply _. Defined.

Lemma filter_bool (P : MemberInfo → Prop) `{!∀ m, Decision (P m)} (f : MemberInfo → bool) ms :
  (∀ m, f m = true ↔ P m) → List.filter f ms = filter P ms.
Proof.
  intros Hf. induction ms as [|m ms IH]; [done|]. rewrite filter_cons. cbn.
  specialize (Hf m). destruct (f m); case_decide; rewrite ?IH; intuition congruence.
Qed.

Lemma not_expired now t m : negb (expired now t m) = true ↔ live now t m.
Proof. unfold expired, live. destruct (Z.gtb_spec (now - mi_last_heartbeat m) (t * 1000000)); naive_solver lia. Qed.

Lemma filter_length_lt (P : MemberInfo → Prop) `{!∀ m, Decision (P m)} ms :
  zlen (filter P ms) < zlen ms ↔ ¬ Forall P ms.
Proof.
  induction ms as [|m ms IH]; [change (zlen (filter P [])) with 0; change (zlen (@nil MemberInfo)) with 0|].
  - split; [lia|]. intros []. constructor.
  - rewrite filter_cons, Forall_cons. pose proof (length_filter P ms).
    case_decide; rewrite ?zlen_cons; [|unfold zlen; split; [naive_solver|lia]].
    split; [intros Hlt [_ Hall]; apply IH in Hall; [done|lia]|intros Hn].
    assert (¬ Forall P ms) as Hlt%IH by tauto. lia.
Qed.

(** C25: a heartbeat that names a stable group and its generation refreshes the
    member, then drops exactly the members that have been silent for longer
    than the session timeout: the group is untouched when nobody is dropped,
    starts a new generation when somebody is, and is empty when nobody is
    left.  Any other heartbeat gets error 82 and changes nothing. *)
Theorem handle_heartbeat_correct n s now r p s' :
  reachable n s → handle_heartbeat now r s = Ok (p, s') →
  let id := hbr_group_id r in
  match groups_ s !! id with
  | Some g =>
      if decide (gm_generation g = hbr_generation_id r ∧ gm_state g = Stable) then
        let refreshed := map (seen now (hbr_member_id r)) (gm_members g) in
        let g' := group s' id in
        hbp_error_code p = 0 ∧
        gm_members g' = filter (live now (gm_session_timeout_ms g)) refreshed ∧
        gm_committed_offsets g' = gm_committed_offsets g ∧
        if decide (gm_members g' = [])
        then gm_state g' = Empty ∧ gm_generation g' = gm_generation g
        else if decide (Forall (live now (gm_session_timeout_ms g)) refreshed)
        then gm_state g' = Stable ∧ gm_generation g' = gm_generation g
        else gm_state g' = AwaitingSync ∧ gm_generation g' = gm_generation g + 1
      else p = heartbeat_response r 82 ∧ s' = s
  | None => p = heartbeat_response r 82 ∧ s' = s
  end.
Proof.
  intros ([Hok _] & _)%reachable_bounds. unfold handle_heartbeat. cbn zeta.
  destruct (groups_ s !! hbr_group_id r) as [g|] eqn:Hg.
  2:{ unfold find_generation. rewrite Hg. by intros [= <- <-]. }
  destruct (find_generation _ _ _) as [g0|] eqn:E.
  2:{ intros [= <- <-]. rewrite decide_False; [done|]. intros [Hgen _].
      by rewrite (proj2 (find_generation_Some s _ _ g) (conj Hg Hgen)) in E. }
  apply find_generation_Some in E as [E Hgen]. rewrite Hg in E. injection E as <-.
  destruct (decide (gm_state g = Stable)) as [Hst|Hst].
  2:{ intros [= <- <-]. rewrite decide_False; [done|]. by intros [_ ?]. }
  rewrite decide_True by done.
  rewrite update_member_map by (apply (Hok _ _ Hg)).
  rewrite (filter_bool (live now (gm_session_timeout_ms g))) by (intros; apply not_expired).
  fold (seen now (hbr_member_id r)). set (refreshed := map _ (gm_members g)).
  intros (g' & (Hm & Ho & Hs)%after_erase_Ok & [= <- <-])%outcome_bind_Ok.
  assert (zlen (gm_members g) = zlen refreshed) as Hl by (unfold refreshed; by rewrite zlen_map).
  unfold group, set_group. cbn [groups_]. rewrite lookup_insert_eq. cbn [default from_option id].
  rewrite Hm. split_and!; [done..|]. rewrite Hl in Hs.
  destruct (filter _ refreshed) as [|m ms] eqn:Ef; [by rewrite decide_True|].
  rewrite decide_False by done. rewrite <-Ef in Hs.
  rewrite (decide_ext _ _ _ _ (filter_length_lt (live now (gm_session_timeout_ms g)) refreshed)) in Hs.
  repeat case_decide; intuition congruence.
Qed.

(** [b] stays silent past the 10 s timeout; the heartbeat of [a] drops it. *)
Lemma handle_heartbeat_correct_witness :
  let s := state_after [OpJoin 5 (a_join "g" "a"); OpJoin 5 (a_join "g" "b");
             OpSync (λ _, 6) (a_sync "g" 1 "a" [mkSyncGroupAssignment (str "a") (str "p0")])] in
  ∃ p s', handle_heartbeat 10000000006 (a_heartbeat "g" 1 "a") s = Ok (p, s') ∧
  hbp_error_code p = 0 ∧ member_ids (gm_members (group s' (str "g"))) = [str "a"].
Proof.
  intros s. assert (reachable 3 s) as Hr by (by apply state_after_reachable).
  run_call (handle_heartbeat 10000000006 (a_heartbeat "g" 1 "a") s) p s' H.
  exists p, s'. split; [exact H|].
  destruct (handle_heartbeat_correct 3 s 10000000006 (a_heartbeat "g" 1 "a") p s' Hr H) as (E1 & E2 & _).
  split; [exact E1|]. etransitivity; [exact (f_equal member_ids E2)|reflexivity].
Defined.

Lemma absent_Forall id ms : Forall (λ m, mi_member_id m ≠ id) ms ↔ id ∉ member_ids ms.
Proof.
  induction ms as [|m ms IH]; cbn; [split; [set_solver|constructor]|].
  rewrite Forall_cons, IH, elem_of_cons. naive_solver.
Qed.

(** Leaving succeeds exactly when the member is in the group; the group
    then has every other member, in a new generation unless it became empty.
    An unknown group or member gets error 25 and changes nothing. *)
Theorem handle_leave_group_correct s r p s' :
  handle_leave_group r s = Ok (p, s') →
  let g := group s (lgr_group_id r) in
  let g' := group s' (lgr_group_id r) in
  if decide (lgr_member_id r ∈ member_ids (gm_members g)) then
    p = leave_response r 0 ∧
    gm_members g' = filter (λ m, mi_member_id m ≠ lgr_member_id r) (gm_members g) ∧
    gm_committed_offsets g' = gm_committed_offsets g ∧
    if decide (gm_members g' = [])
    then gm_state g' = Empty ∧ gm_generation g' = gm_generation g
    else gm_state g' = AwaitingSync ∧ gm_generation g' = gm_generation g + 1
  else p = leave_response r 25 ∧ s' = s.
Proof.
  unfold handle_leave_group. cbn zeta.
  destruct (groups_ s !! lgr_group_id r) as [g|] eqn:Hg.
  2:{ intros [= <- <-]. unfold group. rewrite Hg, decide_False by (cbn; set_solver). done. }
  rewrite (group_Some _ _ _ Hg). rewrite (filter_bool (λ m, mi_member_id m ≠ lgr_member_id r))
    by (intros m; rewrite negb_true_iff, bool_decide_eq_false; done).
  set (rest := filter _ (gm_members g)).
  pose proof (filter_length_lt (λ m, mi_member_id m ≠ lgr_member_id r) (gm_members g)) as Hlt.
  assert (lgr_member_id r ∈ member_ids (gm_members g) ↔ zlen rest < zlen (gm_members g)) as Hin.
  { unfold rest. rewrite Hlt, absent_Forall. split; [naive_solver|apply dec_stable]. }
  destruct (Z.ltb_spec (zlen rest) (zlen (gm_members g))) as [Hl|Hl].
  - rewrite decide_True by tauto.
    intros (g' & (Hm & Ho & Hs)%after_erase_Ok & [= <- <-])%outcome_bind_Ok.
    unfold group, set_group. cbn [groups_]. rewrite lookup_insert_eq. cbn [default from_option id].
    rewrite Hm. split_and!; [done..|].
    destruct rest as [|m ms]; [by rewrite decide_True|]. rewrite decide_False by done.
    by rewrite decide_True in Hs.
  - rewrite decide_False by (rewrite Hin; lia). by intros [= <- <-].
Qed.

Lemma handle_leave_group_correct_witness :
  let s := state_after [OpJoin 5 (a_join "g" "a"); OpJoin 5 (a_join "g" "b")] in
  ∃ p s', handle_leave_group (a_leave "g" "a") s = Ok (p, s') ∧
  gm_generation (group s' (str "g")) = 2.
Proof.
  intros s. run_call (handle_leave_group (a_leave "g" "a") s) p s' H. exists p, s'. split; [exact H|].
  destruct (handle_leave_group_correct s (a_leave "g" "a") p s' H) as (_ & E & _ & Hs).
  rewrite E in Hs. exact (proj2 Hs).
Defined.

(** ** Committed offsets

    The abstract view of the offsets is the history of commits: the offset of
    a partition is the last one committed for it. *)
Record commit := mkCommit { cm_group : bytes; cm_topic : bytes; cm_partition : Z; cm_offset : Z }.

Definition topic_commits (gid : bytes) (t : OffsetCommitTopicRequest) : list commit :=
  map (λ p, mkCommit gid (octr_topic_name t) (ocpr_partition_index p) (ocpr_committed_offset p))
    (octr_partitions t).
Definition commits_of (o : op) : list commit :=
  match o with
  | OpCommit r => concat (map (topic_commits (ocr_group_id r)) (ocr_topics r))
  | _ => []
  end.
Definition history (os : list op) : list commit := concat (map commits_of os).

(** The last offset committed for a partition, [acc] when there is none. *)
Definition last_commit (gid topic : bytes) (i : Z) (h : list commit) (acc : Z) : Z :=
  fold_left (λ o c, if decide (cm_group c = gid ∧ cm_topic c = topic ∧ cm_partition c = i)
                    then cm_offset c else o) h acc.

Definition offset_at (s : GroupCoordinator) (gid topic : bytes) (i : Z) : Z :=
  stored_offset (gm_committed_offsets (group s gid)) topic i.

Lemma last_commit_app gid topic i h1 h2 acc :
  last_commit gid topic i (h1 ++ h2) acc = last_commit gid topic i h2 (last_commit gid topic i h1 acc).
Proof. apply fold_left_app. Qed.

Lemma stored_offset_store t p os topic i :
  stored_offset (store_offset t p os) topic i =
  if decide (t = topic ∧ ocpr_partition_index p = i) then ocpr_committed_offset p
  else stored_offset os topic i.
Proof.
  unfold stored_offset, store_offset. destruct (decide (t = topic)) as [->|].
  - rewrite lookup_insert_eq. destruct (decide (ocpr_partition_index p = i)) as [->|].
    + by rewrite lookup_insert_eq, decide_True.
    + rewrite lookup_insert_ne, decide_False by naive_solver.
      destruct (os !! topic); cbn; [done|]. by rewrite lookup_empty.
  - rewrite lookup_insert_ne, decide_False by naive_solver. done.
Qed.

Lemma stored_offset_topic gid t os topic i :
  stored_offset (commit_topic os t) topic i =
  last_commit gid topic i (topic_commits gid t) (stored_offset os topic i).
Proof.
  unfold commit_topic, topic_commits. revert os.
  induction (octr_partitions t) as [|p ps IH]; intros os; [done|].
  cbn [fold_left map]. rewrite IH, stored_offset_store. unfold last_commit. cbn.
  f_equal. repeat case_decide; naive_solver.
Qed.

Lemma stored_offset_topics gid ts os topic i :
  stored_offset (fold_left commit_topic ts os) topic i =
  last_commit gid topic i (concat (map (topic_commits gid) ts)) (stored_offset os topic i).
Proof.
  revert os. induction ts as [|t ts IH]; intros os; [done|].
  cbn [fold_left map concat]. by rewrite IH, last_commit_app, (stored_offset_topic gid).
Qed.

Lemma last_commit_other gid gid' topic i ts acc :
  gid' ≠ gid → last_commit gid topic i (concat (map (topic_commits gid') ts)) acc = acc.
Proof.
  intros Hne. revert acc. induction ts as [|t ts IH]; intros acc; [done|].
  cbn [map concat]. rewrite last_commit_app, IH. unfold last_commit, topic_commits.
  induction (octr_partitions t) as [|p ps IHp]; [done|]. cbn.
  rewrite decide_False by naive_solver. done.
Qed.

(** One call appends its commits to the history. *)
Lemma exec_offset_at o s p s' gid topic i :
  exec o s = Ok (p, s') →
  offset_at s' gid topic i = last_commit gid topic i (commits_of o) (offset_at s gid topic i).
Proof.
  intros H. unfold offset_at. destruct (is_commit o) eqn:Hc.
  - destruct o as [| | | |r|]; try done. injection H as _ <-. cbn [commits_of].
    unfold set_group, group at 1. cbn [groups_].
    destruct (decide (ocr_group_id r = gid)) as [<-|Hne].
    + rewrite lookup_insert_eq. cbn. apply stored_offset_topics.
    + rewrite lookup_insert_ne by done. by rewrite last_commit_other.
  - assert (commits_of o = []) as -> by (by destruct o). apply exec_step in H. rewrite Hc in H.
    destruct H as [->|(g' & Hg & Hm & _)]; [done|]. cbn.
    unfold group at 1. rewrite Hm. destruct (decide (op_group o = gid)) as [<-|Hne].
    + rewrite lookup_insert_eq. cbn. by rewrite (group_step_offsets _ _ Hg).
    + by rewrite lookup_insert_ne.
Qed.

Lemma exec_all_offset_at os s s' gid topic i :
  exec_all os s = Ok s' →
  offset_at s' gid topic i = last_commit gid topic i (history os) (offset_at s gid topic i).
Proof.
  revert s. induction os as [|o os IH]; intros s; cbn [exec_all].
  - by intros [= <-].
  - intros ([p s1] & H1 & H2)%outcome_bind_Ok. unfold history. cbn [map concat].
    rewrite last_commit_app, <-(exec_offset_at _ _ _ _ _ _ _ H1). by apply IH.
Qed.

(** C13: offset storage refines the commit history: after any run of the
    coordinator, an OffsetFetch answers each requested partition with the last
    offset committed for that group, topic and partition, and [-1] when there
    was none; joins, syncs, heartbeats (evictions included), leaves and
    fetches never change a committed offset. *)
Theorem offset_fetch_last_commit os s r p s' :
  exec_all os new_coordinator = Ok s → handle_offset_fetch r s = (p, s') →
  ofp_topics p =
  map (λ t, mkOffsetFetchTopicResponse (oftr_topic_name t)
              (map (λ i, mkOffsetFetchPartitionResponse i
                           (last_commit (ofr_group_id r) (oftr_topic_name t) i (history os) (-1)) (-1) [] 0)
                 (oftr_partition_indexes t)))
    (ofr_topics r).
Proof.
  intros Hos [= <- _]. cbn [ofp_topics]. apply map_ext. intros t. unfold fetch_topic_response.
  f_equal. apply map_ext. intros i. f_equal.
  pose proof (exec_all_offset_at os _ _ (ofr_group_id r) (oftr_topic_name t) i Hos) as E.
  unfold offset_at in E at 2. unfold group, new_coordinator in E. cbn [groups_] in E.
  by rewrite lookup_empty in E.
Qed.

Definition commit_run : list op :=
  [OpCommit (a_commit "g" "t" 0 5); OpJoin 1 (a_join "g" "a"); OpCommit (a_commit "h" "t" 0 9);
   OpCommit (a_commit "g" "t" 0 6); OpLeave (a_leave "g" "a")].

Lemma offset_fetch_last_commit_witness :
  let r := mkOffsetFetchRequest a_header (str "g") [mkOffsetFetchTopicRequest (str "t") [0; 1]] in
  ofp_topics (handle_offset_fetch r (state_after commit_run)).1 =
  [mkOffsetFetchTopicResponse (str "t")
     [mkOffsetFetchPartitionResponse 0 6 (-1) [] 0; mkOffsetFetchPartitionResponse 1 (-1) (-1) [] 0]].
Proof.
  intros r. apply (offset_fetch_last_commit commit_run (state_after commit_run) r _
    (handle_offset_fetch r (state_after commit_run)).2); reflexivity.
Defined.
