(* ===== verification/Storage.v ===== *)
(** * Segment files (src/src/storage/partition_log.hpp, log_reader.cpp)

    Where a partition's segments live, an explicit operating-system state
    (files, open descriptors, writes submitted to io_uring but not yet done),
    and the reader that concatenates all segments of a partition.  A path is
    the pair of a directory and the name of a file in it. *)

From stdpp Require Import sorting.
From S2P Require Import Prelude.

Abbreviation path := (bytes * bytes)%type.

(** ** Names *)

(** The [w] low decimal digits of [n], most significant first. *)
Fixpoint digits (w : nat) (n : Z) : bytes :=
  match w with
  | O => []
  | S w' => digits w' (n / 10) ++ [48 + n mod 10]
  end.

(** [std::format("{:020d}", z)] of an [int64_t]: padded with zeros after the
    sign to width 20, which no [int64_t] exceeds. *)
Definition format_020d (z : Z) : bytes :=
  if z <? 0 then 45 :: digits 19 (- z) else digits 20 z.

Record PartitionLog := mkPartitionLog {
  pl_log_root : bytes;
  pl_topic_name : bytes;
  pl_partition : Z }.

Definition dir_path (l : PartitionLog) : bytes :=
  pl_log_root l ++ str "/" ++ pl_topic_name l ++ str "-" ++ to_string (pl_partition l).

Definition segment_name (base_offset : Z) : bytes := format_020d base_offset ++ str ".log".

Definition segment_path (l : PartitionLog) (base_offset : Z) : path :=
  (dir_path l, segment_name base_offset).

(** ** The operating system *)

Record OS := mkOS {
  files : gmap path bytes;
  fds : gmap Z path;
  in_flight : list (path * bytes) }.

(** What the system calls of one operation return where the program does not
    decide it: whether [create_directories] succeeds, the descriptors [open]
    returns (negative for failure), how much of a [write] is written (all of it
    for [None]), whether io_uring has a free entry, the wall clock in
    milliseconds, and which files can be opened for reading. *)
Record Env := mkEnv {
  env_mkdir : bool;
  env_write_fd : Z;
  env_read_fd : Z;
  env_written : option Z;
  env_sqe : bool;
  env_now_ms : Z;
  env_readable : path → bool }.

Definition file (os : OS) (p : path) : bytes := default [] (files os !! p).

(** [::open(p, O_WRONLY | O_CREAT | O_APPEND)] *)
Definition open_append (env : Env) (p : path) (os : OS) : Z * OS :=
  if env_write_fd env <? 0 then (env_write_fd env, os)
  else (env_write_fd env,
        mkOS (<[p := file os p]> (files os)) (<[env_write_fd env := p]> (fds os)) (in_flight os)).

(** [::open(p, O_RDONLY)]: fails when there is no such file. *)
Definition open_read (env : Env) (p : path) (os : OS) : Z * OS :=
  match files os !! p with
  | Some _ =>
      if (env_read_fd env <? 0) || negb (env_readable env p) then (-1, os)
      else (env_read_fd env, mkOS (files os) (<[env_read_fd env := p]> (fds os)) (in_flight os))
  | None => (-1, os)
  end.

Definition close (fd : Z) (os : OS) : OS := mkOS (files os) (delete fd (fds os)) (in_flight os).

Definition append_file (p : path) (data : bytes) (os : OS) : OS :=
  mkOS (<[p := file os p ++ data]> (files os)) (fds os) (in_flight os).

(** [::write] on a descriptor opened with [O_APPEND]; the result is ignored. *)
Definition write_fd (env : Env) (fd : Z) (data : bytes) (os : OS) : OS :=
  match fds os !! fd with
  | Some p => append_file p (ztake (default (zlen data) (env_written env)) data) os
  | None => os
  end.

(** A write handed to io_uring: done later, by [io_complete]. *)
Definition submit_write (fd : Z) (data : bytes) (os : OS) : OS :=
  match fds os !! fd with
  | Some p => mkOS (files os) (fds os) (in_flight os ++ [(p, data)])
  | None => os
  end.

(** The kernel performs the [i]-th submitted write. *)
Definition io_complete (i : nat) (os : OS) : OS :=
  match in_flight os !! i with
  | Some (p, data) =>
      append_file p data (mkOS (files os) (fds os) (delete i (in_flight os)))
  | None => os
  end.

(** [static_cast<size_t>(::lseek(fd, 0, SEEK_END))]: [-1] on a bad descriptor
    becomes the largest [size_t]. *)
Definition file_size (fd : Z) (os : OS) : Z :=
  match fds os !! fd with
  | Some p => zlen (file os p)
  | None => wrap_uint 64 (-1)
  end.

(** [::pread]: the bytes up to the end of the file, [None] on failure. *)
Definition pread (fd size off : Z) (os : OS) : option bytes :=
  p ← fds os !! fd; Some (ztake size (zdrop off (file os p))).

(** ** Reading a whole partition *)

Definition is_space (c : Z) : bool := (c =? 32) || ((9 <=? c) && (c <=? 13)).
Definition is_digit (c : Z) : bool := (48 <=? c) && (c <=? 57).

Fixpoint skip_spaces (s : bytes) : bytes :=
  match s with
  | c :: s' => if is_space c then skip_spaces s' else s
  | [] => []
  end.

Fixpoint read_digits (s : bytes) (acc : Z) : Z :=
  match s with
  | c :: s' => if is_digit c then read_digits s' (acc * 10 + (c - 48)) else acc
  | [] => acc
  end.

(** [std::stoll]: optional white space and sign, then at least one digit. *)
Definition stoll (s : bytes) : outcome Z :=
  let s := skip_spaces s in
  let '(sign, ds) :=
    match s with
    | 45 :: s' => (-1, s')
    | 43 :: s' => (1, s')
    | _ => (1, s)
    end in
  match ds with
  | c :: _ =>
      if is_digit c then
        let v := sign * read_digits ds 0 in
        if decide (in_int 64 v) then Ok v else Fault out_of_range
      else Fault invalid_argument
  | [] => Fault invalid_argument
  end.

Definition ends_with (suffix s : bytes) : bool :=
  (zlen suffix <=? zlen s) && bool_decide (zdrop (zlen s - zlen suffix) s = suffix).

(** [segments[k] = p] in a [std::map], kept as a list sorted by key. *)
Fixpoint sorted_insert (k : Z) (p : path) (l : list (Z * path)) : list (Z * path) :=
  match l with
  | [] => [(k, p)]
  | (k', p') :: l' =>
      if k <? k' then (k, p) :: l
      else if k =? k' then (k, p) :: l'
      else (k', p') :: sorted_insert k p l'
  end.

(** One directory entry: segments are the names of 24 characters that end in
    [.log]; the number is their first 20 characters. *)
Definition collect_segment (p : path) (acc : outcome (list (Z * path))) : outcome (list (Z * path)) :=
  segments ← acc;
  if (zlen p.2 =? 24) && ends_with (str ".log") p.2 then
    k ← stoll (ztake 20 p.2);
    mret (sorted_insert k p segments)
  else mret segments.

(** The files of a directory, in the order the iterator yields them. *)
Definition directory (dir : bytes) (os : OS) : list path :=
  filter (λ p, p.1 = dir) (map fst (map_to_list (files os))).

Definition read_topic_log (env : Env) (os : OS) (root topic : bytes) (partition : Z) : outcome bytes :=
  let dir := root ++ str "/" ++ topic ++ str "-" ++ to_string partition in
  segments ← foldr collect_segment (Ok []) (directory dir os);
  mret (concat (map (λ s, if env_readable env s.2 then file os s.2 else []) segments)).

(** ** Segment names round-trip *)

Lemma digits_length w n : zlen (digits w n) = Z.of_nat w.
Proof. revert n. induction w as [|w IH]; intros n; cbn [digits]; [done|]. rewrite zlen_app, IH. zlia. Qed.

Lemma digits_digits w n : Forall (λ c, is_digit c = true) (digits w n).
Proof.
  revert n. induction w as [|w IH]; intros n; [constructor|]. apply Forall_app; split; [apply IH|].
  constructor; [|done]. unfold is_digit. pose proof (Z.mod_pos_bound n 10). lia.
Qed.

Lemma read_digits_app s1 s2 acc :
  Forall (λ c, is_digit c = true) s1 → read_digits (s1 ++ s2) acc = read_digits s2 (read_digits s1 acc).
Proof. intros Hd. revert acc. induction Hd as [|c s1 Hc _ IH]; intros acc; cbn; [done|]. by rewrite Hc. Qed.

Lemma read_digits_digits w n acc :
  0 ≤ n < 10 ^ Z.of_nat w → read_digits (digits w n) acc = acc * 10 ^ Z.of_nat w + n.
Proof.
  revert n. induction w as [|w IH]; intros n Hn.
  - change (10 ^ Z.of_nat 0) with 1 in *. cbn. lia.
  - rewrite Nat2Z.inj_succ, Z.pow_succ_r in * by lia. cbn [digits].
    pose proof (Z.div_mod n 10 ltac:(lia)). pose proof (Z.mod_pos_bound n 10 ltac:(lia)).
    rewrite read_digits_app by apply digits_digits. rewrite IH.
    + cbn [read_digits]. unfold is_digit.
      replace ((48 <=? 48 + n mod 10) && (48 + n mod 10 <=? 57)) with true by (symmetry; lia). nia.
    + split; [apply Z.div_pos; lia|apply Z.div_lt_upper_bound; lia].
Qed.

Lemma digit_head ds : 0 < zlen ds → Forall (λ c, is_digit c = true) ds →
  ∃ c ds', ds = c :: ds' ∧ is_digit c = true ∧ skip_spaces ds = ds ∧ c ≠ 45 ∧ c ≠ 43.
Proof.
  destruct 2 as [|c ds Hc Hds]; [done|]. exists c, ds. split_and!; [done|done| |..];
    unfold is_digit in Hc; [|lia..].
  cbn. unfold is_space. replace ((c =? 32) || (9 <=? c) && (c <=? 13)) with false by (symmetry; lia). done.
Qed.

Lemma stoll_unsigned ds :
  0 < zlen ds → Forall (λ c, is_digit c = true) ds → in_int 64 (read_digits ds 0) →
  stoll ds = Ok (read_digits ds 0).
Proof.
  intros Hl Hd Hv. destruct (digit_head ds Hl Hd) as (c & ds' & -> & Hc & Hs & H1 & H2).
  unfold stoll. rewrite Hs.
  assert (match c :: ds' with 45 :: s' => (-1, s') | 43 :: s' => (1, s') | _ => (1, c :: ds') end = (1, c :: ds')) as E.
  { clear -H1 H2. destruct c as [|p|p]; try done. do 6 (destruct p as [p|p|]; try done). }
  rewrite E, Hc, Z.mul_1_l. by rewrite decide_True.
Qed.

Lemma stoll_format z : in_int 64 z → stoll (format_020d z) = Ok z.
Proof.
  intros Hz. unfold in_int in Hz. unfold format_020d. destruct (Z.ltb_spec z 0).
  - pose proof (digits_digits 19 (- z)) as Hd.
    assert (read_digits (digits 19 (- z)) 0 = - z) as Hv by (rewrite read_digits_digits; lia).
    destruct (digit_head (digits 19 (-z))) as (c & ds' & E & Hc & _ & _ & _);
      [rewrite digits_length; lia|done|].
    unfold stoll. cbn [skip_spaces is_space Z.eqb Pos.eqb orb Z.leb andb]. rewrite E in *.
    cbn -[read_digits]. rewrite Hc, Hv. rewrite decide_True by (unfold in_int; lia). f_equal. lia.
  - rewrite stoll_unsigned; [by rewrite read_digits_digits by lia|rewrite digits_length; lia|apply digits_digits|].
    rewrite read_digits_digits by lia. unfold in_int. lia.
Qed.

Lemma format_length z : zlen (format_020d z) = 20.
Proof. unfold format_020d. destruct (z <? 0); [rewrite zlen_cons|]; rewrite digits_length; lia. Qed.

Lemma segment_name_number z : ztake 20 (segment_name z) = format_020d z.
Proof. unfold segment_name. rewrite <-(format_length z). apply ztake_app. Qed.

Lemma segment_name_shape z : zlen (segment_name z) = 24 ∧ ends_with (str ".log") (segment_name z) = true.
Proof.
  assert (zlen (segment_name z) = 24) as Hl by (unfold segment_name; rewrite zlen_app, format_length; done).
  split; [done|]. unfold ends_with. rewrite Hl. change (zlen (str ".log")) with 4. cbn [andb Z.leb].
  change (24 - 4) with 20. rewrite <-(format_length z). apply bool_decide_eq_true. apply zdrop_app.
Qed.

Lemma segment_name_inj a b : in_int 64 a → in_int 64 b → segment_name a = segment_name b → a = b.
Proof.
  intros Ha Hb E. apply (f_equal (ztake 20)) in E. rewrite !segment_name_number in E.
  apply (f_equal stoll) in E. rewrite !stoll_format in E by done. congruence.
Qed.

(** ** The segments of a directory, in order *)

Definition by_offset (x y : Z * path) : Prop := x.1 < y.1.

#[local] Instance by_offset_antisymm : AntiSymm (=) by_offset.
Proof. unfold by_offset. intros x y ? ?. lia. Qed.

Lemma sorted_insert_elem k p l x :
  (∀ y, y ∈ l → y.1 = k → y = (k, p)) →
  x ∈ sorted_insert k p l ↔ x = (k, p) ∨ x ∈ l.
Proof.
  induction l as [|[k' p'] l IH]; intros Hl; cbn; [by rewrite elem_of_cons|].
  destruct (Z.ltb_spec k k'); [by rewrite elem_of_cons|].
  destruct (Z.eqb_spec k k') as [->|].
  - assert ((k', p') = (k', p)) as E by (apply Hl; [set_solver|done]). rewrite !elem_of_cons, E. naive_solver.
  - rewrite !elem_of_cons, IH by (intros y Hy; apply Hl; set_solver). naive_solver.
Qed.

Lemma sorted_insert_sorted k p l :
  StronglySorted by_offset l → StronglySorted by_offset (sorted_insert k p l).
Proof.
  induction 1 as [|[k' p'] l Hs IH Hall]; cbn; [repeat constructor|].
  destruct (Z.ltb_spec k k').
  - constructor; [by constructor|]. constructor; [done|].
    eapply Forall_impl; [exact Hall|]. unfold by_offset. cbn. intros; lia.
  - destruct (Z.eqb_spec k k') as [->|]; [by constructor|]. constructor; [done|].
    clear -Hall H n. induction Hall as [|[k2 p2] l H2 Hall IH]; cbn.
    + constructor; [unfold by_offset; cbn; lia|constructor].
    + destruct (k <? k2); [|destruct (k =? k2)]; repeat constructor; unfold by_offset in *; cbn in *; try done; lia.
Qed.

Definition segment_entry (dir : bytes) (b : Z) : Z * path := (b, (dir, segment_name b)).

Lemma collect_segments dir (bs : list Z) :
  Forall (in_int 64) bs →
  ∃ r, foldr collect_segment (Ok []) (map (λ b, (dir, segment_name b)) bs) = Ok r ∧
       StronglySorted by_offset r ∧ ∀ x, x ∈ r ↔ x ∈ map (segment_entry dir) bs.
Proof.
  induction 1 as [|b bs Hb Hbs (r & E & Hs & Hr)]; cbn.
  - exists []. split_and!; [done|constructor|done].
  - rewrite E. unfold collect_segment. cbn [mbind outcome_bind snd].
    destruct (segment_name_shape b) as [-> ->]. cbn [Z.eqb Pos.eqb andb].
    rewrite segment_name_number, stoll_format by done. cbn.
    eexists. split_and!; [done|by apply sorted_insert_sorted|].
    intros x. rewrite sorted_insert_elem, elem_of_cons, Hr; [done|].
    intros y Hy Ey. apply Hr in Hy. apply list_elem_of_fmap in Hy as (b' & -> & _). cbn in Ey. by subst.
Qed.

Lemma sorted_NoDup (l : list (Z * path)) : StronglySorted by_offset l → NoDup l.
Proof.
  induction 1 as [|x l Hs IH Hall]; constructor; [|done].
  intros Hx. rewrite Forall_forall in Hall. specialize (Hall x Hx). unfold by_offset in Hall. lia.
Qed.

Lemma segments_sorted dir bs :
  StronglySorted Z.lt bs → StronglySorted by_offset (map (segment_entry dir) bs).
Proof.
  induction 1 as [|b bs Hs IH Hall]; cbn; constructor; [done|].
  apply Forall_map. eapply Forall_impl; [exact Hall|]. done.
Qed.

Lemma segment_path_inj l a b : in_int 64 a → in_int 64 b → segment_path l a = segment_path l b → a = b.
Proof. unfold segment_path. intros ? ? [= E]. by apply segment_name_inj. Qed.

Lemma directory_elem os l bs p :
  (∀ p, p.1 = dir_path l → is_Some (files os !! p) ↔ p ∈ map (segment_path l) bs) →
  p ∈ directory (dir_path l) os ↔ p ∈ map (segment_path l) bs.
Proof.
  intros Hdir. unfold directory. rewrite list_elem_of_filter, list_elem_of_fmap. split.
  - intros [Hp ([q v] & -> & Hq%elem_of_map_to_list)]. apply Hdir; [done|]. by eexists.
  - intros Hp. pose proof Hp as Hp'. apply list_elem_of_fmap in Hp' as (b & -> & _).
    split; [done|]. apply Hdir in Hp as [v Hv]; [|done]. exists (segment_path l b, v).
    split; [done|by apply elem_of_map_to_list].
Qed.

Lemma paths_of_segments l bs (ps : list path) :
  (∀ p, p ∈ ps → p ∈ map (segment_path l) bs) →
  ∃ cs, ps = map (λ b, (dir_path l, segment_name b)) cs ∧ Forall (λ b, b ∈ bs) cs.
Proof.
  induction ps as [|p ps IH]; intros Hp; [by exists []|].
  destruct IH as (cs & -> & Hc); [set_solver|].
  assert (p ∈ map (segment_path l) bs) as (b & -> & Hb)%list_elem_of_fmap by set_solver.
  exists (b :: cs). split; [done|by constructor].
Qed.

(** The entries of the directory are the segments, in some order. *)
Lemma directory_segments os l bs :
  Forall (in_int 64) bs →
  (∀ p, p.1 = dir_path l → is_Some (files os !! p) ↔ p ∈ map (segment_path l) bs) →
  ∃ cs, directory (dir_path l) os = map (λ b, (dir_path l, segment_name b)) cs ∧
        Forall (in_int 64) cs ∧ ∀ b, b ∈ cs ↔ b ∈ bs.
Proof.
  intros Hi Hdir.
  destruct (paths_of_segments l bs (directory (dir_path l) os)) as (cs & E & Hc).
  { intros p. by apply directory_elem. }
  exists cs. split; [done|]. rewrite Forall_forall in Hc, Hi. split; [rewrite Forall_forall; auto|].
  intros b. split; [auto|]. intros Hb.
  assert (segment_path l b ∈ directory (dir_path l) os) as H.
  { apply (directory_elem os l bs); [done|]. apply list_elem_of_fmap. by exists b. }
  rewrite E in H. apply list_elem_of_fmap in H as (b' & Eb & Hb').
  assert (b = b') as -> by (eapply segment_path_inj; [auto|auto|exact Eb]). done.
Qed.

(** When a directory holds exactly the segments with base offsets [bs], in
    increasing order, the whole log is their concatenation in that order. *)
Lemma read_topic_log_segments env os l bs :
  StronglySorted Z.lt bs → Forall (in_int 64) bs →
  (∀ p, p.1 = dir_path l → is_Some (files os !! p) ↔ p ∈ map (segment_path l) bs) →
  (∀ p, env_readable env p = true) →
  read_topic_log env os (pl_log_root l) (pl_topic_name l) (pl_partition l) =
  Ok (concat (map (λ b, file os (segment_path l b)) bs)).
Proof.
  intros Hs Hi Hdir Hread. unfold read_topic_log. fold (dir_path l).
  destruct (directory_segments os l bs Hi Hdir) as (cs & -> & Hcs & Hbc).
  destruct (collect_segments (dir_path l) cs Hcs) as (r & -> & Hr & Hel). cbn.
  assert (r = map (segment_entry (dir_path l)) bs) as ->.
  { apply (StronglySorted_unique by_offset); [done|by apply segments_sorted|].
    apply NoDup_Permutation; [by apply sorted_NoDup|by apply sorted_NoDup, segments_sorted|].
    intros x. rewrite Hel, !list_elem_of_fmap. naive_solver. }
  do 2 f_equal. rewrite map_map. apply map_ext. intros b. cbn. by rewrite Hread.
Qed.
