(* ===== verification/PartitionContext.v ===== *)
(** * One partition (src/src/broker/partition_context.hpp)

    [PartitionContext] owns the offsets, the current segment and its sparse
    index; [produce] and the two [fetch] overloads act on it and on the
    operating-system state of [Storage].  Byte counts of files are below
    [2^63], so only the subtractions of [size_t]s that can go below zero wrap. *)

From S2P Require Import Prelude RecordBatch Storage.

Record SparseIndexEntry := mkIndexEntry { sie_offset : Z; sie_file_position : Z }.

Definition kSparseIndexInterval : Z := 1000.

Record ProduceResult := mkProduceResult { base_offset : Z; log_append_time_ms : Z }.

(** [return {}]: the default member values. *)
Definition no_result : ProduceResult := mkProduceResult (-1) (-1).

Record PartitionContext := mkContext {
  log_ : PartitionLog;
  next_offset_ : Z;
  current_segment_base_offset_ : Z;
  current_segment_bytes_ : Z;
  segment_bytes_ : Z;
  current_segment_index_ : list SparseIndexEntry;
  ring_ : bool;
  write_fd_ : Z;
  read_fd_ : Z }.

Definition new_context (log_root topic_name : bytes) (partition segment_bytes : Z) (ring : bool)
    : PartitionContext :=
  mkContext (mkPartitionLog log_root topic_name partition) 0 0 0 segment_bytes [] ring (-1) (-1).

(** [if (fd >= 0) ::close(fd);] *)
Definition close_fd (fd : Z) (os : OS) : OS := if 0 <=? fd then close fd os else os.

(** Start a new segment when the blob does not fit the current one. *)
Definition roll_segment (blob_size : Z) (c : PartitionContext) (os : OS) : PartitionContext * OS :=
  if (0 <? segment_bytes_ c) && (current_segment_bytes_ c + blob_size >? segment_bytes_ c) then
    (mkContext (log_ c) (next_offset_ c) (next_offset_ c) 0 (segment_bytes_ c) [] (ring_ c) (-1) (-1),
     close_fd (read_fd_ c) (close_fd (write_fd_ c) os))
  else (c, os).

Definition open_segment (env : Env) (c : PartitionContext) (os : OS) : PartitionContext * OS :=
  if write_fd_ c <? 0 then
    let '(fd, os') := open_append env (segment_path (log_ c) (current_segment_base_offset_ c)) os in
    (mkContext (log_ c) (next_offset_ c) (current_segment_base_offset_ c) (current_segment_bytes_ c)
       (segment_bytes_ c) (current_segment_index_ c) (ring_ c) fd (read_fd_ c), os')
  else (c, os).

(** An index entry for every produce at an offset divisible by the interval;
    C++'s [%] truncates. *)
Definition index_entry (c : PartitionContext) : list SparseIndexEntry :=
  if Z.rem (next_offset_ c) kSparseIndexInterval =? 0
  then current_segment_index_ c ++ [mkIndexEntry (next_offset_ c) (current_segment_bytes_ c)]
  else current_segment_index_ c.

(** The write itself: through io_uring when there is a ring with a free
    entry, otherwise with [::write]. *)
Definition write_blob (env : Env) (data : bytes) (c : PartitionContext) (os : OS) : OS :=
  if ring_ c && env_sqe env then submit_write (write_fd_ c) data os
  else write_fd env (write_fd_ c) data os.

Definition produce (env : Env) (data : bytes) (c : PartitionContext) (os : OS)
    : outcome (ProduceResult * PartitionContext * OS) :=
  match record_batch_count data with
  | Fault f => Fault f
  | Err _ => mret (no_result, c, os)
  | Ok record_count =>
      if negb (env_mkdir env) then mret (no_result, c, os)
      else
        let blob_size := zlen data in
        let '(c, os) := roll_segment blob_size c os in
        let '(c, os) := open_segment env c os in
        if write_fd_ c <? 0 then mret (no_result, c, os)
        else
          let os := write_blob env data c os in
          next ← int64_add (next_offset_ c) record_count;
          mret (mkProduceResult (next_offset_ c) (env_now_ms env),
                mkContext (log_ c) next (current_segment_base_offset_ c)
                  (current_segment_bytes_ c + blob_size) (segment_bytes_ c) (index_entry c)
                  (ring_ c) (write_fd_ c) (read_fd_ c),
                os)
  end.

(** [fetch()]: every segment of the partition. *)
Definition fetch_all (env : Env) (c : PartitionContext) (os : OS) : outcome bytes :=
  read_topic_log env os (pl_log_root (log_ c)) (pl_topic_name (log_ c)) (pl_partition (log_ c)).

(** The last entry before the first one beyond [offset]. *)
Fixpoint best_entry (offset : Z) (index : list SparseIndexEntry) (best : option SparseIndexEntry)
    : option SparseIndexEntry :=
  match index with
  | [] => best
  | e :: index' => if sie_offset e <=? offset then best_entry offset index' (Some e) else best
  end.

Definition ensure_read_fd (env : Env) (segment_base : Z) (c : PartitionContext) (os : OS)
    : PartitionContext * OS :=
  if 0 <=? read_fd_ c then (c, os)
  else
    let '(fd, os') := open_read env (segment_path (log_ c) segment_base) os in
    (mkContext (log_ c) (next_offset_ c) (current_segment_base_offset_ c) (current_segment_bytes_ c)
       (segment_bytes_ c) (current_segment_index_ c) (ring_ c) (write_fd_ c) fd, os').

Definition kMaxFetchChunk : Z := 10 * 1024 * 1024.

(** The loop over the records: skip, then collect until [max_bytes]. *)
Fixpoint collect_records (records : list bytes) (i skip_count max_bytes : Z) (result : bytes) : bytes :=
  match records with
  | [] => result
  | r :: records' =>
      if i <? skip_count then collect_records records' (i + 1) skip_count max_bytes result
      else
        let result := result ++ r in
        if zlen result >=? max_bytes then result
        else collect_records records' (i + 1) skip_count max_bytes result
  end.

(** [if (v.size() > n) v.resize(n);] *)
Definition truncate (n : Z) (v : bytes) : bytes := if zlen v >? n then ztake n v else v.

(** The bytes of the answer, once the segment has been read. *)
Definition fetch_records (raw_data : bytes) (skip_count max_bytes : Z) : outcome bytes :=
  match parse_record_batch raw_data with
  | Fault f => Fault f
  | Err _ | Ok [] => mret (truncate max_bytes raw_data)
  | Ok records => mret (truncate max_bytes (collect_records records 0 skip_count max_bytes []))
  end.

(** [fetch(offset, max_bytes)] *)
Definition fetch (env : Env) (offset max_bytes : Z) (c : PartitionContext) (os : OS)
    : outcome (bytes * PartitionContext * OS) :=
  if max_bytes <=? 0 then mret ([], c, os)
  else
    let best := best_entry offset (current_segment_index_ c) None in
    let start_position := match best with Some e => sie_file_position e | None => 0 end in
    let entry_offset := match best with Some e => sie_offset e | None => 0 end in
    let segment_base := match best with Some _ => current_segment_base_offset_ c | None => 0 end in
    let '(c, os) := ensure_read_fd env segment_base c os in
    let size := file_size (read_fd_ c) os in
    if size =? 0 then mret ([], c, os)
    else
      let read_limit := if max_bytes * 2 >? kMaxFetchChunk then kMaxFetchChunk else max_bytes * 2 in
      let available := wrap_uint 64 (size - start_position) in
      let read_size := Z.min read_limit available in
      if read_size =? 0 then mret ([], c, os)
      else
        match pread (read_fd_ c) read_size start_position os with
        | None => mret ([], c, os)
        | Some raw_data =>
            result ← fetch_records raw_data (offset - entry_offset) max_bytes;
            mret (result, c, os)
        end.

Definition current_offset (c : PartitionContext) : Z := next_offset_ c.
Definition segment_index (c : PartitionContext) : list SparseIndexEntry := current_segment_index_ c.
Definition file_position (c : PartitionContext) : Z := current_segment_bytes_ c.
Definition segment_base_offset (c : PartitionContext) : Z := current_segment_base_offset_ c.

Definition file_fd (env : Env) (c : PartitionContext) (os : OS) : Z * PartitionContext * OS :=
  let '(c, os) := if read_fd_ c <? 0 then ensure_read_fd env (current_segment_base_offset_ c) c os
                  else (c, os) in
  (read_fd_ c, c, os).

Record SpliceInfo := mkSpliceInfo { si_fd : Z; si_file_offset : Z; si_length : Z }.

Definition no_splice : SpliceInfo := mkSpliceInfo (-1) 0 0.

Definition splice_info (fetch_offset max_bytes : Z) (c : PartitionContext) : SpliceInfo :=
  if write_fd_ c <? 0 then no_splice
  else
    let offset := match best_entry fetch_offset (current_segment_index_ c) None with
                  | Some e => sie_file_position e
                  | None => 0
                  end in
    let available := wrap_uint 64 (current_segment_bytes_ c - offset) in
    if available <? 65536 then no_splice
    else mkSpliceInfo (write_fd_ c) offset (Z.min available (wrap_uint 64 max_bytes)).
