(* ===== verification/PartitionProperties.v ===== *)
(** * Properties of a partition

    A partition is a log of record batches.  [log_run] are the states reached
    by appending batches and fetching, with every system call succeeding;
    [log_inv] relates them to the list of batches: how it is cut into segments,
    what each segment file holds and what each index entry points at. *)

From stdpp Require Import sorting.
From S2P Require Import Prelude RecordBatch Storage PartitionContext.

(** ** The abstract log *)

Definition enc_batches (bs : list Batch) : bytes := concat (map enc_batch bs).
Definition log_values (bs : list Batch) : list bytes := concat (map batch_values bs).
Definition nrecords (bs : list Batch) : Z := zlen (log_values bs).

Lemma enc_batches_app bs cs : enc_batches (bs ++ cs) = enc_batches bs ++ enc_batches cs.
Proof. unfold enc_batches. by rewrite map_app, concat_app. Qed.
Lemma log_values_app bs cs : log_values (bs ++ cs) = log_values bs ++ log_values cs.
Proof. unfold log_values. by rewrite map_app, concat_app. Qed.
Lemma nrecords_app bs cs : nrecords (bs ++ cs) = nrecords bs + nrecords cs.
Proof. unfold nrecords. by rewrite log_values_app, zlen_app. Qed.
Lemma nrecords_nonneg bs : 0 ≤ nrecords bs.
Proof. apply zlen_nonneg. Qed.
Lemma enc_batches_one b : enc_batches [b] = enc_batch b.
Proof. apply app_nil_r. Qed.
Lemma nrecords_one b : nrecords [b] = zlen (batch_values b).
Proof. unfold nrecords, log_values. cbn. by rewrite app_nil_r. Qed.

Lemma batch_values_pos b : batch_ok b → 0 < zlen (batch_values b).
Proof.
  intros Hb%batch_values_nonempty. destruct (batch_values b); [done|]. zlia.
Qed.

Lemma nrecords_pos bs : Forall batch_ok bs → bs ≠ [] → 0 < nrecords bs.
Proof.
  destruct 1 as [|b bs Hb Hbs]; [done|]. intros _. change (b :: bs) with ([b] ++ bs).
  rewrite nrecords_app, nrecords_one. pose proof (batch_values_pos b Hb).
  pose proof (nrecords_nonneg bs). lia.
Qed.

(** ** Runs *)

(** Every system call of an operation succeeds, with unused descriptors. *)
Record good_env (env : Env) (os : OS) : Prop := {
  ge_mkdir : env_mkdir env = true;
  ge_wfd : 0 ≤ env_write_fd env ∧ fds os !! env_write_fd env = None;
  ge_rfd : 0 ≤ env_read_fd env ∧ fds os !! env_read_fd env = None;
  ge_written : env_written env = None;
  ge_readable : ∀ p, env_readable env p = true }.

Inductive log_run (l : PartitionLog) (segment_bytes : Z) : list Batch → PartitionContext → OS → Prop :=
| run_new os :
    (∀ p, p.1 = dir_path l → files os !! p = None) →
    log_run l segment_bytes []
      (new_context (pl_log_root l) (pl_topic_name l) (pl_partition l) segment_bytes false) os
| run_produce bs c os env b r c' os' :
    log_run l segment_bytes bs c os → batch_ok b → good_env env os →
    produce env (enc_batch b) c os = Ok (r, c', os') →
    log_run l segment_bytes (bs ++ [b]) c' os'
| run_fetch bs c os env offset max_bytes r c' os' :
    log_run l segment_bytes bs c os → good_env env os →
    fetch env offset max_bytes c os = Ok (r, c', os') →
    log_run l segment_bytes bs c' os'.

(** ** The invariant *)

(** Closed segments: none is empty, and each is named by the number of records
    before it. *)
Fixpoint closed_ok (n : Z) (closed : list (Z * list Batch)) : Prop :=
  match closed with
  | [] => True
  | (b, cs) :: closed' => b = n ∧ Forall batch_ok cs ∧ cs ≠ [] ∧ closed_ok (n + nrecords cs) closed'
  end.

Definition closed_batches (closed : list (Z * list Batch)) : list Batch := concat (map snd closed).

Record log_inv (l : PartitionLog) (segment_bytes : Z) (bs : list Batch)
    (closed : list (Z * list Batch)) (cur : list Batch) (c : PartitionContext) (os : OS) : Prop := {
  li_log : log_ c = l ∧ segment_bytes_ c = segment_bytes ∧ ring_ c = false;
  li_bs : bs = closed_batches closed ++ cur;
  li_closed : closed_ok 0 closed;
  li_cur : Forall batch_ok cur;
  li_next : next_offset_ c = nrecords bs ∧ in_int 64 (nrecords bs);
  li_base : current_segment_base_offset_ c = nrecords (closed_batches closed);
  li_bytes : current_segment_bytes_ c = zlen (enc_batches cur);
  li_files : ∀ b cs, (b, cs) ∈ closed → files os !! segment_path l b = Some (enc_batches cs);
  li_file : files os !! segment_path l (nrecords (closed_batches closed)) =
            if decide (cur = []) then None else Some (enc_batches cur);
  li_dom : ∀ p, p.1 = dir_path l → is_Some (files os !! p) →
           p ∈ map (segment_path l) (map fst closed ++ [nrecords (closed_batches closed)]);
  li_index : ∀ e, e ∈ current_segment_index_ c →
             ∃ pre suf, cur = pre ++ suf ∧ suf ≠ [] ∧
               sie_offset e = nrecords (closed_batches closed) + nrecords pre ∧
               sie_file_position e = zlen (enc_batches pre);
  li_wfd : 0 ≤ write_fd_ c → cur ≠ [] ∧
           fds os !! write_fd_ c = Some (segment_path l (nrecords (closed_batches closed)));
  li_rfd : 0 ≤ read_fd_ c → closed = [] → fds os !! read_fd_ c = Some (segment_path l 0) }.

Lemma closed_ok_app n xs b cs :
  closed_ok n xs → b = n + nrecords (closed_batches xs) → Forall batch_ok cs → cs ≠ [] →
  closed_ok n (xs ++ [(b, cs)]).
Proof.
  revert n. induction xs as [|[b' cs'] xs IH]; intros n; cbn [app closed_ok].
  - intros _ -> ? ?. split_and!; [|done..]. change (nrecords (closed_batches [])) with 0. lia.
  - intros (-> & ? & ? & Hx) -> ? ?. split_and!; [done..|]. apply IH; [done| |done..].
    unfold closed_batches. cbn. rewrite nrecords_app. lia.
Qed.

Lemma closed_batches_snoc xs b cs : closed_batches (xs ++ [(b, cs)]) = closed_batches xs ++ cs.
Proof. unfold closed_batches. rewrite map_app, concat_app. cbn. by rewrite app_nil_r. Qed.

(** Bases of closed segments increase and stay below the current one. *)
Lemma closed_bases n xs :
  closed_ok n xs → StronglySorted Z.lt (map fst xs ++ [n + nrecords (closed_batches xs)]) ∧
  Forall (λ b, n ≤ b) (map fst xs ++ [n + nrecords (closed_batches xs)]).
Proof.
  revert n. induction xs as [|[b cs] xs IH]; intros n; cbn [map app fst closed_ok].
  - intros _. change (nrecords (closed_batches [])) with 0. split; repeat constructor; lia.
  - intros (-> & Hok & Hne & Hx). pose proof (nrecords_pos cs Hok Hne).
    apply IH in Hx as [Hs Hf]. unfold closed_batches in *. cbn. rewrite nrecords_app.
    replace (n + (nrecords cs + nrecords (concat (map snd xs))))
      with (n + nrecords cs + nrecords (concat (map snd xs))) by lia.
    split; constructor; try done; try lia; eapply Forall_impl; try exact Hf; cbn; intros; lia.
Qed.

Lemma base_lt closed b cs :
  closed_ok 0 closed → (b, cs) ∈ closed → 0 ≤ b < nrecords (closed_batches closed).
Proof.
  intros Hc Hin. pose proof (closed_bases 0 closed Hc) as [Hs Hf]. rewrite Z.add_0_l in *.
  assert (b ∈ map fst closed) as Hb by (apply list_elem_of_fmap; exists (b, cs); done).
  split.
  - rewrite Forall_forall in Hf. apply Hf. set_solver.
  - eapply StronglySorted_app_1_elem_of; [exact Hs|exact Hb|set_solver].
Qed.

Lemma inv_new l sb os :
  (∀ p, p.1 = dir_path l → files os !! p = None) →
  log_inv l sb [] [] [] (new_context (pl_log_root l) (pl_topic_name l) (pl_partition l) sb false) os.
Proof.
  intros Hf. split; try done; cbn.
  - by destruct l.
  - set_solver.
  - by rewrite Hf.
  - intros p Hp [v Hv]. rewrite Hf in Hv; done.
  - set_solver.
Qed.

Section step.
Context (l : PartitionLog) (sb : Z).

Lemma inv_base_range bs closed cur c os :
  log_inv l sb bs closed cur c os →
  in_int 64 (nrecords (closed_batches closed)) ∧
  Forall (in_int 64) (map fst closed).
Proof.
  intros [? Hbs Hc ? [_ Hr] ? ? ? ? ? ? ? ?]. rewrite Hbs, nrecords_app in Hr. unfold in_int in *.
  pose proof (nrecords_nonneg cur). pose proof (nrecords_nonneg (closed_batches closed)).
  split; [lia|]. apply Forall_map, Forall_forall. intros [b cs] Hin. cbn.
  pose proof (base_lt closed b cs Hc Hin). unfold in_int. lia.
Qed.

(** Rolling to a new segment only moves the boundary. *)
Lemma inv_roll blob bs closed cur c os c' os' :
  log_inv l sb bs closed cur c os → roll_segment blob c os = (c', os') →
  ∃ closed' cur', log_inv l sb bs closed' cur' c' os' ∧
    (∀ fd, fds os !! fd = None → fds os' !! fd = None) ∧
    (sb ≤ 0 ∨ current_segment_bytes_ c + blob ≤ sb → closed' = closed).
Proof.
  intros Hinv. unfold roll_segment. destruct (_ && _) eqn:Hroll; [|intros [= <- <-]; eauto 6].
  assert (sb ≤ 0 ∨ current_segment_bytes_ c + blob ≤ sb → False) as Hno.
  { destruct (li_log _ _ _ _ _ _ _ Hinv) as (_ & Hsb & _). rewrite Hsb in Hroll. lia. }
  intros [= <- <-].
  set (os' := close_fd (read_fd_ c) (close_fd (write_fd_ c) os)).
  assert (files os' = files os) as Hf.
  { unfold os', close_fd. by destruct (0 <=? read_fd_ c), (0 <=? write_fd_ c). }
  assert (∀ fd, fds os !! fd = None → fds os' !! fd = None) as Hfd.
  { intros fd Hfd. unfold os', close_fd. destruct (0 <=? read_fd_ c), (0 <=? write_fd_ c); cbn;
      rewrite ?lookup_delete_None; tauto. }
  pose proof (inv_base_range _ _ _ _ _ Hinv) as [Hbase Hbases].
  destruct Hinv as [Hlog Hbs Hc Hcur [Hnext Hr] Hb Hby Hfs Hfile Hdom _ _ _].
  destruct (decide (cur = [])) as [->|Hne].
  - exists closed, []. split; [|done]. rewrite app_nil_r in Hbs.
    split; cbn; rewrite ?Hf; try done; [by rewrite app_nil_r|by rewrite Hnext, Hbs|set_solver].
  - exists (closed ++ [(nrecords (closed_batches closed), cur)]), []. split; [|split; [done|tauto]].
    assert (closed_batches (closed ++ [(nrecords (closed_batches closed), cur)]) = bs) as E
      by (by rewrite closed_batches_snoc).
    split; rewrite ?E, ?Hf; try done; cbn.
    + by rewrite app_nil_r.
    + apply closed_ok_app; [done|lia|done|done].
    + intros b cs [Hin|Hin%list_elem_of_singleton]%elem_of_app; [by apply Hfs|].
      injection Hin as -> ->. exact Hfile.
    + destruct (files os !! segment_path l (nrecords bs)) eqn:Hnew; [|done].
      assert (segment_path l (nrecords bs) ∈ map (segment_path l) (map fst closed ++ [nrecords (closed_batches closed)]))
        as (b & Eb & Hin)%list_elem_of_fmap by (apply Hdom; [done|by eexists]).
      pose proof (nrecords_pos cur Hcur Hne).
      assert (nrecords bs = nrecords (closed_batches closed) + nrecords cur) by (by rewrite Hbs, nrecords_app).
      apply elem_of_app in Hin as [Hin|Hin%list_elem_of_singleton].
      * assert (in_int 64 b) by (rewrite Forall_forall in Hbases; auto).
        apply segment_path_inj in Eb; [|done|done].
        apply list_elem_of_fmap in Hin as ([b' cs] & -> & Hin). cbn in *.
        pose proof (base_lt closed b' cs Hc Hin). lia.
      * subst b. apply segment_path_inj in Eb; [lia|done|done].
    + intros p Hp Hs. apply Hdom in Hs; [|done]. rewrite !map_app in *. cbn in *.
      rewrite !elem_of_app in *. tauto.
    + set_solver.
Qed.
(** The context with another write descriptor. *)
Definition with_write_fd (c : PartitionContext) (fd : Z) : PartitionContext :=
  mkContext (log_ c) (next_offset_ c) (current_segment_base_offset_ c) (current_segment_bytes_ c)
    (segment_bytes_ c) (current_segment_index_ c) (ring_ c) fd (read_fd_ c).

(** After opening, the descriptor refers to the current segment, which exists. *)
Lemma inv_open env bs closed cur c os :
  log_inv l sb bs closed cur c os → good_env env os →
  ∃ fd os1, open_segment env c os = (with_write_fd c fd, os1) ∧ 0 ≤ fd ∧
    let p := segment_path l (nrecords (closed_batches closed)) in
    fds os1 !! fd = Some p ∧
    files os1 = <[p := enc_batches cur]> (files os) ∧
    ∀ fd' q, fds os !! fd' = Some q → fds os1 !! fd' = Some q.
Proof.
  intros [(Hlog & _ & _) _ _ _ _ Hb _ _ Hfile _ _ Hw _] Hge. unfold open_segment. cbn zeta.
  destruct (Z.ltb_spec (write_fd_ c) 0) as [Hneg|Hpos].
  - unfold open_append. destruct Hge as [_ [Hfd Hfresh] _ _ _].
    destruct (Z.ltb_spec (env_write_fd env) 0); [lia|]. rewrite Hlog, Hb.
    eexists (env_write_fd env), _. split_and!;
      [unfold with_write_fd; by rewrite Hlog, Hb|done|cbn; by rewrite lookup_insert_eq| |].
    + cbn. unfold file. rewrite Hfile. case_decide as Hc; [by subst cur|done].
    + intros fd' q Hq. cbn. rewrite lookup_insert_ne; [done|]. congruence.
  - destruct (Hw Hpos) as [Hne Hfd]. exists (write_fd_ c), os. rewrite decide_False in Hfile by done.
    split_and!; [by destruct c|done..| |done]. by rewrite insert_id.
Qed.
Lemma good_env_mono env os os' :
  (∀ fd, fds os !! fd = None → fds os' !! fd = None) → good_env env os → good_env env os'.
Proof. intros Hfd [? [? ?] [? ?] ? ?]. by split; auto. Qed.

(** The whole log fits one segment. *)
Definition fits (bs : list Batch) : Prop := sb ≤ 0 ∨ zlen (enc_batches bs) ≤ sb.

(** The state once a batch has been written and accounted for. *)
Lemma inv_append bs closed cur c os b fd os1 next :
  log_inv l sb bs closed cur c os → batch_ok b → 0 ≤ fd →
  fds os1 !! fd = Some (segment_path l (nrecords (closed_batches closed))) →
  (∀ fd' q, fds os !! fd' = Some q → fds os1 !! fd' = Some q) →
  files os1 = <[segment_path l (nrecords (closed_batches closed)) := enc_batches (cur ++ [b])]> (files os) →
  next = nrecords (bs ++ [b]) → in_int 64 next →
  log_inv l sb (bs ++ [b]) closed (cur ++ [b])
    (mkContext (log_ c) next (current_segment_base_offset_ c) (current_segment_bytes_ c + zlen (enc_batch b))
       (segment_bytes_ c) (index_entry c) (ring_ c) fd (read_fd_ c)) os1.
Proof.
  intros Hinv Hok Hfd Hfds Hkeep Hfiles -> Hr.
  pose proof (inv_base_range _ _ _ _ _ Hinv) as [Hbase Hbases].
  destruct Hinv as [Hlog Hbs Hc Hcur [Hnext _] Hb Hby Hfs Hfile Hdom Hidx _ Hrd].
  assert (cur ++ [b] ≠ []) as Hne by (by destruct cur).
  split; cbn; rewrite ?Hfiles; try done.
  - by rewrite Hbs, app_assoc.
  - apply Forall_app; split; [done|by apply Forall_singleton].
  - by rewrite Hby, enc_batches_app, zlen_app, enc_batches_one.
  - intros b' cs Hin. rewrite lookup_insert_ne; [by apply Hfs|].
    intros E%segment_path_inj; [|done|].
    + pose proof (base_lt closed b' cs Hc Hin). lia.
    + rewrite Forall_forall in Hbases. apply Hbases, list_elem_of_fmap. by exists (b', cs).
  - rewrite lookup_insert_eq. by rewrite decide_False.
  - intros p Hp Hs. rewrite map_app, elem_of_app. cbn.
    destruct (decide (p = segment_path l (nrecords (closed_batches closed)))) as [->|Hnp]; [set_solver|].
    rewrite lookup_insert_ne in Hs by done. apply Hdom in Hs; [|done].
    rewrite map_app, elem_of_app in Hs. cbn in Hs. done.
  - intros e He. unfold index_entry in He.
    assert (e ∈ current_segment_index_ c ∨ e = mkIndexEntry (next_offset_ c) (current_segment_bytes_ c)) as [Ho| ->]
      by (destruct (_ =? 0); set_solver).
    + destruct (Hidx e Ho) as (pre & suf & -> & Hsuf & ? & ?). exists pre, (suf ++ [b]).
      split_and!; [by rewrite app_assoc|by destruct suf|done..].
    + exists cur, [b]. cbn. split_and!; [done|done|by rewrite Hnext, Hbs, nrecords_app|done].
  - intros Hrf Hcl. apply Hkeep. by apply Hrd.
Qed.

Lemma inv_produce env b bs closed cur c os r c' os' :
  log_inv l sb bs closed cur c os → batch_ok b → good_env env os →
  produce env (enc_batch b) c os = Ok (r, c', os') →
  r = mkProduceResult (nrecords bs) (env_now_ms env) ∧
  ∃ closed' cur', log_inv l sb (bs ++ [b]) closed' cur' c' os' ∧
    (closed = [] → fits (bs ++ [b]) → closed' = []).
Proof.
  intros Hinv Hok Hge. unfold produce.
  assert (record_batch_count (enc_batch b) = Ok (zlen (batch_values b))) as ->.
  { rewrite <-(app_nil_r (enc_batch b)). by apply count_enc_batch. }
  rewrite (ge_mkdir _ _ Hge). cbn [negb].
  destruct (roll_segment (zlen (enc_batch b)) c os) as [c1 os1] eqn:Er.
  destruct (inv_roll _ _ _ _ _ _ _ _ Hinv Er) as (closed1 & cur1 & Hinv1 & Hfd1 & Hcl).
  pose proof (good_env_mono _ _ _ Hfd1 Hge) as Hge1.
  destruct (inv_open _ _ _ _ _ _ Hinv1 Hge1) as (fd & os2 & -> & Hfd & Hfds & Hfiles & Hkeep).
  cbn [write_fd_ with_write_fd next_offset_ ring_ current_segment_base_offset_ current_segment_bytes_ segment_bytes_ read_fd_ log_].
  destruct (Z.ltb_spec fd 0); [lia|].
  intros (next & [-> Hr]%int64_add_Ok & [= <- <- <-])%outcome_bind_Ok.
  pose proof (li_next _ _ _ _ _ _ _ Hinv1) as [Hnext _]. split; [by rewrite Hnext|].
  exists closed1, (cur1 ++ [b]). split.
  2:{ intros Hcl0 Hf. rewrite <-Hcl0. apply Hcl. unfold fits in Hf.
      destruct Hinv as [_ Hbs _ _ _ _ Hby _ _ _ _ _ _]. rewrite Hby.
      assert (bs = cur) as Hcur by (by rewrite Hbs, Hcl0).
      rewrite <-Hcur. rewrite enc_batches_app, zlen_app, enc_batches_one in Hf. lia. }
  assert (write_blob env (enc_batch b) (with_write_fd c1 fd) os2 =
    append_file (segment_path l (nrecords (closed_batches closed1))) (enc_batch b) os2) as ->.
  { unfold write_blob, write_fd. cbn. destruct (li_log _ _ _ _ _ _ _ Hinv1) as (_ & _ & ->). cbn.
    rewrite Hfds, (ge_written _ _ Hge). cbn. unfold ztake, zlen. by rewrite Nat2Z.id, firstn_all. }
  apply (inv_append bs closed1 cur1 c1 os1 b fd); try done.
  - unfold append_file, file. cbn. rewrite Hfiles, lookup_insert_eq, insert_insert_eq. cbn.
    by rewrite enc_batches_app, enc_batches_one.
  - by rewrite Hnext, nrecords_app, nrecords_one.
Qed.
(** The segment [fetch] opens is segment 0 as long as nothing was rolled. *)
Lemma inv_read env base bs closed cur c os c' os' :
  log_inv l sb bs closed cur c os → good_env env os →
  (closed = [] → base = 0) →
  ensure_read_fd env base c os = (c', os') →
  log_inv l sb bs closed cur c' os' ∧ files os' = files os ∧
  (closed = [] → cur ≠ [] → fds os' !! read_fd_ c' = Some (segment_path l 0)).
Proof.
  intros Hinv Hge Hbase. unfold ensure_read_fd.
  destruct (Z.leb_spec 0 (read_fd_ c)) as [Hr|Hr].
  { intros [= <- <-]. split_and!; [done..|]. intros Hc _. by apply (li_rfd _ _ _ _ _ _ _ Hinv). }
  destruct Hge as [_ _ [Hrfd Hfresh] _ Hread]. unfold open_read.
  destruct Hinv as [Hlog Hbs Hc Hcur Hnext Hb Hby Hfs Hfile Hdom Hidx Hw Hrd].
  destruct Hlog as (Hlog & Hsb & Hring). rewrite Hlog.
  destruct (files os !! segment_path l base) as [v|] eqn:Hf.
  - rewrite Hread. destruct (Z.ltb_spec (env_read_fd env) 0); [lia|]. cbn [orb negb].
    intros [= <- <-]. split_and!; [split; cbn; try done| done |].
    + intros Hwf. destruct (Hw Hwf) as [Hne Hfd]. split; [done|].
      rewrite lookup_insert_ne; [done|]. congruence.
    + intros _ ->. rewrite lookup_insert_eq. by rewrite Hbase.
    + intros -> _. cbn. rewrite lookup_insert_eq. by rewrite Hbase.
  - intros [= <- <-]. split_and!; [split; cbn; try done| done |].
    intros -> Hne. rewrite Hbase in Hf by done. rewrite decide_False in Hfile by done.
    change (nrecords (closed_batches [])) with 0 in Hfile. congruence.
Qed.

Lemma inv_fetch env offset max_bytes bs closed cur c os r c' os' :
  log_inv l sb bs closed cur c os → good_env env os →
  fetch env offset max_bytes c os = Ok (r, c', os') →
  log_inv l sb bs closed cur c' os'.
Proof.
  intros Hinv Hge. unfold fetch. destruct (_ <=? 0); [by intros [= <- <- <-]|].
  destruct (ensure_read_fd _ _ c os) as [c1 os1] eqn:Er.
  assert (log_inv l sb bs closed cur c1 os1) as Hinv1.
  { eapply inv_read in Er as [? _]; [done|done|done|]. intros ->.
    destruct (best_entry _ _ _); [|done]. apply (li_base _ _ _ _ _ _ _ Hinv). }
  destruct (_ =? 0); [by intros [= <- <- <-]|]. destruct (_ =? 0); [by intros [= <- <- <-]|].
  destruct (pread _ _ _ _); [|by intros [= <- <- <-]].
  by intros (? & _ & [= <- <- <-])%outcome_bind_Ok.
Qed.

(** Every run satisfies the invariant, in one segment as long as it fits. *)
Lemma run_inv bs c os :
  log_run l sb bs c os →
  ∃ closed cur, log_inv l sb bs closed cur c os ∧ (fits bs → closed = []).
Proof.
  induction 1 as [os Hf|bs c os env b r c' os' _ (closed & cur & Hinv & Hfit) Hb Hge Hp
                 |bs c os env off mb r c' os' _ (closed & cur & Hinv & Hfit) Hge Hf].
  - exists [], []. split; [by apply inv_new|done].
  - destruct (inv_produce _ _ _ _ _ _ _ _ _ _ Hinv Hb Hge Hp) as (_ & closed' & cur' & Hinv' & Hfit').
    exists closed', cur'. split; [done|]. intros Hf. apply Hfit'; [|done]. apply Hfit.
    unfold fits in *. rewrite enc_batches_app, zlen_app in Hf. pose proof (zlen_nonneg (enc_batches [b])). lia.
  - exists closed, cur. split; [|done]. by eapply inv_fetch.
Qed.
End step.

(** ** Collecting records *)

Lemma truncate_ztake n v : 0 ≤ n → truncate n v = ztake n v.
Proof.
  intros. unfold truncate. destruct (Z.gtb_spec (zlen v) n); [done|].
  unfold ztake. rewrite take_ge; [done|]. unfold zlen in *. lia.
Qed.

Lemma ztake_app_ge {A} n (v w : list A) : n ≤ zlen v → ztake n (v ++ w) = ztake n v.
Proof. intros. unfold ztake. apply take_app_le. unfold zlen in *. lia. Qed.

Lemma zdrop_neg {A} n (v : list A) : n ≤ 0 → zdrop n v = v.
Proof. intros. unfold zdrop. replace (Z.to_nat n) with 0%nat by lia. done. Qed.

Lemma zdrop_cons {A} n (x : A) v : 0 < n → zdrop n (x :: v) = zdrop (n - 1) v.
Proof. intros. unfold zdrop. replace (Z.to_nat n) with (S (Z.to_nat (n - 1))) by lia. done. Qed.

Lemma collect_records_spec rs i skip mb acc :
  zlen acc < mb →
  ztake mb (collect_records rs i skip mb acc) = ztake mb (acc ++ concat (zdrop (skip - i) rs)).
Proof.
  revert i acc. induction rs as [|r rs IH]; intros i acc Hacc; cbn [collect_records].
  - unfold zdrop. rewrite drop_nil. cbn. by rewrite app_nil_r.
  - destruct (Z.ltb_spec i skip).
    + rewrite IH by done. rewrite zdrop_cons by lia. do 4 f_equal. lia.
    + rewrite zdrop_neg by lia. cbn [concat].
      destruct (Z.geb_spec (zlen (acc ++ r)) mb).
      * rewrite app_assoc. symmetry. by apply ztake_app_ge.
      * rewrite IH by lia. rewrite zdrop_neg by lia. by rewrite <-app_assoc.
Qed.

(** ** Reading a prefix of a segment *)

Lemma enc_batch_pos b : 0 < zlen (enc_batch b).
Proof. pose proof (enc_batch_length b). lia. Qed.

(** Cutting the bytes of a list of batches leaves some complete batches and
    less than one more. *)
Lemma enc_prefix bs n b0 :
  Forall batch_ok bs → batch_ok b0 → 0 ≤ n ≤ zlen (enc_batches bs) →
  ∃ pre rest b m, bs = pre ++ rest ∧ ztake n (enc_batches bs) = enc_batches pre ++ ztake m (enc_batch b) ∧
    batch_ok b ∧ 0 ≤ m < zlen (enc_batch b) ∧
    (n = zlen (enc_batches bs) → rest = []) ∧
    (∀ h t, bs = h :: t → zlen (enc_batch h) ≤ n → pre ≠ []).
Proof.
  intros Hbs Hb0. revert n. induction Hbs as [|b bs Hb Hbs IH]; intros n Hn.
  - exists [], [], b0, 0. pose proof (enc_batch_pos b0). change (zlen (enc_batches [])) with 0 in Hn.
    replace n with 0 by lia. rewrite !ztake_0. split_and!; [done..|lia|lia|done|done].
  - change (b :: bs) with ([b] ++ bs) in *. rewrite enc_batches_app, zlen_app, enc_batches_one in *.
    destruct (decide (n < zlen (enc_batch b))) as [Hlt|Hge].
    + exists [], ([b] ++ bs), b, n. split_and!; [done| |done|lia|lia| |].
      * change (enc_batches []) with (@nil Z). rewrite app_nil_l. apply ztake_app_ge. lia.
      * pose proof (zlen_nonneg (enc_batches bs)). lia.
      * intros h t [= <- <-]. lia.
    + destruct (IH (n - zlen (enc_batch b))) as (pre & rest & b' & m & -> & E & Hb' & Hm & Hall & _); [lia|].
      exists ([b] ++ pre), rest, b', m. split_and!; [by rewrite app_assoc| |done|lia|lia| |done].
      * rewrite (enc_batches_app [b] pre), enc_batches_one, <-app_assoc, <-E. unfold ztake.
        rewrite take_app_ge by (unfold zlen in *; lia). do 2 f_equal. unfold zlen. lia.
      * intros ?. apply Hall. lia.
Qed.

Lemma produce_returns l sb env b bs closed cur c os :
  log_inv l sb bs closed cur c os → batch_ok b → good_env env os →
  in_int 64 (nrecords (bs ++ [b])) →
  ∃ r c' os', produce env (enc_batch b) c os = Ok (r, c', os').
Proof.
  intros Hinv Hok Hge Hr. unfold produce.
  assert (record_batch_count (enc_batch b) = Ok (zlen (batch_values b))) as ->.
  { rewrite <-(app_nil_r (enc_batch b)). by apply count_enc_batch. }
  rewrite (ge_mkdir _ _ Hge). cbn [negb].
  destruct (roll_segment (zlen (enc_batch b)) c os) as [c1 os1] eqn:Er.
  destruct (inv_roll _ _ _ _ _ _ _ _ _ _ Hinv Er) as (closed1 & cur1 & Hinv1 & Hfd1 & _).
  pose proof (good_env_mono _ _ _ Hfd1 Hge) as Hge1.
  destruct (inv_open _ _ _ _ _ _ _ _ Hinv1 Hge1) as (fd & os2 & -> & Hfd & _).
  cbn [write_fd_ with_write_fd next_offset_].
  destruct (Z.ltb_spec fd 0); [lia|].
  destruct (li_next _ _ _ _ _ _ _ Hinv1) as [-> _].
  rewrite nrecords_app, nrecords_one in Hr.
  rewrite (proj2 (int64_add_Ok _ _ _) (conj eq_refl Hr)). cbn. eauto.
Qed.

(** ** Properties of runs *)


Definition a_log : PartitionLog := mkPartitionLog (str "/tmp/logs") (str "orders") 0.
Definition a_env (wfd rfd : Z) : Env := mkEnv true wfd rfd None true 1700000000000 (λ _, true).
Definition no_files : OS := mkOS ∅ ∅ [].
Definition a_context (segment_bytes : Z) : PartitionContext :=
  new_context (str "/tmp/logs") (str "orders") 0 segment_bytes false.

Lemma a_run_new sb : log_run a_log sb [] (a_context sb) no_files.
Proof. apply (run_new a_log). intros p _. apply lookup_empty. Qed.

Lemma a_env_good wfd rfd os :
  0 ≤ wfd → 0 ≤ rfd → fds os !! wfd = None → fds os !! rfd = None → good_env (a_env wfd rfd) os.
Proof. by split. Qed.

Lemma sample_batch_ok : batch_ok sample_batch.
Proof. unfold batch_ok. decide_now. Qed.

(** A context and file system after appending [n] sample batches. *)
Fixpoint after_produce (n : nat) (sb : Z) : PartitionContext * OS :=
  match n with
  | O => (a_context sb, no_files)
  | S n' =>
      let '(c, os) := after_produce n' sb in
      match produce (a_env (10 + Z.of_nat n) 5) (enc_batch sample_batch) c os with
      | Ok (_, c', os') => (c', os')
      | _ => (c, os)
      end
  end.

Lemma after_one sb : 0 = sb ∨ sb = 150 →
  log_run a_log sb [sample_batch] (after_produce 1 sb).1 (after_produce 1 sb).2.
Proof.
  intros Hsb. apply (run_produce a_log sb [] (a_context sb) no_files (a_env 11 5) sample_batch
    (mkProduceResult 0 1700000000000)); [apply a_run_new|apply sample_batch_ok|by apply a_env_good|].
  destruct Hsb as [<-| ->]; vm_compute; reflexivity.
Qed.

Lemma after_two sb : 0 = sb ∨ sb = 150 →
  log_run a_log sb [sample_batch; sample_batch] (after_produce 2 sb).1 (after_produce 2 sb).2.
Proof.
  intros Hsb. apply (run_produce a_log sb [sample_batch] (after_produce 1 sb).1 (after_produce 1 sb).2
    (a_env 12 5) sample_batch (mkProduceResult 2 1700000000000)); [by apply after_one|apply sample_batch_ok| |];
    destruct Hsb as [<-| ->]; [apply a_env_good; decide_now..|vm_compute; reflexivity|vm_compute; reflexivity].
Qed.


Lemma fetch_all_inv l sb bs closed cur c os env :
  log_inv l sb bs closed cur c os → good_env env os → fetch_all env c os = Ok (enc_batches bs).
Proof.
  intros Hinv Hge.
  pose proof (inv_base_range _ _ _ _ _ _ _ Hinv) as [Hbase Hbases].
  destruct Hinv as [(Hlog & _) Hbs Hc Hcur _ Hb Hby Hfs Hfile Hdom _ _ _].
  unfold fetch_all. rewrite Hlog.
  pose proof (closed_bases 0 closed Hc) as [Hs _]. rewrite Z.add_0_l in Hs.
  set (bases := map fst closed ++ (if decide (cur = []) then [] else [nrecords (closed_batches closed)])).
  rewrite (read_topic_log_segments env os l bases).
  - f_equal. rewrite Hbs, enc_batches_app. unfold bases. rewrite map_app, concat_app. f_equal.
    + clear -Hfs. induction closed as [|[b cs] xs IH]; [done|].
      unfold closed_batches. cbn [map concat fst snd]. rewrite enc_batches_app, IH by set_solver.
      f_equal. unfold file. by rewrite (Hfs b cs) by set_solver.
    + case_decide as Hn; [by subst cur|]. cbn. rewrite app_nil_r. unfold file. by rewrite Hfile.
  - unfold bases. case_decide; [|done]. rewrite app_nil_r. by eapply StronglySorted_app_1_l.
  - unfold bases. apply Forall_app. split; [done|]. case_decide; [constructor|by apply Forall_singleton].
  - intros p Hp. unfold bases. split.
    + intros Hs'. pose proof Hs' as Hin. apply Hdom in Hin; [|done].
      rewrite map_app, elem_of_app in *. destruct Hin as [?|Hin]; [by left|]. right.
      apply list_elem_of_singleton in Hin as ->. rewrite Hfile in Hs'. case_decide; [by destruct Hs'|cbn; set_solver].
    + intros (b & -> & [Hin|Hin]%elem_of_app)%list_elem_of_fmap.
      * apply list_elem_of_fmap in Hin as ([b' cs] & -> & Hin). exists (enc_batches cs). by apply Hfs.
      * case_decide; [set_solver|]. apply list_elem_of_singleton in Hin as ->. rewrite Hfile. by eexists.
  - apply (ge_readable _ _ Hge).
Qed.

(** With synchronous writes reading the whole partition returns the bytes of
    every produced batch, in the order they were produced, however they were
    split into segments; [LogStore] has the same for writes through the ring. *)
Theorem fetch_all_concat l sb bs c os env :
  log_run l sb bs c os → good_env env os → fetch_all env c os = Ok (enc_batches bs).
Proof. intros (closed & cur & Hinv & _)%run_inv. by apply (fetch_all_inv l sb bs closed cur). Qed.

Lemma fetch_all_concat_witness :
  fetch_all (a_env 13 6) (after_produce 2 150).1 (after_produce 2 150).2 =
  Ok (enc_batches [sample_batch; sample_batch]).
Proof.
  apply (fetch_all_concat a_log 150); [apply after_two; by right|apply a_env_good; decide_now].
Defined.

Lemma best_entry_spec offset index best e :
  best_entry offset index best = Some e → best = Some e ∨ e ∈ index ∧ sie_offset e ≤ offset.
Proof.
  revert best. induction index as [|e' index IH]; intros best; cbn; [by left|].
  destruct (Z.leb_spec (sie_offset e') offset); [|by left].
  intros [[= ->]|[? ?]]%IH; right; set_solver.
Qed.

(** Where the sparse index sends a fetch: to the start of a batch at or before
    the wanted offset. *)
Lemma fetch_start l sb bs c os offset :
  log_inv l sb bs [] bs c os → 0 ≤ offset → bs ≠ [] →
  ∃ pre suf, bs = pre ++ suf ∧ suf ≠ [] ∧ nrecords pre ≤ offset ∧
    (match best_entry offset (current_segment_index_ c) None with Some e => sie_file_position e | None => 0 end)
      = zlen (enc_batches pre) ∧
    (match best_entry offset (current_segment_index_ c) None with Some e => sie_offset e | None => 0 end)
      = nrecords pre.
Proof.
  intros Hinv Ho Hne. destruct (best_entry _ _ _) as [e|] eqn:E.
  - apply best_entry_spec in E as [|[Hin He]]; [done|].
    destruct (li_index _ _ _ _ _ _ _ Hinv e Hin) as (pre & suf & -> & Hsuf & Hoff & Hpos).
    change (nrecords (closed_batches [])) with 0 in Hoff. exists pre, suf. split_and!; [done..|lia|done|lia].
  - exists [], bs. split_and!; done.
Qed.

(** What the parsed window yields. *)
Lemma fetch_records_prefix suf n skip mb :
  Forall batch_ok suf → 0 ≤ n ≤ zlen (enc_batches suf) → 0 < mb →
  (∀ h t, suf = h :: t → zlen (enc_batch h) ≤ n) → suf ≠ [] →
  ∃ pre rest, suf = pre ++ rest ∧ (n = zlen (enc_batches suf) → rest = []) ∧
    fetch_records (ztake n (enc_batches suf)) skip mb =
    Ok (ztake mb (concat (zdrop skip (log_values pre)))).
Proof.
  intros Hok Hn Hmb Hfirst Hne. destruct suf as [|h t]; [done|].
  destruct (enc_prefix (h :: t) n h) as (pre & rest & b & m & E & -> & Hb & Hm & Hall & Hpre);
    [done|by inversion Hok|done|].
  exists pre, rest. split_and!; [done..|].
  specialize (Hpre h t eq_refl (Hfirst h t eq_refl)).
  unfold fetch_records, enc_batches. rewrite E in Hok. apply Forall_app in Hok as [Hp _].
  rewrite parse_record_batch_complete by done. fold (log_values pre).
  assert (0 < nrecords pre) as Hpos by (by apply nrecords_pos).
  unfold nrecords in Hpos. destruct (log_values pre) as [|v vs] eqn:Ev; [done|]. cbn [batches_done].
  rewrite truncate_ztake by lia.
  rewrite collect_records_spec by (change (zlen (@nil Z)) with 0; lia). by rewrite Z.sub_0_r.
Qed.

Lemma concat_zdrop_prefix (vs ws : list bytes) k :
  concat (zdrop k vs) `prefix_of` concat (zdrop k (vs ++ ws)).
Proof.
  unfold zdrop. destruct (decide (Z.to_nat k ≤ length vs)%nat).
  - rewrite drop_app_le by done. rewrite concat_app. by eexists.
  - rewrite drop_ge by lia. cbn. apply prefix_nil.
Qed.

Lemma ztake_prefix {A} n (v : list A) : ztake n v `prefix_of` v.
Proof. exists (zdrop n v). symmetry. apply ztake_zdrop. Qed.

(** The number of bytes a fetch reads at most. *)
Definition window (max_bytes : Z) : Z :=
  if max_bytes * 2 >? kMaxFetchChunk then kMaxFetchChunk else max_bytes * 2.

Lemma enc_batches_pos bs : bs ≠ [] → 0 < zlen (enc_batches bs).
Proof.
  destruct bs as [|h t]; [done|]. intros _. unfold enc_batches. cbn [map concat]. rewrite zlen_app.
  pose proof (enc_batch_pos h). pose proof (zlen_nonneg (concat (map enc_batch t))). lia.
Qed.

(** A fetch from a log in one segment reads a window from the start of a batch
    at or before the wanted offset. *)
Lemma fetch_window l sb bs c os env offset max_bytes :
  log_inv l sb bs [] bs c os → good_env env os → bs ≠ [] → 0 ≤ offset → 0 < max_bytes →
  zlen (enc_batches bs) < 2 ^ 64 →
  ∃ pre suf c1 os1, bs = pre ++ suf ∧ suf ≠ [] ∧ nrecords pre ≤ offset ∧
    fetch env offset max_bytes c os =
    (r ← fetch_records (ztake (Z.min (window max_bytes) (zlen (enc_batches suf))) (enc_batches suf))
           (offset - nrecords pre) max_bytes; mret (r, c1, os1)).
Proof.
  intros Hinv Hge Hne Ho Hmb Hlen.
  destruct (fetch_start _ _ _ _ _ offset Hinv Ho Hne) as (pre & suf & Hbs & Hsuf & Hpre & Hpos & Hent).
  unfold fetch. destruct (Z.leb_spec max_bytes 0); [lia|]. cbn zeta. rewrite Hpos, Hent.
  destruct (ensure_read_fd env _ c os) as [c1 os1] eqn:Er.
  eapply inv_read in Er as (Hinv1 & Hfiles & Hfd); [|exact Hinv|done|].
  2:{ intros _. destruct (best_entry _ _ _); [|done]. apply (li_base _ _ _ _ _ _ _ Hinv). }
  exists pre, suf, c1, os1. split_and!; [done..|].
  assert (file os1 (segment_path l 0) = enc_batches pre ++ enc_batches suf) as Hfile.
  { unfold file. rewrite Hfiles. pose proof (li_file _ _ _ _ _ _ _ Hinv) as E.
    rewrite decide_False in E by done. change (nrecords (closed_batches [])) with 0 in E.
    by rewrite E, Hbs, enc_batches_app. }
  unfold file_size, pread. rewrite (Hfd eq_refl Hne). cbn [mbind option_bind]. rewrite Hfile.
  pose proof (enc_batches_pos suf Hsuf). pose proof (zlen_nonneg (enc_batches pre)).
  rewrite Hbs, enc_batches_app, zlen_app in Hlen. rewrite zlen_app, zdrop_app.
  replace (zlen (enc_batches pre) + zlen (enc_batches suf) - zlen (enc_batches pre))
    with (zlen (enc_batches suf)) by lia.
  rewrite wrap_uint_small by (unfold in_uint; lia). fold (window max_bytes).
  assert (0 < window max_bytes) by (unfold window, kMaxFetchChunk; destruct (_ >? _); lia).
  destruct (Z.eqb_spec (zlen (enc_batches pre) + zlen (enc_batches suf)) 0); [lia|].
  destruct (Z.eqb_spec (Z.min (window max_bytes) (zlen (enc_batches suf))) 0); [lia|]. done.
Qed.

(** Dropping up to an offset commutes with dropping the batches before it. *)
Lemma zdrop_log_values pre suf offset :
  nrecords pre ≤ offset → zdrop offset (log_values (pre ++ suf)) = zdrop (offset - nrecords pre) (log_values suf).
Proof.
  intros. rewrite log_values_app. pose proof (nrecords_nonneg pre).
  replace (zdrop offset (log_values pre ++ log_values suf))
    with (zdrop (nrecords pre + (offset - nrecords pre)) (log_values pre ++ log_values suf)) by (f_equal; lia).
  rewrite <-(zdrop_zdrop (offset - nrecords pre) (nrecords pre)) by lia.
  f_equal. apply zdrop_app.
Qed.

Lemma fetch_single_segment l sb bs c os env offset max_bytes :
  log_inv l sb bs [] bs c os → good_env env os → bs ≠ [] →
  0 ≤ offset → 0 < max_bytes → zlen (enc_batches bs) < 2 ^ 64 →
  Forall (λ b, zlen (enc_batch b) ≤ window max_bytes) bs →
  ∃ r c' os', fetch env offset max_bytes c os = Ok (r, c', os') ∧
    r `prefix_of` concat (zdrop offset (log_values bs)) ∧ zlen r ≤ max_bytes ∧
    (zlen (enc_batches bs) ≤ window max_bytes →
     r = ztake max_bytes (concat (zdrop offset (log_values bs)))).
Proof.
  intros Hinv Hge Hne Ho Hmb Hlen Hwin.
  destruct (fetch_window _ _ _ _ _ env offset max_bytes Hinv Hge Hne Ho Hmb Hlen)
    as (pre & suf & c1 & os1 & -> & Hsuf & Hpre & ->).
  apply Forall_app in Hwin as [_ Hwin]. pose proof (enc_batches_pos suf Hsuf).
  pose proof (li_cur _ _ _ _ _ _ _ Hinv) as [_ Hok]%Forall_app.
  assert (0 < window max_bytes) by (unfold window, kMaxFetchChunk; destruct (_ >? _); lia).
  destruct (fetch_records_prefix suf (Z.min (window max_bytes) (zlen (enc_batches suf)))
              (offset - nrecords pre) max_bytes) as (p & rest & Es & Hrest & ->); [done|lia|lia| |done|].
  { intros h t ->. inversion_clear Hwin. unfold enc_batches. cbn [map concat]. rewrite zlen_app.
    pose proof (zlen_nonneg (concat (map enc_batch t))). lia. }
  eexists _, c1, os1. split; [done|]. rewrite zdrop_log_values by done. rewrite Es. split_and!.
  - rewrite log_values_app. etrans; [apply ztake_prefix|apply concat_zdrop_prefix].
  - unfold ztake, zlen. rewrite length_take. lia.
  - rewrite enc_batches_app, zlen_app. pose proof (zlen_nonneg (enc_batches pre)). rewrite <-Es. intros Hall.
    rewrite Es, (Hrest ltac:(lia)), app_nil_r. done.
Qed.

(** With synchronous writes a fetch by offset from a single-segment log whose
    batches each fit the read window returns, cut to [max_bytes], a prefix of
    the values from that offset on; and all of them, up to [max_bytes], when the
    whole segment fits the window. *)
Theorem fetch_correct l sb bs c os env offset max_bytes :
  log_run l sb bs c os → fits sb bs → good_env env os → bs ≠ [] →
  0 ≤ offset → 0 < max_bytes → zlen (enc_batches bs) < 2 ^ 64 →
  Forall (λ b, zlen (enc_batch b) ≤ window max_bytes) bs →
  ∃ r c' os', fetch env offset max_bytes c os = Ok (r, c', os') ∧
    r `prefix_of` concat (zdrop offset (log_values bs)) ∧ zlen r ≤ max_bytes ∧
    (zlen (enc_batches bs) ≤ window max_bytes →
     r = ztake max_bytes (concat (zdrop offset (log_values bs)))).
Proof.
  intros (closed & cur & Hinv & Hfit)%run_inv Hf. rewrite (Hfit Hf) in Hinv.
  assert (cur = bs) as -> by (by rewrite (li_bs _ _ _ _ _ _ _ Hinv)). by apply (fetch_single_segment l sb).
Qed.

Lemma fetch_correct_witness :
  ∃ r c' os', fetch (a_env 13 6) 2 200 (after_produce 2 0).1 (after_produce 2 0).2 = Ok (r, c', os') ∧ r = str "hi".
Proof.
  destruct (fetch_correct a_log 0 [sample_batch; sample_batch] (after_produce 2 0).1 (after_produce 2 0).2
    (a_env 13 6) 2 200) as (r & c' & os' & E & _ & _ & Hall).
  - apply after_two; by left.
  - left; lia.
  - apply a_env_good; decide_now.
  - done.
  - lia.
  - lia.
  - decide_now.
  - decide_now.
  - exists r, c', os'. split; [exact E|]. rewrite Hall; [reflexivity|decide_now].
Defined.

(** A produce either reports failure and leaves offsets and file contents
    alone, or returns the next offset and advances it by the counted records. *)
Theorem produce_outcome env data c os r c' os' :
  produce env data c os = Ok (r, c', os') →
  (r = no_result ∧ current_offset c' = current_offset c ∧ files os' = files os) ∨
  (∃ n, record_batch_count data = Ok n ∧
        r = mkProduceResult (current_offset c) (env_now_ms env) ∧
        current_offset c' = current_offset c + n).
Proof.
  unfold produce, current_offset. destruct (record_batch_count data) as [n|e|f] eqn:Hn;
    [|intros [= <- <- <-]; by left|done].
  destruct (env_mkdir env); [|intros [= <- <- <-]; by left]. cbn [negb].
  destruct (roll_segment _ c os) as [c1 os1] eqn:Er. destruct (open_segment env c1 os1) as [c2 os2] eqn:Eo.
  assert (next_offset_ c1 = next_offset_ c ∧ files os1 = files os) as [Hc1 Hf1].
  { unfold roll_segment in Er. destruct (_ && _); injection Er as <- <-; [|done]. cbn. split; [done|].
    unfold close_fd. by destruct (0 <=? read_fd_ c), (0 <=? write_fd_ c). }
  unfold open_segment, open_append in Eo. destruct (write_fd_ c1 <? 0) eqn:Hw1.
  - destruct (env_write_fd env <? 0) eqn:Hw2; injection Eo as <- <-; cbn; rewrite Hw2.
    + intros [= <- <- <-]. left. cbn. by rewrite Hc1, Hf1.
    + intros (next & [-> _]%int64_add_Ok & [= <- <- <-])%outcome_bind_Ok. right. exists n. cbn. by rewrite Hc1.
  - injection Eo as <- <-. rewrite Hw1.
    intros (next & [-> _]%int64_add_Ok & [= <- <- <-])%outcome_bind_Ok. right. exists n. cbn. by rewrite Hc1.
Qed.

(** A batch header that announces [-1] records takes an offset back. *)
Lemma produce_outcome_witness :
  match produce (a_env 12 5) negative_batch (after_produce 1 0).1 (after_produce 1 0).2 with
  | Ok (r, c', os') => base_offset r = 2 ∧ current_offset c' = 1
  | _ => False
  end.
Proof.
  assert (match produce (a_env 12 5) negative_batch (after_produce 1 0).1 (after_produce 1 0).2 with
          | Ok (r, _, _) => base_offset r | _ => -1 end = 2) as Hr by (vm_compute; reflexivity).
  assert (record_batch_count negative_batch = Ok (-1)) as Hn by (vm_compute; reflexivity).
  assert (current_offset (after_produce 1 0).1 = 2) as Ho by (vm_compute; reflexivity).
  revert Hr Hn Ho. generalize (after_produce 1 0).1 (after_produce 1 0).2 negative_batch.
  intros c os data Hr Hn Ho. destruct (produce _ _ _ _) as [[[r c'] os']| |] eqn:H; [|done..].
  split; [exact Hr|]. pose proof (produce_outcome _ _ _ _ _ _ _ H) as [(E & _)|(n & Hn' & _ & E)].
  - by rewrite E in Hr.
  - rewrite Hn in Hn'. injection Hn' as <-. by rewrite E, Ho.
Defined.

(** A segment file whose bytes hold such a batch can no longer be fetched
    by offset: the parser throws instead of returning an error. *)
Theorem fetch_negative_batch_throws :
  match produce (a_env 12 5) negative_batch (after_produce 1 0).1 (after_produce 1 0).2 with
  | Ok (_, c', os') => fetch (a_env 13 6) 0 1000 c' os' = Fault length_error
  | _ => False
  end.
Proof. vm_compute. reflexivity. Qed.

(** After a roll a fetch by offset reads the first segment, not the one
    that holds the offset, unless an index entry of the new segment precedes
    it: the records of the second batch are not returned. *)
Theorem fetch_after_roll_misses :
  match fetch (a_env 13 6) 2 1000 (after_produce 2 150).1 (after_produce 2 150).2 with
  | Ok (r, _, _) => r = []
  | _ => False
  end ∧
  log_run a_log 150 [sample_batch; sample_batch] (after_produce 2 150).1 (after_produce 2 150).2 ∧
  concat (zdrop 2 (log_values [sample_batch; sample_batch])) = str "hi".
Proof.
  split_and!; [vm_compute; reflexivity|apply after_two; by right|reflexivity].
Qed.

(** A [max_bytes] whose window holds only earlier batches yields nothing
    although the record exists and is small: the consumer makes no progress. *)
Theorem fetch_small_window_empty :
  match fetch (a_env 13 6) 2 50 (after_produce 2 0).1 (after_produce 2 0).2 with
  | Ok (r, _, _) => r = []
  | _ => False
  end ∧
  log_run a_log 0 [sample_batch; sample_batch] (after_produce 2 0).1 (after_produce 2 0).2 ∧
  zlen (concat (zdrop 2 (log_values [sample_batch; sample_batch]))) = 2.
Proof.
  split_and!; [vm_compute; reflexivity|apply after_two; by left|reflexivity].
Qed.

(** The result of the write is ignored: when nothing could be written, the
    produce still reports success and advances the offsets. *)
Theorem produce_ignores_write_failure env data c os p n :
  record_batch_count data = Ok n → env_mkdir env = true → segment_bytes_ c = 0 →
  0 ≤ write_fd_ c → fds os !! write_fd_ c = Some p → is_Some (files os !! p) → ring_ c = false →
  env_written env = Some 0 → in_int 64 (next_offset_ c + n) →
  ∃ c' os', produce env data c os = Ok (mkProduceResult (next_offset_ c) (env_now_ms env), c', os') ∧
    files os' = files os ∧ current_offset c' = next_offset_ c + n.
Proof.
  intros Hn Hm Hs Hw Hfd [v Hv] Hr He Hi. unfold produce. rewrite Hn, Hm. cbn [negb].
  unfold roll_segment. rewrite Hs. cbn [Z.ltb Z.compare andb].
  unfold open_segment. destruct (Z.ltb_spec (write_fd_ c) 0); [lia|].
  destruct (Z.ltb_spec (write_fd_ c) 0); [lia|].
  rewrite (proj2 (int64_add_Ok _ _ _) (conj eq_refl Hi)). cbn [mbind outcome_bind].
  eexists _, _. split_and!; [done| |done].
  unfold write_blob, write_fd. rewrite Hr, Hfd, He. cbn. unfold append_file, file. cbn.
  rewrite ztake_0, app_nil_r, Hv. cbn. by rewrite insert_id.
Qed.

Lemma produce_ignores_write_failure_witness :
  let env := mkEnv true 12 5 (Some 0) true 9 (λ _, true) in
  let c := (after_produce 1 0).1 in let os := (after_produce 1 0).2 in
  ∃ c' os', produce env (enc_batch sample_batch) c os = Ok (mkProduceResult 2 9, c', os') ∧
    files os' = files os ∧ current_offset c' = 4.
Proof.
  apply (produce_ignores_write_failure (mkEnv true 12 5 (Some 0) true 9 (λ _, true)) (enc_batch sample_batch)
    (after_produce 1 0).1 (after_produce 1 0).2 (segment_path a_log 0) 2);
    [vm_compute; reflexivity|done|vm_compute; reflexivity|decide_now|vm_compute; reflexivity
    |eexists; vm_compute; reflexivity|vm_compute; reflexivity|done|decide_now].
Defined.

Definition big_batch : Batch :=
  mkBatch 0 0 7 0 1000 1000 (-1) (-1) (-1) [mkBatchRecord 0 0 0 None (Some (replicate 70000 65)) []].

(** Where a splice reads: the current segment, from the start of a batch at or
    before the wanted offset (or of the segment), to its end or [max_bytes]. *)
Lemma splice_inv l sb bs closed cur c os offset max_bytes :
  log_inv l sb bs closed cur c os → 0 ≤ max_bytes < 2 ^ 31 → zlen (enc_batches bs) < 2 ^ 64 →
  0 ≤ si_fd (splice_info offset max_bytes c) →
  ∃ pre suf, cur = pre ++ suf ∧ (pre = [] ∨ nrecords (closed_batches closed ++ pre) ≤ offset) ∧
    fds os !! si_fd (splice_info offset max_bytes c) =
      Some (segment_path l (nrecords (closed_batches closed))) ∧
    files os !! segment_path l (nrecords (closed_batches closed)) = Some (enc_batches cur) ∧
    si_file_offset (splice_info offset max_bytes c) = zlen (enc_batches pre) ∧
    si_length (splice_info offset max_bytes c) = Z.min (zlen (enc_batches suf)) max_bytes ∧
    65536 ≤ zlen (enc_batches suf).
Proof.
  intros [_ Hbs _ _ _ _ Hby _ Hfile _ Hidx Hw _] Hmb Hlen. unfold splice_info.
  destruct (Z.ltb_spec (write_fd_ c) 0); [cbn; lia|]. destruct Hw as [Hne Hfd]; [lia|].
  assert (∃ pre suf, cur = pre ++ suf ∧ (pre = [] ∨ nrecords (closed_batches closed ++ pre) ≤ offset) ∧
    match best_entry offset (current_segment_index_ c) None with Some e => sie_file_position e | None => 0 end
    = zlen (enc_batches pre)) as (pre & suf & Hc & Hpre & ->).
  { destruct (best_entry _ _ _) as [e|] eqn:E; [|by exists [], cur; auto].
    apply best_entry_spec in E as [|[Hin He]]; [done|].
    destruct (Hidx e Hin) as (pre & suf & ? & _ & Ho & ?). exists pre, suf. rewrite nrecords_app. auto with lia. }
  rewrite Hby. assert (zlen (enc_batches cur) < 2 ^ 64) as Hcur.
  { rewrite Hbs, enc_batches_app, zlen_app in Hlen.
    pose proof (zlen_nonneg (enc_batches (closed_batches closed))). lia. }
  assert (zlen (enc_batches cur) - zlen (enc_batches pre) = zlen (enc_batches suf)) as ->
    by (rewrite Hc, enc_batches_app, zlen_app; lia).
  assert (zlen (enc_batches suf) ≤ zlen (enc_batches cur)).
  { rewrite Hc, enc_batches_app, zlen_app. pose proof (zlen_nonneg (enc_batches pre)). lia. }
  pose proof (zlen_nonneg (enc_batches suf)).
  rewrite (wrap_uint_small 64 (zlen _)) by (unfold in_uint; lia).
  rewrite (wrap_uint_small 64 max_bytes) by (unfold in_uint; lia).
  destruct (Z.ltb_spec (zlen (enc_batches suf)) 65536); cbn; [lia|]. intros _. exists pre, suf.
  rewrite Hfile, decide_False by done. by split_and!.
Qed.

(** So a splice never reaches past the end of the current segment, to which
    its descriptor refers, and never exceeds [max_bytes]. *)
Theorem splice_info_bounds l sb bs c os offset max_bytes :
  log_run l sb bs c os → 0 ≤ max_bytes < 2 ^ 31 → zlen (enc_batches bs) < 2 ^ 64 →
  let si := splice_info offset max_bytes c in
  0 ≤ si_fd si →
  ∃ p, fds os !! si_fd si = Some p ∧ 0 ≤ si_file_offset si ∧
    si_file_offset si + si_length si ≤ zlen (file os p) ∧ si_length si ≤ max_bytes.
Proof.
  intros (closed & cur & Hinv & _)%run_inv Hmb Hlen si Hsi.
  destruct (splice_inv _ _ _ _ _ _ _ offset max_bytes Hinv Hmb Hlen Hsi)
    as (pre & suf & -> & _ & Hfd & Hf & Ho & Hl & _).
  eexists. split; [exact Hfd|]. unfold file. subst si. rewrite Hf, Ho, Hl. cbn.
  rewrite enc_batches_app, zlen_app. pose proof (zlen_nonneg (enc_batches pre)). lia.
Qed.

Definition big_state : PartitionContext * OS :=
  match produce (a_env 11 5) (enc_batch big_batch) (a_context 0) no_files with
  | Ok (_, c, os) => (c, os)
  | _ => (a_context 0, no_files)
  end.

Lemma big_run : log_run a_log 0 [big_batch] big_state.1 big_state.2.
Proof.
  assert (batch_ok big_batch) as Hb by (unfold batch_ok; decide_now).
  assert (good_env (a_env 11 5) no_files) as Hge by (by apply a_env_good).
  destruct (produce_returns a_log 0 (a_env 11 5) big_batch [] [] [] (a_context 0) no_files)
    as (r & c & os & E); [apply (inv_new a_log); intros; apply lookup_empty|done|done|decide_now|].
  unfold big_state. rewrite E. eapply (run_produce a_log 0 []); [apply a_run_new|done|done|exact E].
Qed.

Lemma splice_info_bounds_witness :
  ∃ p, fds big_state.2 !! si_fd (splice_info 0 65536 big_state.1) = Some p ∧
    0 ≤ si_file_offset (splice_info 0 65536 big_state.1) ∧
    si_file_offset (splice_info 0 65536 big_state.1) + si_length (splice_info 0 65536 big_state.1)
      ≤ zlen (file big_state.2 p) ∧
    si_length (splice_info 0 65536 big_state.1) ≤ 65536.
Proof.
  apply (splice_info_bounds a_log 0 [big_batch] big_state.1 big_state.2 0 65536);
    [apply big_run|lia|decide_now|decide_now].
Defined.

(** A context starts at offset 0 whatever its directory holds.  After a
    restart (contexts lost, files kept) the next batch is given offset 0 again,
    although the log already holds records with those offsets, and is appended
    behind them. *)
Theorem restart_reuses_offsets env b l sb os :
  batch_ok b → in_int 64 (zlen (batch_values b)) → good_env env os →
  files os !! segment_path l 0 ≠ None →
  (sb ≤ 0 ∨ zlen (enc_batch b) ≤ sb) →
  ∃ c' os', produce env (enc_batch b)
      (new_context (pl_log_root l) (pl_topic_name l) (pl_partition l) sb false) os =
      Ok (mkProduceResult 0 (env_now_ms env), c', os') ∧
    files os' !! segment_path l 0 = Some (file os (segment_path l 0) ++ enc_batch b) ∧
    current_offset c' = zlen (batch_values b).
Proof.
  intros Hb Hi Hge Hf Hsb. unfold produce.
  assert (record_batch_count (enc_batch b) = Ok (zlen (batch_values b))) as ->.
  { rewrite <-(app_nil_r (enc_batch b)). by apply count_enc_batch. }
  destruct Hge as [Hm [Hfd Hfresh] _ Hwr _]. rewrite Hm. cbn [negb].
  assert (roll_segment (zlen (enc_batch b)) (new_context (pl_log_root l) (pl_topic_name l) (pl_partition l) sb false) os
    = (new_context (pl_log_root l) (pl_topic_name l) (pl_partition l) sb false, os)) as ->.
  { unfold roll_segment. cbn [segment_bytes_ current_segment_bytes_ new_context]. rewrite Z.add_0_l.
    destruct (Z.ltb_spec 0 sb); [|done]. cbn [andb].
    destruct (zlen (enc_batch b) >? sb) eqn:E; [lia|done]. }
  unfold open_segment, open_append, new_context. cbn [write_fd_ log_ current_segment_base_offset_ Z.ltb Z.compare].
  destruct (Z.ltb_spec (env_write_fd env) 0) as [|_]; [lia|].
  cbn [write_fd_ next_offset_]. destruct (Z.ltb_spec (env_write_fd env) 0) as [|_]; [lia|].
  rewrite (proj2 (int64_add_Ok 0 (zlen (batch_values b)) _) (conj eq_refl Hi)). cbn [mbind outcome_bind].
  eexists _, _. split_and!; [done| |done]. unfold write_blob, write_fd. cbn.
  rewrite lookup_insert_eq, Hwr. unfold append_file, file. cbn.
  replace (mkPartitionLog (pl_log_root l) (pl_topic_name l) (pl_partition l)) with l by (by destruct l).
  rewrite !lookup_insert_eq. cbn. unfold ztake, zlen. by rewrite Nat2Z.id, firstn_all.
Qed.

Lemma restart_reuses_offsets_witness :
  let os := mkOS (files (after_produce 1 0).2) ∅ [] in
  ∃ c' os', produce (a_env 11 5) (enc_batch sample_batch) (a_context 0) os =
      Ok (mkProduceResult 0 1700000000000, c', os') ∧
    files os' !! segment_path a_log 0 = Some (enc_batch sample_batch ++ enc_batch sample_batch) ∧
    current_offset c' = 2.
Proof.
  pose proof (restart_reuses_offsets (a_env 11 5) sample_batch a_log 0 (mkOS (files (after_produce 1 0).2) ∅ []))
    as (c' & os' & E & Hf & Ho).
  - apply sample_batch_ok.
  - decide_now.
  - apply a_env_good; done.
  - vm_compute. done.
  - left. lia.
  - exists c', os'. split_and!; [exact E|rewrite Hf; vm_compute; reflexivity|exact Ho].
Defined.
