(* ===== verification/RingProperties.v ===== *)
(** * Appends through io_uring

    With a ring, [produce] hands the batch to the kernel and returns before it
    is written.  [settle] is the state once the submitted writes have been done
    in the order of submission: up to it the asynchronous path is the
    synchronous one, so the properties of a partition carry over.  The order
    matters: submissions are not linked, and completing them in another order
    leaves a different log. *)

From S2P Require Import Prelude RecordBatch Storage PartitionContext PartitionProperties.

Definition apply_writes (ws : list (path * bytes)) (os : OS) : OS :=
  fold_left (λ os w, append_file w.1 w.2 os) ws os.
Definition forget_writes (os : OS) : OS := mkOS (files os) (fds os) [].

(** The submitted writes, done in order. *)
Definition settle (os : OS) : OS := apply_writes (in_flight os) (forget_writes os).

(** The kernel completing the oldest write until none is left. *)
Definition drain (os : OS) : OS := Nat.iter (length (in_flight os)) (io_complete 0) os.

Definition without_ring (c : PartitionContext) : PartitionContext :=
  mkContext (log_ c) (next_offset_ c) (current_segment_base_offset_ c) (current_segment_bytes_ c)
    (segment_bytes_ c) (current_segment_index_ c) false (write_fd_ c) (read_fd_ c).

Lemma apply_writes_fds ws os : fds (apply_writes ws os) = fds os.
Proof. revert os. induction ws as [|w ws IH]; intros os; [done|]. apply (IH (append_file w.1 w.2 os)). Qed.

(** Draining is settling. *)
Lemma drain_settle os : drain os = settle os.
Proof.
  unfold drain, settle, forget_writes. destruct os as [f d ws]. cbn [in_flight files fds]. revert f d.
  induction ws as [|[p data] ws IH]; intros f d; [done|]. cbn [length].
  rewrite Nat.iter_succ_r. apply IH.
Qed.

(** Every other operation commutes with the pending writes. *)
Lemma append_open env q data p os :
  (open_append env p (append_file q data os)).2 = append_file q data (open_append env p os).2.
Proof.
  unfold open_append. destruct (_ <? 0); [done|]. unfold append_file, file. cbn. f_equal.
  destruct (decide (p = q)) as [->|Hne].
  - by rewrite !lookup_insert_eq, !insert_insert_eq.
  - rewrite !lookup_insert_ne by done. by rewrite insert_insert_ne.
Qed.

Lemma settle_open env p os :
  open_append env p (settle os) = ((open_append env p os).1, settle (open_append env p os).2).
Proof.
  assert (∀ os', (open_append env p os').1 = env_write_fd env) as Hfst
    by (intros; unfold open_append; by destruct (_ <? 0)).
  assert (∀ ws os', (open_append env p (apply_writes ws os')).2 = apply_writes ws (open_append env p os').2) as Hsnd.
  { induction ws as [|w ws IH]; intros os'; [done|]. cbn. by rewrite IH, append_open. }
  rewrite (surjective_pairing (open_append env p (settle os))), !Hfst. f_equal.
  unfold settle. rewrite Hsnd. unfold open_append. by destruct (_ <? 0).
Qed.

Lemma settle_close fd os : settle (close_fd fd os) = close_fd fd (settle os).
Proof.
  unfold close_fd. destruct (0 <=? fd); [|done]. unfold settle.
  assert (∀ ws os', apply_writes ws (close fd os') = close fd (apply_writes ws os')) as H.
  { induction ws as [|w ws IH]; intros os'; [done|]. cbn. by rewrite <-IH. }
  apply (H (in_flight os) (forget_writes os)).
Qed.

Lemma settle_submit env fd data os :
  env_written env = None → settle (submit_write fd data os) = write_fd env fd data (settle os).
Proof.
  intros Hw. unfold submit_write, write_fd, settle. rewrite apply_writes_fds. cbn [fds forget_writes].
  destruct (fds os !! fd) as [p|]; [|done]. cbn [in_flight]. unfold apply_writes.
  rewrite fold_left_app. cbn. rewrite Hw. cbn. unfold ztake, zlen. by rewrite Nat2Z.id, firstn_all.
Qed.

Lemma settle_roll blob c os c' os' :
  roll_segment blob c os = (c', os') →
  roll_segment blob (without_ring c) (settle os) = (without_ring c', settle os').
Proof.
  unfold roll_segment. cbn. destruct (_ && _); intros [= <- <-]; [|done].
  by rewrite !settle_close.
Qed.

Lemma settle_open_segment env c os c' os' :
  open_segment env c os = (c', os') →
  open_segment env (without_ring c) (settle os) = (without_ring c', settle os').
Proof.
  unfold open_segment. cbn. destruct (_ <? 0); [|by intros [= <- <-]].
  rewrite settle_open. destruct (open_append _ _ os) as [fd os1]. by intros [= <- <-].
Qed.

(** Settling changes no descriptor, and nothing when no write is pending. *)
Lemma settle_fds os : fds (settle os) = fds os.
Proof. apply (apply_writes_fds _ (forget_writes os)). Qed.

Lemma settle_done os : in_flight os = [] → settle os = os.
Proof. destruct os as [f d ws]. cbn. by intros ->. Qed.

Lemma apply_writes_files ws os os' :
  files os = files os' → files (apply_writes ws os) = files (apply_writes ws os').
Proof.
  revert os os'. induction ws as [|w ws IH]; intros os os' E; [done|]. cbn. apply IH. cbn. unfold file. by rewrite E.
Qed.

Lemma settle_files os os' :
  files os = files os' → in_flight os = in_flight os' → files (settle os) = files (settle os').
Proof. intros Hf Hi. unfold settle. rewrite Hi. by apply apply_writes_files. Qed.

(** A file that no pending write goes to is already settled; pending writes
    remove none. *)
Lemma apply_writes_other ws os q :
  (∀ w, w ∈ ws → w.1 ≠ q) → files (apply_writes ws os) !! q = files os !! q.
Proof.
  revert os. induction ws as [|w ws IH]; intros os Hw; [done|]. cbn. rewrite IH by set_solver. cbn.
  rewrite lookup_insert_ne; [done|]. set_solver.
Qed.

Lemma settle_other os q :
  (∀ w, w ∈ in_flight os → w.1 ≠ q) → files (settle os) !! q = files os !! q.
Proof. apply (apply_writes_other _ (forget_writes os)). Qed.

Lemma settle_exists os q : is_Some (files os !! q) → is_Some (files (settle os) !! q).
Proof.
  unfold settle. change (files os) with (files (forget_writes os)). generalize (forget_writes os).
  induction (in_flight os) as [|w ws IH]; intros os' H; [done|]. cbn. apply IH. cbn.
  destruct (decide (w.1 = q)) as [<-|]; [rewrite lookup_insert_eq; by eexists|by rewrite lookup_insert_ne].
Qed.

(** Appends to different files commute. *)
Lemma append_comm p q x y os :
  p ≠ q → append_file p x (append_file q y os) = append_file q y (append_file p x os).
Proof.
  intros Hne. unfold append_file, file. cbn. f_equal.
  rewrite !lookup_insert_ne by done. by rewrite insert_insert_ne.
Qed.

Lemma apply_writes_append ws p x os :
  (∀ w, w ∈ ws → w.1 ≠ p) → apply_writes ws (append_file p x os) = append_file p x (apply_writes ws os).
Proof.
  revert os. induction ws as [|w ws IH]; intros os Hw; [done|]. cbn.
  rewrite append_comm by set_solver. apply IH. set_solver.
Qed.

(** The [i]-th submitted write is the oldest to its file. *)
Definition in_order (i : nat) (os : OS) : Prop :=
  ∀ w, in_flight os !! i = Some w → ∀ w', w' ∈ take i (in_flight os) → w'.1 ≠ w.1.

(** Writes to one file done in the order of submission, those to different
    files in any order, lead to the settled state. *)
Lemma settle_complete i os : in_order i os → settle (io_complete i os) = settle os.
Proof.
  unfold in_order, io_complete. destruct (in_flight os !! i) as [[p data]|] eqn:E; [|done].
  intros Ho. specialize (Ho _ eq_refl).
  transitivity (apply_writes (take i (in_flight os) ++ (p, data) :: drop (S i) (in_flight os)) (forget_writes os)).
  - unfold settle, apply_writes. cbn [in_flight append_file]. rewrite delete_take_drop, !fold_left_app.
    cbn [fold_left fst snd]. f_equal. by apply (apply_writes_append _ p data (forget_writes os)).
  - by rewrite (take_drop_middle _ _ _ E).
Qed.

Lemma io_complete_fds i os : fds (io_complete i os) = fds os.
Proof. unfold io_complete. by destruct (in_flight os !! i) as [[]|]. Qed.

(** [produce] keeps the ring. *)
Lemma produce_ring env data c os r c' os' :
  produce env data c os = Ok (r, c', os') → ring_ c' = ring_ c.
Proof.
  unfold produce. destruct (record_batch_count data); [|by intros [= <- <- <-]|done].
  destruct (negb _); [by intros [= <- <- <-]|].
  destruct (roll_segment _ c os) as [c1 os1] eqn:Er. destruct (open_segment env c1 os1) as [c2 os2] eqn:Eo.
  assert (ring_ c2 = ring_ c) as Hring.
  { unfold roll_segment in Er. unfold open_segment in Eo. destruct (_ && _); injection Er as <- <-;
      (destruct (_ <? 0); [destruct (open_append _ _ _)|]; by injection Eo as <- <-). }
  destruct (_ <? 0); [by intros [= <- <- <-]|]. by intros (n & _ & [= <- <- <-])%outcome_bind_Ok.
Qed.

(** The asynchronous [produce] is the synchronous one on the settled state. *)
Lemma settle_produce env data c os :
  ring_ c = true → env_sqe env = true → env_written env = None →
  produce env data (without_ring c) (settle os) =
  ('(r, c', os') ← produce env data c os; mret (r, without_ring c', settle os')).
Proof.
  intros Hring Hsqe Hw. unfold produce. destruct (record_batch_count data); [|done..].
  destruct (negb _); [done|].
  destruct (roll_segment _ c os) as [c1 os1] eqn:Er. rewrite (settle_roll _ _ _ _ _ Er).
  destruct (open_segment env c1 os1) as [c2 os2] eqn:Eo. rewrite (settle_open_segment _ _ _ _ _ Eo).
  cbn [write_fd_ without_ring]. destruct (_ <? 0); [done|].
  assert (ring_ c2 = true) as Hring2.
  { unfold roll_segment in Er. unfold open_segment in Eo. destruct (_ && _); injection Er as <- <-;
      (destruct (_ <? 0); [destruct (open_append _ _ _)|]; by injection Eo as <- <-). }
  cbn [next_offset_ without_ring]. destruct (int64_add _ _); [|done..].
  cbn [mbind outcome_bind mret outcome_ret]. unfold write_blob. cbn [ring_ without_ring andb write_fd_].
  rewrite Hring2, Hsqe. cbn [andb]. by rewrite (settle_submit env).
Qed.

(** Only [produce] looks at the ring. *)
Lemma ensure_read_fd_ring env base c os :
  ensure_read_fd env base (without_ring c) os =
  (without_ring (ensure_read_fd env base c os).1, (ensure_read_fd env base c os).2).
Proof. unfold ensure_read_fd. cbn. destruct (_ <=? _); [done|]. by destruct (open_read _ _ _). Qed.

Lemma fetch_without_ring env offset mb c os :
  fetch env offset mb (without_ring c) os =
  ('(r, c', os') ← fetch env offset mb c os; mret (r, without_ring c', os')).
Proof.
  unfold fetch. destruct (_ <=? 0); [done|]. cbn zeta. cbn [current_segment_index_ current_segment_base_offset_ without_ring].
  rewrite ensure_read_fd_ring. destruct (ensure_read_fd _ _ c os) as [c1 os1].
  cbn [fst snd read_fd_ without_ring]. destruct (_ =? 0); [done|]. destruct (_ =? 0); [done|].
  destruct (pread _ _ _ _); [|done]. by destruct (fetch_records _ _ _).
Qed.

(** A fetch at most opens the file it reads from. *)
Lemma fetch_opens env offset mb c os r c' os' :
  fetch env offset mb c os = Ok (r, c', os') →
  (c' = c ∧ os' = os) ∨
  ∃ base, (base = 0 ∨ base = current_segment_base_offset_ c) ∧ ensure_read_fd env base c os = (c', os').
Proof.
  unfold fetch. destruct (_ <=? 0); [intros [= <- <- <-]; by left|]. cbn zeta.
  destruct (ensure_read_fd _ _ c os) as [c1 os1] eqn:Er. intros H. right. eexists.
  split; [|rewrite Er; f_equal].
  - destruct (best_entry _ _ _); auto.
  - destruct (_ =? 0); [by injection H|]. destruct (_ =? 0); [by injection H|].
    destruct (pread _ _ _ _); [|by injection H]. by apply outcome_bind_Ok in H as (? & _ & [= <- <- <-]).
  - destruct (_ =? 0); [by injection H|]. destruct (_ =? 0); [by injection H|].
    destruct (pread _ _ _ _); [|by injection H]. by apply outcome_bind_Ok in H as (? & _ & [= <- <- <-]).
Qed.

(** C30: with a ring that has a free entry, [produce] gives the same answer and,
    once the submitted writes are done in order, the same context and files as
    the synchronous [produce] would from the settled state. *)
Theorem ring_produce_equiv env data c os r c' os' :
  ring_ c = true → env_sqe env = true → env_written env = None →
  produce env data c os = Ok (r, c', os') →
  produce env data (without_ring c) (drain os) = Ok (r, without_ring c', drain os').
Proof. intros Hring Hsqe Hw E. by rewrite !drain_settle, settle_produce, E by done. Qed.

Definition ring_context : PartitionContext := new_context (str "/tmp/logs") (str "orders") 0 0 true.

Definition other_batch : Batch :=
  mkBatch 0 0 7 0 1000 1000 (-1) (-1) (-1) [mkBatchRecord 0 0 0 None (Some (str "later")) []].

(** Two batches submitted, none written yet. *)
Definition two_submitted : PartitionContext * OS :=
  match produce (a_env 11 5) (enc_batch sample_batch) ring_context no_files with
  | Ok (_, c, os) =>
      match produce (a_env 12 5) (enc_batch other_batch) c os with
      | Ok (_, c', os') => (c', os')
      | _ => (c, os)
      end
  | _ => (ring_context, no_files)
  end.

Lemma ring_produce_equiv_witness :
  match produce (a_env 13 5) (enc_batch sample_batch) two_submitted.1 two_submitted.2 with
  | Ok (r, c', os') => base_offset r = 3 ∧ length (in_flight os') = 3%nat ∧
      produce (a_env 13 5) (enc_batch sample_batch) (without_ring two_submitted.1) (drain two_submitted.2) =
      Ok (r, without_ring c', drain os')
  | _ => False
  end.
Proof.
  assert (match produce (a_env 13 5) (enc_batch sample_batch) two_submitted.1 two_submitted.2 with
          | Ok (r, c', os') => base_offset r = 3 ∧ length (in_flight os') = 3%nat | _ => False end) as H
    by (vm_compute; split; reflexivity).
  assert (ring_ two_submitted.1 = true) as Hr by (vm_compute; reflexivity).
  revert H Hr. generalize two_submitted.1 two_submitted.2 (enc_batch sample_batch). intros c os data H Hr.
  destruct (produce _ data c os) as [[[r c'] os']| |] eqn:E; [|done..].
  split_and!; [apply H|apply H|]. by apply ring_produce_equiv.
Defined.

(** Submissions are not linked, so the kernel may complete the second write
    before the first, and the log then holds the batches in the wrong order; and
    a consumer that asks before any completion sees none of them. *)
Theorem unordered_completion_reorders :
  fetch_all (a_env 13 5) two_submitted.1 (io_complete 0 (io_complete 1 two_submitted.2)) =
    Ok (enc_batch other_batch ++ enc_batch sample_batch) ∧
  fetch_all (a_env 13 5) two_submitted.1 (drain two_submitted.2) =
    Ok (enc_batch sample_batch ++ enc_batch other_batch) ∧
  fetch_all (a_env 13 5) two_submitted.1 two_submitted.2 = Ok [].
Proof. split_and!; vm_compute; reflexivity. Qed.

(** When the ring is full the batch is written at once and overtakes the writes
    submitted before it: once they are done, the log holds the second batch
    first although its offsets are higher. *)
Definition full_ring_env (wfd rfd : Z) : Env := mkEnv true wfd rfd None false 1700000000000 (λ _, true).

Theorem full_ring_overtakes :
  match produce (a_env 11 5) (enc_batch sample_batch) ring_context no_files with
  | Ok (_, c, os) =>
      match produce (full_ring_env 12 5) (enc_batch other_batch) c os with
      | Ok (r, c', os') => base_offset r = 2 ∧
          fetch_all (a_env 13 5) c' (drain os') = Ok (enc_batch other_batch ++ enc_batch sample_batch)
      | _ => False
      end
  | _ => False
  end.
Proof. vm_compute. split; reflexivity. Qed.
