(* ===== verification/LogStore.v ===== *)
(** * What a partition promises to the record handler

    [LogStore] is the contract of a partition context as the reactors create
    it, with a ring: it [holds] a list of record batches once the submitted
    writes are done, producing appends one at the offset after the last record,
    fetching returns them when they are written, and every operation leaves the
    files and descriptors of other partitions alone.  The record handler is
    verified against this interface; [partition_store] shows that
    [PartitionContext] implements it.  The end of the file has the runs of one
    partition with its writes completed in between. *)

From S2P Require Import Prelude RecordBatch Storage PartitionContext PartitionProperties RingProperties.

(** No file in the directory of the partition. *)
Definition clean (l : PartitionLog) (os : OS) : Prop := ∀ q, q.1 = dir_path l → files os !! q = None.

(** No write to a file of the partition is pending. *)
Definition flushed (l : PartitionLog) (os : OS) : Prop := ∀ w, w ∈ in_flight os → w.1.1 ≠ dir_path l.

(** [os'] differs from [os] only in files of the partition's directory and in
    descriptors that are closed in [os] or refer to such files. *)
Definition frame (l : PartitionLog) (os os' : OS) : Prop :=
  (∀ q, q.1 ≠ dir_path l → files os' !! q = files os !! q) ∧
  (∀ fd q, q.1 ≠ dir_path l → fds os !! fd = Some q → fds os' !! fd = Some q).

#[export] Instance frame_preorder l : PreOrder (frame l).
Proof.
  split; [by split|]. intros a b c [Hf Hd] [Hf' Hd'].
  split; [intros q Hq; by rewrite Hf', Hf|intros fd q Hq H; by apply Hd', Hd].
Qed.

(** [os'] differs from [os] only in descriptors that are closed in [os]. *)
Definition extends (os os' : OS) : Prop :=
  files os' = files os ∧ in_flight os' = in_flight os ∧
  ∀ fd q, fds os !! fd = Some q → fds os' !! fd = Some q.

#[export] Instance extends_preorder : PreOrder extends.
Proof.
  split; [intros os; by split_and!|]. intros a b c (Hf & Hi & Hd) (Hf' & Hi' & Hd').
  split_and!; [congruence..|auto].
Qed.

Lemma extends_frame l os os' : extends os os' → frame l (settle os) (settle os').
Proof.
  intros (Hf & Hi & Hd). split; [intros; by rewrite (settle_files os' os)|].
  intros fd q _. rewrite !settle_fds. apply Hd.
Qed.

Class LogStore (segment_bytes : Z) := {
  holds : PartitionLog → list Batch → PartitionContext → OS → Prop;
  holds_new l os :
    clean l (settle os) →
    holds l [] (new_context (pl_log_root l) (pl_topic_name l) (pl_partition l) segment_bytes true) os;
  holds_offset l bs c os : holds l bs c os → current_offset c = nrecords bs;
  holds_frame l l' bs c os os' :
    holds l bs c os → frame l' (settle os) (settle os') → dir_path l ≠ dir_path l' → holds l bs c os';
  holds_complete l bs c os i : holds l bs c os → in_order i os → holds l bs c (io_complete i os);
  holds_produce l bs c os env b :
    holds l bs c os → batch_ok b → good_env env os → env_sqe env = true → in_int 64 (nrecords (bs ++ [b])) →
    ∃ c' os', produce env (enc_batch b) c os = Ok (mkProduceResult (nrecords bs) (env_now_ms env), c', os') ∧
      holds l (bs ++ [b]) c' os' ∧ frame l (settle os) (settle os');
  holds_fetch_all l bs c os env :
    holds l bs c os → flushed l os → good_env env os → fetch_all env c os = Ok (enc_batches bs);
  holds_fetch l bs c os env offset max_bytes r c' os' :
    holds l bs c os → good_env env os → fetch env offset max_bytes c os = Ok (r, c', os') →
    holds l bs c' os' ∧ extends os os';
  holds_fetch_values l bs c os env offset max_bytes :
    holds l bs c os → flushed l os → fits segment_bytes bs → good_env env os → bs ≠ [] →
    0 ≤ offset → 0 < max_bytes → zlen (enc_batches bs) < 2 ^ 64 →
    Forall (λ b, zlen (enc_batch b) ≤ window max_bytes) bs →
    ∃ r c' os', fetch env offset max_bytes c os = Ok (r, c', os') ∧
      r `prefix_of` concat (zdrop offset (log_values bs)) ∧ zlen r ≤ max_bytes ∧
      (zlen (enc_batches bs) ≤ window max_bytes →
       r = ztake max_bytes (concat (zdrop offset (log_values bs))));
  holds_splice l bs c os offset max_bytes :
    holds l bs c os → flushed l os → 0 ≤ max_bytes < 2 ^ 31 → zlen (enc_batches bs) < 2 ^ 64 →
    0 ≤ si_fd (splice_info offset max_bytes c) →
    ∃ before pre suf, bs = before ++ pre ++ suf ∧ (fits segment_bytes bs → before = []) ∧
      (pre = [] ∨ nrecords (before ++ pre) ≤ offset) ∧
      fds os !! si_fd (splice_info offset max_bytes c) = Some (segment_path l (nrecords before)) ∧
      files os !! segment_path l (nrecords before) = Some (enc_batches (pre ++ suf)) ∧
      si_file_offset (splice_info offset max_bytes c) = zlen (enc_batches pre) ∧
      si_length (splice_info offset max_bytes c) = Z.min (zlen (enc_batches suf)) max_bytes ∧
      65536 ≤ zlen (enc_batches suf) }.

(** ** The partition context is such a store *)

Section store.
Context (sb : Z).

(** The read descriptor, when open, is a file of the partition. *)
Definition reads (l : PartitionLog) (c : PartitionContext) (os : OS) : Prop :=
  0 ≤ read_fd_ c → ∃ q, fds os !! read_fd_ c = Some q ∧ q.1 = dir_path l.

(** What the context holds once the submitted writes are done. *)
Definition partition_holds (l : PartitionLog) (bs : list Batch) (c : PartitionContext) (os : OS) : Prop :=
  ring_ c = true ∧
  ∃ closed cur, log_inv l sb bs closed cur (without_ring c) (settle os) ∧ (fits sb bs → closed = []) ∧ reads l c os.

(** The invariant is about the partition's own directory. *)
Lemma log_inv_local l bs closed cur c os os' :
  log_inv l sb bs closed cur c os →
  (∀ q, q.1 = dir_path l → files os' !! q = files os !! q) →
  (∀ fd q, q.1 = dir_path l → fds os !! fd = Some q → fds os' !! fd = Some q) →
  log_inv l sb bs closed cur c os'.
Proof.
  intros [] Hf Hd. split; try done.
  - intros b cs Hin. rewrite Hf by done. auto.
  - by rewrite Hf.
  - intros p Hp. rewrite Hf by done. auto.
  - intros Hw. destruct (li_wfd Hw) as [? ?]. split; [done|]. by apply Hd.
  - intros Hr Hc. apply Hd; [done|]. auto.
Qed.

Lemma log_inv_frame l l' bs closed cur c os os' :
  log_inv l sb bs closed cur c os → frame l' os os' → dir_path l ≠ dir_path l' →
  log_inv l sb bs closed cur c os'.
Proof.
  intros Hinv [Hf Hd] Hne. apply (log_inv_local l bs closed cur c os os' Hinv).
  - intros q Hq. apply Hf. congruence.
  - intros fd q Hq. apply Hd. congruence.
Qed.

(** Without pending writes the settled state is the current one, as far as the
    partition is concerned. *)
Lemma log_inv_flushed l bs closed cur c os :
  log_inv l sb bs closed cur c (settle os) → flushed l os → log_inv l sb bs closed cur c os.
Proof.
  intros Hinv Hfl. apply (log_inv_local l bs closed cur c (settle os) os Hinv).
  - intros q Hq. symmetry. apply settle_other. intros w Hw E. apply (Hfl w Hw). by rewrite E.
  - intros fd q _. by rewrite settle_fds.
Qed.

Lemma good_env_settle env os : good_env env os → good_env env (settle os).
Proof. apply good_env_mono. by rewrite settle_fds. Qed.

Lemma close_frame l fd os :
  (0 ≤ fd → ∀ q, fds os !! fd = Some q → q.1 = dir_path l) → frame l os (close_fd fd os).
Proof.
  intros H. unfold close_fd. destruct (Z.leb_spec 0 fd); [|done]. split; [done|]. cbn.
  intros fd' q' Hne Hq'. rewrite lookup_delete_ne; [done|]. intros ->. eauto.
Qed.

Lemma close_lookup fd fd' q os : fds (close_fd fd os) !! fd' = Some q → fds os !! fd' = Some q.
Proof. unfold close_fd. destruct (0 <=? fd); [|done]. cbn. by intros [_ ?]%lookup_delete_Some. Qed.

(** Opening uses a fresh descriptor, and changes only the opened file. *)
Lemma open_append_frame l env p os :
  good_env env os → p.1 = dir_path l → frame l os (open_append env p os).2.
Proof.
  intros [_ [Hfd Hn] _ _ _] Hp. unfold open_append. destruct (_ <? 0); [done|]. split; cbn.
  - intros q Hq. rewrite lookup_insert_ne; [done|]. congruence.
  - intros fd q _ Hq. rewrite lookup_insert_ne; [done|]. congruence.
Qed.

Lemma open_read_frame l env p os : good_env env os → frame l os (open_read env p os).2.
Proof.
  intros [_ _ [Hfd Hn] _ _]. unfold open_read. destruct (files os !! p); [|done].
  destruct (_ || _); [done|]. split; [done|]. cbn.
  intros fd q _ Hq. rewrite lookup_insert_ne; [done|]. congruence.
Qed.

Lemma append_frame l p data os : p.1 = dir_path l → frame l os (append_file p data os).
Proof. intros Hp. split; [|done]. cbn. intros q Hq. rewrite lookup_insert_ne; [done|]. congruence. Qed.

(** The open descriptors of a context are files of its partition. *)
Definition owned (l : PartitionLog) (c : PartitionContext) (os : OS) : Prop :=
  log_ c = l ∧ reads l c os ∧ (0 ≤ write_fd_ c → ∀ q, fds os !! write_fd_ c = Some q → q.1 = dir_path l).

Lemma roll_owned l blob c os c' os' :
  owned l c os → roll_segment blob c os = (c', os') → owned l c' os' ∧ frame l os os'.
Proof.
  intros (Hl & Hr & Hw). unfold roll_segment. destruct (_ && _); intros [= <- <-]; [|done]. split.
  - split_and!; [done|intros ?; cbn in *; lia..].
  - etrans; [by apply close_frame|]. apply close_frame.
    intros H q Hq%close_lookup. destruct (Hr H) as (q' & ? & ?). congruence.
Qed.

Lemma open_owned l env c os c' os' :
  owned l c os → good_env env os → open_segment env c os = (c', os') → owned l c' os' ∧ frame l os os'.
Proof.
  intros (Hl & Hr & Hw) Hge. unfold open_segment. destruct (_ <? 0); [|by intros [= <- <-]].
  destruct (open_append _ _ os) as [fd os1] eqn:E. intros [= <- <-].
  assert (frame l os os1) as Hframe.
  { replace os1 with (open_append env (segment_path (log_ c) (current_segment_base_offset_ c)) os).2 by (by rewrite E).
    apply open_append_frame; [done|]. by rewrite Hl. }
  split; [|done]. destruct Hge as [_ [Hfd Hn] _ _ _]. unfold open_append in E.
  destruct (Z.ltb_spec (env_write_fd env) 0); [lia|]. injection E as <- <-.
  split_and!; [done| |]; cbn.
  - intros (q & Hq & ?)%Hr. exists q. cbn. split; [|done]. rewrite lookup_insert_ne; [done|]. congruence.
  - intros _ q. rewrite lookup_insert_eq. intros [= <-]. by rewrite Hl.
Qed.

Lemma write_owned l env data c os :
  owned l c os → 0 ≤ write_fd_ c → ring_ c = false → frame l os (write_blob env data c os) ∧
  fds (write_blob env data c os) = fds os.
Proof.
  intros (Hl & _ & Hw) Hfd Hring. unfold write_blob, write_fd. rewrite Hring. cbn.
  destruct (fds os !! write_fd_ c) eqn:E; [|done]. split; [|done]. apply append_frame. eauto.
Qed.

Lemma produce_owned l env data c os r c' os' :
  owned l c os → ring_ c = false → good_env env os → produce env data c os = Ok (r, c', os') →
  owned l c' os' ∧ frame l os os'.
Proof.
  intros Ho Hring Hge. unfold produce. destruct (record_batch_count data); [|by intros [= <- <- <-]|done].
  destruct (negb _); [by intros [= <- <- <-]|].
  destruct (roll_segment _ c os) as [c1 os1] eqn:Er. destruct (open_segment env c1 os1) as [c2 os2] eqn:Eo.
  destruct (roll_owned _ _ _ _ _ _ Ho Er) as [Ho1 Hf1].
  assert (good_env env os1 ∧ ring_ c1 = false) as [Hge1 Hring1].
  { unfold roll_segment in Er. destruct (_ && _); injection Er as <- <-; [|done]. split; [|done].
    eapply good_env_mono; [|done]. intros fd Hn.
    destruct (fds (close_fd _ _) !! fd) eqn:E; [|done]. by apply close_lookup, close_lookup in E; simplify_eq. }
  destruct (open_owned _ _ _ _ _ _ Ho1 Hge1 Eo) as [Ho2 Hf2].
  assert (ring_ c2 = false) as Hring2.
  { unfold open_segment in Eo. destruct (_ <? 0); [destruct (open_append _ _ _)|]; by injection Eo as <- <-. }
  destruct (Z.ltb_spec (write_fd_ c2) 0); [intros [= <- <- <-]; split; [done|by etrans]|].
  intros (n & _ & [= <- <- <-])%outcome_bind_Ok.
  destruct (write_owned l env data c2 os2 Ho2) as [Hf3 Hfds]; [done..|].
  split; [|etrans; [done|]; by etrans]. destruct Ho2 as (? & Hr & Hw).
  unfold owned, reads. cbn. rewrite Hfds. by split_and!.
Qed.

Lemma ensure_read_owned l env base c os c' os' :
  owned l c os → good_env env os → ensure_read_fd env base c os = (c', os') →
  owned l c' os' ∧ frame l os os'.
Proof.
  intros (Hl & Hr & Hw) Hge. unfold ensure_read_fd. destruct (_ <=? _); [by intros [= <- <-]|].
  destruct (open_read env _ os) as [fd os1] eqn:E. intros [= <- <-].
  assert (frame l os os1) as Hframe.
  { replace os1 with (open_read env (segment_path (log_ c) base) os).2 by (by rewrite E).
    by apply open_read_frame. }
  split; [|done]. destruct Hge as [_ _ [Hfd Hn] _ _]. unfold open_read in E.
  assert (owned l (mkContext (log_ c) (next_offset_ c) (current_segment_base_offset_ c)
    (current_segment_bytes_ c) (segment_bytes_ c) (current_segment_index_ c) (ring_ c) (write_fd_ c) (-1)) os)
    as Hfail by (split_and!; [done|intros ?; cbn in *; lia|done]).
  destruct (files os !! _); [|by injection E as <- <-].
  destruct (_ || _); injection E as <- <-; [done|].
  split_and!; [done| |]; cbn.
  - intros _. eexists. cbn. rewrite lookup_insert_eq. split; [done|]. by rewrite Hl.
  - intros H q. destruct (decide (write_fd_ c = env_read_fd env)) as [->|].
    + rewrite lookup_insert_eq. intros [= <-]. by rewrite Hl.
    + rewrite lookup_insert_ne by done. auto.
Qed.

Lemma ensure_read_extends env base c os c' os' :
  good_env env os → ensure_read_fd env base c os = (c', os') → extends os os' ∧ ring_ c' = ring_ c.
Proof.
  intros [_ _ [_ Hn] _ _]. unfold ensure_read_fd, open_read. destruct (_ <=? _); [by intros [= <- <-]|].
  destruct (files os !! _); [|by intros [= <- <-]]. destruct (_ || _); intros [= <- <-]; [done|].
  split; [|done]. split_and!; [done..|]. cbn. intros fd q Hq. rewrite lookup_insert_ne; [done|]. congruence.
Qed.

(** Opening the file to read from, with writes pending. *)
Lemma inv_read_pending l env base bs closed cur c os c' os' :
  log_inv l sb bs closed cur (without_ring c) (settle os) → good_env env os →
  (closed = [] → base = 0) → ensure_read_fd env base c os = (c', os') →
  log_inv l sb bs closed cur (without_ring c') (settle os').
Proof.
  intros Hinv Hge Hbase E. destruct (ensure_read_extends _ _ _ _ _ _ Hge E) as [(Hf & Hi & Hd) _].
  pose proof (li_log _ _ _ _ _ _ _ Hinv) as (Hlog & _). cbn in Hlog.
  assert (log_inv l sb bs closed cur (without_ring c) (settle os')) as Hinv'.
  { apply (log_inv_local _ _ _ _ _ _ _ Hinv).
    - intros q _. by rewrite (settle_files os' os).
    - intros fd q _. rewrite !settle_fds. apply Hd. }
  clear Hinv. destruct Hinv'. unfold ensure_read_fd in E. destruct (_ <=? _); [by injection E as <- <-|].
  destruct (open_read env _ os) as [fd os1] eqn:Eo. injection E as <- <-. split; try done.
  cbn. intros Hfd Hc. rewrite settle_fds. unfold open_read in Eo. destruct (files os !! _); [|by injection Eo as <- <-].
  destruct (_ || _); injection Eo as <- <-; [done|]. cbn. rewrite lookup_insert_eq, Hlog. by rewrite Hbase.
Qed.

Lemma inv_owned l bs closed cur c os : log_inv l sb bs closed cur c os → reads l c os → owned l c os.
Proof.
  intros Hinv Hr. split_and!; [apply (li_log _ _ _ _ _ _ _ Hinv)|done|].
  intros H q Hq. destruct (li_wfd _ _ _ _ _ _ _ Hinv H) as [_ E]. rewrite E in Hq. by injection Hq as <-.
Qed.

Lemma holds_owned l bs c os : partition_holds l bs c os → owned l c os ∧ owned l (without_ring c) (settle os).
Proof.
  intros (_ & closed & cur & Hinv & _ & Hr).
  assert (owned l (without_ring c) (settle os)) as Ho.
  { eapply inv_owned; [done|]. unfold reads. by rewrite settle_fds. }
  split; [|done]. destruct Ho as (Hl & _ & Hw). split_and!; [done..|]. by rewrite settle_fds in Hw.
Qed.

Lemma partition_produce l bs c os env b :
  partition_holds l bs c os → batch_ok b → good_env env os → env_sqe env = true → in_int 64 (nrecords (bs ++ [b])) →
  ∃ c' os', produce env (enc_batch b) c os = Ok (mkProduceResult (nrecords bs) (env_now_ms env), c', os') ∧
    partition_holds l (bs ++ [b]) c' os' ∧ frame l (settle os) (settle os').
Proof.
  intros Hh Hb Hge Hsqe Hi. destruct (holds_owned _ _ _ _ Hh) as [_ Ho].
  destruct Hh as (Hring & closed & cur & Hinv & Hfit & Hr). pose proof (good_env_settle _ _ Hge) as Hge'.
  destruct (produce_returns _ _ _ _ _ _ _ _ _ Hinv Hb Hge' Hi) as (r & c1 & os1 & Hp).
  pose proof Hp as Hs. rewrite settle_produce in Hs by (done || apply Hge).
  destruct (produce env (enc_batch b) c os) as [[[r' c'] os']| |] eqn:Ep; [|done..]. injection Hs as -> <- <-.
  destruct (inv_produce _ _ _ _ _ _ _ _ _ _ _ _ Hinv Hb Hge' Hp) as (-> & closed' & cur' & Hinv' & Hfit').
  destruct (produce_owned l _ _ _ _ _ _ _ Ho eq_refl Hge' Hp) as [(_ & Hr' & _) Hf].
  exists c', os'. split_and!; [done| |done]. split; [by rewrite (produce_ring _ _ _ _ _ _ _ Ep)|].
  exists closed', cur'. split_and!; [done| |unfold reads in *; by rewrite settle_fds in Hr'].
  intros H. apply Hfit'; [|done]. apply Hfit. unfold fits in *.
  rewrite enc_batches_app, zlen_app in H. pose proof (zlen_nonneg (enc_batches [b])). lia.
Qed.

Lemma partition_fetch l bs c os env offset max_bytes r c' os' :
  partition_holds l bs c os → good_env env os → fetch env offset max_bytes c os = Ok (r, c', os') →
  partition_holds l bs c' os' ∧ extends os os'.
Proof.
  intros Hh Hge Hf. destruct (holds_owned _ _ _ _ Hh) as [Ho _].
  apply fetch_opens in Hf as [[-> ->]|(base & Hbase & E)]; [done|].
  destruct (ensure_read_extends _ _ _ _ _ _ Hge E) as [Hext Hring']. split; [|done].
  destruct Hh as (Hring & closed & cur & Hinv & Hfit & Hr). split; [congruence|]. exists closed, cur.
  destruct (ensure_read_owned _ _ _ _ _ _ _ Ho Hge E) as [(_ & Hr' & _) _]. split_and!; [|done..].
  eapply inv_read_pending; [done|done| |done]. intros ->. destruct Hbase as [->| ->]; [done|].
  apply (li_base _ _ _ _ _ _ _ Hinv).
Qed.

Lemma partition_fetch_values l bs c os env offset max_bytes :
  partition_holds l bs c os → flushed l os → fits sb bs → good_env env os → bs ≠ [] →
  0 ≤ offset → 0 < max_bytes → zlen (enc_batches bs) < 2 ^ 64 →
  Forall (λ b, zlen (enc_batch b) ≤ window max_bytes) bs →
  ∃ r c' os', fetch env offset max_bytes c os = Ok (r, c', os') ∧
    r `prefix_of` concat (zdrop offset (log_values bs)) ∧ zlen r ≤ max_bytes ∧
    (zlen (enc_batches bs) ≤ window max_bytes →
     r = ztake max_bytes (concat (zdrop offset (log_values bs)))).
Proof.
  intros (_ & closed & cur & Hinv & Hfit & _) Hfl Hf Hge Hne Ho Hmb Hlen Hwin.
  apply log_inv_flushed in Hinv; [|done].
  rewrite (Hfit Hf) in Hinv. assert (cur = bs) as -> by (by rewrite (li_bs _ _ _ _ _ _ _ Hinv)).
  destruct (fetch_single_segment _ _ _ _ _ _ offset max_bytes Hinv Hge) as (r & c' & os' & E & H); [done..|].
  rewrite fetch_without_ring in E. destruct (fetch env offset max_bytes c os) as [[[r' c1] os1]| |]; [|done..].
  injection E as -> _ _. eauto.
Qed.

Lemma partition_splice l bs c os offset max_bytes :
  partition_holds l bs c os → flushed l os → 0 ≤ max_bytes < 2 ^ 31 → zlen (enc_batches bs) < 2 ^ 64 →
  0 ≤ si_fd (splice_info offset max_bytes c) →
  ∃ before pre suf, bs = before ++ pre ++ suf ∧ (fits sb bs → before = []) ∧
    (pre = [] ∨ nrecords (before ++ pre) ≤ offset) ∧
    fds os !! si_fd (splice_info offset max_bytes c) = Some (segment_path l (nrecords before)) ∧
    files os !! segment_path l (nrecords before) = Some (enc_batches (pre ++ suf)) ∧
    si_file_offset (splice_info offset max_bytes c) = zlen (enc_batches pre) ∧
    si_length (splice_info offset max_bytes c) = Z.min (zlen (enc_batches suf)) max_bytes ∧
    65536 ≤ zlen (enc_batches suf).
Proof.
  intros (_ & closed & cur & Hinv & Hfit & _) Hfl Hmb Hlen Hsi. apply log_inv_flushed in Hinv; [|done].
  destruct (splice_inv _ _ _ _ _ _ _ offset max_bytes Hinv Hmb Hlen Hsi)
    as (pre & suf & -> & Hpre & Hfd & Hf & Ho & Hl & Hbig).
  exists (closed_batches closed), pre, suf. split_and!; try done; [apply (li_bs _ _ _ _ _ _ _ Hinv)|].
  intros H. by rewrite (Hfit H).
Qed.

#[export] Program Instance partition_store : LogStore sb := { holds := partition_holds }.
Next Obligation.
  intros l os H. split; [done|]. exists [], []. split_and!; [by apply (inv_new l)|done|by intros ?].
Qed.
Next Obligation. intros l bs c os (_ & closed & cur & Hinv & _). apply (li_next _ _ _ _ _ _ _ Hinv). Qed.
Next Obligation.
  intros l l' bs c os os' (Hring & closed & cur & Hinv & Hfit & Hr) Hf Hne. split; [done|]. exists closed, cur.
  split_and!; [by eapply log_inv_frame|done|]. intros (q & Hq & Hd)%Hr. exists q. split; [|done].
  rewrite <-(settle_fds os'). apply (proj2 Hf); [congruence|]. by rewrite settle_fds.
Qed.
Next Obligation.
  intros l bs c os i (Hring & closed & cur & Hinv & Hfit & Hr) Ho. split; [done|]. exists closed, cur.
  rewrite settle_complete by done. split_and!; [done..|]. unfold reads. by rewrite io_complete_fds.
Qed.
Next Obligation. exact partition_produce. Qed.
Next Obligation.
  intros l bs c os env (_ & closed & cur & Hinv & _) Hfl. apply log_inv_flushed in Hinv; [|done].
  apply (fetch_all_inv _ _ _ _ _ (without_ring c) os env Hinv).
Qed.
Next Obligation. exact partition_fetch. Qed.
Next Obligation. exact partition_fetch_values. Qed.
Next Obligation. exact partition_splice. Qed.
End store.

(** ** Runs of one partition with a ring *)

(** From a directory without files: batches are produced (the ring having a
    free entry), fetches are answered, and the kernel completes submitted
    writes, those to one segment in the order of submission. *)
Inductive ring_run (l : PartitionLog) (sb : Z) : list Batch → PartitionContext → OS → Prop :=
| ring_new os :
    clean l (settle os) →
    ring_run l sb [] (new_context (pl_log_root l) (pl_topic_name l) (pl_partition l) sb true) os
| ring_produce bs c os env b r c' os' :
    ring_run l sb bs c os → batch_ok b → good_env env os → env_sqe env = true →
    produce env (enc_batch b) c os = Ok (r, c', os') → ring_run l sb (bs ++ [b]) c' os'
| ring_fetch bs c os env offset max_bytes r c' os' :
    ring_run l sb bs c os → good_env env os →
    fetch env offset max_bytes c os = Ok (r, c', os') → ring_run l sb bs c' os'
| ring_complete bs c os i :
    ring_run l sb bs c os → in_order i os → ring_run l sb bs c (io_complete i os).

Lemma produced_range env b c os r c' os' l sb bs closed cur :
  log_inv l sb bs closed cur (without_ring c) (settle os) → ring_ c = true → env_sqe env = true →
  batch_ok b → good_env env os → produce env (enc_batch b) c os = Ok (r, c', os') →
  in_int 64 (nrecords (bs ++ [b])).
Proof.
  intros Hinv Hring Hsqe Hb Hge E. pose proof (settle_produce env (enc_batch b) c os Hring Hsqe (ge_written _ _ Hge)) as Hs.
  rewrite E in Hs.
  destruct (inv_produce _ _ _ _ _ _ _ _ _ _ _ _ Hinv Hb (good_env_settle _ _ Hge) Hs) as (_ & ? & ? & Hinv' & _).
  apply (li_next _ _ _ _ _ _ _ Hinv').
Qed.

Lemma ring_run_holds l sb bs c os : ring_run l sb bs c os → partition_holds sb l bs c os.
Proof.
  induction 1 as [os Hc|bs c os env b r c' os' _ IH Hb Hge Hsqe E|bs c os env off mb r c' os' _ IH Hge E|bs c os i _ IH Ho].
  - by apply (holds_new (LogStore := partition_store sb)).
  - assert (in_int 64 (nrecords (bs ++ [b]))) as Hi.
    { destruct IH as (Hring & closed & cur & Hinv & _). by eapply produced_range. }
    destruct (partition_produce _ _ _ _ _ _ _ IH Hb Hge Hsqe Hi) as (c1 & os1 & E1 & Hh & _).
    rewrite E in E1. injection E1 as -> <- <-. exact Hh.
  - by eapply partition_fetch.
  - by apply (holds_complete (LogStore := partition_store sb)).
Qed.

(** C15: with writes through the ring, reading the whole partition returns the
    bytes of every produced batch, in the order they were produced and however
    they were split into segments, once none of its writes is pending.  The
    directory was empty at the start, the system calls succeeded, the ring had
    free entries, and writes to one segment were completed in the order of
    submission. *)
Theorem ring_fetch_all l sb bs c os env :
  ring_run l sb bs c os → flushed l os → good_env env os → fetch_all env c os = Ok (enc_batches bs).
Proof. intros Hh%ring_run_holds. by apply (holds_fetch_all (LogStore := partition_store sb)). Qed.


(** *** A concrete run *)

Definition ring_start (sb : Z) : PartitionContext := new_context (str "/tmp/logs") (str "orders") 0 sb true.

(** Two batches submitted, the second to a segment of its own when segments
    hold 150 bytes; then the second write is completed before the first. *)
Definition ring_two (sb : Z) : PartitionContext * OS :=
  match produce (a_env 11 5) (enc_batch sample_batch) (ring_start sb) no_files with
  | Ok (_, c, os) =>
      match produce (a_env 12 5) (enc_batch sample_batch) c os with
      | Ok (_, c', os') => (c', os')
      | _ => (c, os)
      end
  | _ => (ring_start sb, no_files)
  end.

Lemma ring_two_run sb : sb = 0 ∨ sb = 150 → ring_run a_log sb [sample_batch; sample_batch] (ring_two sb).1 (ring_two sb).2.
Proof.
  intros Hsb. assert (ring_run a_log sb [] (ring_start sb) no_files) as H0.
  { apply (ring_new a_log). intros q _. apply lookup_empty. }
  destruct (partition_produce sb a_log [] (ring_start sb) no_files (a_env 11 5) sample_batch) as (c & os & E & Hh & _);
    [by apply ring_run_holds|apply sample_batch_ok|by apply a_env_good|done|decide_now|].
  assert (good_env (a_env 12 5) os) as Hge.
  { assert (match produce (a_env 11 5) (enc_batch sample_batch) (ring_start sb) no_files with
            | Ok (_, _, os) => fds os !! 12 = None ∧ fds os !! 5 = None | _ => False end) as Hf
      by (destruct Hsb as [->| ->]; vm_compute; by split).
    rewrite E in Hf. destruct Hf. by apply a_env_good. }
  destruct (partition_produce sb a_log [sample_batch] c os (a_env 12 5) sample_batch) as (c' & os' & E' & _);
    [done|apply sample_batch_ok|done|done|decide_now|].
  unfold ring_two. rewrite E, E'. cbn [fst snd].
  eapply (ring_produce a_log sb [sample_batch]); [|apply sample_batch_ok|exact Hge|reflexivity|exact E'].
  eapply (ring_produce a_log sb [] _ _ (a_env 11 5)); [exact H0|apply sample_batch_ok|by apply a_env_good|done|exact E].
Qed.

Lemma ring_fetch_all_witness :
  fetch_all (a_env 13 6) (ring_two 150).1 (io_complete 0 (io_complete 1 (ring_two 150).2)) =
  Ok (enc_batches [sample_batch; sample_batch]).
Proof.
  apply (ring_fetch_all a_log 150).
  - apply ring_complete; [apply ring_complete; [apply ring_two_run; by right|]|].
    + intros w Hw w' Hw'. vm_compute in Hw. injection Hw as <-.
      replace (take 1 (in_flight (ring_two 150).2)) with [(segment_path a_log 0, enc_batch sample_batch)] in Hw'
        by (vm_compute; reflexivity).
      apply list_elem_of_singleton in Hw' as ->. decide_now.
    + intros w _ w' Hw'. by apply elem_of_nil in Hw'.
  - intros w Hw. vm_compute in Hw. by apply elem_of_nil in Hw.
  - apply a_env_good; decide_now.
Defined.

