(* ===== verification/ClusterMetadata.v ===== *)
(** * The cluster metadata log (src/src/cluster/metadata.hpp, metadata.cpp)

    [parse_cluster_metadata] scans a log of record batches for topic and
    partition records.  It never returns an error: a malformed record is left
    with [continue], which keeps the reader where it stopped and what was
    collected so far; a malformed header leaves the loop.  [scan] is the
    corresponding small monad: [None] is [continue], and both the reader and
    the collected records survive it. *)

From S2P Require Import Prelude Varint ByteReader.

Definition kTopicRecordKey : Z := 2.
Definition kPartitionRecordKey : Z := 3.
Definition kRecordBatchHeaderSize : Z := 57.
Definition kUuidSize : Z := 16.

Record RawTopicRecord := mkRawTopic { rtr_name : bytes; rtr_uuid : bytes }.
Record RawPartitionRecord := mkRawPartition { rpr_partition_id : Z; rpr_uuid : bytes }.

Record TopicInfo := mkTopicInfo { ti_name : bytes; ti_uuid : bytes; ti_partitions : list Z }.

Record ClusterMetadata := mkClusterMetadata {
  topics : list TopicInfo;
  name_to_topic : gmap bytes nat;
  uuid_to_topic : gmap bytes nat }.

(** ** Scanning records *)

Record Collected := mkCollected {
  topic_records : list RawTopicRecord;
  partition_records : list RawPartitionRecord }.

Definition scan (A : Type) : Type := ByteReader * Collected → option A * (ByteReader * Collected).

#[export] Instance scan_ret : MRet scan := λ A a s, (Some a, s).
#[export] Instance scan_bind : MBind scan := λ A B k m s,
  match m s with
  | (Some a, s') => k a s'
  | (None, s') => (None, s')
  end.

Definition continue {A} : scan A := λ s, (None, s).

(** [auto x = reader.read(); if (!x) continue;] *)
Definition try_read {A} (m : reader A) : scan A := λ '(r, c),
  let '(o, r') := m r in
  (match o with Ok a => Some a | _ => None end, (r', c)).

(** A read whose result is not looked at. *)
Definition ignore_read {A} (m : reader A) : scan unit := λ '(r, c), (Some tt, ((m r).2, c)).

Definition push_topic (t : RawTopicRecord) : scan unit := λ '(r, c),
  (Some tt, (r, mkCollected (topic_records c ++ [t]) (partition_records c))).
Definition push_partition (p : RawPartitionRecord) : scan unit := λ '(r, c),
  (Some tt, (r, mkCollected (topic_records c) (partition_records c ++ [p]))).

Definition reader_offset : scan Z := λ '(r, c), (Some (offset r), (r, c)).

(** The value of a record, read with a reader of its own: frame version, api
    key and version, then a topic or partition record. *)
Definition value_header (v : bytes) : option (Z * ByteReader) :=
  let '(frame, r1) := read_varint (mkReader v 0) in
  let '(api_key, r2) := read_varint r1 in
  let '(version, r3) := read_varint r2 in
  match frame, api_key, version with
  | Ok _, Ok k, Ok _ => Some (k, r3)
  | _, _, _ => None
  end.

Definition read_topic_record : reader RawTopicRecord :=
  name ← read_compact_string;
  uuid ← read_bytes kUuidSize;
  mret (mkRawTopic name uuid).

Definition read_partition_record : reader RawPartitionRecord := λ r,
  if remaining r <? 4 + kUuidSize then (Err message_size, r)
  else (pid ← read_int32; uuid ← read_bytes kUuidSize; mret (mkRawPartition pid uuid)) r.

Definition scan_value (v : bytes) : scan unit :=
  match value_header v with
  | None => continue
  | Some (k, r) =>
      if k =? kTopicRecordKey then
        match (read_topic_record r).1 with Ok t => push_topic t | _ => continue end
      else if k =? kPartitionRecordKey then
        match (read_partition_record r).1 with Ok p => push_partition p | _ => continue end
      else mret tt
  end.

(** One header of a record; its [continue]s go on with the next header. *)
Definition scan_header : scan unit :=
  hdr_key_len ← try_read read_signed_varint;
  _ ← (if hdr_key_len >? 0 then try_read (skip hdr_key_len) else mret tt);
  hdr_val_len ← try_read read_signed_varint;
  if hdr_val_len >? 0 then try_read (skip hdr_val_len) else mret tt.

Fixpoint scan_headers (n : nat) : scan unit := λ s,
  match n with
  | O => (Some tt, s)
  | S n' => scan_headers n' (scan_header s).2
  end.

(** One record: the body of the loop, after the test of the batch end. *)
Definition scan_record : scan unit :=
  rec_len ← try_read read_signed_varint;
  if rec_len <? 0 then continue
  else
    start ← reader_offset;
    let rec_end := start + rec_len in
    attr ← try_read read_int8;
    _ ← try_read skip_varint;
    _ ← try_read skip_varint;
    key_len ← try_read read_signed_varint;
    _ ← (if key_len >? 0 then try_read (skip key_len) else mret tt);
    value_len ← try_read read_signed_varint;
    if value_len <? 3 then
      _ ← ignore_read read_signed_varint;
      continue
    else
      value_bytes ← try_read (read_bytes value_len);
      _ ← scan_value value_bytes;
      header_count ← try_read read_signed_varint;
      _ ← scan_headers (Z.to_nat header_count);
      here ← reader_offset;
      if here <? rec_end then try_read (skip (rec_end - here)) else mret tt.

Fixpoint scan_records (n : nat) (batch_end : Z) (s : ByteReader * Collected) : ByteReader * Collected :=
  match n with
  | O => s
  | S n' =>
      if offset s.1 >=? batch_end then s
      else scan_records n' batch_end (scan_record s).2
  end.

(** The fields of a batch header: its length and last offset delta; [None] is
    the [break] on a bad header. *)
Definition batch_header : reader (option (Z * Z)) := λ r,
  match (_ ← skip 8;
         batch_len ← read_int32;
         if batch_len <? 0 then failed message_size
         else
           here ← (λ r, (Ok (offset r), r));
           let batch_end := here + batch_len in
           _ ← skip 4;
           magic ← read_int8;
           if negb (magic =? 2) then failed message_size
           else
             _ ← skip 4;
             _ ← skip 2;
             last_offset_delta ← read_int32;
             mret (batch_end, last_offset_delta)) r with
  | (Ok h, r') => (Ok (Some h), r')
  | (_, r') => (Ok None, r')
  end.

Definition skip_header_tail : reader unit :=
  _ ← skip 8; _ ← skip 8; _ ← skip 8; _ ← skip 2; skip 4.

Fixpoint scan_batches (fuel : nat) (s : ByteReader * Collected) : outcome Collected :=
  match fuel with
  | O => Ok s.2
  | S fuel' =>
      let '(r, c) := s in
      if remaining r <? kRecordBatchHeaderSize then Ok c
      else
        match batch_header r with
        | (Ok (Some (batch_end, last_offset_delta)), r1) =>
            record_count ← int32_add last_offset_delta 1;
            match skip_header_tail r1 with
            | (Ok _, r2) => scan_batches fuel' (scan_records (Z.to_nat record_count) batch_end (r2, c))
            | _ => Ok c
            end
        | _ => Ok c
        end
  end.

(** ** Building the tables *)

(** [m.topics.push_back] together with the two index maps. *)
Definition add_topic (m : ClusterMetadata) (t : RawTopicRecord) : ClusterMetadata :=
  mkClusterMetadata
    (topics m ++ [mkTopicInfo (rtr_name t) (rtr_uuid t) []])
    (<[rtr_name t := length (topics m)]> (name_to_topic m))
    (<[rtr_uuid t := length (topics m)]> (uuid_to_topic m)).

Definition add_partition_id (p : Z) (t : TopicInfo) : TopicInfo :=
  mkTopicInfo (ti_name t) (ti_uuid t) (ti_partitions t ++ [p]).

Definition add_partition (m : ClusterMetadata) (p : RawPartitionRecord) : ClusterMetadata :=
  match uuid_to_topic m !! rpr_uuid p with
  | Some i => mkClusterMetadata (alter (add_partition_id (rpr_partition_id p)) i (topics m))
                (name_to_topic m) (uuid_to_topic m)
  | None => m
  end.

Definition empty_metadata : ClusterMetadata := mkClusterMetadata [] ∅ ∅.

Definition build_metadata (c : Collected) : ClusterMetadata :=
  fold_left add_partition (partition_records c)
    (fold_left add_topic (topic_records c) empty_metadata).

(** Every batch takes at least its header, so the fuel is never used up. *)
Definition parse_cluster_metadata (data : bytes) : outcome ClusterMetadata :=
  c ← scan_batches (S (length data)) (mkReader data 0, mkCollected [] []);
  mret (build_metadata c).

(** [parse_cluster_metadata_file], given the content of the file when it can
    be opened. *)
Definition parse_cluster_metadata_file (content : option bytes) : outcome ClusterMetadata :=
  match content with
  | None | Some [] => mret empty_metadata
  | Some data => parse_cluster_metadata data
  end.

(** ** The index maps *)

(** Every entry of an index map leads to a topic with that name or id, and
    every topic has an entry for its name and for its id. *)
Record metadata_ok (m : ClusterMetadata) : Prop := {
  ok_names : ∀ n i, name_to_topic m !! n = Some i → ∃ t, topics m !! i = Some t ∧ ti_name t = n;
  ok_uuids : ∀ u i, uuid_to_topic m !! u = Some i → ∃ t, topics m !! i = Some t ∧ ti_uuid t = u;
  ok_topics : ∀ t, t ∈ topics m →
    is_Some (name_to_topic m !! ti_name t) ∧ is_Some (uuid_to_topic m !! ti_uuid t) }.

Lemma empty_metadata_ok : metadata_ok empty_metadata.
Proof. split; cbn; [intros ? ?; by rewrite lookup_empty..|set_solver]. Qed.

Lemma lookup_snoc_old {A} (l : list A) x i y : l !! i = Some y → (l ++ [x]) !! i = Some y.
Proof. intros. by apply lookup_app_l_Some. Qed.

Lemma add_topic_ok m t : metadata_ok m → metadata_ok (add_topic m t).
Proof.
  intros [Hn Hu Ht]. split; cbn.
  - intros n i. destruct (decide (rtr_name t = n)) as [<-|].
    + rewrite lookup_insert_eq. intros [= <-]. rewrite list_lookup_middle by done. by eexists.
    + rewrite lookup_insert_ne by done. intros (x & Hx & E)%Hn. exists x. by split; [apply lookup_snoc_old|].
  - intros u i. destruct (decide (rtr_uuid t = u)) as [<-|].
    + rewrite lookup_insert_eq. intros [= <-]. rewrite list_lookup_middle by done. by eexists.
    + rewrite lookup_insert_ne by done. intros (x & Hx & E)%Hu. exists x. by split; [apply lookup_snoc_old|].
  - intros x [Hx| ->%list_elem_of_singleton]%elem_of_app; cbn.
    + destruct (Ht x Hx). rewrite !lookup_insert_is_Some'. tauto.
    + rewrite !lookup_insert_is_Some'. tauto.
Qed.

Lemma add_partition_ok m p : metadata_ok m → metadata_ok (add_partition m p).
Proof.
  intros [Hn Hu Ht]. unfold add_partition. destruct (uuid_to_topic m !! rpr_uuid p) as [j|] eqn:E; [|done].
  split; cbn.
  - intros n i (x & Hx & <-)%Hn. destruct (decide (i = j)) as [->|].
    + rewrite list_lookup_alter_eq, Hx. by eexists.
    + rewrite list_lookup_alter_ne by done. by exists x.
  - intros n i (x & Hx & <-)%Hu. destruct (decide (i = j)) as [->|].
    + rewrite list_lookup_alter_eq, Hx. by eexists.
    + rewrite list_lookup_alter_ne by done. by exists x.
  - intros x (i & Hi)%list_elem_of_lookup. destruct (decide (i = j)) as [->|].
    + rewrite list_lookup_alter_eq in Hi. apply fmap_Some in Hi as (y & Hy & ->). cbn.
      apply Ht. by eapply list_elem_of_lookup_2.
    + rewrite list_lookup_alter_ne in Hi by done. apply Ht. by eapply list_elem_of_lookup_2.
Qed.

Lemma build_metadata_ok c : metadata_ok (build_metadata c).
Proof.
  unfold build_metadata. assert (metadata_ok (fold_left add_topic (topic_records c) empty_metadata)) as H.
  { pose proof empty_metadata_ok as H. revert H. generalize empty_metadata.
    induction (topic_records c) as [|t ts IH]; intros m Hm; [done|]. cbn. by apply IH, add_topic_ok. }
  revert H. generalize (fold_left add_topic (topic_records c) empty_metadata).
  induction (partition_records c) as [|p ps IH]; intros m Hm; [done|]. cbn. by apply IH, add_partition_ok.
Qed.

(** ** Termination *)

(** The reader only moves forward, inside its span. *)
Definition scan_moves {A} (m : scan A) : Prop :=
  ∀ r c, reader_ok r → bytes_ok (data_ r) → moves r (m (r, c)).2.1.

Lemma scan_moves_ret {A} (a : A) : scan_moves (mret a).
Proof. intros r c Hr _. by apply moves_refl. Qed.
Lemma scan_moves_continue {A} : scan_moves (@continue A).
Proof. intros r c Hr _. by apply moves_refl. Qed.

Lemma scan_moves_bind {A B} (m : scan A) (k : A → scan B) :
  scan_moves m → (∀ a, scan_moves (k a)) → scan_moves (m ≫= k).
Proof.
  intros Hm Hk r c Hr Hb. specialize (Hm r c Hr Hb). unfold mbind, scan_bind.
  destruct (m (r, c)) as [[a|] [r1 c1]]; cbn in *; [|done].
  destruct Hm as (Hd & Ho & Hr1). eapply moves_trans; [split_and!; [exact Hd|exact Ho|exact Hr1]|].
  apply Hk; [done|]. by rewrite Hd.
Qed.

Lemma scan_moves_try {A} (m : reader A) Q : safe no_fault m Q → scan_moves (try_read m).
Proof.
  intros Hm r c Hr Hb. destruct (Hm r Hr Hb) as [Hmv _]. unfold try_read. by destruct (m r).
Qed.
Lemma scan_moves_ignore {A} (m : reader A) Q : safe no_fault m Q → scan_moves (ignore_read m).
Proof. intros Hm r c Hr Hb. by destruct (Hm r Hr Hb) as [Hmv _]. Qed.

Lemma scan_moves_offset : scan_moves reader_offset.
Proof. intros r c Hr _. by apply moves_refl. Qed.

Lemma scan_moves_value v : scan_moves (scan_value v).
Proof.
  intros r c Hr _. unfold scan_value. destruct (value_header v) as [[k rv]|]; [|by apply moves_refl].
  destruct (k =? _).
  - destruct (read_topic_record rv).1; by apply moves_refl.
  - destruct (k =? _); [|by apply moves_refl]. destruct (read_partition_record rv).1; by apply moves_refl.
Qed.

Lemma scan_moves_skip n : scan_moves (if n >? 0 then try_read (skip n) else mret tt).
Proof.
  destruct (Z.gtb_spec n 0); [|apply scan_moves_ret]. eapply scan_moves_try, safe_skip. lia.
Qed.

Create HintDb scanning.
#[local] Hint Resolve scan_moves_ret scan_moves_continue scan_moves_offset scan_moves_value scan_moves_skip
  : scanning.
#[local] Hint Extern 2 (scan_moves (try_read _)) => eapply scan_moves_try;
  first [apply safe_read_signed_varint | apply safe_read_int8 | apply safe_skip_varint] : scanning.
#[local] Hint Extern 2 (scan_moves (ignore_read _)) => eapply scan_moves_ignore, safe_read_signed_varint : scanning.

Lemma scan_moves_header : scan_moves scan_header.
Proof. repeat (apply scan_moves_bind; [auto with scanning|intros ?]). auto with scanning. Qed.

Lemma scan_moves_headers n : scan_moves (scan_headers n).
Proof.
  induction n as [|n IH]; intros r c Hr Hb; cbn; [by apply moves_refl|].
  pose proof (scan_moves_header r c Hr Hb) as Hm. destruct (scan_header (r, c)) as [o [r1 c1]]. cbn in *.
  destruct Hm as (Hd & Ho & Hr1). eapply moves_trans; [split_and!; [exact Hd|exact Ho|exact Hr1]|].
  apply IH; [done|by rewrite Hd].
Qed.
#[local] Hint Resolve scan_moves_headers : scanning.

Lemma scan_moves_record : scan_moves scan_record.
Proof.
  unfold scan_record. apply scan_moves_bind; [auto with scanning|]. intros rec_len.
  destruct (Z.ltb_spec rec_len 0); [auto with scanning|].
  do 6 (apply scan_moves_bind; [auto with scanning|intros ?]).
  apply scan_moves_bind; [auto with scanning|]. intros value_len.
  destruct (Z.ltb_spec value_len 3).
  { apply scan_moves_bind; [auto with scanning|]. auto with scanning. }
  apply scan_moves_bind; [eapply scan_moves_try, safe_read_bytes; lia|]. intros v.
  do 4 (apply scan_moves_bind; [auto with scanning|intros ?]).
  case_match eqn:E; [|auto with scanning]. apply Z.ltb_lt in E. eapply scan_moves_try, safe_skip. lia.
Qed.
