(* ===== verification/ClusterProperties.v ===== *)
(** * Properties of the metadata log parser

    The tables it builds are consistent on any input, its loop terminates, and
    on a log written in the batch format it collects exactly the topic and
    partition records, in order. *)

From S2P Require Import Prelude Endian Varint ByteReader Parser RecordBatch ClusterMetadata.

(** ** Termination *)

Lemma skip_at n data off :
  off + n ≤ zlen data → skip n (mkReader data off) = (Ok tt, mkReader data (off + n)).
Proof. apply (guard_ok n (λ _, tt)). Qed.

(** A fixed-size header read at a symbolic offset. *)
Ltac fixed_read :=
  match goal with
  | |- context [mbind ?k (skip ?n) (mkReader ?d ?o)] =>
      rewrite (bind_ok (skip n) k _ _ _ (skip_at n d o ltac:(lia)))
  | |- context [mbind ?k read_int32 (mkReader ?d ?o)] =>
      rewrite (bind_ok read_int32 k _ _ _ (read_int32_at d o ltac:(lia)))
  | |- context [mbind ?k read_int8 (mkReader ?d ?o)] =>
      rewrite (bind_ok read_int8 k _ _ _ (read_int8_at d o ltac:(lia)))
  end; cbn beta.

Lemma batch_header_at data off :
  off + 57 ≤ zlen data →
  ∃ r, batch_header (mkReader data off) =
    (if int32_at data (off + 8) <? 0 then (Ok None, r)
     else if negb (int8_at data (off + 16) =? 2) then (Ok None, r)
     else (Ok (Some (off + 12 + int32_at data (off + 8), int32_at data (off + 23))),
           mkReader data (off + 27))).
Proof.
  intros Hl. unfold batch_header. do 2 fixed_read.
  destruct (int32_at data (off + 8) <? 0); [by eexists|].
  unfold mbind at 1, reader_bind at 1. cbn [offset offset_]. do 2 fixed_read.
  replace (off + 8 + 4 + 4) with (off + 16) by lia.
  destruct (negb _); [by eexists|]. do 3 fixed_read. exists (mkReader data off). cbn.
  replace (off + 8 + 4) with (off + 12) by lia. replace (off + 16 + 1 + 4 + 2) with (off + 23) by lia.
  by replace (off + 23 + 4) with (off + 27) by lia.
Qed.

Lemma skip_header_tail_at data off :
  off + 30 ≤ zlen data → skip_header_tail (mkReader data off) = (Ok tt, mkReader data (off + 30)).
Proof.
  intros Hl. unfold skip_header_tail. do 4 fixed_read. rewrite skip_at by lia. by rewrite <-!Z.add_assoc.
Qed.

(** One iteration of the loop over the batches. *)
Lemma scan_batches_step fuel data off c :
  off + 57 ≤ zlen data →
  scan_batches (S fuel) (mkReader data off, c) =
  if (int32_at data (off + 8) <? 0) || negb (int8_at data (off + 16) =? 2) then Ok c
  else record_count ← int32_add (int32_at data (off + 23)) 1;
       scan_batches fuel (scan_records (Z.to_nat record_count) (off + 12 + int32_at data (off + 8))
                            (mkReader data (off + 57), c)).
Proof.
  intros Hl. cbn [scan_batches]. unfold remaining. cbn [data_ offset_].
  destruct (Z.ltb_spec (zlen data - off) kRecordBatchHeaderSize); [unfold kRecordBatchHeaderSize in *; lia|].
  destruct (batch_header_at data off Hl) as (r & ->).
  destruct (_ <? 0); [done|]. destruct (negb _); [done|]. cbn [orb].
  destruct (int32_add _ 1) as [n| |]; [|done..]. cbn [mbind outcome_bind].
  rewrite skip_header_tail_at by lia. by replace (off + 27 + 30) with (off + 57) by lia.
Qed.





(** ** The log format *)

(** The value of a metadata record: versions are written and skipped. *)
Inductive MetaValue :=
| MTopic (frame version : Z) (name uuid tail : bytes)
| MPartition (frame version pid : Z) (uuid tail : bytes)
| MOther (frame key version : Z) (tail : bytes).

Definition enc_meta (v : MetaValue) : bytes :=
  match v with
  | MTopic f ver name uuid tail =>
      write_unsigned_varint f ++ write_unsigned_varint 2 ++ write_unsigned_varint ver ++
      compact_string name ++ uuid ++ tail
  | MPartition f ver pid uuid tail =>
      write_unsigned_varint f ++ write_unsigned_varint 3 ++ write_unsigned_varint ver ++
      write_int32_be pid ++ uuid ++ tail
  | MOther f key ver tail =>
      write_unsigned_varint f ++ write_unsigned_varint key ++ write_unsigned_varint ver ++ tail
  end.

Definition version_ok (v : Z) : Prop := 0 ≤ v < 2 ^ 28.

Definition meta_ok (v : MetaValue) : Prop :=
  match v with
  | MTopic f ver name uuid _ => version_ok f ∧ version_ok ver ∧ zlen name < 2 ^ 28 - 1 ∧ zlen uuid = 16
  | MPartition f ver pid uuid _ => version_ok f ∧ version_ok ver ∧ in_int 32 pid ∧ zlen uuid = 16
  | MOther f key ver _ => version_ok f ∧ version_ok key ∧ version_ok ver ∧ key ≠ 2 ∧ key ≠ 3
  end.

(** What a value adds to the collected records. *)
Definition collect_meta (c : Collected) (v : MetaValue) : Collected :=
  match v with
  | MTopic _ _ name uuid _ => mkCollected (topic_records c ++ [mkRawTopic name uuid]) (partition_records c)
  | MPartition _ _ pid uuid _ => mkCollected (topic_records c) (partition_records c ++ [mkRawPartition pid uuid])
  | MOther _ _ _ _ => c
  end.

(** A record that carries a metadata value, with any number of headers. *)
Definition record_holds (r : BatchRecord) (v : MetaValue) : Prop :=
  rec_value r = Some (enc_meta v) ∧ meta_ok v ∧
  byte_ok (rec_attributes r) ∧ small (rec_timestamp_delta r) ∧ small (rec_offset_delta r) ∧
  opt_bytes_ok (rec_key r) ∧ Forall (λ h, opt_bytes_ok h.1 ∧ opt_bytes_ok h.2) (rec_headers r) ∧
  zlen (rec_headers r) < 2 ^ 27 ∧ zlen (enc_record_body r) < 2 ^ 27.

Definition batch_holds (b : Batch) (vs : list MetaValue) : Prop :=
  Forall2 record_holds (bat_records b) vs ∧ zlen (enc_batch_body b) < 2 ^ 31.

(** ** Reading it back *)

Definition at_ (pre rest : bytes) (c : Collected) : ByteReader * Collected :=
  (mkReader (pre ++ rest) (zlen pre), c).

(** [m], in front of [bs], consumes exactly it, returns [a] and collects [f]. *)
Definition scans {A} (m : scan A) (bs : bytes) (a : A) (f : Collected → Collected) : Prop :=
  ∀ pre post c, m (at_ pre (bs ++ post) c) = (Some a, at_ (pre ++ bs) post (f c)).

Lemma scans_try {A} (m : reader A) bs a : parses m bs a → scans (try_read m) bs a id.
Proof.
  intros Hm pre post c. unfold at_, try_read. rewrite (Hm pre post).
  by rewrite <-app_assoc, zlen_app.
Qed.

Lemma scans_ret {A} (a : A) : scans (mret a) [] a id.
Proof. intros pre post c. unfold at_. by rewrite app_nil_r. Qed.

Lemma scans_bind {A B} (m : scan A) (k : A → scan B) bs a f pre post c :
  scans m bs a f → (m ≫= k) (at_ pre (bs ++ post) c) = k a (at_ (pre ++ bs) post (f c)).
Proof. intros Hm. unfold mbind, scan_bind. by rewrite Hm. Qed.

Lemma scans_seq {A B} (m : scan A) (k : A → scan B) b1 b2 a b f g :
  scans m b1 a f → scans (k a) b2 b g → scans (m ≫= k) (b1 ++ b2) b (λ c, g (f c)).
Proof. intros Hm Hk pre post c. rewrite <-app_assoc, (scans_bind m k b1 a f) by done. by rewrite Hk, <-app_assoc. Qed.

Lemma scans_end {A B} (m : scan A) (k : A → scan B) bs a b f :
  scans m bs a f → scans (k a) [] b id → scans (m ≫= k) bs b f.
Proof. intros. rewrite <-(app_nil_r bs). by apply (scans_seq m k bs [] a b f id). Qed.

Lemma parses_skip_varint v : 0 ≤ v < 2 ^ 28 → parses skip_varint (write_unsigned_varint v) tt.
Proof.
  intros Hv pre post. unfold skip_varint. cbn [data_ offset_].
  rewrite zdrop_app, read_write_unsigned_varint by done.
  rewrite varint_encoded_size_length by (unfold in_uint; lia). done.
Qed.

Lemma parses_skip_signed v : small v → parses skip_varint (write_signed_varint v) tt.
Proof.
  intros Hv. unfold small in Hv. unfold write_signed_varint. apply parses_skip_varint.
  rewrite zigzag_encode_spec by (unfold in_int; lia). case_match; lia.
Qed.

(** A length-prefixed field that is skipped. *)
Lemma scans_opt_bind {B} o (k : unit → scan B) pre post c :
  opt_bytes_ok o →
  (n ← try_read read_signed_varint; x ← (if n >? 0 then try_read (skip n) else mret tt); k x)
    (at_ pre (enc_opt_bytes o ++ post) c) = k tt (at_ (pre ++ enc_opt_bytes o) post c).
Proof.
  intros Ho. pose proof (zlen_nonneg (default [] o)).
  assert (∃ n v, enc_opt_bytes o = write_signed_varint n ++ v ∧ small n ∧
    scans (if n >? 0 then try_read (skip n) else mret tt) v tt id) as (n & v & -> & Hn & Hs).
  { destruct o as [v|]; cbn in *.
    - exists (zlen v), v. unfold small. split_and!; [done|lia..|].
      destruct (Z.gtb_spec (zlen v) 0); [by apply scans_try, parses_skip|].
      rewrite (zlen_0_nil v) by lia. apply scans_ret.
    - exists (-1), []. unfold small. rewrite app_nil_r. split_and!; [done|lia..|]. apply scans_ret. }
  rewrite <-app_assoc. rewrite (scans_bind _ _ _ n id) by (by apply scans_try, parses_signed_varint).
  rewrite (scans_bind _ _ _ tt id) by done. by rewrite <-app_assoc.
Qed.

Lemma scans_record_header h :
  opt_bytes_ok h.1 ∧ opt_bytes_ok h.2 → scans scan_header (enc_record_header h) tt id.
Proof.
  intros [H1 H2] pre post c. unfold scan_header, enc_record_header.
  rewrite <-app_assoc, scans_opt_bind by done. rewrite app_assoc.
  pose proof (scans_opt_bind h.2 (λ _, mret tt) (pre ++ enc_opt_bytes h.1) post c H2) as E.
  unfold mbind, scan_bind in *. destruct (try_read _ _) as [[n|] s]; [|done].
  destruct (n >? 0); [|done]. by destruct (try_read _ s) as [[[]|] s'].
Qed.

Lemma scans_record_headers hs :
  Forall (λ h, opt_bytes_ok h.1 ∧ opt_bytes_ok h.2) hs →
  scans (scan_headers (Z.to_nat (zlen hs))) (concat (map enc_record_header hs)) tt id.
Proof.
  unfold zlen. rewrite Nat2Z.id. induction 1 as [|h hs Hh _ IH]; intros pre post c; cbn [length scan_headers].
  - apply scans_ret.
  - cbn [map concat]. rewrite <-app_assoc, (scans_record_header h Hh). cbn [snd]. by rewrite IH, <-app_assoc.
Qed.

(** The three varints in front of a value. *)
Lemma value_header_enc f key ver rest :
  version_ok f → version_ok key → version_ok ver →
  ∃ pre, write_unsigned_varint f ++ write_unsigned_varint key ++ write_unsigned_varint ver ++ rest = pre ++ rest ∧
    value_header (write_unsigned_varint f ++ write_unsigned_varint key ++ write_unsigned_varint ver ++ rest) =
    Some (key, mkReader (pre ++ rest) (zlen pre)).
Proof.
  intros Hf Hk Hv. exists (write_unsigned_varint f ++ write_unsigned_varint key ++ write_unsigned_varint ver).
  split; [by rewrite <-!app_assoc|]. unfold value_header.
  pose proof (parses_varint f Hf [] (write_unsigned_varint key ++ write_unsigned_varint ver ++ rest)) as E1.
  rewrite app_nil_l in E1. change (zlen []) with 0 in E1. rewrite E1, Z.add_0_l.
  pose proof (parses_varint key Hk (write_unsigned_varint f) (write_unsigned_varint ver ++ rest)) as E2.
  rewrite E2, <-zlen_app.
  pose proof (parses_varint ver Hv (write_unsigned_varint f ++ write_unsigned_varint key) rest) as E3.
  rewrite <-!app_assoc in E3. rewrite E3. by rewrite <-zlen_app, <-!app_assoc.
Qed.

Lemma parses_topic_record name uuid :
  zlen name < 2 ^ 28 - 1 → zlen uuid = 16 →
  parses read_topic_record (compact_string name ++ uuid) (mkRawTopic name uuid).
Proof.
  intros Hn Hu. unfold read_topic_record. eapply parses_bind; [by apply parses_compact_string|]. cbn beta.
  eapply parses_bind_ret; [by apply (parses_bytes uuid kUuidSize)|]. apply parses_ret.
Qed.

Lemma parses_partition_record pid uuid :
  in_int 32 pid → zlen uuid = 16 →
  parses read_partition_record (write_int32_be pid ++ uuid) (mkRawPartition pid uuid).
Proof.
  intros Hp Hu pre post. unfold read_partition_record, remaining. cbn [data_ offset_].
  assert (zlen (write_int32_be pid) = 4) as Hl by reflexivity.
  destruct (Z.ltb_spec (zlen (pre ++ (write_int32_be pid ++ uuid) ++ post) - zlen pre) (4 + kUuidSize)).
  { unfold kUuidSize in *. rewrite !zlen_app in *. pose proof (zlen_nonneg post). lia. }
  revert pre post H. intros pre post _. revert pre post.
  change (parses (pid ← read_int32; uuid ← read_bytes kUuidSize; mret (mkRawPartition pid uuid))
    (write_int32_be pid ++ uuid) (mkRawPartition pid uuid)).
  eapply parses_bind; [by apply parses_int32|]. cbn beta.
  eapply parses_bind_ret; [by apply (parses_bytes uuid kUuidSize)|]. apply parses_ret.
Qed.

(** Scanning a value collects what it says. *)
Lemma scan_value_enc v s : meta_ok v → scan_value (enc_meta v) s = (Some tt, (s.1, collect_meta s.2 v)).
Proof.
  destruct s as [r c]. destruct v as [f ver name uuid tail|f ver pid uuid tail|f key ver tail]; cbn [meta_ok enc_meta].
  - intros (Hf & Hv & Hn & Hu). unfold scan_value.
    destruct (value_header_enc f 2 ver (compact_string name ++ uuid ++ tail)) as (pre & _ & ->); [done..|].
    cbn [Z.eqb Pos.eqb kTopicRecordKey].
    pose proof (parses_topic_record name uuid Hn Hu pre tail) as E. rewrite <-app_assoc in E. by rewrite E.
  - intros (Hf & Hv & Hp & Hu). unfold scan_value.
    destruct (value_header_enc f 3 ver (write_int32_be pid ++ uuid ++ tail)) as (pre & _ & ->); [done..|].
    cbn [Z.eqb Pos.eqb kTopicRecordKey kPartitionRecordKey].
    pose proof (parses_partition_record pid uuid Hp Hu pre tail) as E. rewrite <-app_assoc in E. by rewrite E.
  - intros (Hf & Hk & Hv & H2 & H3). unfold scan_value.
    destruct (value_header_enc f key ver tail) as (pre & _ & ->); [done..|].
    unfold kTopicRecordKey, kPartitionRecordKey.
    destruct (Z.eqb_spec key 2); [done|]. by destruct (Z.eqb_spec key 3).
Qed.

Lemma enc_meta_length v : meta_ok v → 3 ≤ zlen (enc_meta v).
Proof.
  assert (∀ n, version_ok n → 1 ≤ zlen (write_unsigned_varint n)) as Hw.
  { intros n Hn. unfold version_ok in Hn. rewrite varint_encoded_size_length by (unfold in_uint; lia).
    apply varint_encoded_size_pos. unfold in_uint; lia. }
  assert (version_ok 2) by done. assert (version_ok 3) by done.
  destruct v; cbn [meta_ok enc_meta]; intros; destruct_and?; rewrite !zlen_app;
    repeat match goal with H : version_ok _ |- _ => apply Hw in H end; zlia.
Qed.

(** The headers, up to the end of the record. *)
Lemma scan_record_tail pre hs post c e :
  Forall (λ h, opt_bytes_ok h.1 ∧ opt_bytes_ok h.2) hs → zlen hs < 2 ^ 27 →
  e = zlen (pre ++ write_signed_varint (zlen hs) ++ concat (map enc_record_header hs)) →
  (header_count ← try_read read_signed_varint;
   _ ← scan_headers (Z.to_nat header_count);
   here ← reader_offset;
   if here <? e then try_read (skip (e - here)) else mret tt)
    (at_ pre (write_signed_varint (zlen hs) ++ concat (map enc_record_header hs) ++ post) c) =
  (Some tt, at_ (pre ++ write_signed_varint (zlen hs) ++ concat (map enc_record_header hs)) post c).
Proof.
  intros Hh Hn ->. pose proof (zlen_nonneg hs).
  rewrite (scans_bind _ _ _ (zlen hs) id) by (apply scans_try, parses_signed_varint; lia).
  rewrite (scans_bind _ _ _ tt id) by (by apply scans_record_headers).
  rewrite <-app_assoc. unfold mbind, scan_bind, reader_offset, at_ at 1. cbn [offset offset_].
  by rewrite Z.ltb_irrefl.
Qed.

(** A whole record: its length prefix ends exactly where its headers end. *)
Lemma scans_meta_record r v :
  record_holds r v → ∀ pre post c,
  (scan_record (at_ pre (enc_record r ++ post) c)).2 = at_ (pre ++ enc_record r) post (collect_meta c v).
Proof.
  intros (Hval & Hv & Ha & Ht & Hd & Hk & Hh & Hhn & Hl) pre post c.
  pose proof (enc_record_body_pos r) as Hpos. pose proof (enc_meta_length v Hv) as Hvl.
  pose proof (zlen_nonneg (rec_headers r)).
  assert (zlen (enc_meta v) < 2 ^ 27) as Hvs.
  { unfold enc_record_body in Hl. rewrite Hval in Hl. cbn [enc_opt_bytes] in Hl. rewrite !zlen_app in Hl. zlia. }
  unfold scan_record, enc_record. rewrite <-app_assoc.
  rewrite (scans_bind _ _ _ (zlen (enc_record_body r)) id)
    by (apply scans_try, parses_signed_varint; lia).
  destruct (Z.ltb_spec (zlen (enc_record_body r)) 0); [lia|].
  set (pre1 := pre ++ write_signed_varint (zlen (enc_record_body r))).
  assert (enc_record_body r ++ post = [rec_attributes r] ++ write_signed_varint (rec_timestamp_delta r) ++
    write_signed_varint (rec_offset_delta r) ++ enc_opt_bytes (rec_key r) ++
    write_signed_varint (zlen (enc_meta v)) ++ enc_meta v ++
    write_signed_varint (zlen (rec_headers r)) ++ concat (map enc_record_header (rec_headers r)) ++ post) as Eb.
  { unfold enc_record_body. rewrite Hval. cbn [enc_opt_bytes]. by rewrite <-!app_assoc. }
  unfold mbind at 1, scan_bind at 1, reader_offset at 1, at_ at 1. cbn [offset offset_].
  change (mkReader (pre1 ++ enc_record_body r ++ post) (zlen pre1), id c) with (at_ pre1 (enc_record_body r ++ post) c).
  rewrite Eb.
  rewrite (scans_bind _ _ _ (rec_attributes r) id) by (by apply scans_try, parses_int8).
  rewrite (scans_bind _ _ _ tt id) by (by apply scans_try, parses_skip_signed).
  rewrite (scans_bind _ _ _ tt id) by (by apply scans_try, parses_skip_signed).
  rewrite scans_opt_bind by done.
  rewrite (scans_bind _ _ _ (zlen (enc_meta v)) id) by (apply scans_try, parses_signed_varint; lia).
  destruct (Z.ltb_spec (zlen (enc_meta v)) 3); [lia|].
  rewrite (scans_bind _ _ _ (enc_meta v) id) by (by apply scans_try, parses_bytes).
  unfold mbind at 1, scan_bind at 1. rewrite scan_value_enc by done. cbn [fst snd].
  match goal with |- context [((at_ ?p ?q ?d).1, collect_meta (at_ ?p ?q ?d).2 v)] =>
    change ((at_ p q d).1, collect_meta (at_ p q d).2 v) with (at_ p q (collect_meta c v));
    assert (p ++ write_signed_varint (zlen (rec_headers r)) ++ concat (map enc_record_header (rec_headers r)) =
            pre1 ++ enc_record_body r) as Ep by
      (unfold enc_record_body; rewrite Hval; cbn [enc_opt_bytes]; by rewrite <-!app_assoc) end.
  rewrite scan_record_tail by (rewrite ?Ep, ?zlen_app; done). rewrite Ep. cbn [snd]. unfold pre1.
  by rewrite <-!app_assoc.
Qed.

Lemma enc_record_length r : 0 < zlen (enc_record r).
Proof. pose proof (enc_record_pos r). lia. Qed.

Lemma scans_meta_records rs vs pre post c e :
  Forall2 record_holds rs vs → zlen pre + zlen (concat (map enc_record rs)) ≤ e →
  scan_records (length rs) e (at_ pre (concat (map enc_record rs) ++ post) c) =
  at_ (pre ++ concat (map enc_record rs)) post (fold_left collect_meta vs c).
Proof.
  intros Hrs. revert pre c. induction Hrs as [|r v rs vs Hr Hrs IH]; intros pre c He.
  - cbn. by rewrite app_nil_r.
  - cbn [length scan_records map concat fold_left] in *. rewrite zlen_app in He.
    pose proof (enc_record_length r). pose proof (zlen_nonneg (concat (map enc_record rs))).
    unfold at_ at 1. cbn [fst offset offset_].
    destruct (Z.geb_spec (zlen pre) e); [lia|]. fold (at_ pre ((enc_record r ++ concat (map enc_record rs)) ++ post) c).
    rewrite <-app_assoc, (scans_meta_record r v Hr), IH; [by rewrite <-app_assoc|]. rewrite zlen_app. lia.
Qed.

Lemma int32_at_app pre x k : 0 ≤ k → int32_at (pre ++ x) (zlen pre + k) = int32_at x k.
Proof. intros. unfold int32_at, view. cbn [offset_ data_]. rewrite <-zdrop_zdrop by zlia. by rewrite zdrop_app. Qed.
Lemma int8_at_app pre x k : 0 ≤ k → int8_at (pre ++ x) (zlen pre + k) = int8_at x k.
Proof. intros. unfold int8_at, view. cbn [offset_ data_]. rewrite <-zdrop_zdrop by zlia. by rewrite zdrop_app. Qed.

(** The fixed part of a batch. *)
Definition batch_fixed (b : Batch) : bytes :=
  write_int64_be (bat_base_offset b) ++ write_int32_be (zlen (enc_batch_body b)) ++
  write_int32_be (bat_leader_epoch b) ++ [2] ++ write_int32_be (bat_crc b) ++
  write_int16_be (bat_attributes b) ++ write_int32_be (zlen (bat_records b) - 1) ++
  write_int64_be (bat_base_timestamp b) ++ write_int64_be (bat_max_timestamp b) ++
  write_int64_be (bat_producer_id b) ++ write_int16_be (bat_producer_epoch b) ++
  write_int32_be (bat_base_sequence b).

Lemma enc_batch_fixed b : enc_batch b = batch_fixed b ++ concat (map enc_record (bat_records b)).
Proof. unfold enc_batch, batch_fixed, enc_batch_body. by rewrite <-!app_assoc. Qed.

Lemma enc_batch_body_length b : zlen (enc_batch_body b) = 45 + zlen (concat (map enc_record (bat_records b))).
Proof. unfold enc_batch_body, write_int64_be, write_int32_be, write_int16_be. zlia. Qed.

Lemma scan_batches_batch fuel b vs pre post c :
  batch_holds b vs →
  scan_batches (S fuel) (at_ pre (enc_batch b ++ post) c) =
  scan_batches fuel (at_ (pre ++ enc_batch b) post (fold_left collect_meta vs c)).
Proof.
  intros [Hrs Hlen]. pose proof (enc_batch_body_length b) as Hbl.
  pose proof (enc_records_length (bat_records b)). pose proof (zlen_nonneg (bat_records b)).
  pose proof (zlen_nonneg (enc_batch_body b)). pose proof (zlen_nonneg post).
  assert (zlen (batch_fixed b) = 57) as Hfix by reflexivity.
  unfold at_ at 1. rewrite scan_batches_step
    by (rewrite enc_batch_fixed, !zlen_app; lia).
  rewrite !int32_at_app, int8_at_app by lia.
  assert (int32_at (enc_batch b ++ post) 8 = zlen (enc_batch_body b)) as ->.
  { rewrite <-(decode_write_int32 (zlen (enc_batch_body b))) by (unfold in_int; lia). reflexivity. }
  assert (int8_at (enc_batch b ++ post) 16 = 2) as -> by reflexivity.
  assert (int32_at (enc_batch b ++ post) 23 = zlen (bat_records b) - 1) as ->.
  { rewrite <-(decode_write_int32 (zlen (bat_records b) - 1)) by (unfold in_int; lia). reflexivity. }
  destruct (Z.ltb_spec (zlen (enc_batch_body b)) 0); [lia|]. cbn [negb orb Z.eqb Pos.eqb].
  rewrite (proj2 (int32_add_Ok (zlen (bat_records b) - 1) 1 (zlen (bat_records b))))
    by (unfold in_int; lia).
  cbn [mbind outcome_bind].
  replace (Z.to_nat (zlen (bat_records b))) with (length (bat_records b)) by (unfold zlen; lia).
  pose proof (scans_meta_records (bat_records b) vs (pre ++ batch_fixed b) post c
    (zlen pre + 12 + zlen (enc_batch_body b)) Hrs) as E.
  rewrite zlen_app in E. specialize (E ltac:(lia)). f_equal.
  rewrite enc_batch_fixed, <-Hfix, <-zlen_app. rewrite <-app_assoc, app_assoc.
  unfold at_ in E at 1. rewrite E. by rewrite <-app_assoc.
Qed.

(** C21: a metadata log in the batch format, with topic, partition and other
    records in any order and any number of batches, yields the tables of
    exactly its topic and partition records, in log order. *)
Theorem parse_cluster_metadata_roundtrip bs vss :
  Forall2 batch_holds bs vss →
  parse_cluster_metadata (concat (map enc_batch bs)) =
  Ok (build_metadata (fold_left collect_meta (concat vss) (mkCollected [] []))).
Proof.
  intros Hbs. unfold parse_cluster_metadata.
  assert (∀ fuel pre c, (length bs < fuel)%nat →
    scan_batches fuel (at_ pre (concat (map enc_batch bs) ++ []) c) =
    Ok (fold_left collect_meta (concat vss) c)) as H.
  { induction Hbs as [|b vs bs vss Hb Hbs IH]; intros fuel pre c Hf.
    - destruct fuel as [|fuel]; [lia|]. cbn [map concat app fold_left scan_batches]. unfold at_, remaining.
      cbn [data_ offset_]. rewrite app_nil_r. destruct (Z.ltb_spec (zlen pre - zlen pre) kRecordBatchHeaderSize); [done|].
      unfold kRecordBatchHeaderSize in *. lia.
    - destruct fuel as [|fuel]; [lia|]. cbn [map concat length] in *. rewrite <-app_assoc.
      rewrite (scan_batches_batch fuel b vs) by done. rewrite IH by lia. by rewrite fold_left_app. }
  specialize (H (S (length (concat (map enc_batch bs)))) [] (mkCollected [] [])).
  unfold at_ in H. rewrite app_nil_r, app_nil_l in H. change (zlen []) with 0 in H. rewrite H; [done|].
  assert (zlen bs ≤ zlen (concat (map enc_batch bs))) as Hl.
  { rewrite zlen_concat_map. clear. induction bs as [|b bs IH]; [done|].
    pose proof (enc_batch_length b). unfold zsum in *. cbn [foldr]. zlia. }
  unfold zlen in Hl. lia.
Qed.


#[export] Instance meta_ok_dec v : Decision (meta_ok v).
Proof. destruct v; unfold meta_ok, version_ok; apply _. Defined.
#[export] Instance record_holds_dec r v : Decision (record_holds r v).
Proof. unfold record_holds, small. apply _. Defined.
#[export] Instance batch_holds_dec b vs : Decision (batch_holds b vs).
Proof. unfold batch_holds. apply _. Defined.

Definition a_topic : MetaValue := MTopic 1 0 (str "orders") (replicate 16 7) [0; 0].
Definition a_partition : MetaValue := MPartition 1 1 0 (replicate 16 7) [1; 2; 3].
Definition a_feature : MetaValue := MOther 1 12 0 [9].
Definition meta_record (v : MetaValue) : BatchRecord :=
  mkBatchRecord 0 0 0 (Some (str "k")) (Some (enc_meta v)) [(None, None); (Some [1], Some [2])].
Definition meta_batch (vs : list MetaValue) : Batch := mkBatch 0 0 7 0 1 1 (-1) (-1) (-1) (map meta_record vs).


Lemma parse_cluster_metadata_roundtrip_witness :
  parse_cluster_metadata (concat (map enc_batch [meta_batch [a_feature; a_topic]; meta_batch [a_partition]])) =
  Ok (mkClusterMetadata [mkTopicInfo (str "orders") (replicate 16 7) [0]]
        {[str "orders" := 0%nat]} {[replicate 16 7 := 0%nat]}).
Proof.
  assert (Forall2 batch_holds [meta_batch [a_feature; a_topic]; meta_batch [a_partition]]
            [[a_feature; a_topic]; [a_partition]]) as H by decide_now.
  etransitivity; [exact (parse_cluster_metadata_roundtrip _ _ H)|vm_compute; reflexivity].
Defined.
