(* ===== verification/MetadataHandler.v ===== *)
(** * Metadata requests (src/src/broker/metadata_handler.cpp)

    ApiVersions, DescribeTopicPartitions and Metadata, answered from the tables
    of [ClusterMetadata].  Indexing a vector past its end is undefined
    behaviour. *)

From stdpp Require Import sorting.
From S2P Require Import Prelude ByteReader Protocol Parser ClusterMetadata.

(** [v[i]] *)
Definition vector_at {A} (v : list A) (i : nat) : outcome A :=
  match v !! i with Some x => Ok x | None => Fault undefined_behaviour end.

Definition handle_api_versions (r : ApiVersionsRequest) : ApiVersionsResponse :=
  let version := api_version (avr_header r) in
  let error_code := if (0 <=? version) && (version <=? 4) then 0 else 35 in
  mkApiVersionsResponse (correlation_id (avr_header r)) error_code kSupportedApis 0.

Definition partition_entry (pid : Z) : PartitionMetadata :=
  mkPartitionMetadata 0 pid 1 0 [1] [1] [] [] [].

Definition build_topic_metadata (m : ClusterMetadata) (topic_name : bytes) : outcome TopicMetadata :=
  match name_to_topic m !! topic_name with
  | None => mret (mkTopicMetadata 3 topic_name (replicate 16 0) false 0 [])
  | Some i =>
      info ← vector_at (topics m) i;
      mret (mkTopicMetadata 0 topic_name (ti_uuid info) false 0 (map partition_entry (ti_partitions info)))
  end.

(** [std::string::operator<=]: bytes in order, then length. *)
Fixpoint bytes_leb (a b : bytes) : bool :=
  match a, b with
  | [], _ => true
  | _, [] => false
  | x :: a', y :: b' => if x <? y then true else if y <? x then false else bytes_leb a' b'
  end.

Definition topic_le (x y : TopicMetadata) : Prop := bytes_leb (tm_topic_name x) (tm_topic_name y) = true.

#[export] Instance topic_le_dec : RelDecision topic_le.
Proof. intros x y. unfold topic_le. apply _. Defined.

(** [std::ranges::sort(topics, {}, &TopicMetadata::topic_name)] *)
Definition sort_topics (ts : list TopicMetadata) : list TopicMetadata := merge_sort topic_le ts.

Definition handle_describe_topic_partitions (m : ClusterMetadata) (r : DescribeTopicPartitionsRequest)
    : outcome DescribeTopicPartitionsResponse :=
  ts ← mapM (build_topic_metadata m) (dtp_topic_names r);
  mret (mkDescribeTopicPartitionsResponse (correlation_id (dtp_header r)) 0 (sort_topics ts)).

Definition metadata_topic (tm : TopicMetadata) : MetadataTopicResponse :=
  mkMetadataTopicResponse (tm_error_code tm) (tm_topic_name tm) (tm_topic_id tm) (tm_is_internal tm)
    (tm_partitions tm) (tm_authorized_operations tm).

Definition handle_metadata (m : ClusterMetadata) (r : MetadataRequest) : outcome MetadataResponse :=
  let names := match mr_topics r with [] => map ti_name (topics m) | names => names end in
  ts ← mapM (build_topic_metadata m) names;
  mret (mkMetadataResponse (correlation_id (mr_header r)) 0
          [mkMetadataBroker 1 (str "localhost") 9092 []] (str "TinyKafka") 1 (map metadata_topic ts) 0).

(** ** Building one topic *)

Lemma vector_at_Some {A} (v : list A) i x : v !! i = Some x → vector_at v i = Ok x.
Proof. unfold vector_at. by intros ->. Qed.

(** What a topic entry says about the cluster. *)
Definition describes (m : ClusterMetadata) (name : bytes) (tm : TopicMetadata) : Prop :=
  tm_topic_name tm = name ∧
  ((tm_error_code tm = 0 ∧ ∃ t, t ∈ topics m ∧ ti_name t = name ∧ tm_topic_id tm = ti_uuid t ∧
      map pm_partition_index (tm_partitions tm) = ti_partitions t) ∨
   (tm_error_code tm = 3 ∧ (∀ t, t ∈ topics m → ti_name t ≠ name) ∧ tm_partitions tm = [])).

Lemma build_topic_metadata_ok m name :
  metadata_ok m → ∃ tm, build_topic_metadata m name = Ok tm ∧ describes m name tm.
Proof.
  intros [Hn _ Ht]. unfold build_topic_metadata, describes.
  destruct (name_to_topic m !! name) as [i|] eqn:E.
  - destruct (Hn _ _ E) as (t & Hi & Hname). rewrite (vector_at_Some _ _ _ Hi). eexists. split; [done|].
    split; [done|]. left. split; [done|]. exists t. cbn. split_and!; [by eapply list_elem_of_lookup_2|done..|].
    rewrite map_map. apply map_id.
  - eexists. split; [done|]. split; [done|]. right. split_and!; [done| |done].
    intros t Hin Hname. destruct (Ht t Hin) as [[j Hj] _]. congruence.
Qed.

Lemma mapM_build m names :
  metadata_ok m → ∃ ts, mapM (build_topic_metadata m) names = Ok ts ∧ Forall2 (describes m) names ts.
Proof.
  intros Hm. induction names as [|n names (ts & E & H)]; [by exists []|].
  destruct (build_topic_metadata_ok m n Hm) as (tm & Etm & Htm).
  exists (tm :: ts). split; [|by constructor]. cbn. by rewrite Etm, E.
Qed.

Lemma mapM_names m names ts :
  mapM (build_topic_metadata m) names = Ok ts →
  ∀ t, t ∈ ts → build_topic_metadata m (tm_topic_name t) = Ok t.
Proof.
  revert ts. induction names as [|n names IH]; intros ts; cbn.
  - intros [= <-]. set_solver.
  - intros (tm & E & (ts' & E' & [= <-])%outcome_bind_Ok)%outcome_bind_Ok t [->|Hin]%elem_of_cons.
    + assert (tm_topic_name tm = n) as ->; [|done]. unfold build_topic_metadata in E.
      destruct (name_to_topic m !! n); [|by injection E as <-].
      by apply outcome_bind_Ok in E as (i & _ & [= <-]).
    + by eapply IH.
Qed.

(** ** The order of names *)

Lemma bytes_leb_refl a : bytes_leb a a = true.
Proof. induction a as [|x a IH]; [done|]. cbn. by rewrite Z.ltb_irrefl. Qed.

Lemma bytes_leb_antisym a b : bytes_leb a b = true → bytes_leb b a = true → a = b.
Proof.
  revert b. induction a as [|x a IH]; intros [|y b]; cbn; try done.
  destruct (Z.ltb_spec x y), (Z.ltb_spec y x); try done; [lia|].
  intros H1 H2. f_equal; [lia|by apply IH].
Qed.

Lemma bytes_leb_trans a b c : bytes_leb a b = true → bytes_leb b c = true → bytes_leb a c = true.
Proof.
  revert b c. induction a as [|x a IH]; intros [|y b] [|z c]; cbn; try done.
  destruct (Z.ltb_spec x y), (Z.ltb_spec y x), (Z.ltb_spec y z), (Z.ltb_spec z y),
    (Z.ltb_spec x z), (Z.ltb_spec z x); try done; try lia. apply IH.
Qed.

Lemma bytes_leb_total a b : bytes_leb a b = true ∨ bytes_leb b a = true.
Proof.
  revert b. induction a as [|x a IH]; intros [|y b]; cbn; auto.
  destruct (Z.ltb_spec x y), (Z.ltb_spec y x); auto.
Qed.

#[export] Instance topic_le_total : Total topic_le.
Proof. intros x y. apply bytes_leb_total. Qed.
#[export] Instance topic_le_trans : Transitive topic_le.
Proof. intros x y z. apply bytes_leb_trans. Qed.

(** ** Properties *)

(** C31: a DescribeTopicPartitions request is always answered: one entry per
    requested name, sorted by name; an entry has error 0 with the id and the
    partitions of the topic of that name when there is one, and error 3
    otherwise.  Since the order of equal names cannot matter, any algorithm
    that sorts the entries gives this answer. *)
Theorem handle_describe_correct m r :
  metadata_ok m →
  ∃ ts, handle_describe_topic_partitions m r =
          Ok (mkDescribeTopicPartitionsResponse (correlation_id (dtp_header r)) 0 ts) ∧
    Sorted topic_le ts ∧
    (∃ us, us ≡ₚ ts ∧ Forall2 (describes m) (dtp_topic_names r) us ∧
      ∀ ts', Sorted topic_le ts' → ts' ≡ₚ us → ts' = ts).
Proof.
  intros Hm. destruct (mapM_build m (dtp_topic_names r) Hm) as (us & E & Hus).
  exists (sort_topics us). unfold handle_describe_topic_partitions. rewrite E. split; [done|].
  split; [apply Sorted_merge_sort, _|]. exists us. split; [symmetry; apply merge_sort_Permutation|].
  split; [done|]. intros ts' Hs Hp.
  apply (StronglySorted_unique_strong topic_le).
  - intros x y Hx Hy Hxy Hyx.
    assert (x ∈ us) as Hxu by (by rewrite <-Hp).
    assert (y ∈ us) as Hyu by (unfold sort_topics in Hy; by rewrite merge_sort_Permutation in Hy).
    pose proof (mapM_names _ _ _ E x Hxu) as Ex. pose proof (mapM_names _ _ _ E y Hyu) as Ey.
    assert (tm_topic_name x = tm_topic_name y) as En by (by apply bytes_leb_antisym).
    rewrite En in Ex. congruence.
  - by apply Sorted_StronglySorted; [apply _|].
  - apply Sorted_StronglySorted, Sorted_merge_sort; apply _.
  - rewrite Hp. symmetry. apply merge_sort_Permutation.
Qed.

(** A Metadata request without topics lists every topic of the cluster, in
    order and without errors; with topics it answers exactly those. *)
Theorem handle_metadata_correct m r :
  metadata_ok m →
  let names := match mr_topics r with [] => map ti_name (topics m) | names => names end in
  ∃ p ts, handle_metadata m r = Ok p ∧ mp_topics p = map metadata_topic ts ∧
    mp_correlation_id p = correlation_id (mr_header r) ∧
    Forall2 (describes m) names ts ∧
    (mr_topics r = [] → Forall (λ t, tm_error_code t = 0) ts).
Proof.
  intros Hm names. destruct (mapM_build m names Hm) as (ts & E & Hts).
  unfold handle_metadata. fold names. rewrite E. cbn.
  eexists _, ts. split_and!; [done..|].
  intros Hr. unfold names in Hts. rewrite Hr in Hts. clear E Hr names.
  assert (∀ us, (∀ t, t ∈ us → t ∈ topics m) → ∀ ts, Forall2 (describes m) (map ti_name us) ts →
    Forall (λ t, tm_error_code t = 0) ts) as H; [|by eapply (H (topics m))].
  clear ts Hts. induction us as [|t us IH]; intros Hin ts Hts; inversion Hts as [|? tm ? ts' Hd Hts']; subst; [constructor|].
  constructor; [|eapply IH; [set_solver|done]].
  destruct Hd as [_ [[? _]|(_ & Hno & _)]]; [done|]. exfalso. apply (Hno t); [apply Hin; set_solver|done].
Qed.

Definition a_cluster : ClusterMetadata :=
  build_metadata (mkCollected [mkRawTopic (str "orders") (replicate 16 7)]
    [mkRawPartition 0 (replicate 16 7); mkRawPartition 1 (replicate 16 7)]).

Lemma a_cluster_ok : metadata_ok a_cluster.
Proof. apply build_metadata_ok. Qed.

Definition a_describe : DescribeTopicPartitionsRequest :=
  mkDescribeTopicPartitionsRequest (mkRequestHeader 75 0 9) [str "x"; str "orders"].

Lemma handle_describe_correct_witness :
  ∃ ts, handle_describe_topic_partitions a_cluster a_describe = Ok (mkDescribeTopicPartitionsResponse 9 0 ts) ∧
    Sorted topic_le ts ∧ map tm_topic_name ts = [str "orders"; str "x"].
Proof.
  destruct (handle_describe_correct a_cluster a_describe a_cluster_ok) as (ts & E & Hs & _).
  exists ts. split; [exact E|]. split; [exact Hs|]. vm_compute in E. injection E as <-. reflexivity.
Defined.

Lemma handle_metadata_correct_witness :
  ∃ p ts, handle_metadata a_cluster (mkMetadataRequest (mkRequestHeader 3 0 9) [] false) = Ok p ∧
    mp_topics p = map metadata_topic ts ∧ Forall (λ t, tm_error_code t = 0) ts.
Proof.
  destruct (handle_metadata_correct a_cluster (mkMetadataRequest (mkRequestHeader 3 0 9) [] false) a_cluster_ok)
    as (p & ts & E & Ht & _ & _ & H). exists p, ts. split_and!; [exact E|exact Ht|exact (H eq_refl)].
Defined.

(** The advertised APIs are exactly the request kinds the broker has, every
    other key is rejected by the parser, and an ApiVersions request is accepted
    exactly for the versions advertised for it. *)
Theorem supported_apis_exact k :
  (k ∈ map ave_api_key kSupportedApis ↔ ∃ q, request_api_key q = k) ∧
  (k ∉ map ave_api_key kSupportedApis → ∀ h, parse_body k h = failed function_not_supported) ∧
  (∀ r, avp_error_code (handle_api_versions r) = 0 ↔
        ∃ e, e ∈ kSupportedApis ∧ ave_api_key e = 18 ∧
             ave_min_version e ≤ api_version (avr_header r) ≤ ave_max_version e).
Proof.
  assert (k ∈ map ave_api_key kSupportedApis ↔
    k = 0 ∨ k = 1 ∨ k = 2 ∨ k = 3 ∨ k = 8 ∨ k = 9 ∨ k = 10 ∨ k = 11 ∨ k = 12 ∨ k = 13 ∨ k = 14 ∨ k = 18 ∨ k = 75) as Hk
    by (cbn; set_solver).
  split_and!.
  - rewrite Hk. split.
    + set (h := mkRequestHeader 0 0 0).
      intros H. repeat destruct H as [->|H]; [..|subst k];
        [by exists (ReqProduce (mkProduceRequest h []))|by exists (ReqFetch (mkFetchRequest h [] 0))
        |by exists (ReqListOffsets (mkListOffsetsRequest h 0 0 []))|by exists (ReqMetadata (mkMetadataRequest h [] false))
        |by exists (ReqOffsetCommit (mkOffsetCommitRequest h [] [] 0 []))
        |by exists (ReqOffsetFetch (mkOffsetFetchRequest h [] []))
        |by exists (ReqFindCoordinator (mkFindCoordinatorRequest h [] 0))
        |by exists (ReqJoinGroup (mkJoinGroupRequest h [] 0 [] [] []))
        |by exists (ReqHeartbeat (mkHeartbeatRequest h [] 0 [] []))
        |by exists (ReqLeaveGroup (mkLeaveGroupRequest h [] []))
        |by exists (ReqSyncGroup (mkSyncGroupRequest h [] 0 [] []))
        |by exists (ReqApiVersions (mkApiVersionsRequest h))
        |by exists (ReqDescribeTopicPartitions (mkDescribeTopicPartitionsRequest h []))].
    + intros [q <-]. destruct q; cbn; lia.
  - rewrite Hk. intros Hn h. unfold parse_body.
    repeat (case_match; try done); subst; exfalso; apply Hn; lia.
  - intros r. unfold handle_api_versions. cbn [avp_error_code].
    set (v := api_version (avr_header r)). split.
    + intros H. exists (mkApiVersionEntry 18 0 4). split_and!; [cbn; set_solver|done|..];
        cbn; destruct (Z.leb_spec 0 v), (Z.leb_spec v 4); cbn in H; lia.
    + intros (e & He & H18 & Hv). destruct (Z.leb_spec 0 v), (Z.leb_spec v 4); [done|exfalso..];
        unfold kSupportedApis in He;
        repeat (apply elem_of_cons in He as [->|He]; [cbn in *; lia|]); by apply elem_of_nil in He.
Qed.
