(* ===== verification/RecordHandler.v ===== *)
(** * Produce, fetch and list-offsets requests (src/src/broker/record_handler.cpp)

    The handler looks a topic up in the cluster metadata and works on the
    partition contexts of its reactor, which it creates on first use.  What the
    system calls of the [n]-th operation on a partition return is decided by a
    [kernel], which sees the operating-system state (to choose descriptors). *)

From S2P Require Import Prelude Protocol RecordBatch Storage PartitionContext ClusterMetadata MetadataHandler.

(** ** State and effects *)

Record RecordHandler := mkRecordHandler {
  metadata_ : ClusterMetadata;
  log_root_ : bytes;
  rh_segment_bytes_ : Z;
  rh_ring_ : bool }.

(** The contexts of a reactor (shared by reference with the handler), the
    operating system, and the number of operations done. *)
Record Store := mkStore {
  partition_contexts_ : gmap bytes PartitionContext;
  st_os : OS;
  st_calls : nat }.

Abbreviation Kernel := (nat → OS → Env).

Definition handler (A : Type) : Type := Store → outcome (A * Store).

#[export] Instance handler_ret : MRet handler := λ A a s, Ok (a, s).
#[export] Instance handler_bind : MBind handler := λ A B k m s, '(a, s') ← m s; k a s'.

Definition lift {A} (m : outcome A) : handler A := λ s, a ← m; Ok (a, s).

(** ** Operations *)

Definition topic_of (m : ClusterMetadata) (i : option nat) : outcome (option TopicInfo) :=
  match i with
  | None => mret None
  | Some i => t ← vector_at (topics m) i; mret (Some t)
  end.

Definition find_topic_by_name (h : RecordHandler) (name : bytes) : outcome (option TopicInfo) :=
  topic_of (metadata_ h) (name_to_topic (metadata_ h) !! name).

Definition find_topic_by_uuid (h : RecordHandler) (id : bytes) : outcome (option TopicInfo) :=
  topic_of (metadata_ h) (uuid_to_topic (metadata_ h) !! id).

Definition context_key (topic_name : bytes) (partition : Z) : bytes :=
  topic_name ++ str ":" ++ to_string partition.

(** [try_emplace]: an existing context is kept. *)
Definition get_or_create_context (h : RecordHandler) (topic_name : bytes) (partition : Z)
    : handler PartitionContext := λ s,
  match partition_contexts_ s !! context_key topic_name partition with
  | Some c => Ok (c, s)
  | None =>
      let c := new_context (log_root_ h) topic_name partition (rh_segment_bytes_ h) (rh_ring_ h) in
      Ok (c, mkStore (<[context_key topic_name partition := c]> (partition_contexts_ s)) (st_os s) (st_calls s))
  end.

(** A member function called through the reference to the context. *)
Definition call_context {A} (kernel : Kernel) (topic_name : bytes) (partition : Z) (c : PartitionContext)
    (f : Env → PartitionContext → OS → outcome (A * PartitionContext * OS)) : handler A := λ s,
  '(a, c', os') ← f (kernel (st_calls s) (st_os s)) c (st_os s);
  Ok (a, mkStore (<[context_key topic_name partition := c']> (partition_contexts_ s)) os' (S (st_calls s))).

(** [info && std::ranges::find(info->partitions, i) != info->partitions.end()] *)
Definition has_partition (info : option TopicInfo) (i : Z) : bool :=
  match info with
  | Some t => bool_decide (i ∈ ti_partitions t)
  | None => false
  end.

Definition list_offsets_partition (h : RecordHandler) (topic_name : bytes) (info : option TopicInfo)
    (part_req : ListOffsetsPartitionRequest) : handler ListOffsetsPartitionResponse :=
  let i := lopr_partition_index part_req in
  '(error_code, offset) ←
    (if has_partition info i then
       if lopr_timestamp part_req =? -2 then mret (0, 0)
       else if lopr_timestamp part_req =? -1 then
         ctx ← get_or_create_context h topic_name i;
         mret (0, current_offset ctx)
       else mret (-1, -1)
     else mret (3, -1));
  mret (mkListOffsetsPartitionResponse i error_code offset (-1)).

Definition list_offsets_topic (h : RecordHandler) (topic_req : ListOffsetsTopicRequest)
    : handler ListOffsetsTopicResponse :=
  info ← lift (find_topic_by_name h (lotr_topic_name topic_req));
  parts ← mapM (list_offsets_partition h (lotr_topic_name topic_req) info) (lotr_partitions topic_req);
  mret (mkListOffsetsTopicResponse (lotr_topic_name topic_req) parts).

Definition handle_list_offsets (h : RecordHandler) (r : ListOffsetsRequest) : handler ListOffsetsResponse :=
  topic_responses ← mapM (list_offsets_topic h) (lor_topics r);
  mret (mkListOffsetsResponse (correlation_id (lor_header r)) 0 topic_responses).

Definition produce_partition (kernel : Kernel) (h : RecordHandler) (topic_name : bytes)
    (info : option TopicInfo) (part_req : ProducePartitionRequest) : handler ProducePartitionResponse :=
  let i := ppr_partition_index part_req in
  if has_partition info i then
    match ppr_records part_req with
    | [] => mret (mkProducePartitionResponse i 0 0 (-1) 0)
    | records =>
        ctx ← get_or_create_context h topic_name i;
        result ← call_context kernel topic_name i ctx (λ env, produce env records);
        if base_offset result <? 0
        then mret (mkProducePartitionResponse i 56 (base_offset result) (log_append_time_ms result) (-1))
        else mret (mkProducePartitionResponse i 0 (base_offset result) (log_append_time_ms result) 0)
    end
  else mret (mkProducePartitionResponse i 3 (-1) (-1) (-1)).

Definition produce_topic (kernel : Kernel) (h : RecordHandler) (topic_req : ProduceTopicRequest)
    : handler ProduceTopicResponse :=
  info ← lift (find_topic_by_name h (ptr_topic_name topic_req));
  parts ← mapM (produce_partition kernel h (ptr_topic_name topic_req) info) (ptr_partitions topic_req);
  mret (mkProduceTopicResponse (ptr_topic_name topic_req) parts).

Definition handle_produce (kernel : Kernel) (h : RecordHandler) (r : ProduceRequest) : handler ProduceResponse :=
  topic_responses ← mapM (produce_topic kernel h) (pr_topics r);
  mret (mkProduceResponse (correlation_id (pr_header r)) 0 topic_responses).

(** What one partition of a fetch returns: the bytes, or where to splice from. *)
Definition fetch_context (fetch_offset max_bytes : Z) (env : Env) (c : PartitionContext) (os : OS)
    : outcome (bytes * SpliceInfo * PartitionContext * OS) :=
  let offset := if 0 <? fetch_offset then fetch_offset else 0 in
  let mb := if 0 <? max_bytes then max_bytes else 1048576 in
  let si := splice_info offset mb c in
  if 0 <=? si_fd si then mret ([], si, c, os)
  else if (0 <? fetch_offset) || (0 <? max_bytes) then
    '(records, c', os') ← fetch env fetch_offset max_bytes c os;
    mret (records, no_splice, c', os')
  else
    records ← fetch_all env c os;
    mret (records, no_splice, c, os).

Definition fetch_partition (kernel : Kernel) (h : RecordHandler) (info : TopicInfo)
    (part_req : FetchPartitionRequest) : handler FetchPartitionResponse :=
  let i := fpr_partition_index part_req in
  ctx ← get_or_create_context h (ti_name info) i;
  '(records, si) ← call_context kernel (ti_name info) i ctx
                     (fetch_context (fpr_fetch_offset part_req) (fpr_max_bytes part_req));
  mret (mkFetchPartitionResponse i 0 records (si_fd si) (si_file_offset si) (si_length si)).

Definition fetch_topic (kernel : Kernel) (h : RecordHandler) (topic_req : FetchTopicRequest)
    : handler FetchTopicResponse :=
  info ← lift (find_topic_by_uuid h (ftr_topic_id topic_req));
  match info with
  | Some info =>
      parts ← mapM (fetch_partition kernel h info) (ftr_partitions topic_req);
      mret (mkFetchTopicResponse (ftr_topic_id topic_req) parts)
  | None =>
      mret (mkFetchTopicResponse (ftr_topic_id topic_req) [mkFetchPartitionResponse 0 100 [] (-1) 0 0])
  end.

Definition handle_fetch (kernel : Kernel) (h : RecordHandler) (r : FetchRequest) : handler FetchResponse :=
  topic_responses ← mapM (fetch_topic kernel h) (fr_topics r);
  mret (mkFetchResponse (correlation_id (fr_header r)) 0 0 0 topic_responses).
