(* ===== verification/RecordProperties.v ===== *)
(** * The record handler implements a map of logs

    The abstract state of the broker's data path is a map from (topic,
    partition) to the list of batches produced to it.  [store_inv] relates it to
    the partition contexts and the files; the theorems show that produce
    appends to the named logs only, and that list-offsets and fetch read them.
    They are proved against the interface [LogStore]. *)

From S2P Require Import Prelude Protocol RecordBatch Storage PartitionContext PartitionProperties RingProperties LogStore.
From S2P Require Import ClusterMetadata MetadataHandler RecordHandler.

(** ** Names *)

(** Two partitions never share a context ... *)
Lemma context_key_inj t p t' p' : context_key t p = context_key t' p' → t = t' ∧ p = p'.
Proof.
  assert (∀ z, 58 ∉ to_string z) as H.
  { intros z Hin. pose proof (to_string_chars z) as Hc. rewrite Forall_forall in Hc. specialize (Hc _ Hin). lia. }
  unfold context_key. intros [-> E]%(app_separator_inj 58); [|done..]. by apply to_string_inj in E.
Qed.

(** ... nor, when their numbers are not negative, a directory. *)
Lemma dir_path_inj root t p t' p' :
  0 ≤ p → 0 ≤ p' →
  dir_path (mkPartitionLog root t p) = dir_path (mkPartitionLog root t' p') → t = t' ∧ p = p'.
Proof.
  assert (∀ z, 0 ≤ z → 45 ∉ to_string z) as H.
  { intros z Hz Hin. pose proof (to_string_digits z Hz) as Hc. rewrite Forall_forall in Hc. specialize (Hc _ Hin). lia. }
  intros Hp Hp'. unfold dir_path. cbn [pl_log_root pl_topic_name pl_partition].
  intros [-> E]%app_inv_head%(app_inv_head (str "/"))%(app_separator_inj 45); [|by apply H..].
  by apply to_string_inj in E.
Qed.

(** ** The abstract state *)

Abbreviation Logs := (gmap (bytes * Z) (list Batch)).

Definition log_of (logs : Logs) (t : bytes) (p : Z) : list Batch := default [] (logs !! (t, p)).

Lemma log_of_insert logs t p bs : log_of (<[(t, p) := bs]> logs) t p = bs.
Proof. unfold log_of. by rewrite lookup_insert_eq. Qed.
Lemma log_of_insert_ne logs t p t' p' bs :
  (t, p) ≠ (t', p') → log_of (<[(t, p) := bs]> logs) t' p' = log_of logs t' p'.
Proof. intros. unfold log_of. by rewrite lookup_insert_ne. Qed.

Lemma log_of_insert_same logs t p t' p' : log_of (<[(t, p) := log_of logs t p]> logs) t' p' = log_of logs t' p'.
Proof.
  destruct (decide ((t, p) = (t', p'))) as [[= <- <-]|]; [by rewrite log_of_insert|by rewrite log_of_insert_ne].
Qed.

Definition topic_info (m : ClusterMetadata) (i : option nat) : option TopicInfo := i ≫= (topics m !!.).

(** A produce request as the batches it carries: for each topic and partition
    one batch, or nothing. *)
Abbreviation Batches := (list (bytes * list (Z * option Batch))).

Definition batches_ok (a : Batches) : Prop :=
  Forall (λ '(_, ps), Forall (λ '(_, ob), ∀ b, ob = Some b → batch_ok b) ps) a.

Definition part_records (ps : list (Z * option Batch)) : Z :=
  zsum (λ '(_, ob), match ob with Some b => zlen (batch_values b) | None => 0 end) ps.
Definition request_records (a : Batches) : Z := zsum (λ '(_, ps), part_records ps) a.

Definition enc_produce_partition (x : Z * option Batch) : ProducePartitionRequest :=
  mkProducePartitionRequest x.1 (match x.2 with Some b => enc_batch b | None => [] end).
Definition enc_produce_topic (x : bytes * list (Z * option Batch)) : ProduceTopicRequest :=
  mkProduceTopicRequest x.1 (map enc_produce_partition x.2).

(** ** The specification *)

Section spec.
Context (m : ClusterMetadata).

(** A batch for a known partition is appended at the end of its log. *)
Fixpoint spec_produce_partitions (logs : Logs) (t : bytes) (ps : list (Z * option Batch))
    : list (Z * Z * Z) * Logs :=
  match ps with
  | [] => ([], logs)
  | (p, ob) :: ps' =>
      let '(answer, logs1) :=
        if has_partition (topic_info m (name_to_topic m !! t)) p then
          match ob with
          | Some b => ((p, 0, nrecords (log_of logs t p)), <[(t, p) := log_of logs t p ++ [b]]> logs)
          | None => ((p, 0, 0), logs)
          end
        else ((p, 3, -1), logs) in
      let '(answers, logs2) := spec_produce_partitions logs1 t ps' in
      (answer :: answers, logs2)
  end.

Fixpoint spec_produce (logs : Logs) (a : Batches) : list (bytes * list (Z * Z * Z)) * Logs :=
  match a with
  | [] => ([], logs)
  | (t, ps) :: a' =>
      let '(answers, logs1) := spec_produce_partitions logs t ps in
      let '(rest, logs2) := spec_produce logs1 a' in
      ((t, answers) :: rest, logs2)
  end.

Definition spec_list_offsets_partition (logs : Logs) (t : bytes) (q : ListOffsetsPartitionRequest)
    : ListOffsetsPartitionResponse :=
  let p := lopr_partition_index q in
  if has_partition (topic_info m (name_to_topic m !! t)) p then
    if lopr_timestamp q =? -2 then mkListOffsetsPartitionResponse p 0 0 (-1)
    else if lopr_timestamp q =? -1 then mkListOffsetsPartitionResponse p 0 (nrecords (log_of logs t p)) (-1)
    else mkListOffsetsPartitionResponse p (-1) (-1) (-1)
  else mkListOffsetsPartitionResponse p 3 (-1) (-1).

Definition spec_list_offsets (logs : Logs) (r : ListOffsetsRequest) : ListOffsetsResponse :=
  mkListOffsetsResponse (correlation_id (lor_header r)) 0
    (map (λ t, mkListOffsetsTopicResponse (lotr_topic_name t)
            (map (spec_list_offsets_partition logs (lotr_topic_name t)) (lotr_partitions t))) (lor_topics r)).
End spec.

(** What the answer to a produce request says: index, error and base offset. *)
Definition produce_answers (ps : list ProducePartitionResponse) : list (Z * Z * Z) :=
  map (λ p, (ppp_partition_index p, ppp_error_code p, ppp_base_offset p)) ps.
Definition produce_view (r : ProduceResponse) : list (bytes * list (Z * Z * Z)) :=
  map (λ t, (ptp_topic_name t, produce_answers (ptp_partitions t))) (pp_responses r).

(** ** The relation *)

Definition plog (h : RecordHandler) (t : bytes) (p : Z) : PartitionLog := mkPartitionLog (log_root_ h) t p.

Definition store_inv (h : RecordHandler) `{LogStore (rh_segment_bytes_ h)} (logs : Logs) (s : Store) : Prop :=
  ∀ t p, 0 ≤ p →
    match partition_contexts_ s !! context_key t p with
    | Some c => holds (plog h t p) (log_of logs t p) c (st_os s)
    | None => log_of logs t p = [] ∧ clean (plog h t p) (settle (st_os s))
    end.

(** System calls succeed, descriptors are fresh and the ring has a free entry. *)
Definition good_kernel (kernel : Kernel) : Prop :=
  ∀ n os, good_env (kernel n os) os ∧ env_sqe (kernel n os) = true.

(** No topic of the cluster has a negative partition number. *)
Definition partitions_ok (m : ClusterMetadata) : Prop :=
  Forall (λ t, Forall (λ p, 0 ≤ p) (ti_partitions t)) (topics m).

Lemma has_partition_nonneg m i p : partitions_ok m → has_partition (topic_info m i) p = true → 0 ≤ p.
Proof.
  intros Hm. destruct (topic_info m i) as [t|] eqn:E; [|done]. cbn. intros Hp%bool_decide_eq_true.
  apply bind_Some in E as (j & _ & E). unfold partitions_ok in Hm. rewrite Forall_forall in Hm.
  apply list_elem_of_lookup_2, Hm in E. rewrite Forall_forall in E. auto.
Qed.

Section handler.
Context (h : RecordHandler) `{LogStore (rh_segment_bytes_ h)} (kernel : Kernel).
Context (Hkernel : good_kernel kernel) (Hring : rh_ring_ h = true) (Hmeta : metadata_ok (metadata_ h)).
Context (Hparts : partitions_ok (metadata_ h)).

Lemma bind_step {A B} (f : handler A) (k : A → handler B) s a s' :
  f s = Ok (a, s') → (f ≫= k) s = k a s'.
Proof. intros E. unfold mbind, handler_bind. by rewrite E. Qed.

Lemma topic_of_ok i :
  (∀ j, i = Some j → ∃ t, topics (metadata_ h) !! j = Some t) →
  topic_of (metadata_ h) i = Ok (topic_info (metadata_ h) i).
Proof.
  intros Hi. destruct i as [j|]; [|done]. destruct (Hi j eq_refl) as [t Ht]. cbn.
  by rewrite (vector_at_Some _ _ _ Ht), Ht.
Qed.

Lemma find_by_name t :
  find_topic_by_name h t = Ok (topic_info (metadata_ h) (name_to_topic (metadata_ h) !! t)).
Proof. apply topic_of_ok. intros j Hj. destruct (ok_names _ Hmeta _ _ Hj) as (x & ? & _). by exists x. Qed.

Lemma find_by_uuid u :
  find_topic_by_uuid h u = Ok (topic_info (metadata_ h) (uuid_to_topic (metadata_ h) !! u)).
Proof. apply topic_of_ok. intros j Hj. destruct (ok_uuids _ Hmeta _ _ Hj) as (x & ? & _). by exists x. Qed.

Lemma get_context_ok logs s t p :
  store_inv h logs s → 0 ≤ p →
  ∃ c s', get_or_create_context h t p s = Ok (c, s') ∧ store_inv h logs s' ∧
    holds (plog h t p) (log_of logs t p) c (st_os s') ∧ st_os s' = st_os s.
Proof.
  intros Hs Hp. unfold get_or_create_context. pose proof (Hs t p Hp) as Hc.
  destruct (partition_contexts_ s !! context_key t p) as [c|] eqn:E; [by exists c, s|].
  destruct Hc as [Hlog Hclean]. eexists _, _.
  assert (holds (plog h t p) (log_of logs t p)
    (new_context (log_root_ h) t p (rh_segment_bytes_ h) (rh_ring_ h)) (st_os s)) as Hnew.
  { rewrite Hlog, Hring. apply (holds_new (plog h t p)). done. }
  split_and!; [done| |done..]. intros t' p' Hp'. cbn.
  destruct (decide (context_key t p = context_key t' p')) as [Ek|Ek].
  - apply context_key_inj in Ek as [<- <-]. by rewrite lookup_insert_eq.
  - rewrite lookup_insert_ne by done. by apply Hs.
Qed.

(** An operation on one partition changes only its log. *)
Lemma call_context_ok {A} logs s t p c f (a : A) c' os' bs' :
  store_inv h logs s → 0 ≤ p →
  f (kernel (st_calls s) (st_os s)) c (st_os s) = Ok (a, c', os') →
  holds (plog h t p) bs' c' os' → frame (plog h t p) (settle (st_os s)) (settle os') →
  ∃ s', call_context kernel t p c f s = Ok (a, s') ∧ store_inv h (<[(t, p) := bs']> logs) s' ∧ st_os s' = os'.
Proof.
  intros Hs Hp Hf Hh Hframe. unfold call_context. rewrite Hf. eexists. split_and!; [done| |done].
  intros t' p' Hp'. cbn. destruct (decide ((t, p) = (t', p'))) as [[= <- <-]|Hne].
  - by rewrite lookup_insert_eq, log_of_insert.
  - assert (context_key t p ≠ context_key t' p') as Hk by (intros [-> ->]%context_key_inj; done).
    rewrite lookup_insert_ne, log_of_insert_ne by done.
    assert (dir_path (plog h t' p') ≠ dir_path (plog h t p)) as Hd by (intros [-> ->]%dir_path_inj; done).
    specialize (Hs t' p' Hp'). destruct (partition_contexts_ s !! _).
    + by eapply holds_frame.
    + destruct Hs as [Hl Hc]. split; [done|]. intros q Hq. rewrite (proj1 Hframe); [by apply Hc|]. congruence.
Qed.

Lemma store_inv_same logs s t p : store_inv h (<[(t, p) := log_of logs t p]> logs) s → store_inv h logs s.
Proof. intros Hs t' p' Hp'. specialize (Hs t' p' Hp'). by rewrite log_of_insert_same in Hs. Qed.

(** *** Produce *)

Definition room (logs : Logs) (n : Z) : Prop := ∀ t p, nrecords (log_of logs t p) + n < 2 ^ 63.

Lemma produce_partition_ok logs s t p ob :
  store_inv h logs s → (∀ b, ob = Some b → batch_ok b) → room logs (part_records [(p, ob)]) →
  let '(answer, logs') := spec_produce_partitions (metadata_ h) logs t [(p, ob)] in
  ∃ r s', produce_partition kernel h t (topic_info (metadata_ h) (name_to_topic (metadata_ h) !! t))
            (enc_produce_partition (p, ob)) s = Ok (r, s') ∧
    produce_answers [r] = answer ∧ store_inv h logs' s' ∧
    ∀ n, room logs (part_records [(p, ob)] + n) → room logs' n.
Proof.
  intros Hs Hb Hroom. cbn [spec_produce_partitions]. unfold produce_partition.
  cbn [enc_produce_partition ppr_partition_index ppr_records fst snd].
  destruct (has_partition _ p) eqn:Hhas; [apply has_partition_nonneg in Hhas as Hp; [|done]|eexists _, _; split_and!; [done..|intros n Hn t' p'; specialize (Hn t' p'); destruct ob; cbn in Hn; zlia]].
  destruct ob as [b|].
  2:{ eexists _, _. split_and!; [done..|]. intros n Hn t' p'. specialize (Hn t' p'). cbn in Hn. lia. }
  destruct (get_context_ok logs s t p Hs Hp) as (c & s1 & Eget & Hs1 & Hh & _).
  specialize (Hroom t p) as Hr. cbn in Hr.
  destruct (holds_produce (plog h t p) (log_of logs t p) c (st_os s1)
    (kernel (st_calls s1) (st_os s1)) b Hh (Hb b eq_refl) (proj1 (Hkernel _ _)) (proj2 (Hkernel _ _))) as (c' & os' & Ep & Hh' & Hf).
  { rewrite nrecords_app, nrecords_one. pose proof (nrecords_nonneg (log_of logs t p)).
    pose proof (zlen_nonneg (batch_values b)). unfold in_int. lia. }
  destruct (call_context_ok logs s1 t p c (λ env, produce env (enc_batch b)) _ c' os' _ Hs1 Hp Ep Hh' Hf)
    as (s2 & Ecall & Hs2 & _).
  pose proof (enc_batch_pos b) as Hpos. destruct (enc_batch b) as [|x xs] eqn:Eb; [done|].
  rewrite (bind_step _ _ _ _ _ Eget), (bind_step _ _ _ _ _ Ecall). cbn [base_offset].
  pose proof (nrecords_nonneg (log_of logs t p)).
  destruct (Z.ltb_spec (nrecords (log_of logs t p)) 0); [lia|].
  eexists _, _. split_and!; [done|done|done|]. intros n Hn t' p'. specialize (Hn t' p'). cbn in Hn.
  destruct (decide ((t, p) = (t', p'))) as [[= <- <-]|].
  - rewrite log_of_insert, nrecords_app, nrecords_one. lia.
  - rewrite log_of_insert_ne by done. pose proof (zlen_nonneg (batch_values b)). lia.
Qed.

Lemma produce_partitions_ok ps logs s t :
  store_inv h logs s → Forall (λ '(_, ob), ∀ b, ob = Some b → batch_ok b) ps →
  room logs (part_records ps) →
  let '(answers, logs') := spec_produce_partitions (metadata_ h) logs t ps in
  ∃ rs s', mapM (produce_partition kernel h t (topic_info (metadata_ h) (name_to_topic (metadata_ h) !! t)))
             (map enc_produce_partition ps) s = Ok (rs, s') ∧
    produce_answers rs = answers ∧ store_inv h logs' s' ∧
    ∀ n, room logs (part_records ps + n) → room logs' n.
Proof.
  intros Hs Hok. revert logs s Hs. induction Hok as [|[p ob] ps Hb _ IH]; intros logs s Hs Hroom.
  { cbn. eexists [], s. split_and!; done. }
  assert (∀ n, part_records ((p, ob) :: ps) + n = part_records [(p, ob)] + (part_records ps + n)) as Hsum.
  { intros n. unfold part_records, zsum. cbn [foldr]. lia. }
  assert (0 ≤ part_records ps) as Hnn.
  { apply zsum_nonneg. intros [? [b|]]; [apply zlen_nonneg|done]. }
  pose proof (produce_partition_ok logs s t p ob Hs Hb) as H1.
  pose proof (Hsum 0) as Hsum0. rewrite !Z.add_0_r in Hsum0. rewrite Hsum0 in Hroom.
  cbn [spec_produce_partitions] in *.
  destruct (if has_partition _ p then _ else _) as [answer logs1].
  destruct H1 as (r & s1 & E1 & Ha & Hs1 & Hr1).
  { intros t' p'. specialize (Hroom t' p'). lia. }
  specialize (IH logs1 s1 Hs1 (Hr1 _ Hroom)).
  destruct (spec_produce_partitions _ logs1 t ps) as [answers logs2].
  destruct IH as (rs & s2 & E2 & Has & Hs2 & Hr2).
  exists (r :: rs), s2. split_and!; [|cbn; by injection Ha as ->; rewrite <-Has|done|].
  - cbn [map mapM]. rewrite (bind_step _ _ _ _ _ E1). by rewrite (bind_step _ _ _ _ _ E2).
  - intros n Hn. rewrite Hsum in Hn. auto.
Qed.

Lemma produce_topics_ok a logs s :
  store_inv h logs s → batches_ok a → room logs (request_records a) →
  let '(answers, logs') := spec_produce (metadata_ h) logs a in
  ∃ rs s', mapM (produce_topic kernel h) (map enc_produce_topic a) s = Ok (rs, s') ∧
    map (λ t, (ptp_topic_name t, produce_answers (ptp_partitions t))) rs = answers ∧ store_inv h logs' s'.
Proof.
  intros Hs Hok. revert logs s Hs. induction Hok as [|[t ps] a Hps _ IH]; intros logs s Hs Hroom.
  { by exists [], s. }
  cbn [spec_produce]. pose proof (produce_partitions_ok ps logs s t Hs Hps) as H1.
  assert (0 ≤ request_records a) as Hnn.
  { apply zsum_nonneg. intros [? ps']. apply zsum_nonneg. intros [? [b|]]; [apply zlen_nonneg|done]. }
  change (request_records ((t, ps) :: a)) with (part_records ps + request_records a) in Hroom.
  destruct (spec_produce_partitions _ logs t ps) as [answers logs1].
  destruct H1 as (rs & s1 & E1 & Ha & Hs1 & Hr1).
  { intros t' p'. specialize (Hroom t' p'). lia. }
  specialize (IH logs1 s1 Hs1 (Hr1 _ Hroom)). destruct (spec_produce _ logs1 a) as [rest logs2].
  destruct IH as (rs' & s2 & E2 & Ha2 & Hs2).
  exists (mkProduceTopicResponse t rs :: rs'), s2. split_and!; [|cbn [map ptp_topic_name ptp_partitions]; by rewrite Ha, Ha2|done].
  cbn [map mapM]. assert (produce_topic kernel h (enc_produce_topic (t, ps)) s =
    Ok (mkProduceTopicResponse t rs, s1)) as E.
  { unfold produce_topic, lift. cbn [ptr_topic_name enc_produce_topic fst snd ptr_partitions].
    rewrite find_by_name. unfold mbind at 1, handler_bind at 1. cbn [mbind outcome_bind].
    by rewrite (bind_step _ _ _ _ _ E1). }
  rewrite (bind_step _ _ _ _ _ E). by rewrite (bind_step _ _ _ _ _ E2).
Qed.

(** *** List offsets *)

Lemma list_offsets_partition_ok logs s t q :
  store_inv h logs s →
  ∃ s', list_offsets_partition h t (topic_info (metadata_ h) (name_to_topic (metadata_ h) !! t)) q s =
        Ok (spec_list_offsets_partition (metadata_ h) logs t q, s') ∧ store_inv h logs s' ∧ st_os s' = st_os s.
Proof.
  intros Hs. unfold list_offsets_partition, spec_list_offsets_partition.
  destruct (has_partition _ _) eqn:Hhas; [apply has_partition_nonneg in Hhas as Hp; [|done]|by exists s].
  destruct (_ =? -2); [by exists s|].
  destruct (_ =? -1); [|by exists s].
  destruct (get_context_ok logs s t _ Hs Hp) as (c & s' & E & Hs' & Hh & Ho).
  exists s'. split; [|done]. unfold mbind at 1, handler_bind at 1.
  rewrite (bind_step _ _ _ _ _ E). cbn. by rewrite (holds_offset _ _ _ _ Hh).
Qed.

(** A loop whose body keeps the invariant, at most opens files and answers as
    [R] says, which later openings leave true. *)
Lemma mapM_rel {X Y} (f : X → handler Y) (R : OS → X → Y → Prop) logs l s :
  (∀ os os' x y, R os x y → extends os os' → R os' x y) →
  (∀ x s1, x ∈ l → store_inv h logs s1 → extends (st_os s) (st_os s1) →
     ∃ y s2, f x s1 = Ok (y, s2) ∧ store_inv h logs s2 ∧ extends (st_os s1) (st_os s2) ∧ R (st_os s2) x y) →
  store_inv h logs s →
  ∃ ys s', mapM f l s = Ok (ys, s') ∧ store_inv h logs s' ∧ extends (st_os s) (st_os s') ∧
    Forall2 (R (st_os s')) l ys.
Proof.
  intros HR. revert s. induction l as [|x l IH]; intros s Hf Hs; [by exists [], s|].
  destruct (Hf x s) as (y & s1 & E1 & Hs1 & Hx1 & Hy); [by left|done|done|].
  destruct (IH s1) as (ys & s2 & E2 & Hs2 & Hx2 & Hys); [|done|].
  { intros x' s2 Hx' Hs2 Hx2. apply Hf; [by right|done|by etrans]. }
  exists (y :: ys), s2. split_and!; [|done|by etrans|constructor; [by eapply HR|done]].
  cbn [map mapM]. by rewrite (bind_step _ _ _ _ _ E1), (bind_step _ _ _ _ _ E2).
Qed.

Lemma mapM_inv {X Y} (f : X → handler Y) (g : X → Y) logs l s :
  (∀ x s, x ∈ l → store_inv h logs s → ∃ s', f x s = Ok (g x, s') ∧ store_inv h logs s' ∧ st_os s' = st_os s) →
  store_inv h logs s → ∃ s', mapM f l s = Ok (map g l, s') ∧ store_inv h logs s' ∧ st_os s' = st_os s.
Proof.
  intros Hf. revert s. induction l as [|x l IH]; intros s Hs; [by exists s|].
  destruct (Hf x s) as (s1 & E1 & Hs1 & Ho1); [by left|done|].
  destruct (IH ltac:(intros; apply Hf; [by right|done]) s1 Hs1) as (s2 & E2 & Hs2 & Ho2).
  exists s2. split_and!; [|done|congruence].
  cbn [map mapM]. by rewrite (bind_step _ _ _ _ _ E1), (bind_step _ _ _ _ _ E2).
Qed.

Lemma list_offsets_ok logs s r :
  store_inv h logs s →
  ∃ s', handle_list_offsets h r s = Ok (spec_list_offsets (metadata_ h) logs r, s') ∧ store_inv h logs s' ∧
    st_os s' = st_os s.
Proof.
  intros Hs. unfold handle_list_offsets.
  destruct (mapM_inv (list_offsets_topic h)
    (λ t, mkListOffsetsTopicResponse (lotr_topic_name t)
       (map (spec_list_offsets_partition (metadata_ h) logs (lotr_topic_name t)) (lotr_partitions t)))
    logs (lor_topics r) s) as (s' & E & Hs'); [|done|].
  - intros t s1 Hin Hs1. unfold list_offsets_topic, lift. rewrite find_by_name. unfold mbind at 1, handler_bind at 1.
    cbn [mbind outcome_bind].
    destruct (mapM_inv (list_offsets_partition h (lotr_topic_name t)
       (topic_info (metadata_ h) (name_to_topic (metadata_ h) !! lotr_topic_name t)))
      (spec_list_offsets_partition (metadata_ h) logs (lotr_topic_name t))
      logs (lotr_partitions t) s1) as (s2 & E & Hs2); [|done|].
    + intros q s2 Hq Hs2. by apply list_offsets_partition_ok.
    + exists s2. split; [|done]. by rewrite (bind_step _ _ _ _ _ E).
  - exists s'. split; [|done]. by rewrite (bind_step _ _ _ _ _ E).
Qed.

(** *** Fetch *)

(** Requests the log can answer: everything, nothing, or from an offset of a
    non-empty log in one segment whose batches fit the window. *)
Definition fetchable (bs : list Batch) (q : FetchPartitionRequest) : Prop :=
  fpr_max_bytes q < 2 ^ 31 ∧ zlen (enc_batches bs) < 2 ^ 64 ∧
  (fpr_max_bytes q ≤ 0 ∨
   (0 ≤ fpr_fetch_offset q ∧ fits (rh_segment_bytes_ h) bs ∧ bs ≠ [] ∧
    Forall (λ b, zlen (enc_batch b) ≤ window (fpr_max_bytes q)) bs)).

(** A splice from the current segment: of the batches from the last indexed
    one at or before the offset, up to the end of the segment or the limit. *)
Definition splice_answer (os : OS) (l : PartitionLog) (bs : list Batch) (q : FetchPartitionRequest)
    (r : FetchPartitionResponse) : Prop :=
  ∃ before pre suf, bs = before ++ pre ++ suf ∧ (fits (rh_segment_bytes_ h) bs → before = []) ∧
    (pre = [] ∨ nrecords (before ++ pre) ≤ Z.max 0 (fpr_fetch_offset q)) ∧
    fds os !! fpp_splice_fd r = Some (segment_path l (nrecords before)) ∧
    files os !! segment_path l (nrecords before) = Some (enc_batches (pre ++ suf)) ∧
    fpp_splice_offset r = zlen (enc_batches pre) ∧
    fpp_splice_len r =
      Z.min (zlen (enc_batches suf)) (if 0 <? fpr_max_bytes q then fpr_max_bytes q else 1048576) ∧
    65536 ≤ zlen (enc_batches suf).

(** The bytes of an answer: all batches without offset and limit, none with
    an offset only, otherwise values from the offset on. *)
Definition records_answer (bs : list Batch) (q : FetchPartitionRequest) (records : bytes) : Prop :=
  if 0 <? fpr_max_bytes q then
    records `prefix_of` concat (zdrop (fpr_fetch_offset q) (log_values bs)) ∧
    zlen records ≤ fpr_max_bytes q ∧
    (zlen (enc_batches bs) ≤ window (fpr_max_bytes q) →
     records = ztake (fpr_max_bytes q) (concat (zdrop (fpr_fetch_offset q) (log_values bs))))
  else if 0 <? fpr_fetch_offset q then records = []
  else records = enc_batches bs.

Definition fetch_answer (os : OS) (l : PartitionLog) (bs : list Batch) (q : FetchPartitionRequest)
    (r : FetchPartitionResponse) : Prop :=
  fpp_partition_index r = fpr_partition_index q ∧ fpp_error_code r = 0 ∧
  if 0 <=? fpp_splice_fd r then splice_answer os l bs q r ∧ fpp_records r = []
  else records_answer bs q (fpp_records r).

Lemma fetch_answer_mono os os' l bs q r : fetch_answer os l bs q r → extends os os' → fetch_answer os' l bs q r.
Proof.
  intros (Hi & He & Ha) (Hf & _ & Hd). split_and!; [done..|]. destruct (_ <=? _); [|done].
  destruct Ha as [(before & pre & suf & ? & ? & ? & ? & ? & ?) ?]. split; [|done].
  exists before, pre, suf. rewrite Hf. by split_and!; first [tauto|apply Hd].
Qed.

(** One partition: [fetch_context] answers from the log the context holds. *)
Lemma fetch_context_ok l bs c os env q :
  holds l bs c os → flushed l os → good_env env os → fetchable bs q →
  ∃ records si c' os',
    fetch_context (fpr_fetch_offset q) (fpr_max_bytes q) env c os = Ok (records, si, c', os') ∧
    holds l bs c' os' ∧ extends os os' ∧
    fetch_answer os' l bs q
      (mkFetchPartitionResponse (fpr_partition_index q) 0 records (si_fd si) (si_file_offset si) (si_length si)).
Proof.
  intros Hh Hfl Hge (Hm & Hlen & Hq). unfold fetch_context.
  unfold fetch_answer. cbn [fpp_partition_index fpp_error_code fpp_splice_fd fpp_records].
  set (mb := if 0 <? fpr_max_bytes q then fpr_max_bytes q else 1048576).
  assert (0 ≤ mb < 2 ^ 31) as Hmb by (unfold mb; destruct (Z.ltb_spec 0 (fpr_max_bytes q)); lia).
  set (si := splice_info _ mb c). destruct (Z.leb_spec 0 (si_fd si)) as [Hsi|_].
  { eexists _, _, _, _. split_and!; [done..|]. destruct (Z.leb_spec 0 (si_fd si)); [|lia]. split; [|done].
    destruct (holds_splice _ _ _ _ _ _ Hh Hfl Hmb Hlen Hsi) as (before & pre & suf & ? & ? & Hpre & ? & ? & ? & ? & ?).
    exists before, pre, suf. split_and!; try done. destruct Hpre; [by left|right].
    destruct (Z.ltb_spec 0 (fpr_fetch_offset q)); lia. }
  unfold records_answer. destruct (Z.ltb_spec 0 (fpr_max_bytes q)) as [Hpos|Hneg].
  - rewrite orb_true_r. destruct Hq as [?|(Ho & Hfit & Hne & Hwin)]; [lia|].
    destruct (holds_fetch_values _ _ _ _ _ _ _ Hh Hfl Hfit Hge Hne Ho Hpos Hlen Hwin) as (r & c' & os' & E & Hr).
    rewrite E. destruct (holds_fetch _ _ _ _ _ _ _ _ _ _ Hh Hge E) as [Hh' Hx].
    eexists _, _, _, _. by split_and!.
  - rewrite orb_false_r. destruct (Z.ltb_spec 0 (fpr_fetch_offset q)).
    + unfold fetch. destruct (Z.leb_spec (fpr_max_bytes q) 0); [|lia]. eexists _, _, _, _. by split_and!.
    + rewrite (holds_fetch_all _ _ _ _ _ Hh Hfl Hge). eexists _, _, _, _. by split_and!.
Qed.

Lemma fetch_partition_ok logs s info q :
  let l := plog h (ti_name info) (fpr_partition_index q) in
  let bs := log_of logs (ti_name info) (fpr_partition_index q) in
  store_inv h logs s → 0 ≤ fpr_partition_index q → fetchable bs q → flushed l (st_os s) →
  ∃ r s', fetch_partition kernel h info q s = Ok (r, s') ∧ store_inv h logs s' ∧
    extends (st_os s) (st_os s') ∧ fetch_answer (st_os s') l bs q r.
Proof.
  intros l bs Hs Hp Hq Hfl.
  destruct (get_context_ok logs s (ti_name info) _ Hs Hp) as (c & s1 & Eget & Hs1 & Hh & Ho). rewrite <-Ho in Hfl.
  destruct (fetch_context_ok _ _ _ _ _ q Hh Hfl (proj1 (Hkernel (st_calls s1) (st_os s1))) Hq)
    as (records & si & c' & os' & Ef & Hh' & Hx & Ha).
  destruct (call_context_ok logs s1 _ _ c _ _ c' os' _ Hs1 Hp Ef Hh' (extends_frame _ _ _ Hx))
    as (s2 & Ecall & Hs2 & Ho2).
  eexists _, s2. rewrite Ho2, <-Ho. split_and!; [|by eapply store_inv_same|done|exact Ha].
  unfold fetch_partition. rewrite (bind_step _ _ _ _ _ Eget). by rewrite (bind_step _ _ _ _ _ Ecall).
Qed.

Definition fetch_topic_answer (logs : Logs) (os : OS) (q : FetchTopicRequest) (r : FetchTopicResponse) : Prop :=
  ftp_topic_id r = ftr_topic_id q ∧
  match topic_info (metadata_ h) (uuid_to_topic (metadata_ h) !! ftr_topic_id q) with
  | Some info =>
      Forall2 (λ pq pr, fetch_answer os (plog h (ti_name info) (fpr_partition_index pq))
                          (log_of logs (ti_name info) (fpr_partition_index pq)) pq pr)
        (ftr_partitions q) (ftp_partitions r)
  | None => ftp_partitions r = [mkFetchPartitionResponse 0 100 [] (-1) 0 0]
  end.

(** The partitions asked for have non-negative numbers, no pending write and a
    log the request can be answered from. *)
Definition fetch_request_ok (logs : Logs) (os : OS) (r : FetchRequest) : Prop :=
  ∀ q info pq, q ∈ fr_topics r →
    topic_info (metadata_ h) (uuid_to_topic (metadata_ h) !! ftr_topic_id q) = Some info →
    pq ∈ ftr_partitions q →
    0 ≤ fpr_partition_index pq ∧ fetchable (log_of logs (ti_name info) (fpr_partition_index pq)) pq ∧
    flushed (plog h (ti_name info) (fpr_partition_index pq)) os.

Lemma fetch_ok logs s r :
  store_inv h logs s → fetch_request_ok logs (st_os s) r →
  ∃ resp s', handle_fetch kernel h r s = Ok (resp, s') ∧ store_inv h logs s' ∧
    extends (st_os s) (st_os s') ∧ fp_correlation_id resp = correlation_id (fr_header r) ∧
    Forall2 (fetch_topic_answer logs (st_os s')) (fr_topics r) (fp_responses resp).
Proof.
  intros Hs Hr. unfold handle_fetch.
  destruct (mapM_rel (fetch_topic kernel h) (fetch_topic_answer logs) logs (fr_topics r) s)
    as (ts & s' & E & Hs' & Hx & Hts); [..|done|].
  - intros os os' q a [Hid Ha] Hx. split; [done|]. destruct (topic_info _ _); [|done].
    eapply Forall2_impl; [exact Ha|]. intros pq pr Hpq. exact (fetch_answer_mono os os' _ _ _ _ Hpq Hx).
  - intros q s1 Hq Hs1 Hx1. unfold fetch_topic, fetch_topic_answer, lift. rewrite find_by_uuid.
    unfold mbind at 1, handler_bind at 1. cbn [mbind outcome_bind].
    destruct (topic_info _ _) as [info|] eqn:Ei; [|eexists _, s1; by split_and!].
    destruct (mapM_rel (fetch_partition kernel h info)
      (λ os pq pr, fetch_answer os (plog h (ti_name info) (fpr_partition_index pq))
                     (log_of logs (ti_name info) (fpr_partition_index pq)) pq pr)
      logs (ftr_partitions q) s1) as (ps & s2 & E & Hs2 & Hx2 & Hps); [..|done|].
    + intros os os' pq pr. apply fetch_answer_mono.
    + intros pq s2 Hpq Hs2 Hx2. destruct (Hr q info pq Hq Ei Hpq) as (Hp & Hf & Hfl).
      apply fetch_partition_ok; [done..|]. unfold flushed. destruct Hx1 as (_ & E1 & _), Hx2 as (_ & E2 & _).
      by rewrite E2, E1.
    + eexists _, s2. rewrite (bind_step _ _ _ _ _ E). by split_and!.
  - eexists _, s'. rewrite (bind_step _ _ _ _ _ E). by split_and!.
Qed.

(** *** Completions *)

(** The kernel completing a write that is the oldest to its file changes no
    log. *)
Lemma complete_ok logs cs os n i :
  store_inv h logs (mkStore cs os n) → in_order i os → store_inv h logs (mkStore cs (io_complete i os) n).
Proof.
  intros Hs Ho t p Hp. specialize (Hs t p Hp). cbn in *. destruct (cs !! _).
  - by apply holds_complete.
  - by rewrite settle_complete.
Qed.
End handler.

(** ** The theorems, for the partition contexts of the program *)

Abbreviation refines h := (store_inv h (H := partition_store (rh_segment_bytes_ h))).

(** A handler without contexts over directories without files or pending
    writes. *)
Lemma refines_start h os :
  (∀ t p, 0 ≤ p → clean (plog h t p) (settle os)) → refines h ∅ (mkStore ∅ os 0).
Proof. intros Hc t p Hp. cbn. rewrite lookup_empty. by split; [|apply Hc]. Qed.

(** The kernel completing every submitted write in order changes no log, and
    leaves none pending. *)
Lemma refines_drain h logs cs os n :
  refines h logs (mkStore cs os n) →
  refines h logs (mkStore cs (drain os) n) ∧ in_flight (drain os) = [].
Proof.
  intros Hs. unfold drain. remember (length (in_flight os)) as k eqn:Ek. revert os Hs Ek.
  induction k as [|k IH]; intros os Hs Ek; [split; [done|by apply nil_length_inv]|].
  rewrite Nat.iter_succ_r. apply IH.
  - apply (complete_ok h); [done|]. intros w _ w' Hw'. by apply elem_of_nil in Hw'.
  - unfold io_complete. destruct (in_flight os) as [|[q data] ws] eqn:E; [done|]. cbn in *. lia.
Qed.

(** C4: with writes through the ring, a produce request appends each of its
    batches at the end of the log of the partition it names, answers with the
    offset of the first record, refuses unknown partitions with error 3, and
    leaves every other log alone, whatever the mix of topics and partitions: the
    handler refines the map of logs, read off the files once the submitted
    writes are done in order.  Each partition of the request has one well-formed
    batch or none; the system calls succeed, the ring has free entries, and no
    topic has a negative partition number. *)
Theorem handle_produce_refines h kernel logs s hd a :
  good_kernel kernel → rh_ring_ h = true → metadata_ok (metadata_ h) → partitions_ok (metadata_ h) →
  refines h logs s → batches_ok a → (∀ t p, nrecords (log_of logs t p) + request_records a < 2 ^ 63) →
  ∃ resp s', handle_produce kernel h (mkProduceRequest hd (map enc_produce_topic a)) s = Ok (resp, s') ∧
    pp_correlation_id resp = correlation_id hd ∧
    produce_view resp = (spec_produce (metadata_ h) logs a).1 ∧
    refines h (spec_produce (metadata_ h) logs a).2 s'.
Proof.
  intros Hk Hring Hm Hpm Hs Ha Hroom.
  pose proof (produce_topics_ok h kernel Hk Hring Hm Hpm a logs s Hs Ha Hroom) as Hp.
  destruct (spec_produce _ logs a) as [answers logs']. destruct Hp as (rs & s' & E & Hv & Hs').
  eexists _, s'. unfold handle_produce. cbn [pr_topics pr_header]. by rewrite (bind_step _ _ _ _ _ E).
Qed.

(** C28: a list-offsets request answers 0 for the earliest and the number of
    records produced to the log for the latest offset, with error 3 for every
    index that is not a partition of a known topic and -1 for other timestamps,
    and changes no log and no file; no topic has a negative partition number. *)
Theorem handle_list_offsets_refines h logs s r :
  rh_ring_ h = true → metadata_ok (metadata_ h) → partitions_ok (metadata_ h) → refines h logs s →
  ∃ s', handle_list_offsets h r s = Ok (spec_list_offsets (metadata_ h) logs r, s') ∧ refines h logs s' ∧
    st_os s' = st_os s.
Proof. intros. by apply list_offsets_ok. Qed.

(** C5: a fetch request answers, for each partition of a known topic, from that
    partition's log.  The answer may be a splice: of the current segment's
    descriptor, from the start of a batch at or before the offset (or of the
    segment) to the end of the segment or the limit, with at least 64 KiB in the
    segment from there.  Otherwise it is all batches in order when neither offset
    nor limit is given, nothing when only an offset is, and else a prefix of the
    values from the offset on within the limit, all of them when the log fits
    the read window.  An unknown topic gets error 100.  No log, file or pending
    write changes.  The partitions asked for have non-negative numbers and no
    pending write; one asked for with a limit is not empty, is asked for from a
    non-negative offset, fits one segment and has batches that fit the window;
    the system calls succeed. *)
Theorem handle_fetch_refines h kernel logs s r :
  good_kernel kernel → rh_ring_ h = true → metadata_ok (metadata_ h) → refines h logs s →
  fetch_request_ok h logs (st_os s) r →
  ∃ resp s', handle_fetch kernel h r s = Ok (resp, s') ∧ refines h logs s' ∧
    extends (st_os s) (st_os s') ∧ fp_correlation_id resp = correlation_id (fr_header r) ∧
    Forall2 (fetch_topic_answer h logs (st_os s')) (fr_topics r) (fp_responses resp).
Proof. intros. by apply fetch_ok. Qed.

(** *** A concrete broker *)

(** One more than every descriptor in use. *)
Definition fresh_fd (os : OS) : Z := 1 + foldr Z.max 0 (map fst (map_to_list (fds os))).

Lemma fresh_fd_ok os : 0 ≤ fresh_fd os ∧ fds os !! fresh_fd os = None.
Proof.
  unfold fresh_fd. assert (∀ l, 0 ≤ foldr Z.max 0 l ∧ Forall (λ k, k ≤ foldr Z.max 0 l) l) as H.
  { induction l as [|k l [IH Hl]]; [done|]. cbn. split; [lia|]. constructor; [lia|].
    eapply Forall_impl; [done|]. cbn. lia. }
  destruct (H (map fst (map_to_list (fds os)))) as [H0 Hl]. split; [lia|].
  destruct (fds os !! _) as [q|] eqn:E; [|done]. exfalso. rewrite Forall_forall in Hl.
  apply elem_of_map_to_list, (list_elem_of_fmap_2 fst), Hl in E. cbn in E. lia.
Qed.

Definition a_kernel : Kernel := λ n os, a_env (fresh_fd os) (fresh_fd os).

Lemma a_kernel_good : good_kernel a_kernel.
Proof. intros n os. destruct (fresh_fd_ok os). split; [by apply a_env_good|done]. Qed.

Definition two_topics : ClusterMetadata :=
  build_metadata (mkCollected
    [mkRawTopic (str "a") (replicate 16 1); mkRawTopic (str "a-") (replicate 16 2)]
    [mkRawPartition 0 (replicate 16 1); mkRawPartition 2 (replicate 16 2)]).

Lemma two_topics_partitions : partitions_ok two_topics.
Proof. unfold partitions_ok. decide_now. Qed.

Definition a_handler : RecordHandler := mkRecordHandler two_topics (str "/tmp/logs") 150 true.

Definition a_request : Batches :=
  [(str "a", [(0, Some sample_batch); (0, Some sample_batch); (-1, Some sample_batch); (7, None)]);
   (str "a-", [(2, Some sample_batch)])].

Lemma a_start : refines a_handler ∅ (mkStore ∅ no_files 0).
Proof. apply refines_start. intros t p _ q _. apply lookup_empty. Qed.

Lemma a_request_ok : batches_ok a_request.
Proof.
  pose proof sample_batch_ok.
  assert (∀ b, Some sample_batch = Some b → batch_ok b) as Hb by (by intros b [= <-]).
  apply Forall_cons; split; [|apply Forall_cons; split; [|by apply Forall_nil]].
  - do 3 (apply Forall_cons; split; [by apply Hb|]). by apply Forall_cons; split; [|apply Forall_nil].
  - apply Forall_cons; split; [by apply Hb|]. by apply Forall_nil.
Qed.

Lemma a_room t p : nrecords (log_of ∅ t p) + request_records a_request < 2 ^ 63.
Proof. unfold log_of. rewrite lookup_empty. by vm_compute. Qed.

Lemma handle_produce_refines_witness :
  ∃ resp s', handle_produce a_kernel a_handler
      (mkProduceRequest (mkRequestHeader 0 9 5) (map enc_produce_topic a_request)) (mkStore ∅ no_files 0)
      = Ok (resp, s') ∧ pp_correlation_id resp = 5 ∧
    produce_view resp = [(str "a", [(0, 0, 0); (0, 0, 2); (-1, 3, -1); (7, 3, -1)]); (str "a-", [(2, 0, 0)])].
Proof.
  destruct (handle_produce_refines a_handler a_kernel ∅ (mkStore ∅ no_files 0) (mkRequestHeader 0 9 5) a_request)
    as (resp & s' & E & Hc & Hv & _);
    [apply a_kernel_good|done|apply build_metadata_ok|apply two_topics_partitions|apply a_start
    |apply a_request_ok|apply a_room|].
  exists resp, s'. split_and!; [exact E|exact Hc|]. rewrite Hv. vm_compute. reflexivity.
Defined.

(** The state after that request, with its writes done. *)
Definition a_logs : Logs := (spec_produce two_topics ∅ a_request).2.

Lemma a_state : ∃ s, refines a_handler a_logs s ∧ in_flight (st_os s) = [].
Proof.
  pose proof (produce_topics_ok a_handler a_kernel a_kernel_good eq_refl (build_metadata_ok _)
    two_topics_partitions a_request ∅ _ a_start a_request_ok a_room) as H.
  unfold a_logs. change (metadata_ a_handler) with two_topics in H.
  destruct (spec_produce two_topics ∅ a_request) as [answers logs]. destruct H as (_ & [cs os n] & _ & _ & Hs).
  exists (mkStore cs (drain os) n). apply (refines_drain a_handler logs cs os n Hs).
Qed.

Lemma handle_list_offsets_refines_witness :
  ∃ s s', handle_list_offsets a_handler (mkListOffsetsRequest (mkRequestHeader 2 7 6) (-1) 0
      [mkListOffsetsTopicRequest (str "a") [mkListOffsetsPartitionRequest 0 (-1); mkListOffsetsPartitionRequest (-1) (-1)]]) s
    = Ok (mkListOffsetsResponse 6 0 [mkListOffsetsTopicResponse (str "a")
        [mkListOffsetsPartitionResponse 0 0 4 (-1); mkListOffsetsPartitionResponse (-1) 3 (-1) (-1)]], s').
Proof.
  destruct a_state as (s & Hs & _). exists s.
  destruct (handle_list_offsets_refines a_handler a_logs s (mkListOffsetsRequest (mkRequestHeader 2 7 6) (-1) 0
      [mkListOffsetsTopicRequest (str "a") [mkListOffsetsPartitionRequest 0 (-1); mkListOffsetsPartitionRequest (-1) (-1)]]))
    as (s' & E & _); [done|apply build_metadata_ok|apply two_topics_partitions|done|].
  exists s'. rewrite E. do 2 f_equal.
Defined.

Lemma handle_fetch_refines_witness :
  ∃ s resp s', handle_fetch a_kernel a_handler (mkFetchRequest (mkRequestHeader 1 16 7)
      [mkFetchTopicRequest (replicate 16 1) [mkFetchPartitionRequest 0 0 0];
       mkFetchTopicRequest (replicate 16 2) [mkFetchPartitionRequest 2 1 200];
       mkFetchTopicRequest (replicate 16 9) []] 0) s
    = Ok (resp, s') ∧ fp_correlation_id resp = 7 ∧
    Forall2 (fetch_topic_answer a_handler a_logs (st_os s'))
      [mkFetchTopicRequest (replicate 16 1) [mkFetchPartitionRequest 0 0 0];
       mkFetchTopicRequest (replicate 16 2) [mkFetchPartitionRequest 2 1 200];
       mkFetchTopicRequest (replicate 16 9) []]
      (fp_responses resp).
Proof.
  destruct a_state as (s & Hs & Hi). exists s.
  destruct (handle_fetch_refines a_handler a_kernel a_logs s (mkFetchRequest (mkRequestHeader 1 16 7)
      [mkFetchTopicRequest (replicate 16 1) [mkFetchPartitionRequest 0 0 0];
       mkFetchTopicRequest (replicate 16 2) [mkFetchPartitionRequest 2 1 200];
       mkFetchTopicRequest (replicate 16 9) []] 0))
    as (resp & s' & E & _ & _ & Hc & Ha); [apply a_kernel_good|done|apply build_metadata_ok|done| |].
  - intros q info pq Hq Hinfo Hpq.
    assert (∀ l, flushed l (st_os s)) as Hfl by (intros l w; rewrite Hi; by intros ?%elem_of_nil).
    apply elem_of_cons in Hq as [->|[->|[->|[]%elem_of_nil]%elem_of_cons]%elem_of_cons]; cbn in Hpq.
    + apply list_elem_of_singleton in Hpq as ->. vm_compute in Hinfo. injection Hinfo as <-.
      split_and!; [decide_now| |apply Hfl]. split_and!; [decide_now|decide_now|left; decide_now].
    + apply list_elem_of_singleton in Hpq as ->. vm_compute in Hinfo. injection Hinfo as <-.
      split_and!; [decide_now| |apply Hfl]. split_and!; [decide_now|decide_now|right].
      split_and!; [decide_now|right; decide_now|vm_compute; done|decide_now].
    + by apply elem_of_nil in Hpq.
  - exists resp, s'. by split_and!.
Defined.

(** A fetch does not check that the topic has the partition, and a negative
    number can name the directory of another topic: once the write is done,
    fetching partition -2 of topic [a] reads what was produced to partition 2 of
    topic [a-]. *)
Theorem fetch_negative_partition_leaks :
  match handle_produce a_kernel a_handler
          (mkProduceRequest (mkRequestHeader 0 9 5) [enc_produce_topic (str "a-", [(2, Some sample_batch)])])
          (mkStore ∅ no_files 0) with
  | Ok (_, mkStore cs os n) =>
      match handle_fetch a_kernel a_handler (mkFetchRequest (mkRequestHeader 1 16 7)
              [mkFetchTopicRequest (replicate 16 1) [mkFetchPartitionRequest (-2) 0 0]] 0) (mkStore cs (drain os) n) with
      | Ok (resp, _) => fp_responses resp =
          [mkFetchTopicResponse (replicate 16 1) [mkFetchPartitionResponse (-2) 0 (enc_batch sample_batch) (-1) 0 0]]
      | _ => False
      end
  | _ => False
  end.
Proof. vm_compute. reflexivity. Qed.
