(* ===== verification/Broker.v ===== *)
(** * The broker (src/src/broker/broker.cpp)

    Dispatch of a parsed request to the metadata handler, the record handler or
    the group coordinator, and the path of a request through a reactor that owns
    its partition: parse, handle, serialize. *)

From stdpp Require Import sorting.
From S2P Require Import Prelude Endian Protocol Parser WireFormat Serializer ResponseFormat.
From S2P Require Import Storage ClusterMetadata MetadataHandler RecordHandler GroupCoordinator.

(** The reactor's own partitions, and the coordinator all reactors share. *)
Record BrokerState := mkBrokerState { br_store : Store; br_coordinator : GroupCoordinator }.

(** The handler's result with the state it changed put back. *)
Definition with_store {A} (inj : A → Response) (m : handler A) (st : BrokerState) : outcome (Response * BrokerState) :=
  '(p, s) ← m (br_store st); mret (inj p, mkBrokerState s (br_coordinator st)).
Definition with_coordinator {A} (inj : A → Response)
    (m : GroupCoordinator → outcome (A * GroupCoordinator)) (st : BrokerState) : outcome (Response * BrokerState) :=
  '(p, g) ← m (br_coordinator st); mret (inj p, mkBrokerState (br_store st) g).
Definition stateless {A} (inj : A → Response) (m : outcome A) (st : BrokerState) : outcome (Response * BrokerState) :=
  p ← m; mret (inj p, st).

(** [Broker::handle]; [clock] are the readings of [steady_clock] in order. *)
Definition handle (kernel : Kernel) (clock : nat → Z) (h : RecordHandler) (req : Request)
    : BrokerState → outcome (Response * BrokerState) :=
  match req with
  | ReqApiVersions r => stateless RespApiVersions (mret (handle_api_versions r))
  | ReqFindCoordinator r => stateless RespFindCoordinator (mret (handle_find_coordinator r))
  | ReqOffsetCommit r => with_coordinator RespOffsetCommit (λ g, mret (handle_offset_commit r g))
  | ReqOffsetFetch r => with_coordinator RespOffsetFetch (λ g, mret (handle_offset_fetch r g))
  | ReqJoinGroup r => with_coordinator RespJoinGroup (handle_join_group (clock 0%nat) r)
  | ReqHeartbeat r => with_coordinator RespHeartbeat (handle_heartbeat (clock 0%nat) r)
  | ReqLeaveGroup r => with_coordinator RespLeaveGroup (handle_leave_group r)
  | ReqSyncGroup r => with_coordinator RespSyncGroup (λ g, mret (handle_sync_group clock r g))
  | ReqMetadata r => stateless RespMetadata (handle_metadata (metadata_ h) r)
  | ReqListOffsets r => with_store RespListOffsets (handle_list_offsets h r)
  | ReqDescribeTopicPartitions r =>
      stateless RespDescribeTopicPartitions (handle_describe_topic_partitions (metadata_ h) r)
  | ReqProduce r => with_store RespProduce (handle_produce kernel h r)
  | ReqFetch r => with_store RespFetch (handle_fetch kernel h r)
  end.

(** What a reactor does with the body of a complete frame when it owns the
    partition: the bytes of the response buffer. *)
Definition respond (kernel : Kernel) (clock : nat → Z) (h : RecordHandler) (body : bytes) (st : BrokerState)
    : outcome (bytes * BrokerState) :=
  req ← parse_request body;
  '(resp, st') ← handle kernel clock h req st;
  out ← serialize resp;
  mret (out, st').

(** ** Dispatch *)

Definition response_api_key (p : Response) : Z :=
  match p with
  | RespProduce _ => 0
  | RespFetch _ => 1
  | RespListOffsets _ => 2
  | RespMetadata _ => 3
  | RespOffsetCommit _ => 8
  | RespOffsetFetch _ => 9
  | RespFindCoordinator _ => 10
  | RespJoinGroup _ => 11
  | RespHeartbeat _ => 12
  | RespLeaveGroup _ => 13
  | RespSyncGroup _ => 14
  | RespApiVersions _ => 18
  | RespDescribeTopicPartitions _ => 75
  end.

(** The requests that work on partitions, resp. on groups. *)
Definition data_request (q : Request) : bool :=
  match q with ReqProduce _ | ReqFetch _ | ReqListOffsets _ => true | _ => false end.
Definition group_request (q : Request) : bool :=
  match q with
  | ReqOffsetCommit _ | ReqOffsetFetch _ | ReqJoinGroup _ | ReqHeartbeat _ | ReqLeaveGroup _ | ReqSyncGroup _ => true
  | _ => false
  end.

Lemma handler_bind_Ok {A B} (m : handler A) (k : A → handler B) s b s' :
  (m ≫= k) s = Ok (b, s') → ∃ a s1, m s = Ok (a, s1) ∧ k a s1 = Ok (b, s').
Proof. intros ([a s1] & Hm & Hk)%outcome_bind_Ok. eauto. Qed.

Lemma with_store_inv {A} (inj : A → Response) m st p st' :
  with_store inj m st = Ok (p, st') →
  ∃ a s, m (br_store st) = Ok (a, s) ∧ p = inj a ∧ st' = mkBrokerState s (br_coordinator st).
Proof. intros ([a s] & Hm & [= <- <-])%outcome_bind_Ok. eauto 6. Qed.
Lemma with_coordinator_inv {A} (inj : A → Response) m st p st' :
  with_coordinator inj m st = Ok (p, st') →
  ∃ a g, m (br_coordinator st) = Ok (a, g) ∧ p = inj a ∧ st' = mkBrokerState (br_store st) g.
Proof. intros ([a s] & Hm & [= <- <-])%outcome_bind_Ok. eauto 6. Qed.
Lemma stateless_inv {A} (inj : A → Response) m st p st' :
  stateless inj m st = Ok (p, st') → ∃ a, m = Ok a ∧ p = inj a ∧ st' = st.
Proof. intros (a & Hm & [= <- <-])%outcome_bind_Ok. eauto 6. Qed.

Lemma join_correlation now r g p g' :
  handle_join_group now r g = Ok (p, g') → jgq_correlation_id p = correlation_id (jgr_header r).
Proof.
  unfold handle_join_group. intros ([m n] & _ & H)%outcome_bind_Ok.
  apply outcome_bind_Ok in H as (gen & _ & H). apply outcome_bind_Ok in H as (l & _ & H). by injection H as <- <-.
Qed.

Lemma heartbeat_correlation now r g p g' :
  handle_heartbeat now r g = Ok (p, g') → hbp_correlation_id p = correlation_id (hbr_header r).
Proof.
  unfold handle_heartbeat. destruct (find_generation _ _ _); [case_decide|]; [|by intros [= <- <-]..].
  by intros (m & _ & [= <- <-])%outcome_bind_Ok.
Qed.

Lemma leave_correlation r g p g' :
  handle_leave_group r g = Ok (p, g') → lgp_correlation_id p = correlation_id (lgr_header r).
Proof.
  unfold handle_leave_group. destruct (groups_ g !! _); [case_match|]; [|by intros [= <- <-]..].
  by intros (m & _ & [= <- <-])%outcome_bind_Ok.
Qed.

Lemma sync_correlation clock r g : sgp_correlation_id (handle_sync_group clock r g).1 = correlation_id (sgr_header r).
Proof. unfold handle_sync_group. by repeat case_match. Qed.

Lemma dispatch_ok kernel clock h q st p st' :
  handle kernel clock h q st = Ok (p, st') →
  response_api_key p = request_api_key q ∧
  response_correlation_id p = correlation_id (request_header q) ∧
  (data_request q = false → br_store st' = br_store st) ∧
  (group_request q = false → br_coordinator st' = br_coordinator st).
Proof.
  destruct q; cbn [handle request_header request_api_key data_request group_request]; intros H;
    first [apply with_store_inv in H as (a & s & Hm & -> & ->)
          |apply with_coordinator_inv in H as (a & s & Hm & -> & ->)
          |apply stateless_inv in H as (a & Hm & -> & ->)];
    (split; [done|]); (split; [|done]); cbn [response_correlation_id].
  - by injection Hm as <-.
  - by apply outcome_bind_Ok in Hm as (ts & _ & [= <-]).
  - by apply handler_bind_Ok in Hm as (ts & s1 & _ & [= <- <-]).
  - by injection Hm as <-.
  - by apply heartbeat_correlation in Hm.
  - by apply join_correlation in Hm.
  - by apply leave_correlation in Hm.
  - by apply handler_bind_Ok in Hm as (ts & s1 & _ & [= <- <-]).
  - by apply outcome_bind_Ok in Hm as (ts & _ & [= <-]).
  - by injection Hm as <- <-.
  - by injection Hm as <- <-.
  - by apply handler_bind_Ok in Hm as (ts & s1 & _ & [= <- <-]).
  - injection Hm as Hm. by rewrite <-(sync_correlation clock r (br_coordinator st)), Hm.
Qed.

(** The broker answers every request with a response of the same kind that
    carries the request's correlation id; only produce, fetch and list-offsets
    touch the partitions, and only group requests touch the coordinator. *)
Theorem handle_dispatch kernel clock h q st p st' :
  handle kernel clock h q st = Ok (p, st') →
  response_api_key p = request_api_key q ∧
  response_correlation_id p = correlation_id (request_header q) ∧
  (data_request q = false → br_store st' = br_store st) ∧
  (group_request q = false → br_coordinator st' = br_coordinator st).
Proof. apply dispatch_ok. Qed.

(** *** A broker with one topic *)

Definition a_broker : RecordHandler :=
  mkRecordHandler
    (build_metadata (mkCollected [mkRawTopic (str "orders") (replicate 16 1)] [mkRawPartition 0 (replicate 16 1)]))
    (str "/tmp/logs") 0 false.
Definition idle_kernel : Kernel := λ _ _, mkEnv true 3 4 None true 0 (λ _, true).
Definition a_broker_state : BrokerState :=
  mkBrokerState (mkStore ∅ (mkOS ∅ ∅ []) 0) new_coordinator.
Definition a_join : Request :=
  ReqJoinGroup (mkJoinGroupRequest (mkRequestHeader 11 9 42) (str "g") 30000 [] (str "consumer")
    [mkJoinGroupProtocol (str "range") [1; 2]]).

Lemma handle_dispatch_witness :
  match handle idle_kernel (λ _, 5) a_broker a_join a_broker_state with
  | Ok (p, st') => response_api_key p = 11 ∧ response_correlation_id p = 42 ∧ br_store st' = br_store a_broker_state
  | _ => False
  end.
Proof.
  destruct (handle _ _ _ _ _) as [[p st']| |] eqn:E; [|vm_compute in E; discriminate..].
  destruct (handle_dispatch _ _ _ _ _ _ _ E) as (Hk & Hc & Hs & _).
  split_and!; [exact Hk|exact Hc|by apply Hs].
Defined.

(** ** From bytes to bytes *)

(** Topic ids of the cluster are 16 bytes, as their type says. *)
Definition uuids_ok (m : ClusterMetadata) : Prop := Forall (λ t, zlen (ti_uuid t) = 16) (topics m).

Lemma build_topic_id m name tm :
  uuids_ok m → build_topic_metadata m name = Ok tm → zlen (tm_topic_id tm) = 16.
Proof.
  intros Hm. unfold build_topic_metadata. destruct (name_to_topic m !! name) as [i|]; [|by intros [= <-]].
  unfold vector_at. destruct (topics m !! i) as [t|] eqn:E; [|done]. cbn. intros [= <-].
  cbn. eapply (Forall_lookup_1 _ _ _ _ Hm E).
Qed.

Lemma build_topics_ids m names ts :
  uuids_ok m → mapM (build_topic_metadata m) names = Ok ts → Forall (λ t, zlen (tm_topic_id t) = 16) ts.
Proof.
  intros Hm Hts. apply Forall_forall. intros t Ht. by eapply build_topic_id, mapM_names.
Qed.

Lemma build_topics_length m names ts :
  mapM (build_topic_metadata m) names = Ok ts → length ts = length names.
Proof.
  revert ts. induction names as [|n names IH]; intros ts; cbn; [by intros [= <-]|].
  intros (tm & _ & (ts' & E & [= <-])%outcome_bind_Ok)%outcome_bind_Ok. cbn. f_equal. auto.
Qed.

Lemma fetch_topic_id kernel h q s r s' :
  fetch_topic kernel h q s = Ok (r, s') → ftp_topic_id r = ftr_topic_id q.
Proof.
  unfold fetch_topic. intros (info & s1 & _ & H)%handler_bind_Ok. destruct info; [|by injection H as <- <-].
  by apply handler_bind_Ok in H as (ps & s2 & _ & [= <- <-]).
Qed.

Lemma fetch_topics_ids kernel h qs s rs s' :
  mapM (fetch_topic kernel h) qs s = Ok (rs, s') → map ftp_topic_id rs = map ftr_topic_id qs.
Proof.
  revert s rs. induction qs as [|q qs IH]; intros s rs; [by intros [= <- <-]|]. cbn [mapM map].
  intros (r & s1 & Hr & H)%handler_bind_Ok. apply handler_bind_Ok in H as (rs' & s2 & Hrs & [= <- <-]).
  cbn. by rewrite (fetch_topic_id _ _ _ _ _ _ Hr), (IH _ _ Hrs).
Qed.

Lemma handle_topic_ids kernel clock h q st p st' :
  request_typed q → uuids_ok (metadata_ h) → handle kernel clock h q st = Ok (p, st') → topic_ids_ok p.
Proof.
  intros [_ Ht] Hm.
  destruct q; cbn [handle]; intros H;
    first [apply with_store_inv in H as (a & s & Hp & -> & ->)
          |apply with_coordinator_inv in H as (a & s & Hp & -> & ->)
          |apply stateless_inv in H as (a & Hp & -> & ->)]; try done; cbn [topic_ids_ok].
  - apply outcome_bind_Ok in Hp as (ts & Hts & [= <-]). cbn. unfold sort_topics.
    rewrite merge_sort_Permutation. by eapply build_topics_ids.
  - apply handler_bind_Ok in Hp as (ts & s1 & Hts & [= <- <-]). cbn.
    apply fetch_topics_ids in Hts. destruct Ht as [Ht _].
    assert (Forall (λ i, zlen i = 16) (map ftr_topic_id (fr_topics r))) as Hi.
    { apply Forall_map. eapply Forall_impl; [apply Ht|]. by intros q Hq; apply Hq. }
    rewrite <-Hts in Hi. by apply Forall_map in Hi.
  - apply outcome_bind_Ok in Hp as (ts & Hts & [= <-]). cbn. apply Forall_map.
    eapply Forall_impl; [by eapply build_topics_ids|]. done.
Qed.

(** The names a DescribeTopicPartitions request lists. *)
Definition described_names (q : Request) : Z :=
  match q with ReqDescribeTopicPartitions r => zlen (dtp_topic_names r) | _ => 0 end.

Lemma handle_described kernel clock h q st p st' :
  handle kernel clock h q st = Ok (p, st') → described_topics p = described_names q.
Proof.
  destruct q; cbn [handle]; intros H;
    first [apply with_store_inv in H as (a & s & Hp & -> & ->)
          |apply with_coordinator_inv in H as (a & s & Hp & -> & ->)
          |apply stateless_inv in H as (a & Hp & -> & ->)]; try done; cbn [described_topics described_names].
  apply outcome_bind_Ok in Hp as (ts & Hts & [= <-]). cbn. unfold sort_topics, zlen in *.
  rewrite merge_sort_Permutation. by rewrite (build_topics_length _ _ _ Hts).
Qed.

(** C17: what a reactor makes of the bytes of a well-formed request that it
    handles locally, whatever follows them.  When the broker gives a response, it
    is of the request's kind and the result is the frame of its body, except that
    a DescribeTopicPartitions request with 127 names or more writes past the end
    of the buffer; when the body is shorter than [2^31] bytes, the frame starts
    with the number of bytes that follow and the request's correlation id.  When
    the broker throws or fails, that is the result. *)
Theorem respond_correct kernel clock h ig q post st :
  ignored_ok ig → wire_ok q → uuids_ok (metadata_ h) →
  match handle kernel clock h q st with
  | Ok (resp, st') =>
      let out := ResponseFormat.frame (response_body resp) in
      respond kernel clock h (encode_request ig q ++ post) st =
        (if described_names q <? 127 then Ok (out, st') else Fault undefined_behaviour) ∧
      response_api_key resp = request_api_key q ∧
      (zlen (response_body resp) < 2 ^ 31 →
       decode_int32_be (ztake 4 out) = zlen out - 4 ∧
       decode_int32_be (ztake 4 (zdrop 4 out)) = correlation_id (request_header q))
  | Err e => respond kernel clock h (encode_request ig q ++ post) st = Err e
  | Fault f => respond kernel clock h (encode_request ig q ++ post) st = Fault f
  end.
Proof.
  intros Hig Hq Hm. unfold respond. rewrite parse_encoded by done. cbn [mbind outcome_bind].
  destruct (handle kernel clock h q st) as [[resp st']| |] eqn:Hh; [|done..]. cbn zeta.
  destruct (dispatch_ok _ _ _ _ _ _ _ Hh) as (Hk & Hc & _). destruct Hq as [Hty Hq'].
  rewrite <-(handle_described _ _ _ _ _ _ _ Hh). split_and!; [|done|].
  - cbn [mbind outcome_bind]. rewrite serialize_exact; [by destruct (_ <? _)|by eapply handle_topic_ids|].
    rewrite (handle_described _ _ _ _ _ _ _ Hh). destruct q; cbn in *; tauto || lia.
  - intros Hl. rewrite <-Hc. apply frame_prefix; [|done]. rewrite Hc. apply Hty.
Qed.

Definition a_describe (n : nat) : Request :=
  ReqDescribeTopicPartitions (mkDescribeTopicPartitionsRequest (mkRequestHeader 75 0 43) (replicate n (str "orders"))).

Lemma respond_correct_witness :
  (∃ out st', respond idle_kernel (λ _, 5) a_broker (encode_request sample_ignored a_join ++ [1; 2]) a_broker_state
     = Ok (out, st') ∧ decode_int32_be (ztake 4 (zdrop 4 out)) = 42) ∧
  respond idle_kernel (λ _, 5) a_broker (encode_request sample_ignored (a_describe 127)) a_broker_state
    = Fault undefined_behaviour.
Proof.
  assert (uuids_ok (metadata_ a_broker)) as Hu by (unfold uuids_ok; decide_now). split.
  - assert (wire_ok a_join) as Hw.
    { split_and!; [|done..]. split; [split_and!; decide_now|]. split_and!; [split; decide_now|decide_now|..].
      + split; decide_now.
      + split; decide_now.
      + split; [|decide_now]. apply Forall_singleton. split; split; decide_now. }
    pose proof (respond_correct idle_kernel (λ _, 5) a_broker sample_ignored a_join [1; 2] a_broker_state
      sample_ignored_ok Hw Hu) as H.
    assert (match handle idle_kernel (λ _, 5) a_broker a_join a_broker_state with
            | Ok (resp, _) => zlen (response_body resp) < 2 ^ 31 | _ => False end) as F by (vm_compute; reflexivity).
    revert F H. generalize (handle idle_kernel (λ _, 5) a_broker a_join a_broker_state).
    intros [[resp st']| |] F H; [|destruct F..]. destruct H as (Er & _ & Hl).
    eexists _, st'. split; [exact Er|exact (proj2 (Hl F))].
  - assert (wire_ok (a_describe 127)) as Hw.
    { split_and!; [|decide_now..]. split; [split_and!; decide_now|]. decide_now. }
    assert (match handle idle_kernel (λ _, 5) a_broker (a_describe 127) a_broker_state with
            | Ok _ => True | _ => False end) as F by (vm_compute; exact I).
    pose proof (respond_correct idle_kernel (λ _, 5) a_broker sample_ignored (a_describe 127) [] a_broker_state
      sample_ignored_ok Hw Hu) as H. rewrite app_nil_r in H.
    revert F H. generalize (handle idle_kernel (λ _, 5) a_broker (a_describe 127) a_broker_state).
    intros [[resp st']| |] F H; [exact (proj1 H)|destruct F..].
Defined.
