(* ===== verification/Config.v ===== *)
(** * Configuration (src/src/config/properties.cpp, config.cpp)

    A configuration starts from defaults, takes the settings of a properties
    file and then those of the command line.  The content of the file (absent
    when it cannot be opened), the arguments and the number of hardware threads
    are arguments; the order in which the hash map of properties is traversed
    is a parameter. *)

From S2P Require Import Prelude Storage.

(** ** Properties files *)

(** [trim]: without white space at both ends. *)
Definition trim (sv : bytes) : bytes := rev (skip_spaces (rev (skip_spaces sv))).

(** [while (std::getline(file, line))]: the lines of a stream; text behind the
    last newline is a line when there is some.  [line] is what has been read of
    the current one. *)
Fixpoint getlines (line file : bytes) : list bytes :=
  match file with
  | [] => match line with [] => [] | _ => [line] end
  | c :: file' => if c =? 10 then line :: getlines [] file' else getlines (line ++ [c]) file'
  end.

(** [find('=')] with the text before and behind it. *)
Fixpoint split_eq (sv : bytes) : option (bytes * bytes) :=
  match sv with
  | [] => None
  | c :: sv' =>
      if c =? 61 then Some ([], sv')
      else '(key, val) ← split_eq sv'; Some (c :: key, val)
  end.

(** [if (!line.empty() && line.back() == '\r') line.pop_back();] *)
Definition drop_cr (line : bytes) : bytes :=
  if decide (last line = Some 13) then removelast line else line.

Abbreviation Properties := (gmap bytes bytes).

(** The body of the loop: comments, lines without [=] and lines without a key
    are skipped; a later line overwrites an earlier one. *)
Definition add_line (props : Properties) (line : bytes) : Properties :=
  let trimmed := trim (drop_cr line) in
  if decide (trimmed = [] ∨ head trimmed = Some 35) then props
  else
    match split_eq trimmed with
    | None => props
    | Some (k, v) => let key := trim k in if decide (key = []) then props else <[key := trim v]> props
    end.

Definition load_properties (file : option bytes) : option Properties :=
  content ← file; Some (fold_left add_line (getlines [] content) ∅).

(** ** Settings *)

Record Config := mkConfig {
  port : Z;
  log_root : bytes;
  max_message_bytes : Z;
  max_write_buffer_bytes : Z;
  cfg_segment_bytes : Z;
  cfg_reactor_count : Z }.

Definition default_config : Config :=
  mkConfig 9092 (str "/tmp/kraft-combined-logs") 1048576 4194304 1073741824 0.

Fixpoint digits_prefix (s : bytes) : bytes * bytes :=
  match s with
  | c :: s' => if is_digit c then let '(ds, rest) := digits_prefix s' in (c :: ds, rest) else ([], s)
  | [] => ([], [])
  end.

(** [std::from_chars] into a [w]-bit unsigned integer: the value and the text
    behind its digits; [None] when there are no digits or too many. *)
Definition from_chars (w : Z) (s : bytes) : option (Z * bytes) :=
  match digits_prefix s with
  | ([], _) => None
  | (ds, rest) => if read_digits ds 0 <? 2 ^ w then Some (read_digits ds 0, rest) else None
  end.

Definition parse_int (w : Z) (sv : bytes) : Z :=
  match from_chars w sv with
  | Some (result, []) => result
  | _ => 0
  end.

Definition remove_dashes (arg : bytes) : bytes :=
  match arg with
  | 45 :: 45 :: arg' => arg'
  | _ => arg
  end.

(** The key and the value of an argument; both empty without [=]. *)
Definition parse_cli_arg (arg : bytes) : bytes * bytes := default ([], []) (split_eq (remove_dashes arg)).

Definition set_if_parsed (parsed current : Z) : Z := if parsed =? 0 then current else parsed.

Definition apply_config_key (c : Config) (key value : bytes) : Config :=
  if decide (key = str "port") then
    mkConfig (set_if_parsed (parse_int 16 value) (port c)) (log_root c) (max_message_bytes c)
      (max_write_buffer_bytes c) (cfg_segment_bytes c) (cfg_reactor_count c)
  else if decide (key = str "log.dirs") then
    mkConfig (port c) value (max_message_bytes c) (max_write_buffer_bytes c) (cfg_segment_bytes c)
      (cfg_reactor_count c)
  else if decide (key = str "max.message.bytes") then
    mkConfig (port c) (log_root c) (set_if_parsed (parse_int 32 value) (max_message_bytes c))
      (max_write_buffer_bytes c) (cfg_segment_bytes c) (cfg_reactor_count c)
  else if decide (key = str "max.write.buffer.bytes") then
    mkConfig (port c) (log_root c) (max_message_bytes c)
      (set_if_parsed (parse_int 64 value) (max_write_buffer_bytes c)) (cfg_segment_bytes c) (cfg_reactor_count c)
  else if decide (key = str "segment.bytes") then
    mkConfig (port c) (log_root c) (max_message_bytes c) (max_write_buffer_bytes c)
      (set_if_parsed (parse_int 64 value) (cfg_segment_bytes c)) (cfg_reactor_count c)
  else if decide (key = str "reactor.count") then
    mkConfig (port c) (log_root c) (max_message_bytes c) (max_write_buffer_bytes c) (cfg_segment_bytes c)
      (set_if_parsed (parse_int 64 value) (cfg_reactor_count c))
  else c.

Definition with_reactor_count (n : Z) (c : Config) : Config :=
  mkConfig (port c) (log_root c) (max_message_bytes c) (max_write_buffer_bytes c) (cfg_segment_bytes c) n.

(** An argument without a key is ignored. *)
Definition apply_cli_arg (c : Config) (arg : bytes) : Config :=
  match parse_cli_arg arg with
  | ([], _) => c
  | (key, value) => apply_config_key c key value
  end.

(** [Config::load]; [order] is the order in which the map is traversed, and
    [file] the content of the file at a path that is not empty. *)
Definition load (order : Properties → list (bytes * bytes)) (hardware_concurrency : Z)
    (argv : list bytes) (file : option bytes) : Config :=
  let config := default_config in
  let config := if cfg_reactor_count config =? 0 then with_reactor_count hardware_concurrency config else config in
  let config := if cfg_reactor_count config =? 0 then with_reactor_count 1 config else config in
  let config :=
    match load_properties file with
    | Some props => fold_left (λ c '(key, value), apply_config_key c key value) (order props) config
    | None => config
    end in
  fold_left apply_cli_arg (tail argv) config.

(** ** What a setting ends up as *)

(** A field of the configuration with its key and the values it accepts. *)
Record Setting (A : Type) := mkSetting {
  s_key : bytes;
  s_get : Config → A;
  s_parse : bytes → option A }.
Arguments mkSetting {A}.
Arguments s_key {A}.
Arguments s_get {A}.
Arguments s_parse {A}.

Definition numeric (w : Z) (v : bytes) : option Z := if parse_int w v =? 0 then None else Some (parse_int w v).

Definition port_setting := mkSetting (str "port") port (numeric 16).
Definition log_root_setting := mkSetting (str "log.dirs") log_root Some.
Definition max_message_setting := mkSetting (str "max.message.bytes") max_message_bytes (numeric 32).
Definition max_write_setting := mkSetting (str "max.write.buffer.bytes") max_write_buffer_bytes (numeric 64).
Definition segment_setting := mkSetting (str "segment.bytes") cfg_segment_bytes (numeric 64).
Definition reactor_setting := mkSetting (str "reactor.count") cfg_reactor_count (numeric 64).

(** The value an assignment gives to a setting, if any. *)
Definition assigned {A} (s : Setting A) (kv : bytes * bytes) : option A :=
  if decide (kv.1 = s_key s) then s_parse s kv.2 else None.

(** A key changes its own setting only, and only to an accepted value. *)
Class Tracks {A} (s : Setting A) : Prop := {
  tracks_apply c k v : s_get s (apply_config_key c k v) = default (s_get s c) (assigned s (k, v));
  tracks_key : s_key s ≠ [] }.

Ltac solve_tracks :=
  split; [intros c k v; unfold apply_config_key, assigned, set_if_parsed, numeric; cbn [s_get s_key s_parse fst snd];
          repeat case_decide; subst; try done; cbn; by repeat case_match|done].

#[export] Instance port_tracks : Tracks port_setting.
Proof. unfold port_setting. solve_tracks. Qed.
#[export] Instance log_root_tracks : Tracks log_root_setting.
Proof. unfold log_root_setting. solve_tracks. Qed.
#[export] Instance max_message_tracks : Tracks max_message_setting.
Proof. unfold max_message_setting. solve_tracks. Qed.
#[export] Instance max_write_tracks : Tracks max_write_setting.
Proof. unfold max_write_setting. solve_tracks. Qed.
#[export] Instance segment_tracks : Tracks segment_setting.
Proof. unfold segment_setting. solve_tracks. Qed.
#[export] Instance reactor_tracks : Tracks reactor_setting.
Proof. unfold reactor_setting. solve_tracks. Qed.

(** The last accepted value of the command line, else that of the file, else
    the default. *)
Definition effective {A} (s : Setting A) (args : list (bytes * bytes)) (props : Properties) (dflt : A) : A :=
  match last (omap (assigned s) args) with
  | Some a => a
  | None => default dflt (props !! s_key s ≫= s_parse s)
  end.

Section tracking.
Context {A} (s : Setting A) `{!Tracks s}.

Lemma fold_assigned l c :
  s_get s (fold_left (λ c '(key, value), apply_config_key c key value) l c) =
  default (s_get s c) (last (omap (assigned s) l)).
Proof using All.
  revert c. induction l as [|[k v] l IH]; intros c; [done|]. cbn [fold_left omap list_omap].
  rewrite IH, tracks_apply. destruct (assigned s (k, v)) as [a|]; [|done].
  rewrite last_cons. change (list_omap _ _ (assigned s) l) with (omap (assigned s) l).
  by destruct (last (omap (assigned s) l)).
Qed.

Lemma fold_cli argv c :
  s_get s (fold_left apply_cli_arg argv c) =
  default (s_get s c) (last (omap (assigned s) (map parse_cli_arg argv))).
Proof using All.
  revert c. induction argv as [|a argv IH]; intros c; [done|]. cbn [fold_left map omap list_omap]. rewrite IH.
  assert (s_get s (apply_cli_arg c a) = default (s_get s c) (assigned s (parse_cli_arg a))) as ->.
  { unfold apply_cli_arg. destruct (parse_cli_arg a) as [[|x k] v]; [|apply tracks_apply].
    unfold assigned. cbn. rewrite decide_False; [done|]. intros E. by destruct tracks_key. }
  destruct (assigned s (parse_cli_arg a)) as [b|]; [|done].
  rewrite last_cons. change (list_omap _ _ (assigned s) ?l) with (omap (assigned s) l).
  by destruct (last (omap (assigned s) (map parse_cli_arg argv))).
Qed.

Lemma assigned_none (l : list (bytes * bytes)) : s_key s ∉ l.*1 → omap (assigned s) l = [].
Proof.
  induction l as [|[k v] l IH]; intros H; [done|]. cbn in *. unfold assigned at 1. cbn.
  rewrite decide_False by set_solver. apply IH. set_solver.
Qed.

(** Every traversal of the map meets the key at most once. *)
Lemma assigned_map (l : list (bytes * bytes)) (props : Properties) :
  l ≡ₚ map_to_list props → last (omap (assigned s) l) = props !! s_key s ≫= s_parse s.
Proof.
  intros Hl. assert (NoDup (l.*1)) as Hnd by (rewrite Hl; apply NoDup_fst_map_to_list).
  assert (∀ k v, (k, v) ∈ l ↔ props !! k = Some v) as Hin by (intros k v; rewrite Hl; apply elem_of_map_to_list).
  destruct (props !! s_key s) as [v|] eqn:E; cbn.
  - apply Hin, list_elem_of_split in E as (l1 & l2 & ->).
    rewrite fmap_app, fmap_cons in Hnd. apply NoDup_app in Hnd as (_ & H1 & H2).
    apply NoDup_cons in H2 as [H2 _]. rewrite omap_app, assigned_none by (intros H; apply (H1 _ H); by left).
    cbn. rewrite assigned_none by done. unfold assigned. cbn. rewrite decide_True by done.
    by destruct (s_parse s v).
  - rewrite assigned_none; [done|]. intros ([k v] & Hk & H)%list_elem_of_fmap. cbn in Hk. subst k.
    apply Hin in H. congruence.
Qed.
End tracking.

(** What the program starts with when nothing is set. *)
Definition initial_config (hardware_concurrency : Z) : Config :=
  with_reactor_count (if hardware_concurrency =? 0 then 1 else hardware_concurrency) default_config.

Lemma load_setting {A} (s : Setting A) `{!Tracks s} order hc argv file :
  (∀ props, order props ≡ₚ map_to_list props) →
  s_get s (load order hc argv file) =
  effective s (map parse_cli_arg (tail argv)) (default ∅ (load_properties file)) (s_get s (initial_config hc)).
Proof.
  intros Ho. unfold load. rewrite (fold_cli s). unfold effective.
  destruct (last (omap (assigned s) (map parse_cli_arg (tail argv)))) as [a|]; [done|]. cbn [default].
  set (c := if _ =? 0 then with_reactor_count 1 _ else _).
  assert (c = initial_config hc) as ->.
  { unfold c, initial_config. cbn. by destruct (hc =? 0). }
  destruct (load_properties file) as [props|]; cbn [default].
  - rewrite (fold_assigned s). by rewrite (assigned_map s _ props).
  - by rewrite lookup_empty.
Qed.

(** C34: every setting ends up as the last acceptable value given for it on the
    command line, failing that the one in the properties file, failing that its
    default; the order in which the file's settings are traversed plays no role. *)
Theorem load_effective order hc argv file :
  (∀ props, order props ≡ₚ map_to_list props) →
  let args := map parse_cli_arg (tail argv) in
  let props := default ∅ (load_properties file) in
  load order hc argv file =
  mkConfig (effective port_setting args props 9092)
    (effective log_root_setting args props (str "/tmp/kraft-combined-logs"))
    (effective max_message_setting args props 1048576)
    (effective max_write_setting args props 4194304)
    (effective segment_setting args props 1073741824)
    (effective reactor_setting args props (if hc =? 0 then 1 else hc)).
Proof.
  intros Ho args props. assert (∀ c, c = mkConfig (port c) (log_root c) (max_message_bytes c)
    (max_write_buffer_bytes c) (cfg_segment_bytes c) (cfg_reactor_count c)) as Eta by (by intros []).
  rewrite (Eta (load order hc argv file)). f_equal.
  - apply (load_setting port_setting _ hc _ _ Ho).
  - apply (load_setting log_root_setting _ hc _ _ Ho).
  - apply (load_setting max_message_setting _ hc _ _ Ho).
  - apply (load_setting max_write_setting _ hc _ _ Ho).
  - apply (load_setting segment_setting _ hc _ _ Ho).
  - apply (load_setting reactor_setting _ hc _ _ Ho).
Qed.

Definition a_file : bytes :=
  str "port=1111" ++ [10] ++ str " log.dirs = /file/path" ++ [13; 10] ++ str "# port=7" ++ [10] ++ str "segment.bytes=4096".

Lemma load_effective_witness :
  load map_to_list 0 [str "kafka"; str "--port=2222"; str "port=70000"; str "verbose"] (Some a_file) =
  mkConfig 2222 (str "/file/path") 1048576 4194304 4096 1.
Proof.
  rewrite (load_effective map_to_list 0 [str "kafka"; str "--port=2222"; str "port=70000"; str "verbose"] (Some a_file))
    by done.
  vm_compute. reflexivity.
Defined.

(** ** Valid configurations *)

Lemma read_digits_nonneg ds acc : Forall (λ c, is_digit c = true) ds → 0 ≤ acc → 0 ≤ read_digits ds acc.
Proof.
  intros Hd. revert acc. induction Hd as [|c ds Hc _ IH]; intros acc Ha; [done|]. cbn. rewrite Hc. apply IH.
  unfold is_digit in Hc. lia.
Qed.

Lemma digits_prefix_spec s :
  let '(ds, rest) := digits_prefix s in s = ds ++ rest ∧ Forall (λ c, is_digit c = true) ds.
Proof.
  induction s as [|c s IH]; [done|]. cbn. destruct (is_digit c) eqn:Hc; [|done].
  destruct (digits_prefix s) as [ds rest]. destruct IH as [-> Hd]. split; [done|by constructor].
Qed.

Lemma parse_int_range w v : 0 ≤ w → in_uint w (parse_int w v).
Proof.
  intros Hw. assert (in_uint w 0) as H0 by (unfold in_uint; pose proof (Z.pow_pos_nonneg 2 w); lia).
  unfold parse_int, from_chars. pose proof (digits_prefix_spec v) as Hs.
  destruct (digits_prefix v) as [[|d ds] rest]; [done|]. destruct Hs as [_ Hd].
  destruct (Z.ltb_spec (read_digits (d :: ds) 0) (2 ^ w)) as [Hlt|]; [|done].
  destruct rest; [|done]. unfold in_uint. split; [by apply read_digits_nonneg|lia].
Qed.

Lemma numeric_range w v z : 0 ≤ w → numeric w v = Some z → 0 < z < 2 ^ w.
Proof.
  intros Hw. unfold numeric. pose proof (parse_int_range w v Hw) as Hr. unfold in_uint in Hr.
  destruct (Z.eqb_spec (parse_int w v) 0); [done|]. intros [= <-]. lia.
Qed.

Lemma effective_ind {A} (P : A → Prop) (s : Setting A) args props dflt :
  (∀ v a, s_parse s v = Some a → P a) → P dflt → P (effective s args props dflt).
Proof.
  intros Hp Hd. unfold effective. destruct (last _) as [a|] eqn:E.
  - apply last_Some in E as [l E]. assert (a ∈ omap (assigned s) args) as ([k v] & _ & Ha)%list_elem_of_omap
      by (rewrite E; set_solver).
    unfold assigned in Ha. case_decide; [|done]. eauto.
  - destruct (props !! s_key s) as [v|]; [|done]. cbn. destruct (s_parse s v) eqn:Ev; [|done]. cbn. eauto.
Qed.

(** What the rest of the program relies on: the port is one, the limits are
    positive and fit their types, and there is at least one reactor. *)
Record config_ok (c : Config) : Prop := {
  cfg_port : 0 < port c < 2 ^ 16;
  cfg_message : 0 < max_message_bytes c < 2 ^ 32;
  cfg_write : 0 < max_write_buffer_bytes c < 2 ^ 64;
  cfg_segment : 0 < cfg_segment_bytes c < 2 ^ 64;
  cfg_reactors : 0 < cfg_reactor_count c < 2 ^ 64 }.

Lemma load_numeric (s : Setting Z) `{!Tracks s} w order hc argv file :
  (∀ props, order props ≡ₚ map_to_list props) → s_parse s = numeric w → 0 ≤ w →
  0 < s_get s (initial_config hc) < 2 ^ w → 0 < s_get s (load order hc argv file) < 2 ^ w.
Proof.
  intros Ho Hs Hw Hi. rewrite (load_setting s order hc argv file Ho).
  apply (effective_ind (λ z, 0 < z < 2 ^ w)); [|done]. rewrite Hs. intros v a. by apply numeric_range.
Qed.

Lemma load_ok order hc argv file :
  (∀ props, order props ≡ₚ map_to_list props) → in_uint 32 hc → config_ok (load order hc argv file).
Proof.
  intros Ho Hhc. unfold in_uint in Hhc. split.
  - by apply (load_numeric port_setting 16).
  - by apply (load_numeric max_message_setting 32).
  - by apply (load_numeric max_write_setting 64).
  - by apply (load_numeric segment_setting 64).
  - apply (load_numeric reactor_setting 64); [done..|]. cbn. destruct (Z.eqb_spec hc 0); lia.
Qed.

(** C35: whatever the arguments and the file contain, the configuration is
    valid: a port in 1..65535, positive limits that fit their integer types, and
    at least one reactor even when the number of hardware threads is unknown. *)
Theorem load_valid order hc argv file :
  (∀ props, order props ≡ₚ map_to_list props) → in_uint 32 hc → config_ok (load order hc argv file).
Proof. apply load_ok. Qed.

Lemma load_valid_witness :
  config_ok (load map_to_list 0 [str "kafka"; str "--port=0"; str "--reactor.count=-1"; str "=5"] None).
Proof. apply load_valid; [done|by vm_compute]. Defined.

(** ** Reading back what was written *)

Lemma read_pretty_go x s :
  read_digits (str (pretty_N_go x s)) 0 = read_digits (str s) (Z.of_N x).
Proof.
  revert s. induction (N.lt_wf_0 x) as [x _ IH]; intros s.
  destruct (decide (x = 0%N)) as [->|Hx]; [done|].
  rewrite pretty_N_go_step, IH by (lia || (apply N.div_lt; lia)).
  assert (x mod 10 < 10)%N as Hm by (by apply N.mod_lt).
  assert (∀ d, (d < 10)%N → Z.of_N (Ascii.N_of_ascii (pretty_N_char d)) = 48 + Z.of_N d) as Hd.
  { intros d Hd. assert (d = 0 ∨ d = 1 ∨ d = 2 ∨ d = 3 ∨ d = 4 ∨ d = 5 ∨ d = 6 ∨ d = 7 ∨ d = 8 ∨ d = 9)%N as H by lia.
    by repeat destruct H as [->|H]; [..|subst d]. }
  assert (Z.of_N x = Z.of_N (x / 10) * 10 + Z.of_N (x mod 10)) as Hx10
    by (pose proof (N.div_mod x 10 ltac:(done)); lia).
  assert (0 ≤ Z.of_N (x mod 10) < 10) as Hm10
    by (split; [apply N2Z.is_nonneg|change 10 with (Z.of_N 10); by apply N2Z.inj_lt]).
  cbn [str read_digits]. rewrite Hd by done. revert Hm10 Hx10. generalize (Z.of_N (x mod 10)). intros m Hm10 Hx10.
  unfold is_digit. destruct (Z.leb_spec 48 (48 + m)), (Z.leb_spec (48 + m) 57); [cbn [andb]|lia..].
  f_equal. lia.
Qed.

(** A number that fits the type is read back from its decimal text. *)
Lemma parse_int_to_string w z : in_uint w z → parse_int w (to_string z) = z.
Proof.
  intros [Hz Hw]. pose proof (to_string_digits z Hz) as Hd.
  assert (read_digits (to_string z) 0 = z) as Hv.
  { destruct z as [|p|p]; [done| |lia]. exact (read_pretty_go (N.pos p) EmptyString). }
  assert (digits_prefix (to_string z) = (to_string z, [])) as Hp.
  { clear Hv. induction Hd as [|c s Hc _ IH]; [done|]. cbn. unfold is_digit.
    destruct (Z.leb_spec 48 c), (Z.leb_spec c 57); [|lia..]. cbn. by rewrite IH. }
  assert (to_string z ≠ []) as Hne.
  { intros E. rewrite E in Hv. cbn in Hv. subst z. done. }
  unfold parse_int, from_chars. rewrite Hp. destruct (to_string z) as [|c s] eqn:E; [done|].
  rewrite Hv. by destruct (Z.ltb_spec z (2 ^ w)); [|lia].
Qed.

Definition spaces (s : bytes) : Prop := Forall (λ c, is_space c = true) s.

Lemma skip_spaces_app s t : spaces s → skip_spaces (s ++ t) = skip_spaces t.
Proof. induction 1 as [|c s Hc _ IH]; [done|]. cbn. by rewrite Hc. Qed.

Lemma skip_spaces_stop c s : is_space c = false → skip_spaces (c :: s) = c :: s.
Proof. cbn. by intros ->. Qed.

Definition rtrim (s : bytes) : bytes := rev (skip_spaces (rev s)).

Lemma rtrim_app s t : spaces t → rtrim (s ++ t) = rtrim s.
Proof. intros Ht. unfold rtrim. rewrite rev_app_distr, skip_spaces_app; [done|]. by apply Forall_rev. Qed.

Lemma rtrim_stop s c t : is_space c = false → rtrim (s ++ c :: t) = s ++ c :: rtrim t.
Proof.
  intros Hc. unfold rtrim. rewrite rev_app_distr. cbn. rewrite <-app_assoc. cbn [app].
  generalize (rev t). intros u.
  assert (skip_spaces (u ++ c :: rev s) = skip_spaces u ++ c :: rev s) as ->.
  { induction u as [|x u IH]; cbn; [by rewrite Hc|]. by destruct (is_space x). }
  rewrite rev_app_distr. cbn. by rewrite rev_involutive, <-app_assoc.
Qed.

Lemma trim_left s t : spaces s → trim (s ++ t) = trim t.
Proof. intros Hs. unfold trim. by rewrite skip_spaces_app. Qed.

Lemma all_spaces_or s : spaces s ∨ ∃ pre c rest, s = pre ++ c :: rest ∧ spaces pre ∧ is_space c = false.
Proof.
  induction s as [|c s IH]; [by left; constructor|]. destruct (is_space c) eqn:Hc.
  - destruct IH as [H|(pre & d & rest & -> & Hp & Hd)]; [left; by constructor|].
    right. exists (c :: pre), d, rest. split_and!; [done|by constructor|done].
  - right. exists [], c, s. split_and!; [done|constructor|done].
Qed.

Lemma trim_spaces s : spaces s → trim s = [].
Proof. intros Hs. rewrite <-(app_nil_r s). by rewrite trim_left. Qed.

(** White space at the end does not matter either. *)
Lemma trim_right s t : spaces t → trim (s ++ t) = trim s.
Proof.
  intros Ht. destruct (all_spaces_or s) as [Hs|(pre & c & rest & -> & Hp & Hc)].
  - rewrite trim_left, !trim_spaces by done. done.
  - rewrite <-app_assoc, (trim_left pre), (trim_left pre) by done. unfold trim. cbn [app]. rewrite !skip_spaces_stop by done.
    change (rtrim ((c :: rest) ++ t) = rtrim (c :: rest)). by apply rtrim_app.
Qed.

Lemma trim_drop_cr s : trim (drop_cr s) = trim s.
Proof.
  unfold drop_cr. case_decide as E; [|done]. apply last_Some in E as [l ->].
  rewrite removelast_last. symmetry. apply trim_right. by repeat constructor.
Qed.

(** *** The file format *)

(** A line of a properties file: a setting padded with white space, a comment
    or white space only; ended by a newline, perhaps with a carriage return. *)
Inductive prop_line :=
| SettingLine (pre key mid1 mid2 val post : bytes)
| CommentLine (pre text : bytes)
| BlankLine (text : bytes).

Definition line_text (l : prop_line) : bytes :=
  match l with
  | SettingLine pre key mid1 mid2 val post => pre ++ key ++ mid1 ++ 61 :: mid2 ++ val ++ post
  | CommentLine pre text => pre ++ 35 :: text
  | BlankLine text => text
  end.

Definition render (ls : list (prop_line * bool)) : bytes :=
  concat (map (λ '(l, crlf), line_text l ++ (if crlf : bool then [13] else []) ++ [10]) ls).

(** A text that starts and ends with something else than white space. *)
Definition trimmed (s : bytes) : Prop := trim s = s.

Definition line_ok (l : prop_line) : Prop :=
  10 ∉ line_text l ∧
  match l with
  | SettingLine pre key mid1 mid2 val post =>
      spaces pre ∧ spaces mid1 ∧ spaces mid2 ∧ spaces post ∧ trimmed key ∧ trimmed val ∧
      key ≠ [] ∧ head key ≠ Some 35 ∧ 61 ∉ key
  | CommentLine pre _ => spaces pre
  | BlankLine text => spaces text
  end.

Definition line_setting (l : prop_line) : option (bytes * bytes) :=
  match l with
  | SettingLine _ key _ _ val _ => Some (key, val)
  | _ => None
  end.

Lemma getlines_line line cur rest :
  10 ∉ line → getlines cur (line ++ 10 :: rest) = (cur ++ line) :: getlines [] rest.
Proof.
  revert cur. induction line as [|c line IH]; intros cur Hn; cbn.
  - by rewrite app_nil_r.
  - destruct (Z.eqb_spec c 10); [set_solver|]. rewrite IH by set_solver. by rewrite <-app_assoc.
Qed.

Lemma split_eq_at k v : 61 ∉ k → split_eq (k ++ 61 :: v) = Some (k, v).
Proof.
  induction k as [|c k IH]; intros Hn; [done|]. cbn. destruct (Z.eqb_spec c 61); [set_solver|].
  by rewrite IH by set_solver.
Qed.

(** A trimmed text that is not empty starts with a visible character. *)
Lemma trimmed_head s : trimmed s → s ≠ [] → ∃ c s', s = c :: s' ∧ is_space c = false.
Proof.
  intros Ht Hne. destruct s as [|c s]; [done|]. exists c, s. split; [done|].
  destruct (is_space c) eqn:Hc; [|done]. exfalso.
  assert (∀ x, length (skip_spaces x) ≤ length x)%nat as Hlen.
  { induction x as [|y x IH]; [done|]. cbn. destruct (is_space y); cbn; lia. }
  assert (length (trim (c :: s)) ≤ length s)%nat as H.
  { unfold trim. cbn [skip_spaces]. rewrite Hc, length_rev. etrans; [apply Hlen|]. rewrite length_rev. apply Hlen. }
  rewrite Ht in H. cbn in H. lia.
Qed.

Lemma spaces_no_eq s : spaces s → 61 ∉ s.
Proof. intros Hs Hin. unfold spaces in Hs. rewrite Forall_forall in Hs. specialize (Hs _ Hin). done. Qed.

Lemma trim_rtrim s : trim (rtrim s) = trim s.
Proof.
  assert (∀ u, ∃ ws, spaces ws ∧ u = ws ++ skip_spaces u) as Hsk.
  { induction u as [|c u (ws & Hws & IH)]; [exists []; by split; [constructor|]|].
    cbn. destruct (is_space c) eqn:Hc; [|exists []; by split; [constructor|]].
    exists (c :: ws). split; [by constructor|]. cbn. by f_equal. }
  destruct (Hsk (rev s)) as (ws & Hws & E).
  assert (s = rtrim s ++ rev ws) as Es.
  { unfold rtrim. rewrite <-rev_app_distr, <-E. by rewrite rev_involutive. }
  rewrite Es at 2. by rewrite trim_right by (by apply Forall_rev).
Qed.

Lemma add_line_ok props l crlf :
  line_ok l →
  add_line props (line_text l ++ (if crlf : bool then [13] else [])) =
  match line_setting l with Some (k, v) => <[k := v]> props | None => props end.
Proof.
  intros [_ Hl]. unfold add_line. rewrite trim_drop_cr, trim_right by (destruct crlf; by repeat constructor).
  destruct l as [pre key mid1 mid2 val post|pre text|text]; cbn [line_text line_setting].
  - destruct Hl as (Hpre & Hm1 & Hm2 & Hpost & Hk & Hv & Hne & Hhash & Heq).
    rewrite trim_left by done. destruct (trimmed_head key Hk Hne) as (c & k' & Ek & Hc).
    assert (trim (key ++ mid1 ++ 61 :: mid2 ++ val ++ post) = (key ++ mid1) ++ 61 :: rtrim (mid2 ++ val ++ post)) as ->.
    { unfold trim. rewrite Ek at 1. cbn [app]. rewrite skip_spaces_stop by done.
      rewrite <-rtrim_stop by done. by rewrite Ek, <-app_assoc. }
    rewrite decide_False by (rewrite Ek in Hhash |- *; intros [?|?]; [done|by apply Hhash]).
    pose proof (spaces_no_eq mid1 Hm1). rewrite split_eq_at by set_solver.
    rewrite trim_right, Hk, trim_rtrim, trim_left, trim_right, Hv by done. by rewrite decide_False.
  - rewrite trim_left by done. unfold trim. rewrite skip_spaces_stop by done.
    change (rev (skip_spaces (rev (35 :: text)))) with (rtrim ([] ++ 35 :: text)). by rewrite rtrim_stop.
  - by rewrite trim_spaces.
Qed.

(** C36: a properties file of settings (padded with white space in any way),
    comments and blank lines, with either kind of line end, is read as the map
    of its settings, in which a later line wins over an earlier one. *)
Theorem load_properties_roundtrip ls :
  Forall (λ '(l, _), line_ok l) ls →
  load_properties (Some (render ls)) =
  Some (fold_left (λ m '(k, v), <[k := v]> m) (omap (λ '(l, _), line_setting l) ls) ∅).
Proof.
  intros Hls. unfold load_properties. cbn [mbind option_bind]. f_equal. generalize (∅ : Properties).
  induction Hls as [|[l crlf] ls Hl _ IH]; intros props; [done|].
  unfold render. cbn [map concat]. rewrite app_assoc, <-app_assoc. cbn [app].
  rewrite getlines_line.
  - cbn [app fold_left]. rewrite add_line_ok by done. cbn [omap list_omap].
    destruct (line_setting l) as [[k v]|]; apply IH.
  - intros [Hin|Hin]%elem_of_app; [by apply Hl|]. destruct crlf; set_solver.
Qed.

Lemma load_properties_roundtrip_witness :
  load_properties (Some (render
    [(SettingLine (str " ") (str "port") (str "  ") [9] (str "1111") [], true);
     (CommentLine [] (str " port = 2"), false); (BlankLine (str "   "), false);
     (SettingLine [] (str "port") [] [] (str "=x y") (str " "), false)])) = Some {[str "port" := str "=x y"]}.
Proof.
  rewrite load_properties_roundtrip; [vm_compute; reflexivity|].
  repeat (apply Forall_cons; split; [split; [decide_now|split_and?; try done; repeat constructor; try decide_now]|]).
  done.
Defined.
