(* ===== verification/Shard.v ===== *)
(** * Sharding (src/src/shard/shard_router.hpp, cross_reactor_queue.hpp)

    Every partition belongs to one reactor, chosen by a hash of its name; the
    reactors exchange requests and responses for each other's partitions through
    queues.  A mutex makes every operation on a queue atomic, so what several
    reactors do with one queue is a sequence of operations.  [std::hash] is a
    parameter with values of type [size_t]. *)

From S2P Require Import Prelude Protocol.

(** ** Routing *)

Record ShardRouter := mkShardRouter { reactor_count_ : Z }.

Definition reactor_count (r : ShardRouter) : Z := reactor_count_ r.

(** The remainder by zero is undefined. *)
Definition route (hash : bytes → Z) (r : ShardRouter) (topic_name : bytes) (partition : Z) : outcome Z :=
  let h := hash topic_name in
  let h := Z.lxor h (wrap_uint 64 (wrap_uint 64 partition + 0x9e3779b9 + Z.shiftl h 6 + Z.shiftr h 2)) in
  if reactor_count_ r =? 0 then Fault undefined_behaviour else Ok (h mod reactor_count_ r).

(** ** Queues between reactors *)

Record ForwardedRequest := mkForwardedRequest {
  fq_client_fd : Z;
  fq_source_reactor_id : Z;
  fq_request : Request }.

Record ForwardedResponse := mkForwardedResponse {
  fs_client_fd : Z;
  fs_data : bytes;
  fs_splice_fd : Z;
  fs_splice_len : Z }.

(** [wakeup_count] is the counter of the event descriptor [wakeup_fd_]. *)
Record CrossReactorQueues := mkQueues {
  requests_ : list ForwardedRequest;
  responses_ : list ForwardedResponse;
  wakeup_fd_ : Z;
  wakeup_count : Z }.

Definition new_queues : CrossReactorQueues := mkQueues [] [] (-1) 0.

Definition set_wakeup_fd (fd : Z) (q : CrossReactorQueues) : CrossReactorQueues :=
  mkQueues (requests_ q) (responses_ q) fd (wakeup_count q).

Definition wake (q : CrossReactorQueues) : CrossReactorQueues :=
  if 0 <=? wakeup_fd_ q
  then mkQueues (requests_ q) (responses_ q) (wakeup_fd_ q) (wakeup_count q + 1)
  else q.

Definition push_request (req : ForwardedRequest) (q : CrossReactorQueues) : CrossReactorQueues :=
  wake (mkQueues (requests_ q ++ [req]) (responses_ q) (wakeup_fd_ q) (wakeup_count q)).

Definition try_pop_request (q : CrossReactorQueues) : option ForwardedRequest * CrossReactorQueues :=
  match requests_ q with
  | [] => (None, q)
  | req :: rest => (Some req, mkQueues rest (responses_ q) (wakeup_fd_ q) (wakeup_count q))
  end.

Definition push_response (resp : ForwardedResponse) (q : CrossReactorQueues) : CrossReactorQueues :=
  wake (mkQueues (requests_ q) (responses_ q ++ [resp]) (wakeup_fd_ q) (wakeup_count q)).

Definition try_pop_response (q : CrossReactorQueues) : option ForwardedResponse * CrossReactorQueues :=
  match responses_ q with
  | [] => (None, q)
  | resp :: rest => (Some resp, mkQueues (requests_ q) rest (wakeup_fd_ q) (wakeup_count q))
  end.

(** The owner reads the event descriptor, which resets its counter. *)
Definition clear_wakeup (q : CrossReactorQueues) : CrossReactorQueues :=
  mkQueues (requests_ q) (responses_ q) (wakeup_fd_ q) 0.

(** ** Properties *)

Lemma route_ok hash r t p :
  0 < reactor_count_ r → ∃ i, route hash r t p = Ok i ∧ 0 ≤ i < reactor_count_ r.
Proof.
  intros Hr. unfold route. destruct (Z.eqb_spec (reactor_count_ r) 0); [lia|].
  eexists. split; [done|]. by apply Z.mod_pos_bound.
Qed.

(** What a reactor observes of a queue: a sequence of operations. *)
Inductive queue_op :=
| PushRequest (req : ForwardedRequest)
| PopRequest
| PushResponse (resp : ForwardedResponse)
| PopResponse
| ClearWakeup.

(** The queue after an operation, with the request and the response it popped. *)
Definition queue_step (o : queue_op) (q : CrossReactorQueues)
    : option ForwardedRequest * option ForwardedResponse * CrossReactorQueues :=
  match o with
  | PushRequest req => (None, None, push_request req q)
  | PopRequest => let '(x, q') := try_pop_request q in (x, None, q')
  | PushResponse resp => (None, None, push_response resp q)
  | PopResponse => let '(x, q') := try_pop_response q in (None, x, q')
  | ClearWakeup => (None, None, clear_wakeup q)
  end.

(** All requests and responses popped by a sequence, in order. *)
Fixpoint queue_run (os : list queue_op) (q : CrossReactorQueues)
    : list ForwardedRequest * list ForwardedResponse * CrossReactorQueues :=
  match os with
  | [] => ([], [], q)
  | o :: os' =>
      let '(x, y, q1) := queue_step o q in
      let '(xs, ys, q2) := queue_run os' q1 in
      (option_list x ++ xs, option_list y ++ ys, q2)
  end.

Definition pushed_requests (os : list queue_op) : list ForwardedRequest :=
  omap (λ o, match o with PushRequest req => Some req | _ => None end) os.
Definition pushed_responses (os : list queue_op) : list ForwardedResponse :=
  omap (λ o, match o with PushResponse resp => Some resp | _ => None end) os.

Lemma wake_fields q :
  requests_ (wake q) = requests_ q ∧ responses_ (wake q) = responses_ q ∧ wakeup_fd_ (wake q) = wakeup_fd_ q.
Proof. unfold wake. by destruct (_ <=? _). Qed.

Lemma queue_step_fifo o q :
  let '(x, y, q') := queue_step o q in
  option_list x ++ requests_ q' = requests_ q ++ pushed_requests [o] ∧
  option_list y ++ responses_ q' = responses_ q ++ pushed_responses [o] ∧
  wakeup_fd_ q' = wakeup_fd_ q.
Proof.
  destruct o; cbn; unfold push_request, push_response, try_pop_request, try_pop_response;
    rewrite ?(proj1 (wake_fields _)), ?(proj1 (proj2 (wake_fields _))), ?(proj2 (proj2 (wake_fields _))); cbn;
    rewrite ?app_nil_r; try done; by repeat case_match; cbn; rewrite ?app_nil_r; simplify_eq.
Qed.

(** A wake-up is pending whenever something was pushed after the last clear. *)
Definition wakes (q : CrossReactorQueues) : Prop :=
  0 ≤ wakeup_count q ∧ (0 ≤ wakeup_fd_ q → requests_ q ≠ [] ∨ responses_ q ≠ [] → 0 < wakeup_count q).

Lemma queue_run_fifo os q :
  let '(xs, ys, q') := queue_run os q in
  xs ++ requests_ q' = requests_ q ++ pushed_requests os ∧
  ys ++ responses_ q' = responses_ q ++ pushed_responses os.
Proof.
  revert q. induction os as [|o os IH]; intros q; cbn; [by rewrite !app_nil_r|].
  pose proof (queue_step_fifo o q) as H. destruct (queue_step o q) as [[x y] q1]. destruct H as (H1 & H2 & _).
  specialize (IH q1). destruct (queue_run os q1) as [[xs ys] q2]. destruct IH as [E1 E2].
  rewrite <-!app_assoc, E1, E2, !app_assoc, H1, H2, <-!app_assoc. unfold pushed_requests, pushed_responses.
  cbn. destruct o; done.
Qed.

(** C37: the queues are first in, first out whatever the reactors do with them:
    the requests (and the responses) popped so far, followed by those still in
    the queue, are exactly those pushed, in order; none is lost, duplicated or
    reordered. *)
Theorem queues_fifo os :
  let '(xs, ys, q) := queue_run os new_queues in
  xs ++ requests_ q = pushed_requests os ∧ ys ++ responses_ q = pushed_responses os.
Proof. exact (queue_run_fifo os new_queues). Qed.

(** Every push wakes the owner: unless it has just cleared its descriptor, a
    queue with something in it has a pending wake-up. *)
Lemma queue_step_wakes o q :
  o ≠ ClearWakeup → wakes q → wakes (queue_step o q).2.
Proof.
  intros Ho Hw. pose proof Hw as [H0 Hq]. destruct o; cbn [queue_step snd].
  - unfold push_request, wake. cbn. destruct (Z.leb_spec 0 (wakeup_fd_ q)); split; cbn; lia.
  - unfold try_pop_request. destruct (requests_ q) as [|x l] eqn:E; [done|]. split; cbn; [done|].
    intros Hf _. apply Hq; [done|]. by left.
  - unfold push_response, wake. cbn. destruct (Z.leb_spec 0 (wakeup_fd_ q)); split; cbn; lia.
  - unfold try_pop_response. destruct (responses_ q) as [|x l] eqn:E; [done|]. split; cbn; [done|].
    intros Hf _. apply Hq; [done|]. by right.
  - done.
Qed.

(** Routing never faults and always picks one of the reactors, for any hash
    function, as long as there is a reactor. *)
Theorem route_in_range hash r t p :
  0 < reactor_count_ r → ∃ i, route hash r t p = Ok i ∧ 0 ≤ i < reactor_count r.
Proof. apply route_ok. Qed.

Lemma route_in_range_witness : ∃ i, route (λ _, 2 ^ 64 - 1) (mkShardRouter 4) (str "t") (-1) = Ok i ∧ 0 ≤ i < 4.
Proof. by apply (route_in_range (λ _, 2 ^ 64 - 1) (mkShardRouter 4)). Defined.
