(* ===== verification/Socket.v ===== *)
(** * Sockets (src/src/net/socket.cpp, server.cpp)

    A connected socket as the kernel sees it: the bytes that have arrived and
    not been read, whether the peer has closed or the connection failed, the
    bytes accepted for sending, and the room left for more.  How many bytes a
    single [read] or [send] moves is up to the kernel ([cut], one choice per
    call, at least one byte when it moves any). *)

From S2P Require Import Prelude.

Record Sock := mkSock {
  s_in : bytes;
  s_eof : bool;
  s_in_error : bool;
  s_out : bytes;
  s_room : Z;
  s_out_error : bool }.

Inductive io_result :=
| Moved (data : bytes) (s : Sock)
| WouldBlock
| Failed.

(** The size of one transfer of at most [n] bytes. *)
Definition transfer (cut n : Z) : Z := Z.max 1 (Z.min cut n).

Definition with_in (s : Sock) (i : bytes) : Sock :=
  mkSock i (s_eof s) (s_in_error s) (s_out s) (s_room s) (s_out_error s).
Definition with_out (s : Sock) (o : bytes) (room : Z) : Sock :=
  mkSock (s_in s) (s_eof s) (s_in_error s) o room (s_out_error s).

(** [::read(fd, buf, n)] on a non-blocking socket; no bytes mean the end. *)
Definition sock_read (cut n : Z) (s : Sock) : io_result :=
  match s_in s with
  | [] => if s_eof s then Moved [] s else if s_in_error s then Failed else WouldBlock
  | _ =>
      let k := transfer cut (Z.min n (zlen (s_in s))) in
      Moved (ztake k (s_in s)) (with_in s (zdrop k (s_in s)))
  end.

(** [::send(fd, data, n, MSG_NOSIGNAL)] *)
Definition sock_send (cut : Z) (data : bytes) (s : Sock) : io_result :=
  if s_out_error s then Failed
  else if s_room s <=? 0 then WouldBlock
  else
    let k := transfer cut (Z.min (zlen data) (s_room s)) in
    Moved (ztake k data) (with_out s (s_out s ++ ztake k data) (s_room s - k)).

(** The loop of [recv_all] and what it has put into the buffer so far; each
    iteration adds a byte, so [want] iterations are enough. *)
Fixpoint recv_loop (fuel : nat) (cut : nat → Z) (want : Z) (received : bytes) (s : Sock) : option bytes * Sock :=
  match fuel with
  | O => (Some received, s)
  | S fuel' =>
      if zlen received <? want then
        match sock_read (cut 0%nat) (want - zlen received) s with
        | WouldBlock => (Some received, s)
        | Failed => (None, s)
        | Moved [] s' => (Some received, s')
        | Moved data s' => recv_loop fuel' (λ i, cut (S i)) want (received ++ data) s'
        end
      else (Some received, s)
  end.

(** The bytes received, [None] for an error. *)
Definition recv_all (cut : nat → Z) (want : Z) (s : Sock) : option bytes * Sock :=
  recv_loop (Z.to_nat want) cut want [] s.

Fixpoint send_loop (fuel : nat) (cut : nat → Z) (data : bytes) (sent : Z) (s : Sock) : option Z * Sock :=
  match fuel with
  | O => (Some sent, s)
  | S fuel' =>
      if sent <? zlen data then
        match sock_send (cut 0%nat) (zdrop sent data) s with
        | WouldBlock => (Some sent, s)
        | Failed => (None, s)
        | Moved n s' => send_loop fuel' (λ i, cut (S i)) data (sent + zlen n) s'
        end
      else (Some sent, s)
  end.

(** The number of bytes sent, [None] for an error. *)
Definition send_all (cut : nat → Z) (data : bytes) (s : Sock) : option Z * Sock :=
  send_loop (length data) cut data 0 s.

(** ** The listener *)

(** What the system calls of [Server::create] return. *)
Record ListenEnv := mkListenEnv {
  le_socket : Z;
  le_reuseaddr : bool;
  le_reuseport : bool;
  le_bind : bool;
  le_listen : bool }.

(** The descriptor of the server, [None] for an error; [open] are the open
    descriptors of the process. *)
Definition server_create (env : ListenEnv) (open : gset Z) : option Z * gset Z :=
  let fd := le_socket env in
  if fd <? 0 then (None, open)
  else
    let open := {[fd]} ∪ open in
    if negb (le_reuseaddr env) then (None, open ∖ {[fd]})
    else if negb (le_reuseport env) then (None, open ∖ {[fd]})
    else if negb (le_bind env) then (None, open ∖ {[fd]})
    else if negb (le_listen env) then (None, open ∖ {[fd]})
    else (Some fd, open).

(** [take_fd]: the descriptor and the server that no longer owns it. *)
Definition take_fd (server_fd : Z) : Z * Z := (server_fd, -1).

(** Moving a server leaves [-1] behind; a move assignment first closes what the
    target owned. *)
Definition server_move (other : Z) : Z * Z := (other, -1).
Definition server_move_assign (this_is_other : bool) (server_fd other : Z) (open : gset Z) : Z * Z * gset Z :=
  if this_is_other then (server_fd, other, open)
  else (other, -1, if 0 <=? server_fd then open ∖ {[server_fd]} else open).

(** [Server::accept], given what the system call returns. *)
Definition server_accept (client_fd : Z) : option Z := if client_fd <? 0 then None else Some client_fd.

(** [~Server] *)
Definition server_destroy (server_fd : Z) (open : gset Z) : gset Z :=
  if 0 <=? server_fd then open ∖ {[server_fd]} else open.

(** The reactor's constructor takes the descriptor out of the server, whose
    destructor then leaves it alone; a failed creation leaks nothing. *)
Lemma server_create_ok env open :
  le_socket env ∉ open →
  match server_create env open with
  | (Some fd, open') =>
      fd = le_socket env ∧ 0 ≤ fd ∧ server_destroy (take_fd fd).2 open' = {[fd]} ∪ open
  | (None, open') => open' = open
  end.
Proof.
  intros Hn. unfold server_create. destruct (Z.ltb_spec (le_socket env) 0); [done|].
  assert (({[le_socket env]} ∪ open) ∖ {[le_socket env]} = open) as E by set_solver.
  destruct (le_reuseaddr env), (le_reuseport env), (le_bind env), (le_listen env); cbn; done.
Qed.

(** A descriptor that is moved is closed exactly once: destroying both servers
    after a move assignment closes what each owned before. *)
Lemma server_move_assign_ok a b open :
  a ≠ b → 0 ≤ a → 0 ≤ b →
  let '(this, other, open') := server_move_assign false a b open in
  this = b ∧ b ∈ ({[b]} ∪ open') ∧
  server_destroy other (server_destroy this open') = (open ∖ {[a]}) ∖ {[b]}.
Proof.
  intros Hab Ha Hb. unfold server_move_assign, server_destroy. cbn [negb].
  destruct (Z.leb_spec 0 a); [|lia]. destruct (Z.leb_spec 0 b); [|lia]. destruct (Z.leb_spec 0 (-1)); [lia|].
  split_and!; [done|set_solver|done].
Qed.

(** ** Short reads and writes do not matter *)

Lemma transfer_range cut n : 0 < n → 0 < transfer cut n ≤ n.
Proof. unfold transfer. lia. Qed.

Lemma zdrop_add {A} n m (l : list A) : 0 ≤ n → 0 ≤ m → zdrop (n + m) l = zdrop m (zdrop n l).
Proof. intros. by rewrite zdrop_zdrop. Qed.

Lemma ztake_add {A} n m (l : list A) : 0 ≤ n → 0 ≤ m → ztake (n + m) l = ztake n l ++ ztake m (zdrop n l).
Proof.
  intros. unfold ztake, zdrop. rewrite Z2Nat.inj_add by done.
  rewrite <-(take_drop (Z.to_nat n) l) at 1. rewrite take_app.
  rewrite length_take. f_equal.
  - rewrite take_take. f_equal. lia.
  - destruct (decide (Z.to_nat n ≤ length l)%nat).
    + f_equal. lia.
    + rewrite drop_ge by lia. by rewrite !take_nil.
Qed.

Lemma ztake_ge {A} n (l : list A) : zlen l ≤ n → ztake n l = l.
Proof. unfold zlen, ztake. intros. apply take_ge. lia. Qed.
Lemma zdrop_ge {A} n (l : list A) : zlen l ≤ n → zdrop n l = [].
Proof. unfold zlen, zdrop. intros. apply drop_ge. lia. Qed.

(** What one would expect of a blocking read of [want] bytes that is told when
    nothing more is there: everything up to [want], unless the connection fails
    before. *)
Definition recv_spec (want : Z) (s : Sock) : option bytes * Sock :=
  if (zlen (s_in s) <? want) && negb (s_eof s) && s_in_error s
  then (None, with_in s [])
  else (Some (ztake want (s_in s)), with_in s (zdrop want (s_in s))).

Lemma with_in_same s : with_in s (s_in s) = s.
Proof. by destruct s. Qed.

Lemma recv_spec_0 s : recv_spec 0 s = (Some [], s).
Proof.
  unfold recv_spec. pose proof (zlen_nonneg (s_in s)). destruct (Z.ltb_spec (zlen (s_in s)) 0); [lia|].
  cbn. rewrite ztake_0, zdrop_0. by rewrite with_in_same.
Qed.

(** One transfer of [k] bytes, then the rest. *)
Lemma recv_spec_split k n s :
  0 ≤ k ≤ zlen (s_in s) → 0 ≤ n →
  recv_spec (k + n) s =
  let '(r, s') := recv_spec n (with_in s (zdrop k (s_in s))) in (app (ztake k (s_in s)) <$> r, s').
Proof.
  intros Hk Hn. unfold recv_spec. cbn [s_in s_eof s_in_error with_in].
  rewrite zlen_zdrop by done.
  assert ((zlen (s_in s) <? k + n) = (zlen (s_in s) - k <? n)) as ->
    by (destruct (Z.ltb_spec (zlen (s_in s)) (k + n)), (Z.ltb_spec (zlen (s_in s) - k) n); lia).
  destruct (_ && _); [done|]. cbn [fmap option_fmap option_map].
  rewrite ztake_add, zdrop_add by lia. done.
Qed.

Lemma recv_loop_ok fuel cut want received s :
  0 ≤ want - zlen received ≤ Z.of_nat fuel →
  recv_loop fuel cut want received s =
  let '(r, s') := recv_spec (want - zlen received) s in (app received <$> r, s').
Proof.
  revert cut received s. induction fuel as [|fuel IH]; intros cut received s Hf; cbn [recv_loop].
  { replace (want - zlen received) with 0 by lia. rewrite recv_spec_0. cbn. by rewrite app_nil_r. }
  destruct (Z.ltb_spec (zlen received) want) as [Hlt|Hge].
  2:{ replace (want - zlen received) with 0 by lia. rewrite recv_spec_0. cbn. by rewrite app_nil_r. }
  unfold sock_read. destruct (s_in s) as [|x xs] eqn:Ein.
  - unfold recv_spec. rewrite Ein. change (zlen []) with 0.
    destruct (Z.ltb_spec 0 (want - zlen received)); [|lia]. cbn [andb].
    destruct (s_eof s), (s_in_error s); cbn [negb andb]; unfold ztake, zdrop; rewrite ?take_nil, ?drop_nil; cbn;
      rewrite ?app_nil_r, <-?Ein, ?with_in_same; done.
  - rewrite <-Ein. assert (0 < zlen (s_in s)) as Hpos by (rewrite Ein; zlia).
    set (m := Z.min (want - zlen received) (zlen (s_in s))).
    pose proof (transfer_range (cut 0%nat) m ltac:(lia)) as Hk.
    set (k := transfer (cut 0%nat) m) in *.
    assert (zlen (ztake k (s_in s)) = k) as Hlen by (apply zlen_ztake; lia).
    destruct (ztake k (s_in s)) as [|y ys] eqn:Et; [change (zlen []) with 0 in Hlen; lia|]. rewrite <-Et in *.
    rewrite IH by (rewrite zlen_app; lia).
    replace (want - zlen received) with (k + (want - zlen (received ++ ztake k (s_in s)))) by (rewrite zlen_app; lia).
    rewrite recv_spec_split by (rewrite ?zlen_app; lia).
    destruct (recv_spec _ _) as [[r|] s']; cbn; [by rewrite app_assoc|done].
Qed.

Lemma recv_all_ok cut want s : 0 ≤ want → recv_all cut want s = recv_spec want s.
Proof.
  intros Hw. unfold recv_all. rewrite recv_loop_ok by (change (zlen []) with 0; lia).
  change (zlen []) with 0. rewrite Z.sub_0_r. by destruct (recv_spec want s) as [[r|] s'].
Qed.

Definition send_spec (data : bytes) (s : Sock) : option Z * Sock :=
  if negb (zlen data =? 0) && s_out_error s then (None, s)
  else
    let k := Z.min (zlen data) (s_room s) in
    (Some k, with_out s (s_out s ++ ztake k data) (s_room s - k)).

Lemma with_out_same s : with_out s (s_out s) (s_room s) = s.
Proof. by destruct s. Qed.

Lemma send_loop_ok fuel cut data sent s :
  s_out_error s = false → 0 ≤ s_room s → 0 ≤ sent ≤ zlen data → zlen data - sent ≤ Z.of_nat fuel →
  send_loop fuel cut data sent s =
  let k := Z.min (zlen data - sent) (s_room s) in
  (Some (sent + k), with_out s (s_out s ++ ztake k (zdrop sent data)) (s_room s - k)).
Proof.
  revert cut sent s. induction fuel as [|fuel IH]; intros cut sent s He Hroom Hsent Hf; cbn [send_loop].
  { replace (Z.min (zlen data - sent) (s_room s)) with 0 by lia. cbn zeta.
    by rewrite ztake_0, app_nil_r, Z.sub_0_r, Z.add_0_r, with_out_same. }
  destruct (Z.ltb_spec sent (zlen data)) as [Hlt|Hge].
  2:{ replace (Z.min (zlen data - sent) (s_room s)) with 0 by lia. cbn zeta.
      by rewrite ztake_0, app_nil_r, Z.sub_0_r, Z.add_0_r, with_out_same. }
  unfold sock_send. rewrite He. destruct (Z.leb_spec (s_room s) 0) as [Hr|Hr].
  { replace (Z.min (zlen data - sent) (s_room s)) with 0 by lia. cbn zeta.
    by rewrite ztake_0, app_nil_r, Z.sub_0_r, Z.add_0_r, with_out_same. }
  rewrite zlen_zdrop by done. set (m := Z.min (zlen data - sent) (s_room s)).
  pose proof (transfer_range (cut 0%nat) m ltac:(lia)) as Hk. set (k := transfer (cut 0%nat) m) in *.
  assert (zlen (ztake k (zdrop sent data)) = k) as Hlen by (apply zlen_ztake; rewrite zlen_zdrop; lia).
  rewrite Hlen, IH by (cbn; first [done|lia]). cbn [s_out s_room with_out s_in s_eof s_in_error s_out_error].
  assert (k + Z.min (zlen data - (sent + k)) (s_room s - k) = m) as Hm by lia.
  unfold with_out. cbn. f_equal; [f_equal; lia|f_equal; [|lia]].
  rewrite <-app_assoc, zdrop_add by lia. f_equal. rewrite <-ztake_add by lia. f_equal. lia.
Qed.

Lemma send_all_ok cut data s : 0 ≤ s_room s → send_all cut data s = send_spec data s.
Proof.
  intros Hr. unfold send_all, send_spec. destruct data as [|x data].
  { cbn. replace (Z.min (zlen []) (s_room s)) with 0 by (change (zlen []) with 0; lia).
    by rewrite ztake_0, app_nil_r, Z.sub_0_r, with_out_same. }
  destruct (Z.eqb_spec (zlen (x :: data)) 0) as [Hz|Hz]; [zlia|]. cbn [negb andb].
  destruct (s_out_error s) eqn:He.
  - cbn [send_loop length]. destruct (Z.ltb_spec 0 (zlen (x :: data))); [|pose proof (zlen_nonneg (x :: data)); lia].
    unfold sock_send. by rewrite He.
  - rewrite send_loop_ok; [|done|done|pose proof (zlen_nonneg (x :: data)); lia|unfold zlen; lia].
    cbn zeta. by rewrite Z.sub_0_r, Z.add_0_l, zdrop_0.
Qed.

(** C33: however the kernel splits the transfers, [recv_all] returns exactly the
    bytes that are there, up to the number wanted (an error only if the
    connection fails before that many), and [send_all] sends exactly as many
    bytes as there is room for; both always terminate. *)
Theorem transfer_independent cut cut' want data s :
  0 ≤ want → 0 ≤ s_room s →
  recv_all cut want s = recv_spec want s ∧ send_all cut' data s = send_spec data s.
Proof. intros. by rewrite recv_all_ok, send_all_ok. Qed.

Lemma transfer_independent_witness :
  recv_all (λ _, 1) 3 (mkSock [1; 2; 3; 4] false false [] 2 false) =
    (Some [1; 2; 3], mkSock [4] false false [] 2 false) ∧
  send_all (λ i, Z.of_nat i) [7; 8; 9] (mkSock [1; 2; 3; 4] false false [] 2 false) =
    (Some 2, mkSock [1; 2; 3; 4] false false [7; 8] 0 false).
Proof.
  exact (transfer_independent (λ _, 1) (λ i, Z.of_nat i) 3 [7; 8; 9]
    (mkSock [1; 2; 3; 4] false false [] 2 false) ltac:(lia) ltac:(cbn; lia)).
Defined.
