(* ===== verification/Reactor.v ===== *)
(** * The reactor (src/src/net/reactor.hpp, reactor.cpp)

    A reactor is a thread with an epoll loop over its connections and its own
    partitions.  Its state, the kernel's view of its sockets and its ring are in
    [WorkerReactor]; what all reactors share (files, the group coordinator, the
    queues between them) is in [Shared].  Every handler of the loop is a function
    on both; [run_iteration] is one round of the loop.  Logging is left out. *)

From S2P Require Import Prelude Endian Protocol Parser Serializer Storage PartitionContext.
From S2P Require Import ClusterMetadata MetadataHandler RecordHandler GroupCoordinator Broker Shard Socket.

(** ** State *)

Record Connection := mkConnection {
  read_buf : bytes;
  expected_len : Z;
  have_header : bool;
  write_buf : bytes;
  write_offset : Z;
  write_queue_ : list bytes;
  resp_pool : bytes;
  splice_fd : Z;
  splice_len : Z;
  splice_pending : bool }.

Definition new_connection : Connection := mkConnection [] 0 false [] 0 [] [] (-1) 0 false.

Record BrokerMetrics := mkMetrics {
  requests_total : Z;
  bytes_received : Z;
  bytes_sent : Z;
  errors_total : Z }.

(** [snapshot()]: the counters as they are. *)
Definition snapshot (m : BrokerMetrics) : BrokerMetrics :=
  mkMetrics (requests_total m) (bytes_received m) (bytes_sent m) (errors_total m).

(** [fetch_add] on a 64-bit counter. *)
Definition fetch_add (counter n : Z) : Z := wrap_uint 64 (counter + n).

(** A finished operation of the ring: its user data and its result. *)
Record Cqe := mkCqe { cqe_user_data : Z; cqe_res : Z }.

(** A splice handed to the ring: from a file to a socket. *)
Record Splice := mkSplice { sp_in_fd : Z; sp_off_in : Z; sp_out_fd : Z; sp_len : Z }.

(** [epoll_] are the descriptors registered, with whether [EPOLLOUT] is wanted;
    [socks] the client sockets the kernel has open; [splices_] and [cqes_] the
    splices submitted to the ring and the completions ready in it. *)
Record WorkerReactor := mkReactor {
  reactor_id_ : Z;
  connections_ : gmap Z Connection;
  rx_contexts_ : gmap bytes PartitionContext;
  rx_calls_ : nat;
  metrics_ : BrokerMetrics;
  epoll_ : gmap Z bool;
  socks : gmap Z Sock;
  splices_ : list Splice;
  cqes_ : list Cqe }.

Record Shared := mkShared {
  sh_os : OS;
  sh_coordinator : GroupCoordinator;
  all_queues_ : list CrossReactorQueues }.

(** What the constructor is given. *)
Record ReactorConfig := mkReactorConfig {
  rc_handler : RecordHandler;
  shard_router_ : ShardRouter;
  max_message_bytes_ : Z;
  max_write_buffer_bytes_ : Z;
  server_fd_ : Z;
  rc_wakeup_fd_ : Z }.

(** What the environment decides during one operation: how transfers are cut,
    the clock, the system calls on files, and whether the ring has a free entry. *)
Record Io := mkIo {
  io_cut : nat → Z;
  io_clock : nat → Z;
  io_kernel : Kernel;
  io_sqe : bool }.

Abbreviation World := (WorkerReactor * Shared)%type.

(** ** Updates *)

Definition with_connections (f : gmap Z Connection → gmap Z Connection) (r : WorkerReactor) : WorkerReactor :=
  mkReactor (reactor_id_ r) (f (connections_ r)) (rx_contexts_ r) (rx_calls_ r) (metrics_ r) (epoll_ r)
    (socks r) (splices_ r) (cqes_ r).
Definition with_socks (f : gmap Z Sock → gmap Z Sock) (r : WorkerReactor) : WorkerReactor :=
  mkReactor (reactor_id_ r) (connections_ r) (rx_contexts_ r) (rx_calls_ r) (metrics_ r) (epoll_ r)
    (f (socks r)) (splices_ r) (cqes_ r).
Definition with_epoll (f : gmap Z bool → gmap Z bool) (r : WorkerReactor) : WorkerReactor :=
  mkReactor (reactor_id_ r) (connections_ r) (rx_contexts_ r) (rx_calls_ r) (metrics_ r) (f (epoll_ r))
    (socks r) (splices_ r) (cqes_ r).
Definition with_metrics (f : BrokerMetrics → BrokerMetrics) (r : WorkerReactor) : WorkerReactor :=
  mkReactor (reactor_id_ r) (connections_ r) (rx_contexts_ r) (rx_calls_ r) (f (metrics_ r)) (epoll_ r)
    (socks r) (splices_ r) (cqes_ r).
Definition with_ring (splices : list Splice) (cqes : list Cqe) (r : WorkerReactor) : WorkerReactor :=
  mkReactor (reactor_id_ r) (connections_ r) (rx_contexts_ r) (rx_calls_ r) (metrics_ r) (epoll_ r)
    (socks r) splices cqes.

Definition count_error (r : WorkerReactor) : WorkerReactor :=
  with_metrics (λ m, mkMetrics (requests_total m) (bytes_received m) (bytes_sent m) (fetch_add (errors_total m) 1)) r.
Definition count_request (total : Z) (r : WorkerReactor) : WorkerReactor :=
  with_metrics (λ m, mkMetrics (fetch_add (requests_total m) 1) (fetch_add (bytes_received m) total)
                       (bytes_sent m) (errors_total m)) r.
Definition count_sent (n : Z) (r : WorkerReactor) : WorkerReactor :=
  with_metrics (λ m, mkMetrics (requests_total m) (bytes_received m) (fetch_add (bytes_sent m) n) (errors_total m)) r.

(** [connections_[fd]] *)
Definition connection (r : WorkerReactor) (fd : Z) : Connection := default new_connection (connections_ r !! fd).
Definition set_connection (fd : Z) (c : Connection) (r : WorkerReactor) : WorkerReactor :=
  with_connections (insert fd c) r.

Definition with_read (c : Connection) (buf : bytes) (len : Z) (have : bool) : Connection :=
  mkConnection buf len have (write_buf c) (write_offset c) (write_queue_ c) (resp_pool c) (splice_fd c)
    (splice_len c) (splice_pending c).
Definition with_write (c : Connection) (buf : bytes) (off : Z) (queue : list bytes) : Connection :=
  mkConnection (read_buf c) (expected_len c) (have_header c) buf off queue (resp_pool c) (splice_fd c)
    (splice_len c) (splice_pending c).
Definition with_splice (c : Connection) (fd len : Z) (pending : bool) : Connection :=
  mkConnection (read_buf c) (expected_len c) (have_header c) (write_buf c) (write_offset c) (write_queue_ c)
    (resp_pool c) fd len pending.
Definition with_pool (c : Connection) (pool : bytes) : Connection :=
  mkConnection (read_buf c) (expected_len c) (have_header c) (write_buf c) (write_offset c) (write_queue_ c)
    pool (splice_fd c) (splice_len c) (splice_pending c).

(** ** Connections *)

Definition active_connections (r : WorkerReactor) : Z := Z.of_nat (size (connections_ r)).

(** What [accept] and the calls on the new descriptor return. *)
Inductive Accepted :=
| NoClient
| Client (fd : Z) (flags_ok add_ok : bool) (s : Sock).

Definition handle_accept (a : Accepted) (r : WorkerReactor) : WorkerReactor :=
  match a with
  | NoClient => r
  | Client fd flags_ok add_ok s =>
      if negb flags_ok then r
      else if negb add_ok then r
      else set_connection fd new_connection (with_epoll (insert fd false) (with_socks (insert fd s) r))
  end.

Definition close_connection (fd : Z) (r : WorkerReactor) : WorkerReactor :=
  with_connections (delete fd) (with_socks (delete fd) (with_epoll (delete fd) r)).

(** [epoll_ctl(EPOLL_CTL_MOD)], which fails for a descriptor that is not registered. *)
Definition watch (fd : Z) (out : bool) (r : WorkerReactor) : WorkerReactor := with_epoll (alter (λ _, out) fd) r.

(** [recv_all] into the read buffer until it holds [total] bytes; [None] is an
    error (such as a descriptor that is not open), which leaves the buffer as it
    was. *)
Definition fill (io : Io) (fd total : Z) (r : WorkerReactor) : option Z * WorkerReactor :=
  match socks r !! fd with
  | None => (None, r)
  | Some s =>
      let c := connection r fd in
      let '(got, s') := recv_all (io_cut io) (total - zlen (read_buf c)) s in
      let r := with_socks (insert fd s') r in
      match got with
      | None => (None, r)
      | Some data => (Some (zlen data), set_connection fd (with_read c (read_buf c ++ data) (expected_len c) (have_header c)) r)
      end
  end.

Inductive progress :=
| Continue (r : WorkerReactor)
| Stop (r : WorkerReactor).

(** The statements after [recv_all]: [break] on an error, close on 0 bytes,
    [break] when there is less than needed. *)
Definition received (fd total : Z) (got : option Z * WorkerReactor) : progress :=
  match got with
  | (None, r) => Stop r
  | (Some n, r) =>
      if n =? 0 then Stop (close_connection fd r)
      else if zlen (read_buf (connection r fd)) <? total then Stop r
      else Continue r
  end.

Definition read_header (cfg : ReactorConfig) (io : Io) (fd : Z) (r : WorkerReactor) : progress :=
  if have_header (connection r fd) then Continue r
  else
    let step := if zlen (read_buf (connection r fd)) <? 4 then received fd 4 (fill io fd 4 r) else Continue r in
    match step with
    | Stop r => Stop r
    | Continue r =>
        let c := connection r fd in
        let len := wrap_uint 64 (decode_int32_be (ztake 4 (read_buf c))) in
        if len >? max_message_bytes_ cfg
        then Stop (close_connection fd (count_error (set_connection fd (with_read c (read_buf c) len false) r)))
        else Continue (set_connection fd (with_read c (read_buf c) len true) r)
    end.

Definition read_body (io : Io) (fd : Z) (r : WorkerReactor) : progress :=
  let total_needed := 4 + expected_len (connection r fd) in
  if zlen (read_buf (connection r fd)) <? total_needed
  then received fd total_needed (fill io fd total_needed r)
  else Continue r.

(** ** Routing a request *)

Record PartitionKey := mkPartitionKey { pk_topic : bytes; pk_partition : Z }.

Definition lookup_topic_name (m : ClusterMetadata) (uuid : bytes) : outcome (option bytes) :=
  match uuid_to_topic m !! uuid with
  | None => mret None
  | Some i => t ← vector_at (topics m) i; mret (Some (ti_name t))
  end.

(** The first partition of the first topic. *)
Definition extract_partition_key (req : Request) (m : ClusterMetadata) : outcome (option PartitionKey) :=
  match req with
  | ReqProduce r =>
      match pr_topics r with
      | t :: _ =>
          match ptr_partitions t with
          | p :: _ => Ok (Some (mkPartitionKey (ptr_topic_name t) (ppr_partition_index p)))
          | [] => Ok None
          end
      | [] => Ok None
      end
  | ReqFetch r =>
      match fr_topics r with
      | t :: _ =>
          match ftr_partitions t with
          | p :: _ =>
              name ← lookup_topic_name m (ftr_topic_id t);
              Ok (option_map (λ n, mkPartitionKey n (fpr_partition_index p)) name)
          | [] => Ok None
          end
      | [] => Ok None
      end
  | ReqListOffsets r =>
      match lor_topics r with
      | t :: _ =>
          match lotr_partitions t with
          | p :: _ => Ok (Some (mkPartitionKey (lotr_topic_name t) (lopr_partition_index p)))
          | [] => Ok None
          end
      | [] => Ok None
      end
  | _ => Ok None
  end.

(** [all_queues_[i]->...]: beyond the end it is undefined. *)
Definition with_queue (i : Z) (f : CrossReactorQueues → CrossReactorQueues) (sh : Shared) : outcome Shared :=
  q ← vector_at (all_queues_ sh) (Z.to_nat i);
  mret (mkShared (sh_os sh) (sh_coordinator sh) (<[Z.to_nat i := f q]> (all_queues_ sh))).

(** [broker_.handle(req)], on the reactor's partitions and the shared state. *)
Definition broker_handle (cfg : ReactorConfig) (io : Io) (req : Request) (w : World) : outcome (Response * World) :=
  let '(r, sh) := w in
  '(resp, st) ← handle (io_kernel io) (io_clock io) (rc_handler cfg) req
                  (mkBrokerState (mkStore (rx_contexts_ r) (sh_os sh) (rx_calls_ r)) (sh_coordinator sh));
  mret (resp,
        (mkReactor (reactor_id_ r) (connections_ r) (partition_contexts_ (br_store st)) (st_calls (br_store st))
           (metrics_ r) (epoll_ r) (socks r) (splices_ r) (cqes_ r),
         mkShared (st_os (br_store st)) (br_coordinator st) (all_queues_ sh))).

(** The loop over the partitions of a fetch response: the last one to be
    spliced wins. *)
Definition splice_of (resp : Response) (current : Z * Z) : Z * Z :=
  match resp with
  | RespFetch f =>
      fold_left (λ acc tr,
        fold_left (λ acc pr,
          if 0 <=? fpp_splice_fd pr then (fpp_splice_fd pr, wrap_uint 32 (fpp_splice_len pr)) else acc)
          (ftp_partitions tr) acc)
        (fp_responses f) current
  | _ => current
  end.

(** Put a response on a connection: into the buffer when nothing is being
    written, else at the end of the queue. *)
Definition idle (c : Connection) : bool := (write_offset c =? 0) && bool_decide (write_buf c = []).

Definition enqueue (data : bytes) (c : Connection) : Connection :=
  if idle c then with_write c data 0 (write_queue_ c)
  else with_write c (write_buf c) (write_offset c) (write_queue_ c ++ [data]).

Definition deliver (fd : Z) (data : bytes) (c : Connection) (r : WorkerReactor) : WorkerReactor :=
  let r := set_connection fd (enqueue data c) r in
  if idle c then watch fd true r else r.

(** The request is complete: hand it to the reactor that owns its partition, or
    answer it. *)
Definition serve_local (cfg : ReactorConfig) (io : Io) (fd : Z) (req : Request) (w : World) : outcome World :=
  '(resp, (r, sh)) ← broker_handle cfg io req w;
  resp_buf ← serialize resp;
  let c := connection r fd in
  let total_needed := 4 + expected_len c in
  let '(sfd, slen) := splice_of resp (splice_fd c, splice_len c) in
  let c := with_splice (with_pool c resp_buf) sfd slen (splice_pending c) in
  if zlen resp_buf >? max_write_buffer_bytes_ cfg
  then mret (close_connection fd (count_error (set_connection fd c r)), sh)
  else
    let c := with_read (with_pool c []) [] (expected_len c) false in
    mret (deliver fd resp_buf c (count_request total_needed r), sh).

Definition forward (fd target : Z) (req : Request) (w : World) : outcome World :=
  let '(r, sh) := w in
  sh' ← with_queue target (push_request (mkForwardedRequest fd (reactor_id_ r) req)) sh;
  let c := connection r fd in
  mret (set_connection fd (with_read c [] (expected_len c) false)
          (count_request (4 + expected_len c) r), sh').

Definition serve_frame (hash : bytes → Z) (cfg : ReactorConfig) (io : Io) (fd : Z) (w : World) : outcome World :=
  let '(r, sh) := w in
  match parse_request (zdrop 4 (read_buf (connection r fd))) with
  | Fault f => Fault f
  | Err _ => mret (close_connection fd (count_error r), sh)
  | Ok req =>
      key ← extract_partition_key req (metadata_ (rc_handler cfg));
      match key with
      | Some k =>
          target ← route hash (shard_router_ cfg) (pk_topic k) (pk_partition k);
          if target =? reactor_id_ r then serve_local cfg io fd req w else forward fd target req w
      | None => serve_local cfg io fd req w
      end
  end.

(** The body of the loop always returns or breaks. *)
Definition handle_read (hash : bytes → Z) (cfg : ReactorConfig) (io : Io) (fd : Z) (w : World) : outcome World :=
  let '(r, sh) := w in
  let r := set_connection fd (connection r fd) r in
  match read_header cfg io fd r with
  | Stop r => mret (r, sh)
  | Continue r =>
      match read_body io fd r with
      | Stop r => mret (r, sh)
      | Continue r => serve_frame hash cfg io fd (r, sh)
      end
  end.

(** ** Writing *)

Definition advance_write_queue (fd : Z) (r : WorkerReactor) : WorkerReactor :=
  let c := connection r fd in
  match write_queue_ c with
  | next :: queue => set_connection fd (with_write c next 0 queue) r
  | [] => watch fd false (set_connection fd (with_write c [] 0 []) r)
  end.

(** [send_all] on a connection's descriptor. *)
Definition send_fd (io : Io) (fd : Z) (data : bytes) (r : WorkerReactor) : option Z * WorkerReactor :=
  match socks r !! fd with
  | Some s => let '(n, s') := send_all (io_cut io) data s in (n, with_socks (insert fd s') r)
  | None => match data with [] => (Some 0, r) | _ => (None, r) end
  end.

(** Submit the pending splice, if there is one and the ring has room. *)
Definition submit_splice (io : Io) (fd : Z) (r : WorkerReactor) : option WorkerReactor :=
  let c := connection r fd in
  if (0 <=? splice_fd c) && negb (splice_pending c) && io_sqe io then
    Some (set_connection fd (with_splice c (-1) 0 true)
            (with_ring (splices_ r ++ [mkSplice (splice_fd c) 0 fd (splice_len c)]) (cqes_ r) r))
  else None.

(** A write offset beyond the buffer would be undefined. *)
Definition handle_write (io : Io) (fd : Z) (r : WorkerReactor) : outcome WorkerReactor :=
  let r := set_connection fd (connection r fd) r in
  let c := connection r fd in
  if write_offset c >? zlen (write_buf c) then Fault undefined_behaviour
  else
    match send_fd io fd (zdrop (write_offset c) (write_buf c)) r with
    | (None, r) => mret (close_connection fd (count_error r))
    | (Some n, r) =>
        let c := with_write c (write_buf c) (write_offset c + n) (write_queue_ c) in
        let r := count_sent n (set_connection fd c r) in
        if write_offset c >=? zlen (write_buf c) then
          match submit_splice io fd r with
          | Some r => mret r
          | None => mret (if splice_pending c then r else advance_write_queue fd r)
          end
        else mret r
    end.

(** ** Other reactors *)

(** One round of the loop: pop a request, answer it, send the response back. *)
Definition drain_request (cfg : ReactorConfig) (io : Io) (w : World) : outcome (option World) :=
  let '(r, sh) := w in
  q ← vector_at (all_queues_ sh) (Z.to_nat (reactor_id_ r));
  match try_pop_request q with
  | (None, _) => mret None
  | (Some fwd, _) =>
      sh ← with_queue (reactor_id_ r) (λ q, (try_pop_request q).2) sh;
      '(resp, (r, sh)) ← broker_handle cfg io (fq_request fwd) (r, sh);
      serialized ← serialize resp;
      let '(sfd, slen) := splice_of resp (-1, 0) in
      sh ← with_queue (fq_source_reactor_id fwd)
             (push_response (mkForwardedResponse (fq_client_fd fwd) serialized sfd slen)) sh;
      mret (Some (r, sh))
  end.

(** The loop; nothing pushes requests to this reactor's queue in between, so
    the number of requests in it bounds the rounds. *)
Fixpoint drain_requests (fuel : nat) (cfg : ReactorConfig) (ios : nat → Io) (w : World) : outcome World :=
  match fuel with
  | O => mret w
  | S fuel' =>
      next ← drain_request cfg (ios 0%nat) w;
      match next with
      | None => mret w
      | Some w' => drain_requests fuel' cfg (λ i, ios (S i)) w'
      end
  end.

Definition drain_cross_reactor_requests (cfg : ReactorConfig) (ios : nat → Io) (w : World) : outcome World :=
  q ← vector_at (all_queues_ w.2) (Z.to_nat (reactor_id_ w.1));
  drain_requests (S (length (requests_ q))) cfg ios w.

(** A response of another reactor, dropped when its client is gone. *)
Definition accept_response (resp : ForwardedResponse) (r : WorkerReactor) : WorkerReactor :=
  let fd := fs_client_fd resp in
  match connections_ r !! fd with
  | None => r
  | Some c =>
      let c := if 0 <=? fs_splice_fd resp
               then with_splice c (fs_splice_fd resp) (fs_splice_len resp) (splice_pending c) else c in
      deliver fd (fs_data resp) c r
  end.

Definition drain_response (w : World) : outcome (option World) :=
  let '(r, sh) := w in
  q ← vector_at (all_queues_ sh) (Z.to_nat (reactor_id_ r));
  match try_pop_response q with
  | (None, _) => mret None
  | (Some resp, _) =>
      sh ← with_queue (reactor_id_ r) (λ q, (try_pop_response q).2) sh;
      mret (Some (accept_response resp r, sh))
  end.

Fixpoint drain_responses (fuel : nat) (w : World) : outcome World :=
  match fuel with
  | O => mret w
  | S fuel' =>
      next ← drain_response w;
      match next with
      | None => mret w
      | Some w' => drain_responses fuel' w'
      end
  end.

Definition drain_cross_reactor_responses (w : World) : outcome World :=
  q ← vector_at (all_queues_ w.2) (Z.to_nat (reactor_id_ w.1));
  drain_responses (S (length (responses_ q))) w.

(** ** The ring *)

(** Odd user data is the buffer of a write, which is freed; even user data is
    the descriptor of the connection that waits for a splice. *)
Definition harvest_completion (cqe : Cqe) (r : WorkerReactor) : WorkerReactor :=
  let user_data := cqe_user_data cqe in
  let failed := cqe_res cqe <? 0 in
  if user_data =? 0 then (if failed then count_error r else r)
  else if negb (Z.land user_data 1 =? 0) then (if failed then count_error r else r)
  else
    let fd := wrap_int 32 (Z.shiftr user_data 1) in
    match connections_ r !! fd with
    | None => r
    | Some c =>
        let r := if failed then count_error r else count_sent (cqe_res cqe) r in
        advance_write_queue fd (set_connection fd (with_splice c (splice_fd c) (splice_len c) false) r)
    end.

Definition harvest_io_completions (r : WorkerReactor) : WorkerReactor :=
  fold_left (λ r cqe, harvest_completion cqe (with_ring (splices_ r) (tail (cqes_ r)) r)) (cqes_ r) r.

(** ** The loop *)

(** A ready descriptor with its flags, and what the calls it leads to return. *)
Record Event := mkEvent {
  ev_fd : Z;
  ev_error : bool;
  ev_in : bool;
  ev_out : bool;
  ev_accept : Accepted;
  ev_read_io : Io;
  ev_write_io : Io }.

Definition handle_event (hash : bytes → Z) (cfg : ReactorConfig) (e : Event) (w : World) : outcome World :=
  let '(r, sh) := w in
  if ev_fd e =? server_fd_ cfg then mret (handle_accept (ev_accept e) r, sh)
  else if ev_fd e =? rc_wakeup_fd_ cfg then
    sh ← with_queue (reactor_id_ r) clear_wakeup sh; mret (r, sh)
  else if ev_error e then mret (close_connection (ev_fd e) (count_error r), sh)
  else
    '(r, sh) ← (if ev_in e then handle_read hash cfg (ev_read_io e) (ev_fd e) (r, sh) else mret (r, sh));
    r ← (if ev_out e then handle_write (ev_write_io e) (ev_fd e) r else mret r);
    mret (r, sh).

Fixpoint handle_events (hash : bytes → Z) (cfg : ReactorConfig) (events : list Event) (w : World) : outcome World :=
  match events with
  | [] => mret w
  | e :: events' => w' ← handle_event hash cfg e w; handle_events hash cfg events' w'
  end.

(** One round of [run], after [epoll_wait] has returned [events]. *)
Definition run_iteration (hash : bytes → Z) (cfg : ReactorConfig) (events : list Event) (ios : nat → Io) (w : World)
    : outcome World :=
  w ← handle_events hash cfg events w;
  w ← drain_cross_reactor_requests cfg ios w;
  '(r, sh) ← drain_cross_reactor_responses w;
  mret (harvest_io_completions r, sh).

(** The constructor: an empty reactor, whose wake-up descriptor (when the
    kernel gave one) is announced in its queue. *)
Definition new_reactor (cfg : ReactorConfig) (rid : Z) (sh : Shared) : outcome World :=
  let listening : gmap Z bool := {[server_fd_ cfg := false]} in
  if 0 <=? rc_wakeup_fd_ cfg then
    sh ← with_queue rid (set_wakeup_fd (rc_wakeup_fd_ cfg)) sh;
    mret (mkReactor rid ∅ ∅ 0 (mkMetrics 0 0 0 0) (<[rc_wakeup_fd_ cfg := false]> listening) ∅ [] [], sh)
  else mret (mkReactor rid ∅ ∅ 0 (mkMetrics 0 0 0 0) listening ∅ [] [], sh).

(** The destructor closes the descriptors of all connections, gives up the
    partitions and closes the epoll descriptor. *)
Definition destroy_reactor (r : WorkerReactor) : WorkerReactor :=
  mkReactor (reactor_id_ r) (connections_ r) ∅ (rx_calls_ r) (metrics_ r) ∅
    (filter (λ '(fd, _), connections_ r !! fd = None) (socks r)) (splices_ r) (cqes_ r).
