(* ===== verification/Framing.v ===== *)
(** * Reading requests from a connection

    A client's bytes arrive in pieces.  Reading them is independent of how they
    are cut, with one exception: when the pieces split a frame exactly behind
    its length, the reactor takes the missing rest for the end of the stream and
    closes the connection. *)

From S2P Require Import Prelude Endian Protocol Parser Serializer ResponseFormat Storage PartitionContext.
From S2P Require Import RecordHandler GroupCoordinator Broker Shard Socket Reactor.

(** The reactor with a given connection and socket at a descriptor. *)
Definition at_fd (r : WorkerReactor) (fd : Z) (c : Connection) (s : Sock) : WorkerReactor :=
  set_connection fd c (with_socks (insert fd s) r).

Lemma connection_at r fd c s : connection (at_fd r fd c s) fd = c.
Proof. unfold connection. cbn. by rewrite lookup_insert_eq. Qed.
Lemma socks_at r fd c s : socks (at_fd r fd c s) !! fd = Some s.
Proof. cbn. by rewrite lookup_insert_eq. Qed.
Lemma set_connection_at r fd c c' s : set_connection fd c' (at_fd r fd c s) = at_fd r fd c' s.
Proof. unfold at_fd, set_connection, with_connections. cbn. by rewrite insert_insert_eq. Qed.
Lemma set_sock_at r fd c s s' : with_socks (insert fd s') (at_fd r fd c s) = at_fd r fd c s'.
Proof. unfold at_fd, set_connection, with_connections, with_socks. cbn. by rewrite insert_insert_eq. Qed.

Create Rewrite HintDb rx.
#[export] Hint Rewrite connection_at socks_at set_connection_at set_sock_at : rx.

(** A healthy socket with the given unread bytes. *)
Definition healthy (s : Sock) : Prop := s_eof s = false ∧ s_in_error s = false.

Lemma fill_at io fd total r c s :
  healthy s → 0 ≤ total - zlen (read_buf c) →
  let want := total - zlen (read_buf c) in
  fill io fd total (at_fd r fd c s) =
  (Some (zlen (ztake want (s_in s))),
   at_fd r fd (with_read c (read_buf c ++ ztake want (s_in s)) (expected_len c) (have_header c))
     (with_in s (zdrop want (s_in s)))).
Proof.
  intros [He Hi] Hw. cbn zeta. unfold fill. autorewrite with rx. rewrite recv_all_ok by done.
  unfold recv_spec. rewrite He, Hi, andb_false_r. by autorewrite with rx.
Qed.

(** Bytes arriving at the socket. *)
Definition arrive (fd : Z) (data : bytes) (r : WorkerReactor) : WorkerReactor :=
  with_socks (alter (λ s, with_in s (s_in s ++ data)) fd) r.

Lemma arrive_at fd data r c s : arrive fd data (at_fd r fd c s) = at_fd r fd c (with_in s (s_in s ++ data)).
Proof. unfold arrive, at_fd, set_connection, with_connections, with_socks. cbn. by rewrite alter_insert_eq. Qed.

Lemma take_all (d : bytes) n : zlen d ≤ n → ztake n d = d ∧ zdrop n d = [].
Proof. intros. by rewrite ztake_ge, zdrop_ge. Qed.

Lemma zlen_pos (d : bytes) : d ≠ [] → 0 < zlen d.
Proof. destruct d; [done|]. intros _. zlia. Qed.

Section framing.
Context (hash : bytes → Z) (cfg : ReactorConfig) (io : Io) (fd : Z) (sh : Shared).
Context (r : WorkerReactor) (c0 : Connection) (s0 : Sock).
Context (Hs : healthy s0) (Hin : s_in s0 = []) (Hc : have_header c0 = false).

(** A frame: the length and as many bytes. *)
Context (body : bytes).
Definition frame_bytes : bytes := write_int32_be (zlen body) ++ body.
Context (Hmax : zlen body ≤ max_message_bytes_ cfg) (Hlen : zlen body < 2 ^ 31) (Hbody : body ≠ []).

(** The state once the first bytes [b] of the frame have been read. *)
Definition partial (b : bytes) : WorkerReactor :=
  at_fd r fd (with_read c0 b (if zlen b <? 4 then expected_len c0 else zlen body) (4 <=? zlen b)) s0.

Lemma frame_length : zlen frame_bytes = 4 + zlen body.
Proof. unfold frame_bytes. rewrite zlen_app. by rewrite zlen_int32_be. Qed.

Lemma frame_header b rest : frame_bytes = b ++ rest → 4 ≤ zlen b → decode_int32_be (ztake 4 b) = zlen body.
Proof.
  intros E Hb. assert (ztake 4 b = write_int32_be (zlen body)) as ->.
  { transitivity (ztake 4 (b ++ rest)).
    - unfold ztake. rewrite take_app_le; [done|]. unfold zlen in Hb. lia.
    - rewrite <-E. unfold frame_bytes. rewrite <-(zlen_int32_be (zlen body)) at 1. apply ztake_app. }
  apply decode_write_int32. unfold in_int. pose proof (zlen_nonneg body). lia.
Qed.

Lemma with_in_nil : with_in s0 [] = s0.
Proof using Hin. rewrite <-Hin. apply with_in_same. Qed.

(** The connection with part of the body, resp. of the header. *)
Definition in_body (b : bytes) : Connection := with_read c0 b (zlen body) true.
Definition in_header (b : bytes) : Connection := with_read c0 b (expected_len c0) false.

Lemma partial_header b : zlen b < 4 → partial b = at_fd r fd (in_header b) s0.
Proof.
  intros Hb. unfold partial, in_header.
  destruct (Z.ltb_spec (zlen b) 4), (Z.leb_spec 4 (zlen b)); [lia|done|lia..].
Qed.
Lemma partial_body b : 4 ≤ zlen b → partial b = at_fd r fd (in_body b) s0.
Proof.
  intros Hb. unfold partial, in_body.
  destruct (Z.ltb_spec (zlen b) 4), (Z.leb_spec 4 (zlen b)); [lia..|done|lia].
Qed.

Lemma read_body_step b d :
  4 ≤ zlen b → zlen b < zlen frame_bytes → zlen (b ++ d) ≤ zlen frame_bytes →
  read_body io fd (at_fd r fd (in_body b) (with_in s0 d)) =
  if decide (d = []) then Stop (close_connection fd (at_fd r fd (in_body b) s0))
  else if zlen (b ++ d) <? zlen frame_bytes then Stop (at_fd r fd (in_body (b ++ d)) s0)
  else Continue (at_fd r fd (in_body (b ++ d)) s0).
Proof using Hs Hin.
  rewrite frame_length, zlen_app. intros Hb Hlt Hle. unfold read_body. autorewrite with rx.
  cbn [expected_len read_buf in_body with_read].
  destruct (Z.ltb_spec (zlen b) (4 + zlen body)); [|lia].
  rewrite fill_at; [|done|cbn; lia]. cbn [read_buf in_body with_read s_in with_in expected_len have_header].
  destruct (take_all d (4 + zlen body - zlen b)) as [-> ->]; [lia|].
  change (with_in (with_in s0 d) []) with (with_in s0 []). rewrite with_in_nil by done.
  unfold received. destruct (decide (d = [])) as [->|Hd].
  - change (zlen []) with 0. cbn. by rewrite app_nil_r.
  - pose proof (zlen_pos d Hd). destruct (Z.eqb_spec (zlen d) 0); [lia|].
    rewrite connection_at. cbn [read_buf with_read]. rewrite zlen_app. by destruct (_ <? _).
Qed.

Lemma read_header_step b d :
  zlen b < 4 → d ≠ [] →
  read_header cfg io fd (at_fd r fd (in_header b) (with_in s0 d)) =
  let want := 4 - zlen b in
  if zlen (b ++ d) <? 4 then Stop (at_fd r fd (in_header (b ++ d)) s0)
  else
    let len := wrap_uint 64 (decode_int32_be (b ++ ztake want d)) in
    if len >? max_message_bytes_ cfg
    then Stop (close_connection fd (count_error (at_fd r fd (with_read c0 (b ++ ztake want d) len false) (with_in s0 (zdrop want d)))))
    else Continue (at_fd r fd (with_read c0 (b ++ ztake want d) len true) (with_in s0 (zdrop want d))).
Proof using Hs Hin.
  intros Hb Hd. pose proof (zlen_pos d Hd). unfold read_header. autorewrite with rx.
  cbn [have_header read_buf in_header with_read].
  destruct (Z.ltb_spec (zlen b) 4); [|lia].
  rewrite fill_at; [|done|cbn; lia]. cbn [read_buf in_header with_read s_in with_in expected_len have_header].
  change (with_in (with_in s0 d) ?x) with (with_in s0 x). unfold received. cbn zeta. rewrite zlen_app.
  destruct (Z.ltb_spec (zlen b + zlen d) 4) as [Hlt|Hge].
  - destruct (take_all d (4 - zlen b)) as [-> ->]; [lia|]. rewrite with_in_nil by done.
    destruct (Z.eqb_spec (zlen d) 0); [lia|]. rewrite connection_at. cbn [read_buf with_read]. rewrite zlen_app.
    by destruct (Z.ltb_spec (zlen b + zlen d) 4); [|lia].
  - rewrite zlen_ztake by lia. destruct (Z.eqb_spec (4 - zlen b) 0); [lia|]. rewrite connection_at.
    cbn [read_buf with_read]. rewrite zlen_app, zlen_ztake by lia.
    destruct (Z.ltb_spec (zlen b + (4 - zlen b)) 4); [lia|]. autorewrite with rx. cbn [read_buf with_read].
    rewrite ztake_ge by (rewrite zlen_app, zlen_ztake; lia). by destruct (_ >? _).
Qed.

(** The header, once complete, is the length of the body. *)
Lemma frame_header_take b d rest :
  frame_bytes = b ++ d ++ rest → zlen b < 4 → 4 ≤ zlen b + zlen d →
  decode_int32_be (b ++ ztake (4 - zlen b) d) = zlen body.
Proof using Hlen.
  intros E Hb Hd. pose proof (zlen_nonneg b).
  rewrite <-(frame_header (b ++ ztake (4 - zlen b) d) (zdrop (4 - zlen b) d ++ rest)).
  - rewrite (ztake_ge 4); [done|]. rewrite zlen_app, zlen_ztake; lia.
  - by rewrite <-app_assoc, (app_assoc (ztake _ _)), ztake_zdrop.
  - rewrite zlen_app, zlen_ztake; lia.
Qed.

(** Once the header is there: nothing more closes the connection, a complete
    body is served. *)
Lemma body_served b d rest :
  frame_bytes = (b ++ d) ++ rest → 4 ≤ zlen b → zlen b < 4 + zlen body →
  match read_body io fd (at_fd r fd (in_body b) (with_in s0 d)) with
  | Stop r => mret (r, sh)
  | Continue r => serve_frame hash cfg io fd (r, sh)
  end = (if decide (d = []) then mret (close_connection fd (partial (b ++ d)), sh)
         else if decide (rest = []) then serve_frame hash cfg io fd (partial frame_bytes, sh)
         else mret (partial (b ++ d), sh)).
Proof using Hs Hin.
  intros E Hb Hlt. assert (zlen (b ++ d) + zlen rest = 4 + zlen body) as Htot
    by (rewrite <-frame_length, E, !zlen_app; lia).
  pose proof (zlen_nonneg rest).
  rewrite read_body_step by (rewrite ?frame_length; lia). rewrite frame_length.
  destruct (decide (d = [])) as [->|Hd].
  { rewrite app_nil_r. by rewrite partial_body. }
  assert (4 ≤ zlen (b ++ d)) by (rewrite zlen_app; pose proof (zlen_nonneg d); lia).
  rewrite (partial_body (b ++ d)) by done.
  destruct (decide (rest = [])) as [->|Hr].
  - change (zlen []) with 0 in Htot. destruct (Z.ltb_spec (zlen (b ++ d)) (4 + zlen body)); [lia|].
    rewrite app_nil_r in E. rewrite <-E in *. rewrite (partial_body frame_bytes) by done. done.
  - pose proof (zlen_pos rest Hr). by destruct (Z.ltb_spec (zlen (b ++ d)) (4 + zlen body)); [|lia].
Qed.

(** One arrival: the connection is closed when the frame is cut behind its
    length, the request is served when the frame is complete, and otherwise the
    bytes are kept. *)
Lemma handle_read_step b d rest :
  frame_bytes = b ++ d ++ rest → d ≠ [] →
  handle_read hash cfg io fd (arrive fd d (partial b), sh) =
  if zlen (b ++ d) =? 4 then mret (close_connection fd (partial (b ++ d)), sh)
  else if decide (rest = []) then serve_frame hash cfg io fd (partial frame_bytes, sh)
  else mret (partial (b ++ d), sh).
Proof using Hs Hin Hmax Hlen Hbody.
  intros E Hd. pose proof (zlen_pos d Hd). pose proof (zlen_pos body Hbody) as Hbp.
  assert (zlen b + zlen d + zlen rest = 4 + zlen body) as Htot by (rewrite <-frame_length, E, !zlen_app; lia).
  assert (0 < zlen rest ↔ rest ≠ []) as Hrest by (split; [by intros ? ->|apply zlen_pos]).
  assert (rest = [] → b ++ d = frame_bytes) as Hfull by (intros ->; by rewrite E, app_nil_r).
  pose proof (zlen_nonneg b). pose proof (zlen_nonneg rest).
  unfold handle_read. destruct (Z.lt_ge_cases (zlen b) 4) as [Hb|Hb].
  - rewrite partial_header, arrive_at by done. rewrite Hin. cbn [app]. autorewrite with rx.
    rewrite read_header_step by done. cbn zeta.
    destruct (Z.ltb_spec (zlen (b ++ d)) 4) as [Hlt|Hge]; rewrite zlen_app in *.
    { destruct (Z.eqb_spec (zlen b + zlen d) 4); [lia|]. rewrite decide_False by (apply Hrest; lia).
      by rewrite partial_header by (rewrite zlen_app; lia). }
    rewrite (frame_header_take b d rest) by done. rewrite wrap_uint_small by (unfold in_uint; lia).
    destruct (zlen body >? max_message_bytes_ cfg) eqn:Hm; [lia|]. fold (in_body (b ++ ztake (4 - zlen b) d)).
    rewrite body_served with (rest := rest); [|by rewrite <-(app_assoc b), ztake_zdrop, <-app_assoc| |];
      [|rewrite zlen_app, zlen_ztake; lia..].
    rewrite <-(app_assoc b), ztake_zdrop.
    destruct (Z.eqb_spec (zlen b + zlen d) 4) as [H4|H4].
    + rewrite decide_True; [done|]. apply zdrop_ge. lia.
    + rewrite decide_False; [done|]. intros Hn. apply (f_equal zlen) in Hn. rewrite zlen_zdrop in Hn by lia.
      change (zlen []) with 0 in Hn. lia.
  - rewrite partial_body, arrive_at by done. rewrite Hin. cbn [app]. autorewrite with rx.
    unfold read_header. autorewrite with rx. cbn [have_header in_body with_read]. fold (in_body b).
    rewrite body_served with (rest := rest); [|by rewrite <-app_assoc|lia..].
    rewrite decide_False by done. rewrite zlen_app. by destruct (Z.eqb_spec (zlen b + zlen d) 4); [lia|].
Qed.
End framing.

(** ** Sequences of arrivals *)

(** Each piece arrives and makes the descriptor readable. *)
Fixpoint read_chunks (hash : bytes → Z) (cfg : ReactorConfig) (io : Io) (fd : Z) (chunks : list bytes) (w : World)
    : outcome World :=
  match chunks with
  | [] => mret w
  | d :: chunks' =>
      w' ← handle_read hash cfg io fd (arrive fd d w.1, w.2);
      read_chunks hash cfg io fd chunks' w'
  end.

(** A connection between two requests. *)
Definition between_requests (r : WorkerReactor) (fd : Z) (c : Connection) (s : Sock) : Prop :=
  connections_ r !! fd = Some c ∧ socks r !! fd = Some s ∧
  read_buf c = [] ∧ have_header c = false ∧ healthy s ∧ s_in s = [].

Lemma at_fd_id r fd c s : connections_ r !! fd = Some c → socks r !! fd = Some s → at_fd r fd c s = r.
Proof.
  intros Hc Hs. unfold at_fd, set_connection, with_connections, with_socks. cbn.
  rewrite !insert_id by done. by destruct r.
Qed.

Lemma partial_nil r fd c s body : between_requests r fd c s → partial fd r c s body [] = r.
Proof.
  intros (Hc & Hs & Hb & Hh & _). rewrite partial_header by done. unfold in_header.
  rewrite <-(at_fd_id r fd c s) at 2 by done. f_equal. destruct c. cbn in *. by subst.
Qed.

Lemma read_chunks_ok hash cfg io fd sh r c s body b chunks :
  healthy s → s_in s = [] → body ≠ [] → zlen body ≤ max_message_bytes_ cfg → zlen body < 2 ^ 31 →
  b ++ concat chunks = frame_bytes body → Forall (λ d, d ≠ []) chunks → chunks ≠ [] →
  (∀ pre post, chunks = pre ++ post → pre ≠ [] → zlen (b ++ concat pre) ≠ 4) →
  read_chunks hash cfg io fd chunks (partial fd r c s body b, sh) =
  serve_frame hash cfg io fd (partial fd r c s body (frame_bytes body), sh).
Proof.
  intros Hs Hin Hbody Hmax Hlen. revert b. induction chunks as [|d chunks IH]; intros b E Hne Hnil Hcut; [done|].
  inversion_clear Hne as [|? ? Hd Hds]. cbn [read_chunks fst snd concat] in *.
  rewrite (handle_read_step _ _ _ _ _ _ _ _ Hs Hin body Hmax Hlen Hbody b d (concat chunks)) by done.
  destruct (Z.eqb_spec (zlen (b ++ d)) 4) as [H4|H4].
  { exfalso. apply (Hcut [d] chunks); [done|done|]. cbn. by rewrite app_nil_r. }
  destruct chunks as [|d' chunks].
  - rewrite decide_True by done. cbn [read_chunks]. by destruct (serve_frame _ _ _ _ _).
  - pose proof (Forall_inv Hds) as Hd'. rewrite decide_False by (cbn [concat]; by intros [? _]%app_eq_nil).
    cbn [mbind outcome_bind mret outcome_ret]. apply IH; [by rewrite <-app_assoc|done|done|].
    intros pre post Hpre Hpn. rewrite <-app_assoc. apply (Hcut (d :: pre) post); [by rewrite Hpre|done].
Qed.

Lemma read_chunks_served hash cfg io fd r sh c s body chunks :
  between_requests r fd c s → body ≠ [] → zlen body ≤ max_message_bytes_ cfg → zlen body < 2 ^ 31 →
  concat chunks = frame_bytes body → Forall (λ d, d ≠ []) chunks →
  (∀ pre post, chunks = pre ++ post → pre ≠ [] → zlen (concat pre) ≠ 4) →
  read_chunks hash cfg io fd chunks (r, sh) =
  serve_frame hash cfg io fd (set_connection fd (with_read c (frame_bytes body) (zlen body) true) r, sh).
Proof.
  intros Hbr Hbody Hmax Hlen E Hne Hcut. pose proof Hbr as (Hc & Hs & Hb & Hh & Hhs & Hin).
  rewrite <-(partial_nil r fd c s body) at 1 by done. rewrite read_chunks_ok; try done.
  - rewrite partial_body by (rewrite frame_length; pose proof (zlen_nonneg body); lia).
    unfold in_body, at_fd. assert (with_socks (insert fd s) r = r) as ->; [|done].
    unfold with_socks. rewrite insert_id by done. by destruct r.
  - intros ->. apply (f_equal zlen) in E. rewrite frame_length in E. change (zlen (concat [])) with 0 in E.
    pose proof (zlen_nonneg body). lia.
Qed.

(** C19: a request is read independently of how its bytes arrive: whatever the
    pieces (not empty, and none ending exactly behind the length field), the
    reactor serves exactly the complete frame, once, when its last byte is
    there, and does nothing before. *)
Theorem chunks_independent hash cfg io fd r sh c s body chunks :
  between_requests r fd c s → body ≠ [] → zlen body ≤ max_message_bytes_ cfg → zlen body < 2 ^ 31 →
  concat chunks = frame_bytes body → Forall (λ d, d ≠ []) chunks →
  (∀ pre post, chunks = pre ++ post → pre ≠ [] → zlen (concat pre) ≠ 4) →
  read_chunks hash cfg io fd chunks (r, sh) =
  serve_frame hash cfg io fd (set_connection fd (with_read c (frame_bytes body) (zlen body) true) r, sh).
Proof. apply read_chunks_served. Qed.

(** *** A client *)

Definition a_socket : Sock := mkSock [] false false [] 65536 false.
Definition a_reactor : WorkerReactor :=
  mkReactor 0 {[7 := new_connection]} ∅ 0 (mkMetrics 0 0 0 0) {[7 := false]} {[7 := a_socket]} [] [].
Definition a_config : ReactorConfig :=
  mkReactorConfig a_broker (mkShardRouter 2) 1048576 4194304 3 4.
Definition an_io : Io := mkIo (λ _, 3) (λ _, 5) idle_kernel true.
Definition a_shared : Shared := mkShared (mkOS ∅ ∅ []) new_coordinator [new_queues; new_queues].
(** ApiVersions, version 4, correlation id 9, client id [c]. *)
Definition a_body : bytes := [0; 18; 0; 4; 0; 0; 0; 9; 0; 1; 99; 0; 1; 1; 0].

Lemma a_between : between_requests a_reactor 7 new_connection a_socket.
Proof. by repeat split. Qed.

Lemma chunks_independent_witness :
  match read_chunks (λ _, 0) a_config an_io 7 [[0]; [0; 0; 15; 0]; [18; 0; 4; 0; 0; 0; 9; 0; 1; 99]; [0; 1; 1; 0]]
          (a_reactor, a_shared) with
  | Ok (r, _) => requests_total (metrics_ r) = 1 ∧ decode_int32_be (ztake 4 (zdrop 4 (write_buf (connection r 7)))) = 9
  | _ => False
  end.
Proof.
  rewrite (chunks_independent (λ _, 0) a_config an_io 7 a_reactor a_shared new_connection a_socket a_body);
    [vm_compute; by split|apply a_between|done|by vm_compute|by vm_compute|reflexivity|by repeat constructor|].
  intros pre post E Hne. do 5 (destruct pre as [|? pre]; [done || (simplify_eq/=; by vm_compute)|simplify_eq/=]).
Defined.

Lemma closed_lookup fd r : connections_ (close_connection fd r) !! fd = None ∧ socks (close_connection fd r) !! fd = None.
Proof. cbn. by rewrite !lookup_delete_eq. Qed.

(** C39: when the length of a frame arrives before its body (in any pieces), the
    reactor reads the length, finds no body yet, and closes the connection as if
    the client had gone: the request is lost although the client is well behaved. *)
Theorem header_alone_closes hash cfg io fd r sh c s (body b d : bytes) :
  between_requests r fd c s → body ≠ [] → zlen body ≤ max_message_bytes_ cfg → zlen body < 2 ^ 31 →
  write_int32_be (zlen body) = b ++ d → d ≠ [] →
  ∃ r', (w ← (match b with [] => mret (r, sh) | _ => handle_read hash cfg io fd (arrive fd b r, sh) end);
         handle_read hash cfg io fd (arrive fd d w.1, w.2)) = Ok (r', sh) ∧
    connections_ r' !! fd = None ∧ socks r' !! fd = None.
Proof.
  intros Hbr Hbody Hmax Hlen E Hd. pose proof Hbr as (_ & _ & _ & _ & Hhs & Hin).
  assert (zlen b + zlen d = 4) as H4 by (rewrite <-zlen_app, <-E; apply zlen_int32_be).
  pose proof (zlen_pos d Hd).
  exists (close_connection fd (partial fd r c s body (b ++ d))). split; [|apply closed_lookup].
  assert (handle_read hash cfg io fd (arrive fd d (partial fd r c s body b), sh) =
          Ok (close_connection fd (partial fd r c s body (b ++ d)), sh)) as Hlast.
  { rewrite (handle_read_step _ _ _ _ _ _ _ _ Hhs Hin body Hmax Hlen Hbody b d body) by
      (try done; unfold frame_bytes; by rewrite E, <-app_assoc).
    by rewrite zlen_app, H4. }
  destruct b as [|x b].
  - cbn [mbind outcome_bind mret outcome_ret fst snd]. rewrite partial_nil in Hlast by done. done.
  - rewrite <-(partial_nil r fd c s body) at 1 by done.
    rewrite (handle_read_step _ _ _ _ _ _ _ _ Hhs Hin body Hmax Hlen Hbody [] (x :: b) (d ++ body)) by
      (try done; unfold frame_bytes; by rewrite E, <-app_assoc).
    cbn [app]. destruct (Z.eqb_spec (zlen (x :: b)) 4); [lia|].
    rewrite decide_False by (by intros [? _]%app_eq_nil). exact Hlast.
Qed.

Lemma header_alone_closes_witness :
  ∃ r', (w ← handle_read (λ _, 0) a_config an_io 7 (arrive 7 [0; 0] a_reactor, a_shared);
         handle_read (λ _, 0) a_config an_io 7 (arrive 7 [0; 15] w.1, w.2)) = Ok (r', a_shared) ∧
    connections_ r' !! 7 = None ∧ socks r' !! 7 = None.
Proof.
  exact (header_alone_closes (λ _, 0) a_config an_io 7 a_reactor a_shared new_connection a_socket a_body [0; 0] [0; 15]
    a_between ltac:(done) ltac:(by vm_compute) ltac:(by vm_compute) eq_refl ltac:(done)).
Defined.

(** C38: a frame whose length is negative or above the configured maximum (itself
    below [2^32]) is refused in the event in which its length has arrived, with
    whatever follows it: the connection and its socket are closed, one error and
    no request is counted, and nothing is handed to the broker or to another
    reactor. *)
Theorem oversized_refused hash cfg io fd r sh c s n rest :
  between_requests r fd c (with_in s []) → in_int 32 n → n < 0 ∨ max_message_bytes_ cfg < n →
  max_message_bytes_ cfg < 2 ^ 32 → s_in s = write_int32_be n ++ rest →
  ∃ r', handle_read hash cfg io fd (arrive fd (s_in s) r, sh) = Ok (r', sh) ∧
    connections_ r' = delete fd (connections_ r) ∧ socks r' = delete fd (socks r) ∧
    errors_total (metrics_ r') = fetch_add (errors_total (metrics_ r)) 1 ∧
    requests_total (metrics_ r') = requests_total (metrics_ r).
Proof.
  intros Hbr Hn Hbad Hmax Hin. pose proof Hbr as (Hc & Hs & Hb & Hh & Hhs & _).
  assert (partial fd r c (with_in s []) [] [] = r) as Hp by (by apply partial_nil).
  rewrite partial_header in Hp by done.
  assert (arrive fd (s_in s) r = at_fd r fd (in_header c []) (with_in (with_in s []) (s_in s))) as ->
    by (rewrite <-Hp at 1; apply arrive_at).
  unfold handle_read. rewrite connection_at, set_connection_at.
  assert (4 ≤ zlen (s_in s)) as H4.
  { rewrite Hin, zlen_app, zlen_int32_be. pose proof (zlen_nonneg rest). lia. }
  rewrite (read_header_step cfg io fd r c (with_in s []) Hhs eq_refl []) by
    (first [done|intros E; rewrite E in H4; change (zlen []) with 0 in H4; lia]).
  cbn zeta. cbn [app]. destruct (Z.ltb_spec (zlen (s_in s)) 4); [lia|]. change (4 - zlen []) with 4.
  assert (ztake 4 (s_in s) = write_int32_be n) as ->.
  { rewrite Hin. rewrite <-(zlen_int32_be n) at 1. apply ztake_app. }
  rewrite decode_write_int32 by done. unfold in_int in Hn.
  assert ((wrap_uint 64 n >? max_message_bytes_ cfg) = true) as ->.
  { unfold wrap_uint. destruct Hbad as [Hneg|Hbig].
    - rewrite <-(Z.mod_add n 1 (2 ^ 64)), Z.mul_1_l, Z.mod_small by lia. lia.
    - destruct (Z.lt_ge_cases n 0) as [Hneg|Hpos].
      + rewrite <-(Z.mod_add n 1 (2 ^ 64)), Z.mul_1_l, Z.mod_small by lia. lia.
      + rewrite Z.mod_small by lia. lia. }
  eexists. split; [done|]. split_and!; cbn.
  - by rewrite delete_insert_eq.
  - by rewrite delete_insert_eq.
  - done.
  - done.
Qed.

Lemma oversized_refused_witness :
  ∃ r', handle_read (λ _, 0) a_config an_io 7 (arrive 7 [255; 255; 255; 255; 1] a_reactor, a_shared) = Ok (r', a_shared) ∧
    connections_ r' = delete 7 (connections_ a_reactor) ∧ socks r' = delete 7 (socks a_reactor) ∧
    errors_total (metrics_ r') = 1 ∧ requests_total (metrics_ r') = 0.
Proof.
  apply (oversized_refused (λ _, 0) a_config an_io 7 a_reactor a_shared new_connection
    (mkSock [255; 255; 255; 255; 1] false false [] 65536 false) (-1) [1]);
    [apply a_between|by vm_compute|by left|by vm_compute|reflexivity].
Defined.
