(* ===== verification/Delivery.v ===== *)
(** * Writing responses to a connection

    The bytes a connection still has to send are the rest of its write buffer
    and its queue ([pending]).  Responses are appended to them and the socket
    takes them from the front, so what has been sent is always a prefix of the
    responses in order, and all of it is sent when the socket keeps taking bytes. *)

From S2P Require Import Prelude Endian Protocol Parser Serializer ResponseFormat Storage PartitionContext.
From S2P Require Import RecordHandler GroupCoordinator Broker Shard Socket Reactor Framing.

Definition pending (c : Connection) : bytes := zdrop (write_offset c) (write_buf c) ++ concat (write_queue_ c).

(** The write side of a connection: nothing is queued behind an empty buffer. *)
Record write_ok (c : Connection) : Prop := {
  wo_offset : 0 ≤ write_offset c ≤ zlen (write_buf c);
  wo_queue : write_buf c = [] → write_queue_ c = [];
  wo_items : Forall (λ d, d ≠ []) (write_queue_ c) }.

(** A connection the kernel knows, watched for writing exactly when there is
    something to write. *)
Record live (r : WorkerReactor) (fd : Z) (c : Connection) (s : Sock) : Prop := {
  live_conn : connections_ r !! fd = Some c;
  live_sock : socks r !! fd = Some s;
  live_watch : epoll_ r !! fd = Some (bool_decide (write_buf c ≠ [])) }.

Lemma idle_spec c : write_ok c → idle c = bool_decide (write_buf c = []).
Proof.
  intros [Ho _ _]. unfold idle. case_bool_decide as Hb; [|apply andb_false_r].
  rewrite Hb in Ho. change (zlen []) with 0 in Ho. by destruct (Z.eqb_spec (write_offset c) 0); [|lia].
Qed.

Lemma live_set r fd c c' s :
  live r fd c s → (write_buf c' = [] ↔ write_buf c = []) → live (set_connection fd c' r) fd c' s.
Proof.
  intros [Hc Hs He] Hb. split; cbn; [apply lookup_insert_eq|done|]. rewrite He. f_equal.
  apply bool_decide_ext. by rewrite Hb.
Qed.

Lemma live_rewatch r fd c c' s :
  live r fd c s → live (watch fd (bool_decide (write_buf c' ≠ [])) (set_connection fd c' r)) fd c' s.
Proof. intros [Hc Hs He]. split; cbn; [apply lookup_insert_eq|done|]. by rewrite lookup_alter_eq, He. Qed.

Lemma live_sock_set r fd c s s' : live r fd c s → live (with_socks (insert fd s') r) fd c s'.
Proof. intros [Hc Hs He]. split; cbn; [done|apply lookup_insert_eq|done]. Qed.

Lemma live_metrics r fd c s f : live r fd c s → live (with_metrics f r) fd c s.
Proof. by intros []. Qed.

Lemma live_connection r fd c s : live r fd c s → connection r fd = c.
Proof. intros [Hc _ _]. unfold connection. by rewrite Hc. Qed.

Lemma live_set_same r fd c s : live r fd c s → set_connection fd (connection r fd) r = r.
Proof.
  intros Hl. rewrite (live_connection _ _ _ _ Hl). destruct Hl as [Hc _ _].
  unfold set_connection, with_connections. rewrite insert_id by done. by destruct r.
Qed.

(** ** Appending a response *)

Lemma enqueue_ok d c :
  write_ok c → d ≠ [] →
  write_ok (enqueue d c) ∧ pending (enqueue d c) = pending c ++ d ∧ write_buf (enqueue d c) ≠ [] ∧
  splice_fd (enqueue d c) = splice_fd c ∧ splice_pending (enqueue d c) = splice_pending c.
Proof.
  intros Hc Hd. pose proof (zlen_nonneg d). unfold enqueue. rewrite idle_spec by done.
  destruct Hc as [Ho Hq Hi]. case_bool_decide as Hb.
  - split_and!; [|..|done|done|done]; [split; cbn; [lia|done|by rewrite Hq]|].
    unfold pending. cbn. rewrite Hb, Hq by done. unfold zdrop. cbn. rewrite drop_nil. cbn. by rewrite app_nil_r.
  - split_and!; [|..|done|done|done]; [split; cbn; [done|done|]|].
    + apply Forall_app. split; [done|by constructor].
    + unfold pending. cbn. rewrite concat_app. cbn. by rewrite app_nil_r, app_assoc.
Qed.

Lemma deliver_live d r fd c0 c s :
  live r fd c0 s → (write_buf c = [] ↔ write_buf c0 = []) → write_ok c → d ≠ [] →
  live (deliver fd d c r) fd (enqueue d c) s.
Proof.
  intros Hl Hc0 Hok Hd. destruct (enqueue_ok d c Hok Hd) as (_ & _ & Hne & _).
  unfold deliver. rewrite idle_spec by done. destruct (decide (write_buf c = [])) as [Hb|Hb];
    [rewrite bool_decide_true by done|rewrite bool_decide_false by done].
  - rewrite <-(bool_decide_true (write_buf (enqueue d c) ≠ [])) at 1 by done. by eapply live_rewatch.
  - eapply live_set; [done|]. rewrite <-Hc0. by split.
Qed.

(** ** Sending *)

(** Rounds until everything is sent: each sends a byte, or takes the next
    response from the queue. *)
Definition work (c : Connection) : Z :=
  zlen (pending c) + zlen (write_queue_ c) + (if decide (write_buf c = []) then 0 else 1).

(** The connection after [advance_write_queue]. *)
Definition advanced (c : Connection) : Connection :=
  match write_queue_ c with
  | next :: queue => with_write c next 0 queue
  | [] => with_write c [] 0 []
  end.

Lemma advance_live r fd c s :
  live r fd c s → write_ok c → live (advance_write_queue fd r) fd (advanced c) s.
Proof.
  intros Hl [Ho Hq Hi]. unfold advance_write_queue, advanced. rewrite (live_connection _ _ _ _ Hl).
  destruct (write_queue_ c) as [|d ds] eqn:Eq.
  - apply (live_rewatch r fd c (with_write c [] 0 []) s Hl).
  - eapply live_set; [done|]. cbn. inversion_clear Hi. split; [done|]. intros E. by specialize (Hq E).
Qed.

Lemma advanced_ok c :
  write_ok c → write_offset c = zlen (write_buf c) →
  write_ok (advanced c) ∧ pending (advanced c) = pending c ∧ write_offset (advanced c) = 0 ∧
  splice_fd (advanced c) = splice_fd c ∧ splice_pending (advanced c) = splice_pending c ∧
  (write_buf c ≠ [] → work (advanced c) < work c) ∧ (write_buf c = [] → write_buf (advanced c) = []).
Proof.
  intros [Ho Hq Hi] Hend. unfold advanced.
  assert (zdrop (write_offset c) (write_buf c) = []) as Hdone by (apply zdrop_ge; lia).
  destruct (write_queue_ c) as [|d ds] eqn:Eq.
  - split_and!; [split; cbn; [done|done|constructor]|..|done|done|done| |done].
    + unfold pending. cbn. by rewrite Hdone, Eq.
    + intros Hne. unfold work, pending. cbn. rewrite Eq, Hdone. by rewrite (decide_False (P := write_buf c = [])), decide_True.
  - inversion_clear Hi as [|? ? Hd Hds]. pose proof (zlen_nonneg d).
    split_and!; [split; cbn; [lia|done|done]|..|done|done|done| |].
    + unfold pending. cbn. by rewrite Hdone, Eq.
    + intros Hne. unfold work, pending. cbn. rewrite Eq, Hdone. cbn [concat].
      rewrite !decide_False by done. rewrite zlen_cons, zdrop_0. cbn [app]. rewrite !zlen_app. lia.
    + intros E. by specialize (Hq E).
Qed.

(** The read side of a connection and of its socket is untouched. *)
Definition same_read (c c' : Connection) (s s' : Sock) : Prop :=
  read_buf c' = read_buf c ∧ have_header c' = have_header c ∧
  s_in s' = s_in s ∧ s_eof s' = s_eof s ∧ s_in_error s' = s_in_error s.

(** The connection after [n] bytes of it have been sent. *)
Definition sent (n : Z) (c : Connection) : Connection :=
  with_write c (write_buf c) (write_offset c + n) (write_queue_ c).

Lemma sent_ok n c :
  write_ok c → 0 ≤ n ≤ zlen (write_buf c) - write_offset c →
  write_ok (sent n c) ∧
  ztake n (zdrop (write_offset c) (write_buf c)) ++ pending (sent n c) = pending c ∧
  (write_buf (sent n c) = [] ↔ write_buf c = []) ∧ work (sent n c) = work c - n.
Proof.
  intros [Ho Hq Hi] Hn. split_and!; [split; cbn; [lia|done|done]|..|done|].
  - unfold pending. cbn. rewrite zdrop_add by lia. by rewrite app_assoc, ztake_zdrop.
  - unfold work, pending. cbn [sent with_write write_buf write_offset write_queue_]. rewrite !zlen_app.
    rewrite !zlen_zdrop by lia. lia.
Qed.

(** Writing, when no file is to be spliced: what the socket takes is exactly
    what the connection no longer has to send. *)
Lemma handle_write_live io r fd c s :
  live r fd c s → write_ok c → splice_fd c < 0 → splice_pending c = false →
  s_out_error s = false → 0 ≤ s_room s →
  ∃ r' c' s', handle_write io fd r = Ok r' ∧ live r' fd c' s' ∧ write_ok c' ∧
    splice_fd c' = splice_fd c ∧ splice_pending c' = false ∧ s_out_error s' = false ∧ 0 ≤ s_room s' ∧
    s_out s' ++ pending c' = s_out s ++ pending c ∧
    (0 < s_room s → write_buf c ≠ [] → work c' < work c) ∧
    (write_buf c = [] → write_buf c' = []) ∧ same_read c c' s s'.
Proof.
  intros Hl Hok Hsf Hsp He Hr. unfold handle_write. rewrite (live_set_same r fd c s Hl), (live_connection _ _ _ _ Hl).
  pose proof (wo_offset _ Hok) as Ho. destruct (Z.gtb_spec (write_offset c) (zlen (write_buf c))); [lia|].
  unfold send_fd. rewrite (live_sock _ _ _ _ Hl), send_all_ok by done.
  unfold send_spec. rewrite He, andb_false_r, zlen_zdrop by lia. cbn zeta.
  set (n := Z.min (zlen (write_buf c) - write_offset c) (s_room s)).
  destruct (sent_ok n c Hok ltac:(lia)) as (Hok' & Hpend & Hbuf & Hwork).
  set (s' := with_out s _ _). fold (sent n c).
  assert (live (count_sent n (set_connection fd (sent n c) (with_socks (insert fd s') r))) fd (sent n c) s') as Hl'.
  { apply live_metrics, (live_set _ fd c); [|by rewrite Hbuf]. by eapply live_sock_set. }
  set (r' := count_sent _ _) in *.
  assert (s_out s' ++ pending (sent n c) = s_out s ++ pending c) as Hout.
  { cbn. by rewrite <-app_assoc, Hpend. }
  destruct (Z.geb_spec (write_offset (sent n c)) (zlen (write_buf (sent n c)))) as [Hend|Hend].
  - unfold submit_splice. rewrite (live_connection _ _ _ _ Hl').
    assert (0 <=? splice_fd (sent n c) = false) as -> by (cbn; lia). cbn [andb].
    change (splice_pending (sent n c)) with (splice_pending c). rewrite Hsp.
    destruct (advanced_ok (sent n c) Hok') as (Hok2 & Hp2 & _ & Hs2 & Hsp2 & Hw2 & Hb2); [cbn in *; lia|].
    eexists _, (advanced (sent n c)), s'.
    split; [done|]. split; [by apply advance_live|].
    split_and!; [done|by rewrite Hs2|by rewrite Hsp2|done|cbn; lia|by rewrite Hp2|..].
    + intros _ Hne. rewrite <-Hbuf in Hne. specialize (Hw2 Hne). lia.
    + intros Hb. apply Hb2. by rewrite Hbuf.
    + unfold advanced. by destruct (write_queue_ _).
  - eexists r', (sent n c), s'. split; [done|]. split; [done|]. cbn in Hend.
    split_and!; [done|done|done|done|cbn; lia|done|..|by rewrite Hbuf|done].
    intros Hpos _. rewrite Hwork. lia.
Qed.

(** ** A client that keeps reading *)

(** The client takes bytes, so that the socket has room; epoll reports the
    descriptor when it is watched for writing. *)
Definition make_room (fd room : Z) (r : WorkerReactor) : WorkerReactor :=
  with_socks (alter (λ s, with_out s (s_out s) room) fd) r.

Definition writable (io : Io) (fd room : Z) (r : WorkerReactor) : outcome WorkerReactor :=
  let r := make_room fd room r in
  match epoll_ r !! fd with
  | Some true => handle_write io fd r
  | _ => mret r
  end.

Fixpoint writable_rounds (fd : Z) (rounds : list (Io * Z)) (r : WorkerReactor) : outcome WorkerReactor :=
  match rounds with
  | [] => mret r
  | (io, room) :: rounds' => r' ← writable io fd room r; writable_rounds fd rounds' r'
  end.

(** A connection that only has buffers to write, on a socket without error. *)
Record writing (r : WorkerReactor) (fd : Z) (c : Connection) (s : Sock) : Prop := {
  wr_live : live r fd c s;
  wr_ok : write_ok c;
  wr_splice : splice_fd c < 0;
  wr_pending : splice_pending c = false;
  wr_error : s_out_error s = false }.

Lemma writable_step io fd room r c s :
  writing r fd c s → 0 < room →
  ∃ r' c' s', writable io fd room r = Ok r' ∧ writing r' fd c' s' ∧
    s_out s' ++ pending c' = s_out s ++ pending c ∧
    (write_buf c ≠ [] → work c' < work c) ∧ (write_buf c = [] → write_buf c' = []) ∧ same_read c c' s s'.
Proof.
  intros [Hl Hok Hsf Hsp He] Hroom. unfold writable.
  assert (live (make_room fd room r) fd c (with_out s (s_out s) room)) as Hl'.
  { destruct Hl as [Hc Hs Hw]. split; cbn; [done| |done]. by rewrite lookup_alter_eq, Hs. }
  rewrite (live_watch _ _ _ _ Hl'). case_bool_decide as Hb.
  - edestruct (handle_write_live io _ fd c _ Hl' Hok Hsf Hsp) as (r' & c' & s' & Hh & Hl2 & Hok2 & Hf & Hp & He2 & _ & Ho & Hw & Hb2 & Hrd);
      [done|cbn; lia|].
    exists r', c', s'. split; [done|]. split; [split; [done|done|lia|done|done]|].
    split; [done|]. split; [by apply Hw|by split].
  - eexists _, c, _. split; [done|]. split; [by split|]. done.
Qed.

Lemma work_nonneg c : 0 ≤ work c.
Proof.
  unfold work. pose proof (zlen_nonneg (pending c)). pose proof (zlen_nonneg (write_queue_ c)).
  destruct (decide _); lia.
Qed.

Lemma writable_rounds_ok fd rounds r c s :
  writing r fd c s → Forall (λ p, 0 < p.2) rounds → (work c ≤ zlen rounds ∨ write_buf c = []) →
  ∃ r' c' s', writable_rounds fd rounds r = Ok r' ∧ writing r' fd c' s' ∧ write_buf c' = [] ∧
    s_out s' ++ pending c' = s_out s ++ pending c ∧ same_read c c' s s'.
Proof.
  intros Hw Hrooms. revert r c s Hw.
  induction Hrooms as [|[io room] rounds Hroom _ IH]; intros r c s Hw Hlen; cbn [writable_rounds].
  - exists r, c, s. split_and!; [done|done| |done|by split_and!]. destruct Hlen as [Hlen|Hlen]; [|done].
    unfold work in Hlen. pose proof (zlen_nonneg (pending c)). pose proof (zlen_nonneg (write_queue_ c)).
    change (zlen []) with 0 in Hlen. destruct (decide (write_buf c = [])); [done|lia].
  - destruct (writable_step io fd room r c s Hw Hroom) as (r1 & c1 & s1 & -> & Hw1 & Ho1 & Hd1 & Hb1 & Hrd1).
    cbn [mbind outcome_bind]. destruct (IH r1 c1 s1 Hw1) as (r' & c' & s' & Hr & Hw' & Hb & Ho & Hrd).
    { rewrite zlen_cons in Hlen. destruct (decide (write_buf c = [])) as [E|E]; [right; by apply Hb1|].
      left. destruct Hlen as [Hlen|]; [|done]. specialize (Hd1 E). lia. }
    exists r', c', s'. split_and!; [done|done|done|by rewrite Ho|].
    unfold same_read in *. intuition congruence.
Qed.

Lemma pending_empty c : write_ok c → write_buf c = [] → pending c = [].
Proof. intros [_ Hq _] Hb. unfold pending. rewrite Hb, Hq by done. unfold zdrop. by rewrite drop_nil. Qed.

(** ** From request to response *)

Definition reactor_state (r : WorkerReactor) (sh : Shared) : BrokerState :=
  mkBrokerState (mkStore (rx_contexts_ r) (sh_os sh) (rx_calls_ r)) (sh_coordinator sh).

(** The request concerns no partition, or one of this reactor. *)
Definition served_here (hash : bytes → Z) (cfg : ReactorConfig) (rid : Z) (req : Request) : Prop :=
  match extract_partition_key req (metadata_ (rc_handler cfg)) with
  | Ok (Some k) => route hash (shard_router_ cfg) (pk_topic k) (pk_partition k) = Ok rid
  | Ok None => True
  | _ => False
  end.

Lemma serve_frame_here hash cfg io fd r sh req :
  parse_request (zdrop 4 (read_buf (connection r fd))) = Ok req → served_here hash cfg (reactor_id_ r) req →
  serve_frame hash cfg io fd (r, sh) = serve_local cfg io fd req (r, sh).
Proof.
  intros Hp Hh. unfold serve_frame, served_here in *. rewrite Hp.
  destruct (extract_partition_key _ _) as [[k|]| |]; try done. cbn [mbind outcome_bind]. rewrite Hh.
  cbn [mbind outcome_bind]. by rewrite Z.eqb_refl.
Qed.

(** The connection once a request has been taken from it and the response's
    splice noted. *)
Definition answered (resp : Response) (c : Connection) : Connection :=
  let '(sfd, slen) := splice_of resp (splice_fd c, splice_len c) in
  with_read (with_pool (with_splice c sfd slen (splice_pending c)) []) [] (expected_len c) false.

Lemma serve_local_live cfg io fd r sh c s req resp st data :
  live r fd c s → write_ok c →
  handle (io_kernel io) (io_clock io) (rc_handler cfg) req (reactor_state r sh) = Ok (resp, st) →
  serialize resp = Ok data → zlen data ≤ max_write_buffer_bytes_ cfg →
  ∃ r', serve_local cfg io fd req (r, sh) =
          Ok (r', mkShared (st_os (br_store st)) (br_coordinator st) (all_queues_ sh)) ∧
    live r' fd (enqueue data (answered resp c)) s ∧ reactor_state r' (mkShared (st_os (br_store st)) (br_coordinator st) (all_queues_ sh)) = st.
Proof.
  intros Hl Hok Hh Hs Hm. unfold serve_local, broker_handle. unfold reactor_state in Hh. rewrite Hh.
  cbn [mbind outcome_bind mret outcome_ret]. rewrite Hs. cbn [mbind outcome_bind].
  set (r1 := mkReactor _ _ _ _ _ _ _ _ _). assert (live r1 fd c s) as Hl1 by (by destruct Hl).
  rewrite (live_connection _ _ _ _ Hl1). unfold answered.
  destruct (splice_of resp (splice_fd c, splice_len c)) as [sfd slen] eqn:Esp.
  destruct (Z.gtb_spec (zlen data) (max_write_buffer_bytes_ cfg)); [lia|].
  eexists. split; [done|]. split.
  - eapply deliver_live; [by apply live_metrics|done| |by eapply serialize_nonempty]. by destruct Hok; split.
  - unfold deliver. destruct (idle _); cbn; destruct st as [[] ?]; done.
Qed.

Lemma work_enqueue d c : write_ok c → d ≠ [] → work (enqueue d c) ≤ work c + zlen d + 1.
Proof.
  intros Hok Hd. destruct (enqueue_ok d c Hok Hd) as (_ & Hp & Hb & _). unfold work.
  rewrite Hp, zlen_app, decide_False by done. unfold enqueue. rewrite idle_spec by done.
  case_bool_decide as E; cbn [write_queue_ with_write].
  - rewrite decide_True by done. lia.
  - rewrite decide_False, zlen_app by done. change (zlen [d]) with 1. lia.
Qed.

Lemma answered_ok resp c : write_ok c → write_ok (answered resp c).
Proof. intros [Ho Hq Hi]. unfold answered. destruct (splice_of _ _). by split. Qed.

(** A client is answered: its request arrives in pieces, the reactor handles it,
    and after enough rounds of writing the socket has exactly what was pending
    and then the response, and the connection is as before the request. *)
Lemma answer_ok hash cfg io fd r sh c s body chunks req resp st data rounds :
  between_requests r fd c s → writing r fd c s →
  zlen body ≤ max_message_bytes_ cfg → zlen body < 2 ^ 31 → body ≠ [] →
  concat chunks = frame_bytes body → Forall (λ d, d ≠ []) chunks →
  (∀ pre post, chunks = pre ++ post → pre ≠ [] → zlen (concat pre) ≠ 4) →
  parse_request body = Ok req → served_here hash cfg (reactor_id_ r) req →
  handle (io_kernel io) (io_clock io) (rc_handler cfg) req (reactor_state r sh) = Ok (resp, st) →
  serialize resp = Ok data → zlen data ≤ max_write_buffer_bytes_ cfg →
  (splice_of resp (splice_fd c, splice_len c)).1 < 0 →
  Forall (λ p, 0 < p.2) rounds → work c + zlen data + 1 ≤ zlen rounds →
  ∃ r' sh' c' s',
    ('(r1, sh1) ← read_chunks hash cfg io fd chunks (r, sh);
     r2 ← writable_rounds fd rounds r1; mret (r2, sh1)) = Ok (r', sh') ∧
    s_out s' = s_out s ++ pending c ++ data ∧ between_requests r' fd c' s' ∧ writing r' fd c' s' ∧
    pending c' = [] ∧ epoll_ r' !! fd = Some false.
Proof.
  intros Hbr [Hl Hok Hsf Hsp He] Hmax Hlen Hbody Hch Hne Hcut Hparse Hhere Hh Hs Hfit Hspl Hrooms Hrounds.
  pose proof Hbr as (Hc & Hsk & Hb & Hhd & [Heof Hie] & Hin).
  pose proof (serialize_nonempty _ _ Hs) as Hdata.
  rewrite (read_chunks_served hash cfg io fd r sh c s body chunks) by done.
  set (c1 := with_read c (frame_bytes body) (zlen body) true).
  assert (live (set_connection fd c1 r) fd c1 s) as Hl1 by (by eapply live_set).
  assert (write_ok c1) as Hok1 by (by destruct Hok; split).
  rewrite (serve_frame_here _ _ _ _ _ _ req); [..|done].
  2:{ rewrite (live_connection _ _ _ _ Hl1). cbn [read_buf c1 with_read].
      unfold frame_bytes. rewrite <-(zlen_int32_be (zlen body)), zdrop_app. done. }
  destruct (serve_local_live cfg io fd _ sh c1 s req resp st data Hl1 Hok1 Hh Hs Hfit) as (r1 & -> & Hl2 & _).
  cbn [mbind outcome_bind].
  assert (splice_fd (answered resp c1) < 0 ∧ splice_pending (answered resp c1) = false) as [Hf1 Hp1].
  { unfold answered. cbn [splice_fd splice_len c1 with_read]. by destruct (splice_of _ _). }
  assert (pending (answered resp c1) = pending c ∧ work (answered resp c1) = work c) as [Hpc Hwc]
    by (unfold answered; by destruct (splice_of _ _)).
  destruct (enqueue_ok data (answered resp c1)) as (Hok2 & Hp2 & _ & Hf2 & Hsp2); [by apply answered_ok|done|].
  destruct (writable_rounds_ok fd rounds r1 (enqueue data (answered resp c1)) s)
    as (r' & c' & s' & -> & Hw' & Hb' & Ho' & Hrd'); [split; [done|done|lia|congruence|done]|done|..].
  { left. pose proof (work_enqueue data (answered resp c1) (answered_ok resp c1 Hok1) Hdata). lia. }
  rewrite Hp2, Hpc in Ho'.
  destruct Hw' as [Hl' Hok' Hsf' Hsp' He']. pose proof (pending_empty c' Hok' Hb') as Hnil.
  eexists r', _, c', s'. split; [done|]. split; [by rewrite Hnil, app_nil_r in Ho'|].
  split_and!; [|by split|done|].
  - destruct Hrd' as (R1 & R2 & R3 & R4 & R5). repeat split; try congruence; [apply Hl'|apply Hl'|..].
    + rewrite R1. unfold answered, enqueue. destruct (splice_of _ _). by destruct (idle _).
    + rewrite R2. unfold answered, enqueue. destruct (splice_of _ _). by destruct (idle _).
  - rewrite (live_watch _ _ _ _ Hl'). by rewrite Hb'.
Qed.

(** C7: on a healthy connection, between two requests and without a splice, a
    well-formed request that the reactor serves itself is answered, when the
    broker handles it, its response fits the write-buffer limit and nothing is to
    be spliced: whatever the non-empty pieces its bytes arrive in, none of them
    ending exactly behind the length field, once the client has taken enough bytes
    its socket has received what was pending before, then exactly the serialized
    response of the broker; the connection is ready for the next request and no
    longer registered for writing. *)
Theorem request_answered hash cfg io fd r sh c s body chunks req resp st data rounds :
  between_requests r fd c s → writing r fd c s →
  zlen body ≤ max_message_bytes_ cfg → zlen body < 2 ^ 31 → body ≠ [] →
  concat chunks = frame_bytes body → Forall (λ d, d ≠ []) chunks →
  (∀ pre post, chunks = pre ++ post → pre ≠ [] → zlen (concat pre) ≠ 4) →
  parse_request body = Ok req → served_here hash cfg (reactor_id_ r) req →
  handle (io_kernel io) (io_clock io) (rc_handler cfg) req (reactor_state r sh) = Ok (resp, st) →
  serialize resp = Ok data → zlen data ≤ max_write_buffer_bytes_ cfg →
  (splice_of resp (splice_fd c, splice_len c)).1 < 0 →
  Forall (λ p, 0 < p.2) rounds → work c + zlen data + 1 ≤ zlen rounds →
  ∃ r' sh' c' s',
    ('(r1, sh1) ← read_chunks hash cfg io fd chunks (r, sh);
     r2 ← writable_rounds fd rounds r1; mret (r2, sh1)) = Ok (r', sh') ∧
    s_out s' = s_out s ++ pending c ++ data ∧ between_requests r' fd c' s' ∧ writing r' fd c' s' ∧
    pending c' = [] ∧ epoll_ r' !! fd = Some false.
Proof. apply answer_ok. Qed.

Definition a_response : bytes :=
  match respond idle_kernel (λ _, 5) a_broker a_body (reactor_state a_reactor a_shared) with
  | Ok (out, _) => out
  | _ => []
  end.

Lemma request_answered_witness :
  ∃ r' sh' c' s',
    ('(r1, sh1) ← read_chunks (λ _, 0) a_config an_io 7 [[0; 0; 0; 15; 0]; zdrop 1 a_body] (a_reactor, a_shared);
     r2 ← writable_rounds 7 (replicate 400 (an_io, 1)) r1; mret (r2, sh1)) = Ok (r', sh') ∧
    s_out s' = s_out a_socket ++ pending new_connection ++ a_response ∧ between_requests r' 7 c' s' ∧ writing r' 7 c' s' ∧
    pending c' = [] ∧ epoll_ r' !! 7 = Some false.
Proof.
  destruct (parse_request a_body) as [req| |] eqn:Ep; [|vm_compute in Ep; discriminate..].
  destruct (handle idle_kernel (λ _, 5) a_broker req (reactor_state a_reactor a_shared)) as [[resp st]| |] eqn:Eh;
    [|vm_compute in Ep; injection Ep as <-; vm_compute in Eh; discriminate..].
  assert (serialize resp = Ok a_response) as Es.
  { vm_compute in Ep. injection Ep as <-. vm_compute in Eh. injection Eh as <- <-. by vm_compute. }
  apply (request_answered (λ _, 0) a_config an_io 7 a_reactor a_shared new_connection a_socket a_body
    [[0; 0; 0; 15; 0]; zdrop 1 a_body] req resp st a_response (replicate 400 (an_io, 1)));
    [apply a_between| | | | | | | |exact Ep| |exact Eh|exact Es| | | |].
  - split; [by split|split; [done|done|constructor]|done|done|done].
  - by vm_compute.
  - by vm_compute.
  - done.
  - reflexivity.
  - by repeat constructor.
  - intros pre post E Hne. do 3 (destruct pre as [|? pre]; [done || (simplify_eq/=; by vm_compute)|simplify_eq/=]).
  - vm_compute in Ep. injection Ep as <-. exact I.
  - by vm_compute.
  - vm_compute in Ep. injection Ep as <-. vm_compute in Eh. injection Eh as <- _. by vm_compute.
  - apply Forall_replicate. reflexivity.
  - by vm_compute.
Defined.

(** ** Responses that end in a splice *)

(** C40: a splice is bound to a connection, not to a response: when a response
    whose records are to be spliced from a file waits behind another one, the
    splice is submitted as soon as the one before it has been sent, from the
    start of the file, while the response it belongs to is still queued: the
    client gets the records before their header. *)
Theorem splice_before_header io r fd c s resp :
  writing r fd c s → write_buf c ≠ [] → zlen (write_buf c) - write_offset c ≤ s_room s →
  fs_client_fd resp = fd → 0 ≤ fs_splice_fd resp → fs_data resp ≠ [] → io_sqe io = true →
  ∃ r' c' s', handle_write io fd (accept_response resp r) = Ok r' ∧
    connections_ r' !! fd = Some c' ∧ socks r' !! fd = Some s' ∧
    splices_ r' = splices_ r ++ [mkSplice (fs_splice_fd resp) 0 fd (fs_splice_len resp)] ∧
    write_queue_ c' = write_queue_ c ++ [fs_data resp] ∧
    s_out s' = s_out s ++ zdrop (write_offset c) (write_buf c).
Proof.
  intros [Hl Hok Hsf Hsp He] Hne Hroom Hfd Hs0 Hd Hsqe. pose proof (wo_offset _ Hok) as Ho.
  unfold accept_response. rewrite Hfd, (live_conn _ _ _ _ Hl).
  destruct (Z.leb_spec 0 (fs_splice_fd resp)); [|lia].
  set (c1 := with_splice c _ _ _). assert (write_ok c1) as Hok1 by (by destruct Hok; split).
  pose proof (deliver_live (fs_data resp) r fd c c1 s Hl ltac:(done) Hok1 Hd) as Hl1.
  assert (splices_ (deliver fd (fs_data resp) c1 r) = splices_ r) as Hsp1 by (unfold deliver; by destruct (idle c1)).
  assert (enqueue (fs_data resp) c1 = with_write c1 (write_buf c) (write_offset c) (write_queue_ c ++ [fs_data resp])) as Een.
  { unfold enqueue. rewrite idle_spec by done. by rewrite bool_decide_false. }
  rewrite Een in Hl1. set (r1 := deliver _ _ _ _) in *. set (c2 := with_write _ _ _ _) in *.
  unfold handle_write. rewrite (live_set_same _ _ _ _ Hl1), (live_connection _ _ _ _ Hl1).
  change (write_buf c2) with (write_buf c). change (write_offset c2) with (write_offset c).
  destruct (Z.gtb_spec (write_offset c) (zlen (write_buf c))); [lia|].
  unfold send_fd. rewrite (live_sock _ _ _ _ Hl1), send_all_ok by lia.
  unfold send_spec. rewrite He, andb_false_r, zlen_zdrop by lia. cbn zeta.
  rewrite Z.min_l by lia. rewrite ztake_ge by (rewrite zlen_zdrop; lia).
  cbn [write_offset write_buf with_write].
  destruct (Z.geb_spec (write_offset c + (zlen (write_buf c) - write_offset c)) (zlen (write_buf c))); [|lia].
  unfold submit_splice. set (r2 := count_sent _ _). set (c3 := with_write c2 _ _ _).
  assert (connection r2 fd = c3) as -> by (unfold connection; cbn; by rewrite lookup_insert_eq).
  assert (0 <=? splice_fd c3 = true) as -> by (cbn; lia).
  assert (splice_pending c3 = false) as -> by done. rewrite Hsqe. cbn [andb negb].
  eexists _, _, _. split; [done|]. cbn. rewrite !lookup_insert_eq. by rewrite Hsp1.
Qed.

Lemma splice_before_header_witness :
  let c := with_write new_connection [1; 2; 3] 1 [] in
  let r := mkReactor 0 {[7 := c]} ∅ 0 (mkMetrics 0 0 0 0) {[7 := true]} {[7 := a_socket]} [] [] in
  ∃ r' c' s', handle_write an_io 7 (accept_response (mkForwardedResponse 7 [4; 5] 9 100) r) = Ok r' ∧
    connections_ r' !! 7 = Some c' ∧ socks r' !! 7 = Some s' ∧
    splices_ r' = [mkSplice 9 0 7 100] ∧ write_queue_ c' = [[4; 5]] ∧ s_out s' = [2; 3].
Proof.
  intros c r. apply (splice_before_header an_io r 7 c a_socket (mkForwardedResponse 7 [4; 5] 9 100));
    [|done|by vm_compute|done|done|done|done].
  split; [by split|split; [by vm_compute|done|constructor]|done|done|done].
Defined.
