(* ===== verification/ReactorInvariant.v ===== *)
(** * The reactor's invariant

    What holds of every descriptor between two handlers of the loop: a
    connection has read at most what it may, writes its responses in order, and
    is watched for writing exactly when it has something to write.  The steps of
    a reactor and of its environment are a relation on states; the invariant is
    proved for all reachable states, together with the promise to a client that
    bytes once sent or queued are never changed or reordered. *)

From stdpp Require Import relations.
From S2P Require Import Prelude Endian Protocol Parser Serializer ResponseFormat Storage PartitionContext.
From S2P Require Import ClusterMetadata MetadataHandler RecordHandler GroupCoordinator Broker Shard Socket.
From S2P Require Import Reactor Framing Delivery.

(** While a splice is under way the buffer before it has been sent. *)
Record write_side (c : Connection) : Prop := {
  ws_ok : write_ok c;
  ws_splice : splice_pending c = true → write_buf c ≠ [] ∧ write_offset c = zlen (write_buf c) }.

(** A request is read up to its length, and only lengths within the limit are accepted. *)
Definition read_ok (cfg : ReactorConfig) (c : Connection) : Prop :=
  if have_header c
  then 4 ≤ zlen (read_buf c) < 4 + expected_len c ∧ expected_len c ≤ max_message_bytes_ cfg
  else zlen (read_buf c) < 4.

(** No response between reactors is empty. *)
Definition queues_ok (sh : Shared) : Prop :=
  Forall (λ q, Forall (λ resp, fs_data resp ≠ []) (responses_ q)) (all_queues_ sh).

Lemma with_queue_inv i f sh sh' :
  with_queue i f sh = Ok sh' → ∃ q, all_queues_ sh !! Z.to_nat i = Some q ∧
    sh' = mkShared (sh_os sh) (sh_coordinator sh) (<[Z.to_nat i := f q]> (all_queues_ sh)).
Proof.
  intros (q & Hq & [= <-])%outcome_bind_Ok. exists q. split; [|done]. unfold vector_at in Hq.
  by destruct (all_queues_ sh !! Z.to_nat i); simplify_eq/=.
Qed.

Lemma with_queue_ok i f sh sh' :
  with_queue i f sh = Ok sh' → queues_ok sh →
  (∀ q, Forall (λ resp, fs_data resp ≠ []) (responses_ q) → Forall (λ resp, fs_data resp ≠ []) (responses_ (f q))) →
  queues_ok sh'.
Proof.
  intros (q & Hq & ->)%with_queue_inv Hok Hf. unfold queues_ok in *. cbn.
  apply Forall_insert; [done|]. apply Hf. rewrite Forall_lookup in Hok. by eapply Hok.
Qed.

Lemma wake_responses q : responses_ (wake q) = responses_ q.
Proof. unfold wake. by destruct (0 <=? wakeup_fd_ q). Qed.

(** The broker changes neither the connections nor the queues. *)
Lemma broker_handle_inv cfg io req w resp w' :
  broker_handle cfg io req w = Ok (resp, w') →
  connections_ w'.1 = connections_ w.1 ∧ socks w'.1 = socks w.1 ∧ epoll_ w'.1 = epoll_ w.1 ∧
  reactor_id_ w'.1 = reactor_id_ w.1 ∧ all_queues_ w'.2 = all_queues_ w.2.
Proof. destruct w as [r sh]. unfold broker_handle. intros ([p st] & _ & [= <- <-])%outcome_bind_Ok. done. Qed.

(** The descriptor a completion names: none for a write, whose user data is
    odd. *)
Definition completed_fd (cqe : Cqe) : option Z :=
  if (cqe_user_data cqe =? 0) || negb (Z.land (cqe_user_data cqe) 1 =? 0) then None
  else Some (wrap_int 32 (Z.shiftr (cqe_user_data cqe) 1)).

Lemma harvest_named cqe r :
  harvest_completion cqe r =
  match completed_fd cqe with
  | None => if cqe_res cqe <? 0 then count_error r else r
  | Some fd =>
      match connections_ r !! fd with
      | None => r
      | Some c =>
          advance_write_queue fd (set_connection fd (with_splice c (splice_fd c) (splice_len c) false)
            (if cqe_res cqe <? 0 then count_error r else count_sent (cqe_res cqe) r))
      end
  end.
Proof. unfold harvest_completion, completed_fd. destruct (_ =? 0); [done|]. by destruct (negb _). Qed.

Section invariant.
Context (cfg : ReactorConfig).

(** The reactor's own descriptors. *)
Definition own (fd : Z) : Prop := fd = server_fd_ cfg ∨ fd = rc_wakeup_fd_ cfg.

(** [base fd] are bytes the client has been promised, [busy] the descriptor
    whose request is being read. *)
Section slots.
Context (base : Z → bytes) (busy : option Z).

Record conn_ok (fd : Z) (c : Connection) (out : option bytes) : Prop := {
  co_write : write_side c;
  co_read : busy ≠ Some fd → read_ok cfg c;
  co_stream : ∀ o, out = Some o → base fd `prefix_of` o ++ pending c;
  co_own : ¬ own fd }.

(** An open connection has a socket and a registration; an entry without a
    socket is one that was created for a closed descriptor. *)
Definition slot_ok (fd : Z) (oc : option Connection) (os : option Sock) (oe : option bool) : Prop :=
  match oc, os, oe with
  | Some c, Some s, Some w =>
      w = bool_decide (write_buf c ≠ []) ∧ 0 ≤ s_room s ∧ conn_ok fd c (Some (s_out s))
  | Some c, None, None => conn_ok fd c None
  | None, None, None => True
  | None, None, Some _ => own fd
  | _, _, _ => False
  end.

Definition reactor_ok (r : WorkerReactor) : Prop :=
  ∀ fd, slot_ok fd (connections_ r !! fd) (socks r !! fd) (epoll_ r !! fd).
End slots.

Lemma slot_ok_busy base busy busy' fd oc os oe :
  (busy' ≠ Some fd → busy ≠ Some fd) → slot_ok base busy fd oc os oe → slot_ok base busy' fd oc os oe.
Proof.
  intros Hb. assert (∀ c o, conn_ok base busy fd c o → conn_ok base busy' fd c o) as Hc
    by (intros c o [Hw Hr Hs Ho]; split; auto).
  unfold slot_ok. destruct oc, os, oe; naive_solver.
Qed.

(** A handler changes one descriptor. *)
Lemma ok_at base busy busy' fd r r' :
  reactor_ok base busy r →
  (∀ fd', fd' ≠ fd → connections_ r' !! fd' = connections_ r !! fd' ∧ socks r' !! fd' = socks r !! fd' ∧
                      epoll_ r' !! fd' = epoll_ r !! fd') →
  (∀ fd', fd' ≠ fd → busy' ≠ Some fd' → busy ≠ Some fd') →
  slot_ok base busy' fd (connections_ r' !! fd) (socks r' !! fd) (epoll_ r' !! fd) →
  reactor_ok base busy' r'.
Proof.
  intros Hr Hsame Hb Hfd fd'. destruct (decide (fd' = fd)) as [->|Hne]; [done|].
  destruct (Hsame fd' Hne) as (-> & -> & ->). eapply slot_ok_busy; [by apply Hb|apply Hr].
Qed.

Section handlers.
Context (base : Z → bytes).
Notation ok := (reactor_ok base None).
Notation ok_during fd := (reactor_ok base (Some fd)).

Lemma ok_busy fd r : ok r → ok_during fd r.
Proof. intros Hr fd'. eapply slot_ok_busy; [|apply Hr]. done. Qed.

Lemma ok_close busy fd r : busy = None ∨ busy = Some fd → reactor_ok base busy r → ok (close_connection fd r).
Proof.
  intros Hb Hr. eapply (ok_at _ _ _ fd); [done|..].
  - intros fd' Hne. cbn. by rewrite !lookup_delete_ne by done.
  - naive_solver.
  - cbn. by rewrite !lookup_delete_eq.
Qed.

(** A connection replaced by one with as much to write. *)
Lemma ok_set busy busy' fd c r :
  (busy = None ∨ busy = Some fd) → reactor_ok base busy r → ¬ own fd →
  conn_ok base busy' fd c (s_out <$> socks r !! fd) →
  (write_buf c = [] ↔ write_buf (connection r fd) = []) →
  reactor_ok base busy' (set_connection fd c r).
Proof.
  intros Hb Hr Hown Hc Hbuf. eapply (ok_at _ _ _ fd); [done|..].
  - intros fd' Hne. cbn. by rewrite lookup_insert_ne by done.
  - naive_solver.
  - cbn. rewrite lookup_insert_eq. specialize (Hr fd). unfold connection in Hbuf.
    destruct (connections_ r !! fd) as [c0|], (socks r !! fd) as [s|], (epoll_ r !! fd) as [w|]; try done.
    cbn in *. destruct Hr as (-> & Hroom & _). split_and!; [|done|done].
    apply bool_decide_ext. by rewrite Hbuf.
Qed.

(** A connection replaced, with its registration. *)
Lemma ok_rewatch busy fd c r :
  (busy = None ∨ busy = Some fd) → reactor_ok base busy r → ¬ own fd → conn_ok base None fd c (s_out <$> socks r !! fd) →
  ok (watch fd (bool_decide (write_buf c ≠ [])) (set_connection fd c r)).
Proof.
  intros Hb Hr Hown Hc. eapply (ok_at _ _ _ fd); [done|..].
  - intros fd' Hne. cbn. by rewrite lookup_insert_ne, lookup_alter_ne by done.
  - naive_solver.
  - cbn. rewrite lookup_insert_eq, lookup_alter_eq. specialize (Hr fd).
    destruct (connections_ r !! fd) as [c0|], (socks r !! fd) as [s|], (epoll_ r !! fd) as [w|]; try done.
    cbn in *. by destruct Hr as (_ & Hroom & _).
Qed.

(** The socket of a connection replaced by one that has sent the same. *)
Lemma ok_sock busy fd s s' r :
  reactor_ok base busy r → socks r !! fd = Some s → s_out s' = s_out s → 0 ≤ s_room s' →
  reactor_ok base busy (with_socks (insert fd s') r).
Proof.
  intros Hr Hs Ho Hroom. eapply (ok_at _ _ _ fd); [done|..].
  - intros fd' Hne. cbn. by rewrite lookup_insert_ne by done.
  - done.
  - cbn. rewrite lookup_insert_eq. specialize (Hr fd). rewrite Hs in Hr.
    destruct (connections_ r !! fd) as [c0|], (epoll_ r !! fd) as [w|]; try done.
    cbn in *. rewrite Ho. naive_solver.
Qed.

Lemma new_connection_ok busy fd o : base fd = [] ∨ o = None → ¬ own fd → conn_ok base busy fd new_connection o.
Proof.
  intros Hb Hown. split; [| | |done].
  - split; [|done]. split; [done|done|constructor].
  - done.
  - intros o' ->. destruct Hb as [->|]; [apply prefix_nil|done].
Qed.

(** The entry of a descriptor, which [connections_[fd]] creates if need be. *)
Lemma ok_connection busy fd r :
  reactor_ok base busy r → ¬ own fd → conn_ok base busy fd (connection r fd) (s_out <$> socks r !! fd).
Proof.
  intros Hr Hown. specialize (Hr fd). unfold connection.
  destruct (connections_ r !! fd) as [c0|], (socks r !! fd) as [s|], (epoll_ r !! fd) as [w|]; try done; cbn in *;
    try apply Hr; (apply new_connection_ok; [by right|done]).
Qed.

Lemma ok_touch busy fd r :
  busy = None ∨ busy = Some fd → reactor_ok base busy r → ¬ own fd → reactor_ok base busy (set_connection fd (connection r fd) r).
Proof. intros Hb Hr Hown. eapply ok_set; [done|done|done|by apply ok_connection|done]. Qed.

(** A conn with only its read side changed. *)
Lemma conn_ok_read busy busy' fd c o buf len have :
  conn_ok base busy fd c o → (busy' ≠ Some fd → read_ok cfg (with_read c buf len have)) →
  conn_ok base busy' fd (with_read c buf len have) o.
Proof. intros [[[] ?] _ Hs ?] Hr. split; [by split|done..]. Qed.

(** A request has been read as far as it is there. *)
Lemma ok_pause fd r : ok_during fd r → ¬ own fd → read_ok cfg (connection r fd) → ok r.
Proof.
  intros Hr Hown Hread fd'. destruct (decide (fd' = fd)) as [->|Hne].
  - pose proof (Hr fd) as Hfd. unfold connection in Hread.
    destruct (connections_ r !! fd) as [c|], (socks r !! fd) as [s|], (epoll_ r !! fd) as [w|]; try done; cbn in *.
    + destruct Hfd as (Hw & Hroom & [? _ ? ?]). split_and!; [done|done|by split].
    + destruct Hfd as [? _ ? ?]. by split.
  - eapply slot_ok_busy; [|apply Hr]. naive_solver.
Qed.

Lemma ok_deliver fd d c r :
  ok_during fd r ∨ ok r → ¬ own fd → conn_ok base None fd c (s_out <$> socks r !! fd) →
  (write_buf c = [] ↔ write_buf (connection r fd) = []) → d ≠ [] → ok (deliver fd d c r).
Proof.
  intros Hr Hown [[Hw Hsp] Hread Hs _] Hbuf Hd. destruct (enqueue_ok d c Hw Hd) as (Hw' & Hp & Hne & _ & Hsp').
  assert (conn_ok base None fd (enqueue d c) (s_out <$> socks r !! fd)) as Hc.
  { split.
    - split; [done|]. rewrite Hsp'. intros [E ?]%Hsp. unfold enqueue. rewrite idle_spec by done.
      by rewrite bool_decide_false.
    - intros _. specialize (Hread ltac:(done)). unfold enqueue. by destruct (idle c).
    - intros o Ho. rewrite Hp, app_assoc. by apply prefix_app_r, Hs.
    - done. }
  unfold deliver. rewrite idle_spec by done. destruct (decide (write_buf c = [])) as [Hb|Hb];
    [rewrite bool_decide_true by done|rewrite bool_decide_false by done].
  - rewrite <-(bool_decide_true (write_buf (enqueue d c) ≠ [])) at 1 by done.
    destruct Hr as [Hr|Hr]; (eapply ok_rewatch; [|exact Hr|done|done]); auto.
  - destruct Hr as [Hr|Hr]; (eapply ok_set; [|exact Hr|done|done|]); auto; rewrite <-Hbuf; by split.
Qed.

(** ** Reading *)

(** What a part of [handle_read] leaves: the write side of the connection is as
    it was, or the connection is closed. *)
Definition same_write (c c' : Connection) : Prop := ∃ buf len have, c' = with_read c buf len have.

Lemma fill_ok io fd total r :
  ok_during fd r → ¬ own fd → is_Some (connections_ r !! fd) → 0 ≤ total - zlen (read_buf (connection r fd)) →
  match fill io fd total r with
  | (None, r') => ok_during fd r' ∧ connections_ r' = connections_ r
  | (Some n, r') => ok_during fd r' ∧ ∃ d, zlen d = n ∧ zlen (read_buf (connection r fd) ++ d) ≤ total ∧
      connections_ r' !! fd = Some (with_read (connection r fd) (read_buf (connection r fd) ++ d)
                                      (expected_len (connection r fd)) (have_header (connection r fd)))
  end.
Proof.
  intros Hr Hown Hc Hw. unfold fill. destruct (socks r !! fd) as [s|] eqn:Hs; [|done].
  rewrite recv_all_ok by done. pose proof (Hr fd) as Hfd. rewrite Hs in Hfd.
  destruct (connections_ r !! fd) as [c|] eqn:Ec; [|by destruct Hc].
  destruct (epoll_ r !! fd) as [w|] eqn:Ee; [|done]. destruct Hfd as (_ & Hroom & _).
  unfold recv_spec. destruct (_ && _).
  - split; [|done]. by eapply ok_sock.
  - set (d := ztake _ (s_in s)). split.
    + eapply ok_set; [by right|by eapply ok_sock|done| |done]. cbn. rewrite lookup_insert_eq. cbn.
      apply (conn_ok_read (Some fd)); [|done]. pose proof (ok_connection (Some fd) fd r Hr Hown) as H. by rewrite Hs in H.
    + exists d. split_and!; [done| |cbn; by rewrite lookup_insert_eq]. rewrite zlen_app.
      assert (zlen d ≤ total - zlen (read_buf (connection r fd))); [|lia].
      unfold zlen in Hw. unfold d, ztake, zlen. rewrite length_take. lia.
Qed.

Lemma received_ok io fd total r :
  ok_during fd r → ¬ own fd → is_Some (connections_ r !! fd) → zlen (read_buf (connection r fd)) < total →
  match received fd total (fill io fd total r) with
  | Stop r' => (ok r' ∧ connections_ r' !! fd = None) ∨
      (ok_during fd r' ∧ ∃ buf, zlen (read_buf (connection r fd)) ≤ zlen buf < total ∧
         connections_ r' !! fd = Some (with_read (connection r fd) buf (expected_len (connection r fd)) (have_header (connection r fd))))
  | Continue r' => ok_during fd r' ∧ ∃ buf, zlen buf = total ∧
      connections_ r' !! fd = Some (with_read (connection r fd) buf (expected_len (connection r fd)) (have_header (connection r fd)))
  end.
Proof.
  intros Hr Hown Hc Hlt. pose proof (fill_ok io fd total r Hr Hown Hc ltac:(lia)) as Hf.
  destruct (fill io fd total r) as [[n|] r']; cbn.
  - destruct Hf as (Hr' & d & Hn & Hle & Hc').
    destruct (Z.eqb_spec n 0).
    { left. split; [eapply ok_close; [by right|done]|]. cbn. apply lookup_delete_eq. }
    assert (connection r' fd = with_read (connection r fd) (read_buf (connection r fd) ++ d)
              (expected_len (connection r fd)) (have_header (connection r fd))) as E by (unfold connection at 1; by rewrite Hc').
    rewrite E. cbn [read_buf with_read].
    destruct (Z.ltb_spec (zlen (read_buf (connection r fd) ++ d)) total); [right|].
    + split; [done|]. eexists. split; [|done]. rewrite zlen_app in *. pose proof (zlen_nonneg d). lia.
    + split; [done|]. eexists. split; [|done]. lia.
  - right. destruct Hf as [Hr' Hc']. split; [done|]. exists (read_buf (connection r fd)). split; [lia|].
    rewrite Hc'. unfold connection. destruct Hc as [c ->]. by destruct c.
Qed.

Lemma connection_some r fd c : connections_ r !! fd = Some c → connection r fd = c.
Proof. intros E. unfold connection. by rewrite E. Qed.

Lemma read_header_ok io fd r :
  ok r → ¬ own fd → is_Some (connections_ r !! fd) →
  match read_header cfg io fd r with
  | Stop r' => ok r' ∧ (connections_ r' !! fd = None ∨ ∃ c', connections_ r' !! fd = Some c' ∧ same_write (connection r fd) c')
  | Continue r' => ok_during fd r' ∧ ∃ c', connections_ r' !! fd = Some c' ∧ same_write (connection r fd) c' ∧
      have_header c' = true ∧ 4 ≤ zlen (read_buf c') ≤ 4 + expected_len c' ∧ expected_len c' ≤ max_message_bytes_ cfg
  end.
Proof.
  intros Hr Hown Hc. pose proof (co_read _ _ _ _ _ (ok_connection None fd r Hr Hown) ltac:(done)) as Hread.
  unfold read_header, read_ok in *. destruct (have_header (connection r fd)) eqn:Hh.
  { split; [by apply ok_busy|]. destruct Hc as [c Ec]. exists c. rewrite (connection_some _ _ _ Ec) in *.
    split_and!; [done| |done|lia..]. exists (read_buf c), (expected_len c), (have_header c). by destruct c. }
  destruct (Z.ltb_spec (zlen (read_buf (connection r fd))) 4) as [_|]; [|lia].
  pose proof (received_ok io fd 4 r (ok_busy fd r Hr) Hown Hc Hread) as Hrec.
  destruct (received _ _ _) as [r'|r'].
  - destruct Hrec as (Hr' & buf & Hlen & Hc'). rewrite (connection_some _ _ _ Hc'). cbn [read_buf with_read].
    assert (∀ len have, conn_ok base (Some fd) fd (with_read (connection r' fd) buf len have) (s_out <$> socks r' !! fd)) as Hok.
    { intros len have. eapply conn_ok_read; [by apply ok_connection|done]. }
    rewrite (connection_some _ _ _ Hc') in Hok.
    set (len := wrap_uint 64 _). assert (0 ≤ len) by (unfold len, wrap_uint; apply Z.mod_pos_bound; lia).
    destruct (Z.gtb_spec len (max_message_bytes_ cfg)).
    + split; [|left; cbn; apply lookup_delete_eq]. eapply (ok_close (Some fd)); [by right|].
      apply (ok_set (Some fd) (Some fd)); [by right|done|done|apply Hok|]. by rewrite (connection_some _ _ _ Hc').
    + split.
      * apply (ok_set (Some fd)); [by right|done|done|apply Hok|]. by rewrite (connection_some _ _ _ Hc').
      * eexists. split; [cbn; apply lookup_insert_eq|]. cbn. split_and!; [|done|lia..]. by eexists _, _, _.
  - destruct Hrec as [[Hr' Hn]|(Hr' & buf & Hlen & Hc')]; [by eauto|].
    split.
    + apply (ok_pause fd); [done|done|]. rewrite (connection_some _ _ _ Hc'). unfold read_ok. cbn. rewrite Hh. lia.
    + right. eexists. split; [done|]. by eexists _, _, _.
Qed.

Lemma same_write_trans c c' c'' : same_write c c' → same_write c' c'' → same_write c c''.
Proof. intros (? & ? & ? & ->) (? & ? & ? & ->). by eexists _, _, _. Qed.

Lemma read_body_ok io fd r c :
  ok_during fd r → ¬ own fd → connections_ r !! fd = Some c → have_header c = true →
  4 ≤ zlen (read_buf c) ≤ 4 + expected_len c → expected_len c ≤ max_message_bytes_ cfg →
  match read_body io fd r with
  | Stop r' => ok r' ∧ (connections_ r' !! fd = None ∨ ∃ c', connections_ r' !! fd = Some c' ∧ same_write c c')
  | Continue r' => ok_during fd r' ∧ ∃ c', connections_ r' !! fd = Some c' ∧ same_write c c'
  end.
Proof.
  intros Hr Hown Hc Hh Hlen Hmax. unfold read_body. rewrite (connection_some _ _ _ Hc).
  destruct (Z.ltb_spec (zlen (read_buf c)) (4 + expected_len c)) as [Hlt|Hge].
  2:{ split; [done|]. exists c. split; [done|]. exists (read_buf c), (expected_len c), (have_header c). by destruct c. }
  pose proof (received_ok io fd (4 + expected_len c) r Hr Hown ltac:(by eexists)) as Hrec.
  rewrite (connection_some _ _ _ Hc) in Hrec. specialize (Hrec Hlt).
  destruct (received _ _ _) as [r'|r'].
  - destruct Hrec as (Hr' & buf & _ & Hc'). split; [done|]. eexists. split; [done|]. by eexists _, _, _.
  - destruct Hrec as [[Hr' Hn]|(Hr' & buf & Hl & Hc')]; [by eauto|]. split.
    + apply (ok_pause fd); [done|done|]. rewrite (connection_some _ _ _ Hc'). unfold read_ok. cbn. rewrite Hh. lia.
    + right. eexists. split; [done|]. by eexists _, _, _.
Qed.

Lemma ok_same busy r r' :
  connections_ r' = connections_ r → socks r' = socks r → epoll_ r' = epoll_ r →
  reactor_ok base busy r → reactor_ok base busy r'.
Proof. intros Hc Hs He Hr fd. rewrite Hc, Hs, He. apply Hr. Qed.

(** Nothing is left to write on a connection only if it is closed. *)
Definition armed (fd : Z) (r : WorkerReactor) : Prop := ∀ c, connections_ r !! fd = Some c → write_buf c ≠ [].

Lemma conn_ok_clear busy fd c o :
  conn_ok base busy fd c o → conn_ok base None fd (with_read c [] (expected_len c) false) o.
Proof. intros Hc. by eapply conn_ok_read. Qed.

Lemma conn_ok_splice busy fd c o f n : conn_ok base busy fd c o → conn_ok base busy fd (with_splice c f n (splice_pending c)) o.
Proof. intros [[[] ?] ? ? ?]. split; [by split|done..]. Qed.

Lemma conn_ok_pool busy fd c o p : conn_ok base busy fd c o → conn_ok base busy fd (with_pool c p) o.
Proof. intros [[[] ?] ? ? ?]. split; [by split|done..]. Qed.

Lemma deliver_armed fd d c r : write_ok c → d ≠ [] → armed fd (deliver fd d c r).
Proof.
  intros Hok Hd c'. destruct (enqueue_ok d c Hok Hd) as (_ & _ & Hne & _).
  unfold deliver. destruct (idle c); cbn; rewrite lookup_insert_eq; by intros [= <-].
Qed.

Lemma close_armed fd r : armed fd (close_connection fd r).
Proof. intros c. cbn. by rewrite lookup_delete_eq. Qed.

Lemma serve_local_ok io fd req r sh w' :
  ok_during fd r → ¬ own fd → queues_ok sh → serve_local cfg io fd req (r, sh) = Ok w' →
  ok w'.1 ∧ queues_ok w'.2 ∧ armed fd w'.1.
Proof.
  intros Hr Hown Hq ([resp [r1 sh1]] & Hb & H)%outcome_bind_Ok.
  apply broker_handle_inv in Hb as (Hc1 & Hs1 & He1 & _ & Hq1). cbn [fst snd] in *.
  assert (ok_during fd r1) as Hr1 by (by eapply ok_same).
  assert (queues_ok sh1) as Hsh by (unfold queues_ok; by rewrite Hq1).
  apply outcome_bind_Ok in H as (data & Hser & H). apply serialize_nonempty in Hser.
  pose proof (ok_connection _ fd r1 Hr1 Hown) as Hc. set (c := connection r1 fd) in *.
  destruct (splice_of _ _) as [sfd slen]. destruct (zlen data >? _).
  - injection H as <-. split; [|split; [done|apply close_armed]]. apply (ok_close (Some fd)); [by right|].
    eapply (ok_same _ (set_connection fd (with_splice (with_pool c data) sfd slen (splice_pending c)) r1)); [done..|].
    eapply ok_set; [by right|done|done| |done].
    by apply (conn_ok_splice (Some fd) fd (with_pool c data)), conn_ok_pool.
  - injection H as <-. set (c' := with_read _ [] _ false).
    assert (conn_ok base None fd c' (s_out <$> socks r1 !! fd)) as Hc'.
    { apply (conn_ok_clear (Some fd) fd (with_pool (with_splice (with_pool c data) sfd slen (splice_pending c)) [])).
      by apply conn_ok_pool, (conn_ok_splice (Some fd) fd (with_pool c data)), conn_ok_pool. }
    split; [|split; [done|by apply deliver_armed; [apply Hc'|]]].
    apply ok_deliver; [left; by eapply ok_same|done|done|done|done].
Qed.

Lemma forward_ok fd target req r sh w' :
  ok_during fd r → ¬ own fd → queues_ok sh → forward fd target req (r, sh) = Ok w' →
  ok w'.1 ∧ queues_ok w'.2 ∧ write_buf (connection w'.1 fd) = write_buf (connection r fd) ∧ is_Some (connections_ w'.1 !! fd).
Proof.
  intros Hr Hown Hq (sh1 & Hw & [= <-])%outcome_bind_Ok. split_and!; cbn.
  - eapply ok_set; [by right|by eapply (ok_same _ r)|done| |done]. eapply conn_ok_clear. by apply (ok_connection (Some fd) fd r).
  - eapply with_queue_ok; [done|done|]. intros q. unfold push_request. by rewrite wake_responses.
  - unfold connection. cbn. by rewrite lookup_insert_eq.
  - rewrite lookup_insert_eq. by eexists.
Qed.

Lemma serve_frame_ok hash io fd r sh c w' :
  ok_during fd r → ¬ own fd → queues_ok sh → connections_ r !! fd = Some c →
  serve_frame hash cfg io fd (r, sh) = Ok w' →
  ok w'.1 ∧ queues_ok w'.2 ∧ (write_buf c ≠ [] → armed fd w'.1).
Proof.
  intros Hr Hown Hq Hc. unfold serve_frame. destruct (parse_request _) as [req| |]; [|intros [= <-]|done].
  2:{ split_and!; [|done|intros _; apply close_armed]. apply (ok_close (Some fd)); [by right|]. by eapply (ok_same _ r). }
  assert (∀ w', serve_local cfg io fd req (r, sh) = Ok w' →
    ok w'.1 ∧ queues_ok w'.2 ∧ (write_buf c ≠ [] → armed fd w'.1)) as Hl.
  { intros w'' Hw. destruct (serve_local_ok io fd req r sh w'' Hr Hown Hq Hw) as (? & ? & ?). by split_and!. }
  intros (key & _ & H)%outcome_bind_Ok. destruct key as [k|]; [|by apply Hl].
  apply outcome_bind_Ok in H as (target & _ & H). destruct (target =? _); [by apply Hl|].
  destruct (forward_ok fd target req r sh w' Hr Hown Hq H) as (Hr' & Hq' & Hb & [c' Hc']).
  rewrite (connection_some _ _ _ Hc), (connection_some _ _ _ Hc') in Hb. split_and!; [done|done|].
  intros Hne c'' E. naive_solver congruence.
Qed.

Lemma handle_read_ok hash io fd r sh w' :
  ok r → ¬ own fd → queues_ok sh → handle_read hash cfg io fd (r, sh) = Ok w' →
  ok w'.1 ∧ queues_ok w'.2 ∧ (write_buf (connection r fd) ≠ [] → armed fd w'.1).
Proof.
  intros Hr Hown Hq. unfold handle_read.
  pose proof (ok_touch None fd r ltac:(by left) Hr Hown) as Hr0.
  set (r0 := set_connection fd (connection r fd) r) in *.
  assert (connections_ r0 !! fd = Some (connection r fd)) as Hc0 by apply lookup_insert_eq.
  pose proof (read_header_ok io fd r0 Hr0 Hown ltac:(by eexists)) as Hh. rewrite (connection_some _ _ _ Hc0) in Hh.
  destruct (read_header cfg io fd r0) as [r1|r1].
  2:{ intros [= <-]. destruct Hh as [Hr1 Hc1]. split_and!; [done|done|]. intros Hne c Hc. cbn [fst] in Hc.
      destruct Hc1 as [|(c' & Hc' & ? & ? & ? & ->)]; [congruence|]. rewrite Hc' in Hc. by injection Hc as <-. }
  destruct Hh as (Hr1 & c1 & Hc1 & (? & ? & ? & E1) & Hhd & Hlen & Hmax).
  pose proof (read_body_ok io fd r1 c1 Hr1 Hown Hc1 Hhd Hlen Hmax) as Hb.
  destruct (read_body io fd r1) as [r2|r2].
  - destruct Hb as (Hr2 & c2 & Hc2 & ? & ? & ? & ->). intros Hs.
    destruct (serve_frame_ok hash io fd r2 sh _ w' Hr2 Hown Hq Hc2 Hs) as (? & ? & Ha). split_and!; [done|done|].
    intros Hne. apply Ha. by rewrite E1.
  - intros [= <-]. destruct Hb as [Hr2 Hc2]. split_and!; [done|done|]. intros Hne c Hc. cbn [fst] in Hc.
    destruct Hc2 as [|(c' & Hc' & ? & ? & ? & ->)]; [congruence|]. rewrite Hc' in Hc. injection Hc as <-. by rewrite E1.
Qed.

(** ** Writing *)

(** The write buffer is replaced by the next one, whether or not it has been
    sent; the bytes promised are kept when it has. *)
Lemma advanced_conn fd c o :
  conn_ok base None fd c o → base fd = [] ∨ write_offset c = zlen (write_buf c) → splice_pending c = false →
  conn_ok base None fd (advanced c) o.
Proof.
  intros [[Hw _] Hread Hs Hown] Hend Hsp. split; [split| | |done].
  - destruct Hw as [Ho Hq Hi]. unfold advanced. destruct (write_queue_ c) as [|d ds]; [by split|].
    inversion_clear Hi. pose proof (zlen_nonneg d). by split; cbn.
  - unfold advanced. by destruct (write_queue_ c); cbn; rewrite Hsp.
  - intros Hb. specialize (Hread Hb). unfold advanced. by destruct (write_queue_ c).
  - intros o' Ho. destruct Hend as [->|Hend]; [apply prefix_nil|].
    destruct (advanced_ok c Hw Hend) as (_ & -> & _). by apply Hs.
Qed.

Lemma advance_ok fd c r :
  ok r → connections_ r !! fd = Some c → base fd = [] ∨ write_offset c = zlen (write_buf c) → splice_pending c = false →
  ok (advance_write_queue fd r).
Proof.
  intros Hr Hc Hend Hsp.
  assert (conn_ok base None fd c (s_out <$> socks r !! fd)) as Hok.
  { specialize (Hr fd). rewrite Hc in Hr. destruct (socks r !! fd), (epoll_ r !! fd); try done. apply Hr. }
  pose proof (co_own _ _ _ _ _ Hok) as Hown. pose proof (advanced_conn _ _ _ Hok Hend Hsp) as Hok'.
  unfold advance_write_queue. rewrite (connection_some _ _ _ Hc). unfold advanced in Hok'.
  destruct (ws_ok _ (co_write _ _ _ _ _ Hok)) as [Ho Hq Hi].
  destruct (write_queue_ c) as [|d ds].
  - apply (ok_rewatch None fd (with_write c [] 0 []) r); [by left|done..].
  - eapply ok_set; [by left|done|done|done|]. rewrite (connection_some _ _ _ Hc). cbn. inversion_clear Hi.
    split; [done|]. intros E. by specialize (Hq E).
Qed.

Lemma conn_ok_sent fd c o n :
  conn_ok base None fd c (Some o) → 0 ≤ n ≤ zlen (write_buf c) - write_offset c →
  conn_ok base None fd (sent n c) (Some (o ++ ztake n (zdrop (write_offset c) (write_buf c)))).
Proof.
  intros [[Hw Hsp] Hread Hs Hown] Hn. destruct (sent_ok n c Hw Hn) as (Hw' & Hp & _ & _). split; [| | |done].
  - split; [done|]. intros [E ?]%Hsp. split; [done|]. cbn. lia.
  - done.
  - intros o' [= <-]. rewrite <-app_assoc, Hp. by apply Hs.
Qed.

(** Sending changes the socket and the connection together. *)
Lemma ok_sent fd c s n r :
  ok r → connections_ r !! fd = Some c → socks r !! fd = Some s →
  0 ≤ n ≤ zlen (write_buf c) - write_offset c → n ≤ s_room s →
  ok (set_connection fd (sent n c)
       (with_socks (insert fd (with_out s (s_out s ++ ztake n (zdrop (write_offset c) (write_buf c))) (s_room s - n))) r)).
Proof.
  intros Hr Hc Hs Hn Hroom. eapply (ok_at _ _ None fd); [done|..].
  - intros fd' Hne. cbn. by rewrite !lookup_insert_ne by done.
  - done.
  - cbn. rewrite !lookup_insert_eq. pose proof (Hr fd) as Hfd. rewrite Hc, Hs in Hfd.
    destruct (epoll_ r !! fd) as [w|]; [|done]. destruct Hfd as (-> & _ & Hfd). cbn.
    split_and!; [done|lia|]. by apply conn_ok_sent.
Qed.

(** What follows a successful send. *)
Lemma after_send_ok io fd c r :
  ok r → ¬ own fd → connections_ r !! fd = Some c → (write_buf c ≠ [] ∨ splice_fd c < 0) →
  write_offset c = zlen (write_buf c) →
  ok (match submit_splice io fd r with
      | Some r' => r'
      | None => if splice_pending c then r else advance_write_queue fd r
      end).
Proof.
  intros Hr Hown Hc Ha Hend. unfold submit_splice. rewrite (connection_some _ _ _ Hc).
  destruct (Z.leb_spec 0 (splice_fd c)) as [Hf|Hf]; cbn [andb].
  2:{ destruct (splice_pending c) eqn:E; [done|]. eapply advance_ok; [done|done|by right|done]. }
  destruct (splice_pending c) eqn:E; cbn [andb negb]; [done|].
  destruct (io_sqe io); [|eapply advance_ok; [done|done|by right|done]].
  eapply ok_set; [by left|by eapply (ok_same _ r)|done| |unfold connection; cbn; by rewrite Hc].
  pose proof (ok_connection None fd r Hr Hown) as Hok. rewrite (connection_some _ _ _ Hc) in Hok.
  destruct Hok as [[Hw _] Hread Hs _]. split; [|done..].
  split; [by destruct Hw; split|]. intros _. cbn. split; [by destruct Ha; [|lia]|done].
Qed.

Lemma handle_write_ok io fd r :
  ok r → ¬ own fd → armed fd r → ∃ r', handle_write io fd r = Ok r' ∧ ok r'.
Proof.
  intros Hr Hown Ha. unfold handle_write. pose proof (ok_touch None fd r ltac:(by left) Hr Hown) as Hr0.
  set (c := connection r fd) in *. set (r0 := set_connection fd c r) in *.
  assert (connections_ r0 !! fd = Some c) as Hc0 by apply lookup_insert_eq.
  rewrite (connection_some _ _ _ Hc0).
  assert (write_buf c ≠ [] ∨ splice_fd c < 0) as Ha'.
  { unfold armed, c, connection in *. destruct (connections_ r !! fd); [left; by apply Ha|by right]. }
  pose proof (ok_connection None fd r0 Hr0 Hown) as Hok. rewrite (connection_some _ _ _ Hc0) in Hok.
  pose proof (wo_offset _ (ws_ok _ (co_write _ _ _ _ _ Hok))) as Ho.
  destruct (Z.gtb_spec (write_offset c) (zlen (write_buf c))); [lia|].
  assert (∀ n r1, ok r1 → connections_ r1 !! fd = Some (sent n c) →
    write_offset (sent n c) ≤ zlen (write_buf (sent n c)) →
    ∃ r', (if write_offset (sent n c) >=? zlen (write_buf (sent n c)) then
             match submit_splice io fd r1 with
             | Some r => mret r
             | None => mret (if splice_pending (sent n c) then r1 else advance_write_queue fd r1)
             end
           else mret r1) = Ok r' ∧ ok r') as Hafter.
  { intros n r1 Hr1 Hc1 Hle. destruct (Z.geb_spec (write_offset (sent n c)) (zlen (write_buf (sent n c)))) as [Hge|]; [|by eexists].
    pose proof (after_send_ok io fd (sent n c) r1 Hr1 Hown Hc1 Ha' ltac:(lia)) as Hok1.
    destruct (submit_splice io fd r1); by eexists. }
  unfold send_fd. destruct (socks r0 !! fd) as [s|] eqn:Hs.
  - pose proof (Hr0 fd) as Hfd. rewrite Hc0, Hs in Hfd. destruct (epoll_ r0 !! fd) as [w|]; [|done].
    destruct Hfd as (_ & Hroom & _). rewrite send_all_ok by done. unfold send_spec. rewrite zlen_zdrop by lia.
    destruct (_ && _).
    + eexists. split; [done|]. apply (ok_close None); [by left|]. by eapply (ok_same _ _); [..|apply (ok_sock None fd s s r0)].
    + cbn zeta. set (n := Z.min _ _). fold (sent n c). apply Hafter.
      * eapply (ok_same _ _); [done..|]. apply ok_sent; [done|done|done|lia|lia].
      * cbn. apply lookup_insert_eq.
      * cbn. lia.
  - destruct (zdrop (write_offset c) (write_buf c)) eqn:Ed.
    + fold (sent 0 c). apply Hafter; [|cbn; apply lookup_insert_eq|cbn; lia].
      eapply (ok_same _ (set_connection fd (sent 0 c) r0)); [done..|].
      eapply ok_set; [by left|done|done| |by rewrite (connection_some _ _ _ Hc0)]. rewrite Hs.
      destruct Hok as [[Hw Hsp] Hread _ _]. split; [|done..].
      destruct (sent_ok 0 c Hw ltac:(lia)) as (Hw' & _). split; [done|]. intros [? ?]%Hsp. cbn. split; [done|lia].
    + eexists. split; [done|]. apply (ok_close None); [by left|]. by eapply (ok_same _ r0).
Qed.

(** ** The other handlers *)

Lemma handle_accept_ok a r :
  ok r →
  (∀ fd fl add s, a = Client fd fl add s → ¬ own fd ∧ base fd = [] ∧ 0 ≤ s_room s) →
  ok (handle_accept a r).
Proof.
  intros Hr Ha. destruct a as [|fd fl add s]; [done|]. destruct (Ha fd fl add s eq_refl) as (Hown & Hb & Hroom).
  cbn. destruct fl; [|done]. destruct add; [|done]. cbn. eapply (ok_at _ _ _ fd); [done|..].
  - intros fd' Hne. cbn. by rewrite !lookup_insert_ne by done.
  - done.
  - cbn. rewrite !lookup_insert_eq. cbn. split_and!; [done|done|]. apply new_connection_ok; [by left|done].
Qed.

Lemma ok_not_own fd c r : ok r → connections_ r !! fd = Some c → ¬ own fd.
Proof.
  intros Hr Hc. specialize (Hr fd). rewrite Hc in Hr. destruct (socks r !! fd), (epoll_ r !! fd); try done.
  - apply Hr.
  - by destruct Hr.
Qed.

Lemma accept_response_ok resp r : ok r → fs_data resp ≠ [] → ok (accept_response resp r).
Proof.
  intros Hr Hd. unfold accept_response. destruct (connections_ r !! fs_client_fd resp) as [c|] eqn:Hc; [|done].
  pose proof (ok_not_own _ _ _ Hr Hc) as Hown.
  pose proof (ok_connection None _ r Hr Hown) as Hok. rewrite (connection_some _ _ _ Hc) in Hok.
  apply ok_deliver; [by right|done| | |done]; rewrite ?(connection_some _ _ _ Hc); destruct (0 <=? _); try done.
  by apply conn_ok_splice.
Qed.

(** A completion that keeps the bytes promised: the connection it names, if
    any, waits for it or has not been promised anything. *)
Definition keeps_promise (cqe : Cqe) (r : WorkerReactor) : Prop :=
  ∀ fd c, completed_fd cqe = Some fd → connections_ r !! fd = Some c → base fd = [] ∨ splice_pending c = true.

Lemma harvest_completion_ok cqe r : ok r → keeps_promise cqe r → ok (harvest_completion cqe r).
Proof.
  intros Hr Hg. rewrite harvest_named. destruct (completed_fd cqe) as [fd|] eqn:Ef.
  2:{ by destruct (_ <? 0); [eapply (ok_same _ r)|]. }
  destruct (connections_ r !! fd) as [c|] eqn:Hc; [|done].
  pose proof (ok_connection None fd r Hr (ok_not_own _ _ _ Hr Hc)) as Hok. rewrite (connection_some _ _ _ Hc) in Hok.
  destruct Hok as [[Hw Hsp] Hread Hs Hown]. set (r1 := if _ <? 0 then _ else _).
  assert (ok r1 ∧ connections_ r1 = connections_ r ∧ socks r1 = socks r) as (Hr1 & Hc1 & Hs1).
  { unfold r1. by destruct (_ <? 0); (split_and!; [by eapply (ok_same _ r)|done|done]). }
  eapply advance_ok; [|cbn; apply lookup_insert_eq| |done].
  - eapply ok_set; [by left|done|done| |unfold connection; by rewrite Hc1, Hc].
    rewrite Hs1. split; [|done..]. split; [by destruct Hw; split|done].
  - destruct (Hg fd c Ef Hc) as [?|[_ ?]%Hsp]; [by left|by right].
Qed.
End handlers.
End invariant.

(** ** Steps *)

(** What the kernel promises of an event: a new client has a descriptor that is
    not in use, and [EPOLLOUT] is only reported where it is wanted. *)
Definition event_ok (cfg : ReactorConfig) (e : Event) (r : WorkerReactor) : Prop :=
  (∀ fd fl add s, ev_accept e = Client fd fl add s →
     ¬ own cfg fd ∧ socks r !! fd = None ∧ s_out s = [] ∧ 0 ≤ s_room s) ∧
  (ev_out e = true → epoll_ r !! ev_fd e = Some true).

(** A step of the reactor's loop, of the kernel on its sockets and its ring, or
    of the other reactors. *)
Inductive reactor_step (hash : bytes → Z) (cfg : ReactorConfig) : World → World → Prop :=
| step_event e w w' :
    event_ok cfg e w.1 → handle_event hash cfg e w = Ok w' → reactor_step hash cfg w w'
| step_request io w w' :
    drain_request cfg io w = Ok (Some w') → reactor_step hash cfg w w'
| step_response w w' :
    drain_response w = Ok (Some w') → reactor_step hash cfg w w'
| step_harvest cqe cqes r sh :
    cqes_ r = cqe :: cqes →
    reactor_step hash cfg (r, sh) (harvest_completion cqe (with_ring (splices_ r) cqes r), sh)
| step_kernel fd s s' r sh :
    socks r !! fd = Some s → s_out s' = s_out s → 0 ≤ s_room s' →
    reactor_step hash cfg (r, sh) (with_socks (insert fd s') r, sh)
| step_complete cqe r sh :
    reactor_step hash cfg (r, sh) (with_ring (splices_ r) (cqes_ r ++ [cqe]) r, sh)
| step_others r sh sh' :
    queues_ok sh' → reactor_step hash cfg (r, sh) (r, sh').

(** What a client has been sent and will be sent, as far as it is known. *)
Definition stream (r : WorkerReactor) (fd : Z) : bytes :=
  match socks r !! fd, connections_ r !! fd with
  | Some s, Some c => s_out s ++ pending c
  | _, _ => []
  end.

Lemma handle_event_ok base hash cfg e r sh w' :
  reactor_ok cfg base None r → queues_ok sh → event_ok cfg e r → (∀ fd, socks r !! fd = None → base fd = []) →
  handle_event hash cfg e (r, sh) = Ok w' → reactor_ok cfg base None w'.1 ∧ queues_ok w'.2.
Proof.
  intros Hr Hq [Hacc Hout] Hbase. unfold handle_event.
  destruct (Z.eqb_spec (ev_fd e) (server_fd_ cfg)) as [|Hserver].
  { intros [= <-]. split; [|done]. apply handle_accept_ok; [done|]. naive_solver. }
  destruct (Z.eqb_spec (ev_fd e) (rc_wakeup_fd_ cfg)) as [|Hwake].
  { intros (sh' & Hw & [= <-])%outcome_bind_Ok. split; [done|]. by eapply with_queue_ok. }
  assert (¬ own cfg (ev_fd e)) as Hown by (by intros []).
  destruct (ev_error e).
  { intros [= <-]. split; [|done]. apply (ok_close _ _ None); [by left|]. by eapply (ok_same _ _ _ r). }
  intros ([r1 sh1] & Hrd & H)%outcome_bind_Ok. apply outcome_bind_Ok in H as (r2 & Hwr & [= <-]). cbn [fst snd].
  assert (reactor_ok cfg base None r1 ∧ queues_ok sh1 ∧ (ev_out e = true → armed (ev_fd e) r1)) as (Hr1 & Hq1 & Ha1).
  { assert (ev_out e = true → ∃ c, connections_ r !! ev_fd e = Some c ∧ write_buf c ≠ []) as Hne.
    { intros Ho%Hout. pose proof (Hr (ev_fd e)) as Hfd. rewrite Ho in Hfd.
      destruct (connections_ r !! ev_fd e) as [c|], (socks r !! ev_fd e) as [s|]; try done.
      exists c. split; [done|]. destruct Hfd as (E & _). symmetry in E. by apply bool_decide_eq_true in E. }
    destruct (ev_in e).
    - destruct (handle_read_ok cfg base hash (ev_read_io e) (ev_fd e) r sh (r1, sh1) Hr Hown Hq Hrd) as (? & ? & Ha).
      split_and!; [done|done|]. intros (c & Hc & Hb)%Hne. apply Ha. by rewrite (connection_some _ _ _ Hc).
    - injection Hrd as <- <-. split_and!; [done|done|]. intros (c & Hc & Hb)%Hne c' Hc'. congruence. }
  split; [|done]. destruct (ev_out e); [|by injection Hwr as <-].
  destruct (handle_write_ok cfg base (ev_write_io e) (ev_fd e) r1 Hr1 Hown ltac:(by apply Ha1)) as (r' & E & Hr').
  rewrite E in Hwr. by injection Hwr as <-.
Qed.

Lemma drain_request_ok cfg base io r sh w' :
  reactor_ok cfg base None r → queues_ok sh → drain_request cfg io (r, sh) = Ok (Some w') →
  reactor_ok cfg base None w'.1 ∧ queues_ok w'.2.
Proof.
  intros Hr Hq (q & Hat & H)%outcome_bind_Ok. destruct (try_pop_request q) as [[fwd|] q'] eqn:Ep; [|done].
  apply outcome_bind_Ok in H as (sh1 & Hw1 & H). apply outcome_bind_Ok in H as ([resp [r1 sh2]] & Hb & H).
  apply broker_handle_inv in Hb as (Hc1 & Hs1 & He1 & _ & Hq1). cbn [fst snd] in *.
  apply outcome_bind_Ok in H as (data & Hser & H). apply serialize_nonempty in Hser.
  destruct (splice_of resp (-1, 0)) as [sfd slen].
  apply outcome_bind_Ok in H as (sh3 & Hw3 & [= <-]). cbn [fst snd].
  split; [by eapply ok_same|].
  assert (queues_ok sh1) as Hsh1.
  { eapply with_queue_ok; [done|done|]. intros q0 Hq0. unfold try_pop_request. by destruct (requests_ q0). }
  eapply with_queue_ok; [done|unfold queues_ok; by rewrite Hq1|]. intros q0 Hq0. unfold push_response.
  rewrite wake_responses. cbn. apply Forall_app. split; [done|by constructor].
Qed.

Lemma drain_response_ok cfg base r sh w' :
  reactor_ok cfg base None r → queues_ok sh →
  drain_response (r, sh) = Ok (Some w') → reactor_ok cfg base None w'.1 ∧ queues_ok w'.2.
Proof.
  intros Hr Hq (q & Hat & H)%outcome_bind_Ok. unfold vector_at in Hat.
  destruct (all_queues_ sh !! Z.to_nat (reactor_id_ r)) as [q0|] eqn:El; simplify_eq/=.
  unfold try_pop_response in H. destruct (responses_ q) as [|resp rest] eqn:Er; [done|].
  apply outcome_bind_Ok in H as (sh1 & Hw1 & [= <-]). cbn [fst snd].
  pose proof (proj1 (Forall_lookup _ _) Hq _ _ El) as Hd. cbn in Hd. rewrite Er in Hd. apply Forall_cons_1 in Hd as [Hd _].
  split.
  - by apply accept_response_ok.
  - eapply with_queue_ok; [done|done|]. intros q1 Hq1. unfold try_pop_response. destruct (responses_ q1) eqn:E1; cbn [snd]; [by rewrite E1|].
    by apply Forall_cons_1 in Hq1 as [_ ?].
Qed.

(** Every step keeps the invariant and the bytes promised, except perhaps the
    harvesting of a completion. *)
Lemma reactor_step_cases hash cfg w w' :
  reactor_step hash cfg w w' →
  (∃ cqe cqes, cqes_ w.1 = cqe :: cqes ∧ w' = (harvest_completion cqe (with_ring (splices_ w.1) cqes w.1), w.2)) ∨
  (∀ base, reactor_ok cfg base None w.1 → queues_ok w.2 → (∀ fd, socks w.1 !! fd = None → base fd = []) →
     reactor_ok cfg base None w'.1 ∧ queues_ok w'.2).
Proof.
  intros Hstep. destruct Hstep as
    [e [r sh] w' He H|io [r sh] w' H|[r sh] w' H|cqe cqes r sh Hc|fd s s' r sh Hs Ho Hroom|cqe r sh|r sh sh' Hq'];
    [right..|left|right|right|right]; cbn [fst snd] in *.
  - intros base Hr Hq Hbase. by eapply handle_event_ok.
  - intros base Hr Hq _. by eapply drain_request_ok.
  - intros base Hr Hq _. by eapply drain_response_ok.
  - by eauto.
  - intros base Hr Hq _. split; [|done]. by eapply ok_sock.
  - intros base Hr Hq _. split; [|done]. by eapply (ok_same _ _ _ r).
  - done.
Qed.

Lemma harvest_ok cfg base cqe cqes r :
  reactor_ok cfg base None r → keeps_promise base cqe r →
  reactor_ok cfg base None (harvest_completion cqe (with_ring (splices_ r) cqes r)).
Proof. intros Hr Hk. apply harvest_completion_ok; [by eapply (ok_same _ _ _ r)|done]. Qed.

(** A round of the loop is a sequence of steps, when its events are as the
    kernel promises. *)
Fixpoint events_ok (hash : bytes → Z) (cfg : ReactorConfig) (events : list Event) (w : World) : Prop :=
  match events with
  | [] => True
  | e :: events' => event_ok cfg e w.1 ∧ ∀ w', handle_event hash cfg e w = Ok w' → events_ok hash cfg events' w'
  end.

Lemma handle_events_steps hash cfg events w w' :
  events_ok hash cfg events w → handle_events hash cfg events w = Ok w' → rtc (reactor_step hash cfg) w w'.
Proof.
  revert w. induction events as [|e events IH]; intros w Hok; cbn.
  - intros [= <-]. done.
  - destruct Hok as [He Hok]. intros (w1 & H1 & H2)%outcome_bind_Ok.
    eapply rtc_l; [by eapply step_event|]. by apply IH; [apply Hok|].
Qed.

Lemma drain_requests_steps hash fuel cfg ios w w' :
  drain_requests fuel cfg ios w = Ok w' → rtc (reactor_step hash cfg) w w'.
Proof.
  revert ios w. induction fuel as [|fuel IH]; intros ios w; cbn; [by intros [= <-]|].
  intros ([w1|] & H1 & H2)%outcome_bind_Ok; [|by injection H2 as <-].
  eapply rtc_l; [by eapply step_request|]. by eapply IH.
Qed.

Lemma drain_responses_steps hash fuel cfg w w' :
  drain_responses fuel w = Ok w' → rtc (reactor_step hash cfg) w w'.
Proof.
  revert w. induction fuel as [|fuel IH]; intros w; cbn; [by intros [= <-]|].
  intros ([w1|] & H1 & H2)%outcome_bind_Ok; [|by injection H2 as <-].
  eapply rtc_l; [by eapply step_response|]. by eapply IH.
Qed.

Lemma advance_ring fd r : cqes_ (advance_write_queue fd r) = cqes_ r.
Proof. unfold advance_write_queue. by destruct (write_queue_ _). Qed.

Lemma harvest_ring cqe r : cqes_ (harvest_completion cqe r) = cqes_ r.
Proof.
  unfold harvest_completion. destruct (_ =? 0); [by destruct (_ <? 0)|]. destruct (negb _); [by destruct (_ <? 0)|].
  destruct (connections_ r !! _); [|done]. rewrite advance_ring. by destruct (_ <? 0).
Qed.

Lemma harvest_steps hash cfg r sh : rtc (reactor_step hash cfg) (r, sh) (harvest_io_completions r, sh).
Proof.
  unfold harvest_io_completions. remember (cqes_ r) as l eqn:E. revert r E.
  induction l as [|cqe l IH]; intros r E; cbn; [done|].
  assert (tail (cqes_ r) = l) as -> by (by rewrite <-E). eapply rtc_l; [by eapply step_harvest|].
  apply IH. by rewrite harvest_ring.
Qed.

Lemma iteration_steps hash cfg events ios w w' :
  events_ok hash cfg events w → run_iteration hash cfg events ios w = Ok w' → rtc (reactor_step hash cfg) w w'.
Proof.
  intros He (w1 & H1 & H)%outcome_bind_Ok. apply outcome_bind_Ok in H as (w2 & H2 & H).
  apply outcome_bind_Ok in H as ([r3 sh3] & H3 & [= <-]).
  etrans; [by eapply handle_events_steps|]. apply outcome_bind_Ok in H2 as (q2 & _ & H2).
  etrans; [by eapply drain_requests_steps|]. apply outcome_bind_Ok in H3 as (q3 & _ & H3).
  etrans; [by eapply drain_responses_steps|]. apply harvest_steps.
Qed.

(** ** Theorems *)

Lemma new_reactor_ok cfg rid sh w :
  new_reactor cfg rid sh = Ok w → queues_ok sh → reactor_ok cfg (λ _, []) None w.1 ∧ queues_ok w.2.
Proof.
  unfold new_reactor. destruct (0 <=? rc_wakeup_fd_ cfg).
  - intros (sh' & Hw & [= <-])%outcome_bind_Ok Hq. split; [|by eapply with_queue_ok].
    intros fd. cbn. rewrite !lookup_empty. destruct (decide (fd = rc_wakeup_fd_ cfg)) as [->|Hw'].
    + rewrite lookup_insert_eq. by right.
    + rewrite lookup_insert_ne by done. destruct (decide (fd = server_fd_ cfg)) as [->|Hs].
      * rewrite lookup_singleton_eq. by left.
      * by rewrite lookup_singleton_ne by done.
  - intros [= <-] Hq. split; [|done]. intros fd. cbn. rewrite !lookup_empty.
    destruct (decide (fd = server_fd_ cfg)) as [->|Hs].
    + rewrite lookup_singleton_eq. by left.
    + by rewrite lookup_singleton_ne by done.
Qed.

Lemma reachable_ok hash cfg w w' :
  reactor_ok cfg (λ _, []) None w.1 → queues_ok w.2 → rtc (reactor_step hash cfg) w w' →
  reactor_ok cfg (λ _, []) None w'.1 ∧ queues_ok w'.2.
Proof.
  intros Hr Hq Hs. induction Hs as [|w w1 w' Hstep _ IH]; [done|].
  apply reactor_step_cases in Hstep as [(cqe & cqes & _ & ->)|Hok].
  - apply IH; [|done]. apply harvest_ok; [done|]. intros fd c _ _. by left.
  - by destruct (Hok (λ _, []) Hr Hq ltac:(done)); apply IH.
Qed.

Lemma ok_promise cfg base r : reactor_ok cfg base None r → reactor_ok cfg (stream r) None r.
Proof.
  intros Hr fd. specialize (Hr fd). unfold slot_ok in *. unfold stream.
  destruct (connections_ r !! fd) as [c|] eqn:Ec, (socks r !! fd) as [s|] eqn:Es, (epoll_ r !! fd) as [w|]; try done.
  - destruct Hr as (Hw & Hroom & [H1 H2 _ H3]). split_and!; [done|done|]. split; [done|done| |done].
    intros o [= <-]. by rewrite Es, Ec.
  - destruct Hr as [H1 H2 _ H3]. by split.
Qed.

Lemma ok_weaken cfg base base' r :
  (∀ fd, base' fd = base fd ∨ base' fd = []) → reactor_ok cfg base None r → reactor_ok cfg base' None r.
Proof.
  intros Hb Hr fd. specialize (Hr fd).
  assert (∀ c o, conn_ok cfg base None fd c o → conn_ok cfg base' None fd c o) as Hc.
  { intros c o [H1 H2 H3 H4]. split; [done|done| |done]. intros o' Ho.
    destruct (Hb fd) as [->| ->]; [by apply H3|apply prefix_nil]. }
  unfold slot_ok in *. destruct (connections_ r !! fd), (socks r !! fd), (epoll_ r !! fd); naive_solver.
Qed.

(** The stream of a connection with a socket is what the invariant speaks of. *)
Lemma ok_stream cfg base r fd s : reactor_ok cfg base None r → socks r !! fd = Some s → base fd `prefix_of` stream r fd.
Proof.
  intros Hr Hs. specialize (Hr fd). unfold stream. rewrite Hs in *.
  destruct (connections_ r !! fd) as [c|], (epoll_ r !! fd); try done. destruct Hr as (_ & _ & [_ _ Hst _]). by apply Hst.
Qed.

(** What the harvesting of a completion leaves of the connection it names. *)
Lemma harvest_stream cqe r fd c s :
  completed_fd cqe = Some fd → connections_ r !! fd = Some c → socks r !! fd = Some s →
  stream (harvest_completion cqe r) fd = s_out s ++ concat (write_queue_ c).
Proof.
  intros Ef Hc Hs. rewrite harvest_named, Ef, Hc. unfold advance_write_queue, connection, stream.
  set (r1 := if _ <? 0 then _ else _). assert (socks r1 !! fd = Some s) as Hs1 by (unfold r1; by destruct (_ <? 0)).
  cbn. rewrite lookup_insert_eq. cbn. destruct (write_queue_ c) as [|d ds] eqn:Eq; cbn; rewrite Hs1, lookup_insert_eq;
    unfold pending; cbn; by rewrite ?zdrop_neg.
Qed.

(** C8: in every state a reactor can reach (by its handlers, in any order and
    with any results of the system calls and any completions, late ones
    included), each entry of the table of connections holds at most one request
    of an accepted length, incomplete; its write buffer and queue are well
    formed; while a splice is under way its buffer has been sent.  A connection
    with an open descriptor is registered for writing exactly when it has
    something to write, so that no response is left behind and no idle connection
    keeps the loop awake; an entry created again for a closed descriptor has no
    registration.  Of the kernel it is assumed that a new client has an unused
    descriptor and that [EPOLLOUT] is reported only where it is asked for. *)
Theorem reactor_invariant hash cfg rid sh w0 w fd c :
  new_reactor cfg rid sh = Ok w0 → queues_ok sh → rtc (reactor_step hash cfg) w0 w →
  connections_ w.1 !! fd = Some c →
  read_ok cfg c ∧ write_side c ∧
  match socks w.1 !! fd with
  | Some _ => epoll_ w.1 !! fd = Some (bool_decide (write_buf c ≠ []))
  | None => epoll_ w.1 !! fd = None
  end.
Proof.
  intros Hnew Hq Hs Hc. destruct (new_reactor_ok _ _ _ _ Hnew Hq) as [H1 H2].
  destruct (reachable_ok _ _ _ _ H1 H2 Hs) as [Hr _]. specialize (Hr fd). rewrite Hc in Hr.
  destruct (socks w.1 !! fd), (epoll_ w.1 !! fd); try done.
  - destruct Hr as (-> & _ & [Hw Hread _ _]). split_and!; [by apply Hread|done|done].
  - destruct Hr as [Hw Hread _ _]. split_and!; [by apply Hread|done|done].
Qed.

(** C9: what an open connection's client has received and will receive only ever
    grows at its end: no step of a reactor changes, drops or reorders bytes that
    have been sent or queued, with one exception.  Harvesting a completion that
    names a connection with no splice under way (one that comes too late, for a
    client that had the descriptor before) drops exactly the rest of the buffer
    being written; the queue behind it is kept. *)
Theorem stream_grows hash cfg rid sh w0 w w' fd :
  new_reactor cfg rid sh = Ok w0 → queues_ok sh → rtc (reactor_step hash cfg) w0 w →
  reactor_step hash cfg w w' → is_Some (socks w'.1 !! fd) →
  stream w.1 fd `prefix_of` stream w'.1 fd ∨
  ∃ cqe cqes c s, cqes_ w.1 = cqe :: cqes ∧ w' = (harvest_completion cqe (with_ring (splices_ w.1) cqes w.1), w.2) ∧
    completed_fd cqe = Some fd ∧ connections_ w.1 !! fd = Some c ∧ splice_pending c = false ∧
    socks w.1 !! fd = Some s ∧ stream w'.1 fd = s_out s ++ concat (write_queue_ c).
Proof.
  intros Hnew Hq Hs Hstep [s' Hsk]. destruct (new_reactor_ok _ _ _ _ Hnew Hq) as [H1 H2].
  destruct (reachable_ok _ _ _ _ H1 H2 Hs) as [Hr Hq']. apply ok_promise in Hr.
  apply reactor_step_cases in Hstep as [(cqe & cqes & Hl & ->)|Hok].
  2:{ left. destruct (Hok _ Hr Hq') as [Hr' _]; [|by eapply ok_stream]. intros fd' Hn. unfold stream. by rewrite Hn. }
  cbn [fst snd] in *.
  set (base := λ x, if decide (completed_fd cqe = Some x) then [] else stream w.1 x).
  assert (reactor_ok cfg base None (harvest_completion cqe (with_ring (splices_ w.1) cqes w.1))) as Hother.
  { apply harvest_ok.
    - eapply ok_weaken; [|exact Hr]. intros x. unfold base. case_decide; auto.
    - intros x c Ex _. left. unfold base. by rewrite decide_True. }
  destruct (decide (completed_fd cqe = Some fd)) as [Ef|Hne].
  2:{ left. pose proof (ok_stream _ _ _ _ _ Hother Hsk) as Hp. unfold base in Hp. by rewrite decide_False in Hp. }
  destruct (connections_ w.1 !! fd) as [c|] eqn:Hc.
  2:{ left. unfold stream at 1. rewrite Hc. destruct (socks w.1 !! fd); apply prefix_nil. }
  destruct (splice_pending c) eqn:Esp.
  - left. eapply ok_stream; [|done]. apply harvest_ok; [done|]. intros x c' Ex Hx. right. congruence.
  - destruct (socks w.1 !! fd) as [s|] eqn:Hs0; [|left; unfold stream at 1; rewrite Hs0; apply prefix_nil].
    right. exists cqe, cqes, c, s. split_and!; try done. by apply harvest_stream.
Qed.

(** *** A client *)

Definition event (fd : Z) (input output : bool) (a : Accepted) : Event := mkEvent fd false input output a an_io an_io.
Definition a_client : Accepted := Client 7 true true a_socket.
Definition request_7 : bytes := write_int32_be 15 ++ a_body.

(** The reactor after a client has connected and its request has arrived. *)
Definition connected : World :=
  (arrive 7 request_7 (handle_accept a_client (mkReactor 0 ∅ ∅ 0 (mkMetrics 0 0 0 0) {[3 := false; 4 := false]} ∅ [] [])),
   mkShared (mkOS ∅ ∅ []) new_coordinator [set_wakeup_fd 4 new_queues; new_queues]).

Lemma connected_reachable w0 :
  new_reactor a_config 0 a_shared = Ok w0 → rtc (reactor_step (λ _, 0) a_config) w0 connected.
Proof.
  intros E. vm_compute in E. injection E as <-. eapply rtc_l; [|eapply rtc_l; [|apply rtc_refl]].
  - apply (step_event _ _ (event 3 true false a_client)); [|vm_compute; reflexivity]. split; [|done].
    intros fd fl add s [= <- <- <- <-]. split_and!; [|done|done|done]. unfold own. cbn. lia.
  - by eapply (step_kernel _ _ 7 a_socket (with_in a_socket request_7)).
Qed.

Lemma a_shared_ok : queues_ok a_shared.
Proof. by repeat constructor. Qed.

Lemma reactor_invariant_witness :
  match new_reactor a_config 0 a_shared with
  | Ok w0 => rtc (reactor_step (λ _, 0) a_config) w0 connected ∧ read_ok a_config new_connection ∧
      epoll_ connected.1 !! 7 = Some false
  | _ => False
  end.
Proof.
  destruct (new_reactor a_config 0 a_shared) as [w0| |] eqn:E; [|vm_compute in E; discriminate..].
  pose proof (connected_reachable w0 E) as Hs.
  destruct (reactor_invariant (λ _, 0) a_config 0 a_shared w0 connected 7 new_connection E a_shared_ok Hs eq_refl)
    as (Hr & _ & He). split_and!; [exact Hs|exact Hr|exact He].
Defined.

Lemma stream_grows_witness :
  match handle_event (λ _, 0) a_config (event 7 true false NoClient) connected with
  | Ok w' => stream connected.1 7 = [] ∧ stream w'.1 7 = a_response ∧ stream connected.1 7 `prefix_of` stream w'.1 7
  | _ => False
  end.
Proof.
  destruct (handle_event (λ _, 0) a_config (event 7 true false NoClient) connected) as [w'| |] eqn:Ee;
    [|vm_compute in Ee; discriminate..].
  destruct (new_reactor a_config 0 a_shared) as [w0| |] eqn:E; [|vm_compute in E; discriminate..].
  split; [reflexivity|]. split; [vm_compute in Ee; injection Ee as <-; by vm_compute|].
  destruct (stream_grows (λ _, 0) a_config 0 a_shared w0 connected w' 7 E a_shared_ok (connected_reachable w0 E))
    as [Hp|(cqe & cqes & c & s & Hl & _)].
  - apply (step_event _ _ (event 7 true false NoClient)); [|exact Ee]. by split.
  - vm_compute in Ee. injection Ee as <-. by eexists.
  - exact Hp.
  - discriminate Hl.
Defined.

(** *** A completion that comes too late *)

(** A response with a splice is delivered to descriptor 7 and the splice
    submitted; the client goes away and another one gets the descriptor; it sends
    a request and takes the first 5 bytes of its response; then the splice of
    the first client completes. *)
Definition late_completion : outcome World :=
  let fresh := handle_accept a_client (mkReactor 0 ∅ ∅ 0 (mkMetrics 0 0 0 0) {[3 := false; 4 := false]} ∅ [] []) in
  let sh := mkShared (mkOS ∅ ∅ []) new_coordinator
              [push_response (mkForwardedResponse 7 [1; 2; 3] 9 100) (set_wakeup_fd 4 new_queues); new_queues] in
  w ← drain_cross_reactor_responses (fresh, sh);
  w ← handle_event (λ _, 0) a_config (event 7 false true NoClient) w;
  w ← handle_event (λ _, 0) a_config (mkEvent 7 true false false NoClient an_io an_io) w;
  '(r, sh) ← handle_event (λ _, 0) a_config
               (event 3 true false (Client 7 true true (mkSock request_7 false false [] 5 false))) w;
  w ← handle_event (λ _, 0) a_config (event 7 true true NoClient) (r, sh);
  '(r, sh) ← handle_event (λ _, 0) a_config (event 7 false true NoClient) w;
  mret (harvest_io_completions (with_ring (splices_ r) [mkCqe 14 100] r), sh).

(** Completions name a descriptor, not a connection: when the splice of a
    closed connection completes after its descriptor has been given to another
    client, the rest of the response that client is being sent is thrown away
    and the connection counts as idle, with the response truncated. *)
Theorem late_completion_truncates :
  match late_completion with
  | Ok (r, _) =>
      (∃ s, socks r !! 7 = Some s ∧ s_out s = ztake 5 a_response) ∧ 5 < zlen a_response ∧
      pending (connection r 7) = [] ∧ epoll_ r !! 7 = Some false
  | _ => False
  end.
Proof. vm_compute. split; [by eexists|done]. Qed.

(** When a client that is being written to closes its side, [handle_read] closes
    the connection and [handle_write], in the same event, creates an empty entry
    for the closed descriptor again. *)
Lemma closed_entry_recreated :
  let c := with_write new_connection [1; 2; 3] 1 [] in
  let r := mkReactor 0 {[7 := c]} ∅ 0 (mkMetrics 0 0 0 0) {[7 := true]} {[7 := mkSock [] true false [] 10 false]} [] [] in
  match handle_event (λ _, 0) a_config (event 7 true true NoClient) (r, a_shared) with
  | Ok (r', _) => socks r' !! 7 = None ∧ connections_ r' !! 7 = Some new_connection
  | _ => False
  end.
Proof. vm_compute. by split. Qed.
