(* ===== verification/Wakeup.v ===== *)
(** * Waking a reactor

    The owner of a queue sleeps in [epoll_wait] until its event descriptor (or
    another one) is ready; then it handles the events, among them the reading of
    the event descriptor, drains the requests, drains the responses, and waits
    again.  Meanwhile other reactors push: an append under the mutex, then a
    write to the event descriptor, with anything in between.  Others may push
    from the start of the program on, while the owner announces its event
    descriptor only when it is constructed.  All interleavings of these steps
    are a relation: nothing in a queue is ever slept on, except what was pushed
    before the announcement, until the first wait returns. *)

From stdpp Require Import relations.
From S2P Require Import Prelude Protocol Shard.

(** Where the owner is: not yet constructed, or in its loop
    ([WorkerReactor::run]). *)
Inductive Phase :=
| Starting
| Waiting
| HandlingEvents
| DrainingRequests
| DrainingResponses.

(** [unwoken] are the pushes that have appended but not yet written to the
    event descriptor; [at_start] remembers what was queued when the descriptor
    was announced, until the first wait returns. *)
Record Mailbox := mkMailbox {
  mb_queues : CrossReactorQueues;
  mb_phase : Phase;
  unwoken : nat;
  at_start : option (list ForwardedRequest * list ForwardedResponse) }.

(** The two halves of [push_request] and [push_response]. *)
Definition append_request (req : ForwardedRequest) (q : CrossReactorQueues) : CrossReactorQueues :=
  mkQueues (requests_ q ++ [req]) (responses_ q) (wakeup_fd_ q) (wakeup_count q).
Definition append_response (resp : ForwardedResponse) (q : CrossReactorQueues) : CrossReactorQueues :=
  mkQueues (requests_ q) (responses_ q ++ [resp]) (wakeup_fd_ q) (wakeup_count q).

Lemma push_halves req resp q :
  push_request req q = wake (append_request req q) ∧ push_response resp q = wake (append_response resp q).
Proof. done. Qed.

Inductive mailbox_step : Mailbox → Mailbox → Prop :=
(* another reactor *)
| ms_append_request req q ph n e :
    mailbox_step (mkMailbox q ph n e) (mkMailbox (append_request req q) ph (S n) e)
| ms_append_response resp q ph n e :
    mailbox_step (mkMailbox q ph n e) (mkMailbox (append_response resp q) ph (S n) e)
| ms_wake q ph n e :
    mailbox_step (mkMailbox q ph (S n) e) (mkMailbox (wake q) ph n e)
(* the owner: its constructor *)
| ms_announce fd q n e :
    0 ≤ fd →
    mailbox_step (mkMailbox q Starting n e)
      (mkMailbox (set_wakeup_fd fd q) Waiting n (Some (requests_ q, responses_ q)))
(* the owner: [epoll_wait] returns, for its own reasons or because of the event descriptor *)
| ms_return q n e :
    mailbox_step (mkMailbox q Waiting n e) (mkMailbox q HandlingEvents n None)
| ms_clear q n e :
    mailbox_step (mkMailbox q HandlingEvents n e) (mkMailbox (clear_wakeup q) HandlingEvents n e)
| ms_handled q n e :
    mailbox_step (mkMailbox q HandlingEvents n e) (mkMailbox q DrainingRequests n e)
| ms_request req q q' n e :
    try_pop_request q = (Some req, q') →
    mailbox_step (mkMailbox q DrainingRequests n e) (mkMailbox q' DrainingRequests n e)
| ms_no_request q q' n e :
    try_pop_request q = (None, q') →
    mailbox_step (mkMailbox q DrainingRequests n e) (mkMailbox q' DrainingResponses n e)
| ms_response resp q q' n e :
    try_pop_response q = (Some resp, q') →
    mailbox_step (mkMailbox q DrainingResponses n e) (mkMailbox q' DrainingResponses n e)
| ms_no_response q q' n e :
    try_pop_response q = (None, q') →
    mailbox_step (mkMailbox q DrainingResponses n e) (mkMailbox q' Waiting n e).

(** The program starts all reactors with empty queues and no descriptor. *)
Definition mailbox_start : Mailbox := mkMailbox new_queues Starting 0 None.

(** Something will be noticed: the descriptor is ready, or a push is about to
    make it so. *)
Definition alarm (m : Mailbox) : Prop := 0 < wakeup_count (mb_queues m) ∨ (0 < unwoken m)%nat.

Record mailbox_ok (m : Mailbox) : Prop := {
  mo_fd : mb_phase m ≠ Starting → 0 ≤ wakeup_fd_ (mb_queues m);
  mo_count : 0 ≤ wakeup_count (mb_queues m);
  mo_start : ∀ e, at_start m = Some e → mb_phase m = Waiting ∧
             (alarm m ∨ e = (requests_ (mb_queues m), responses_ (mb_queues m)));
  mo_requests : requests_ (mb_queues m) ≠ [] → at_start m = None →
                mb_phase m = Waiting ∨ mb_phase m = DrainingResponses → alarm m;
  mo_responses : responses_ (mb_queues m) ≠ [] → at_start m = None → mb_phase m = Waiting → alarm m }.

Lemma wake_alarm q ph n e : 0 ≤ wakeup_fd_ q → 0 ≤ wakeup_count q → alarm (mkMailbox (wake q) ph n e).
Proof. intros Hf Hc. left. cbn. unfold wake. destruct (Z.leb_spec 0 (wakeup_fd_ q)); [cbn|]; lia. Qed.

(** Pushes, at any time. *)
Lemma append_ok q q' ph n e :
  wakeup_fd_ q' = wakeup_fd_ q → wakeup_count q' = wakeup_count q →
  mailbox_ok (mkMailbox q ph n e) → mailbox_ok (mkMailbox q' ph (S n) e).
Proof.
  intros Ef Ec [Hf Hc Hs _ _]. assert (alarm (mkMailbox q' ph (S n) e)) as Ha by (right; cbn; lia).
  split; cbn in *; [by rewrite Ef|by rewrite Ec| |done..]. intros e' He. destruct (Hs _ He). auto.
Qed.

Lemma wake_ok q ph n e : mailbox_ok (mkMailbox q ph (S n) e) → mailbox_ok (mkMailbox (wake q) ph n e).
Proof.
  intros [Hf Hc Hs _ _]. pose proof (wake_fields q) as (_ & _ & Hwf).
  assert (ph ≠ Starting → alarm (mkMailbox (wake q) ph n e)) as Ha by (intros H; apply wake_alarm; auto).
  split; cbn in *; [by rewrite Hwf| | |by intros _ _ [->| ->]; apply Ha|by intros _ _ ->; apply Ha].
  - unfold wake. destruct (0 <=? wakeup_fd_ q); cbn; lia.
  - intros e' He. destruct (Hs _ He) as [-> _]. split; [done|]. left. by apply Ha.
Qed.

Lemma mailbox_step_ok m m' : mailbox_step m m' → mailbox_ok m → mailbox_ok m'.
Proof.
  intros Hstep Hok.
  destruct Hstep as [req q ph n e|resp q ph n e|q ph n e|fd q n e Hfd|q n e|q n e|q n e|req q q' n e E|q q' n e E
                    |resp q q' n e E|q q' n e E]; [by apply (append_ok q)..|by apply wake_ok| | | | | | | |];
    destruct Hok as [Hf Hc Hs Hq Hp]; cbn in *.
  - split; cbn; [done|done| |done..]. intros e' [= <-]. auto.
  - split; cbn; [by intros _; apply Hf|done|done|by intros _ _ []|done].
  - split; cbn; [done|lia|by intros e' He; destruct (Hs _ He)|by intros _ _ []|done].
  - split; cbn; [by intros _; apply Hf|done|by intros e' He; destruct (Hs _ He)|by intros _ _ []|done].
  - unfold try_pop_request in E. destruct (requests_ q) as [|x l]; [done|]. injection E as _ <-.
    split; cbn; [done|done|by intros e' He; destruct (Hs _ He)|by intros _ _ []|done].
  - unfold try_pop_request in E. destruct (requests_ q) as [|x l] eqn:Er; [|done]. injection E as <-.
    split; cbn; [by intros _; apply Hf|done|by intros e' He; destruct (Hs _ He)|by rewrite Er|done].
  - unfold try_pop_response in E. destruct (responses_ q) as [|x l]; [done|]. injection E as _ <-.
    split; cbn; [done|done|by intros e' He; destruct (Hs _ He)| |done]. intros Hr He Hph. exact (Hq Hr He Hph).
  - unfold try_pop_response in E. destruct (responses_ q) as [|x l] eqn:Er; [|done]. injection E as <-.
    split; cbn; [by intros _; apply Hf|done|by intros e' He; destruct (Hs _ He)| |by rewrite Er].
    intros Hr He _. apply Hq; [done|done|by right].
Qed.

Lemma mailbox_start_ok : mailbox_ok mailbox_start.
Proof. by split. Qed.

(** C18: no wake-up is lost, in any interleaving, from the start of the program,
    of the owner's constructor and loop with pushes of other reactors: whenever a
    reactor waits while a request or a response is in its queues, its event
    descriptor is ready or a push that has not finished is about to make it so,
    with one exception: no wait has returned yet and the queues hold just what
    was pushed before the reactor announced its descriptor. *)
Theorem no_lost_wakeup m :
  rtc mailbox_step mailbox_start m →
  mb_phase m = Waiting → requests_ (mb_queues m) ≠ [] ∨ responses_ (mb_queues m) ≠ [] →
  0 < wakeup_count (mb_queues m) ∨ (0 < unwoken m)%nat ∨
  at_start m = Some (requests_ (mb_queues m), responses_ (mb_queues m)).
Proof.
  intros Hs Hph Hne.
  assert (mailbox_ok m) as [_ _ Hst Hq Hp].
  { revert Hs. apply (rtc_ind_r (mailbox_ok)); [apply mailbox_start_ok|]. intros x y _ Hxy Hx. by eapply mailbox_step_ok. }
  assert (alarm m ∨ at_start m = Some (requests_ (mb_queues m), responses_ (mb_queues m))) as [[?|?]|?]; [|auto..].
  destruct (at_start m) as [e|] eqn:He.
  - destruct (Hst e eq_refl) as [_ [?| ->]]; auto.
  - left. destruct Hne as [Hne|Hne]; [apply Hq; [done|done|by left]|by apply Hp].
Qed.

Definition a_forwarded : ForwardedResponse := mkForwardedResponse 7 [1] (-1) 0.

(** The owner announces its descriptor, drains, and waits again; then a
    response arrives. *)
Lemma no_lost_wakeup_witness :
  let q := append_response a_forwarded (set_wakeup_fd 4 new_queues) in
  rtc mailbox_step mailbox_start (mkMailbox (wake q) Waiting 0 None) ∧
  (0 < wakeup_count (wake q) ∨ (0 < 0)%nat ∨ None = Some (requests_ (wake q), responses_ (wake q))).
Proof.
  intros q. assert (rtc mailbox_step mailbox_start (mkMailbox (wake q) Waiting 0 None)) as Hs.
  { eapply rtc_l; [apply (ms_announce 4); lia|]. eapply rtc_l; [apply ms_return|].
    eapply rtc_l; [apply ms_handled|]. eapply rtc_l; [by apply ms_no_request|].
    eapply rtc_l; [by apply ms_no_response|].
    eapply rtc_l; [apply (ms_append_response a_forwarded)|]. eapply rtc_l; [apply ms_wake|]. apply rtc_refl. }
  split; [exact Hs|].
  apply (no_lost_wakeup (mkMailbox (wake q) Waiting 0 None)); [exact Hs|reflexivity|by right].
Defined.

(** The exception is real: a push before the reactor has announced its
    descriptor wakes nobody, and the owner waits with the request in its queue. *)
Lemma early_push_sleeps req :
  let m := mkMailbox (set_wakeup_fd 4 (push_request req new_queues)) Waiting 0 (Some ([req], [])) in
  rtc mailbox_step mailbox_start m ∧ ¬ alarm m ∧ requests_ (mb_queues m) = [req].
Proof.
  intros m. split_and!; [|unfold alarm; cbn; lia|done].
  eapply rtc_l; [apply (ms_append_request req)|]. eapply rtc_l; [apply ms_wake|].
  eapply rtc_l; [by apply (ms_announce 4)|]. apply rtc_refl.
Qed.
