(* ===== verification/System.v ===== *)
(** * The program (src/src/main.cpp)

    [main] loads the configuration and the cluster metadata and runs one
    reactor per thread; the reactors share the group coordinator, the queues and
    the file system, and each has its own partitions.  A handler of a reactor is
    one step of the system: its own state is private, and what it shares is
    either behind a mutex (queues, coordinator) or in files of its own partitions. *)

From stdpp Require Import relations.
From S2P Require Import Prelude Endian Protocol Parser WireFormat Serializer ResponseFormat Storage PartitionContext.
From S2P Require Import RecordBatch PartitionProperties ClusterMetadata ClusterProperties MetadataHandler RecordHandler.
From S2P Require Import RecordProperties GroupCoordinator Broker Config.
From S2P Require Import Shard Socket Reactor Framing Delivery ReactorInvariant.

Record System := mkSystem {
  sys_reactors : list WorkerReactor;
  sys_shared : Shared }.

(** What a reactor takes from the configuration, with its two descriptors. *)
Definition reactor_config (config : Config) (metadata : ClusterMetadata) (fds : Z * Z) : ReactorConfig :=
  mkReactorConfig (mkRecordHandler metadata (log_root config) (cfg_segment_bytes config) true)
    (mkShardRouter (cfg_reactor_count config)) (max_message_bytes config) (max_write_buffer_bytes config) fds.1 fds.2.

(** The loop that starts the threads: reactors [i], ..., [i + n - 1]. *)
Fixpoint start_reactors (config : Config) (metadata : ClusterMetadata) (fds : nat → Z * Z) (i n : nat) (sh : Shared)
    : outcome (list WorkerReactor * Shared) :=
  match n with
  | O => mret ([], sh)
  | S n' =>
      '(r, sh) ← new_reactor (reactor_config config metadata (fds i)) (Z.of_nat i) sh;
      '(rs, sh) ← start_reactors config metadata fds (S i) n' sh;
      mret (r :: rs, sh)
  end.

(** [main] up to the point where all threads run; an exception ends it with
    [EXIT_FAILURE], which is [None]. *)
Definition main_start (order : Properties → list (bytes * bytes)) (hardware_concurrency : Z) (argv : list bytes)
    (file : option bytes) (metadata_file : bytes → option bytes) (fds : nat → Z * Z) (os : OS)
    : outcome (option System) :=
  let config := load order hardware_concurrency argv file in
  match parse_cluster_metadata_file
          (metadata_file (log_root config ++ str "/__cluster_metadata-0/00000000000000000000.log")) with
  | Fault undefined_behaviour => Fault undefined_behaviour
  | Err _ | Fault _ => mret None
  | Ok metadata =>
      let n := Z.to_nat (cfg_reactor_count config) in
      '(rs, sh) ← start_reactors config metadata fds 0 n (mkShared os new_coordinator (replicate n new_queues));
      mret (Some (mkSystem rs sh))
  end.

(** Reactor [i] does something. *)
Definition on_reactor (i : nat) (f : World → outcome World) (s : System) : outcome System :=
  r ← vector_at (sys_reactors s) i;
  '(r', sh') ← f (r, sys_shared s);
  mret (mkSystem (<[i := r']> (sys_reactors s)) sh').

(** ** Which partitions a request concerns *)

Definition partitions_of (m : ClusterMetadata) (req : Request) : list (bytes * Z) :=
  match req with
  | ReqProduce r =>
      concat (map (λ t, map (λ p, (ptr_topic_name t, ppr_partition_index p)) (ptr_partitions t)) (pr_topics r))
  | ReqFetch r =>
      concat (map (λ t,
        match uuid_to_topic m !! ftr_topic_id t ≫= (topics m !!.) with
        | Some info => map (λ p, (ti_name info, fpr_partition_index p)) (ftr_partitions t)
        | None => []
        end) (fr_topics r))
  | ReqListOffsets r =>
      concat (map (λ t, map (λ p, (lotr_topic_name t, lopr_partition_index p)) (lotr_partitions t)) (lor_topics r))
  | _ => []
  end.

(** A handler that creates no partition contexts but those in [P]. *)
Definition touches (P : bytes → Prop) {A} (m : handler A) : Prop :=
  ∀ s a s', m s = Ok (a, s') → ∀ k, is_Some (partition_contexts_ s' !! k) → is_Some (partition_contexts_ s !! k) ∨ P k.

Section touches.
Context (P : bytes → Prop).

Lemma touches_ret {A} (a : A) : touches P (mret a).
Proof. intros s a' s' [= <- <-]. by left. Qed.

Lemma touches_bind {A B} (m : handler A) (f : A → handler B) :
  touches P m → (∀ a, touches P (f a)) → touches P (m ≫= f).
Proof.
  intros Hm Hf s b s' ([a s1] & H1 & H2)%outcome_bind_Ok k Hk.
  destruct (Hf a _ _ _ H2 k Hk) as [Hk1|]; [|by right]. by apply (Hm _ _ _ H1).
Qed.

Lemma touches_lift {A} (m : outcome A) : touches P (lift m).
Proof. intros s a s' (x & _ & [= <- <-])%outcome_bind_Ok. by left. Qed.

Lemma touches_mapM {A B} (f : A → handler B) l : (∀ x, x ∈ l → touches P (f x)) → touches P (mapM f l).
Proof.
  induction l as [|x l IH]; intros Hf; cbn; [apply touches_ret|].
  apply touches_bind; [apply Hf; by left|]. intros y. apply touches_bind; [|intros; apply touches_ret].
  apply IH. intros z Hz. apply Hf. by right.
Qed.

Lemma touches_get h t p : P (context_key t p) → touches P (get_or_create_context h t p).
Proof.
  intros Hp s a s'. unfold get_or_create_context.
  destruct (partition_contexts_ s !! context_key t p); intros [= <- <-]; [by left|].
  intros k. cbn. destruct (decide (k = context_key t p)) as [->|Hne]; [by right|].
  rewrite lookup_insert_ne by done. by left.
Qed.

Lemma touches_call {A} kernel t p c f : P (context_key t p) → touches P (@call_context A kernel t p c f).
Proof.
  intros Hp s a s' ([[a' c'] os'] & _ & [= <- <-])%outcome_bind_Ok k. cbn.
  destruct (decide (k = context_key t p)) as [->|Hne]; [by right|]. rewrite lookup_insert_ne by done. by left.
Qed.

Lemma touches_if {A} (b : bool) (m1 m2 : handler A) : touches P m1 → touches P m2 → touches P (if b then m1 else m2).
Proof. by destruct b. Qed.
End touches.

#[local] Hint Resolve touches_ret touches_bind touches_lift touches_mapM touches_get touches_call touches_if : core.

Definition key_of (m : ClusterMetadata) (req : Request) (k : bytes) : Prop :=
  ∃ t p, (t, p) ∈ partitions_of m req ∧ k = context_key t p.

Lemma touches_produce kernel h r : touches (key_of (metadata_ h) (ReqProduce r)) (handle_produce kernel h r).
Proof.
  unfold handle_produce. apply touches_bind; [|auto]. apply touches_mapM. intros t Ht. unfold produce_topic.
  apply touches_bind; [auto|]. intros info. apply touches_bind; [|auto]. apply touches_mapM. intros p Hp.
  assert (key_of (metadata_ h) (ReqProduce r) (context_key (ptr_topic_name t) (ppr_partition_index p))).
  { eexists _, _. split; [|done]. cbn. apply list_elem_of_In, in_concat. eexists. split.
    - apply in_map, list_elem_of_In, Ht.
    - apply (in_map (λ p, (ptr_topic_name t, ppr_partition_index p))), list_elem_of_In, Hp. }
  unfold produce_partition. apply touches_if; [|auto]. destruct (ppr_records p); [auto|].
  apply touches_bind; [auto|]. intros ctx. apply touches_bind; auto.
Qed.

Lemma touches_list_offsets h r : touches (key_of (metadata_ h) (ReqListOffsets r)) (handle_list_offsets h r).
Proof.
  unfold handle_list_offsets. apply touches_bind; [|auto]. apply touches_mapM. intros t Ht. unfold list_offsets_topic.
  apply touches_bind; [auto|]. intros info. apply touches_bind; [|auto]. apply touches_mapM. intros p Hp.
  assert (key_of (metadata_ h) (ReqListOffsets r) (context_key (lotr_topic_name t) (lopr_partition_index p))).
  { eexists _, _. split; [|done]. cbn. apply list_elem_of_In, in_concat. eexists. split.
    - apply in_map, list_elem_of_In, Ht.
    - apply (in_map (λ p, (lotr_topic_name t, lopr_partition_index p))), list_elem_of_In, Hp. }
  unfold list_offsets_partition. apply touches_bind; [|intros []; auto].
  apply touches_if; [|auto]. apply touches_if; [auto|]. apply touches_if; [|auto]. apply touches_bind; auto.
Qed.

Lemma touches_fetch kernel h r : touches (key_of (metadata_ h) (ReqFetch r)) (handle_fetch kernel h r).
Proof.
  unfold handle_fetch. apply touches_bind; [|auto]. apply touches_mapM. intros t Ht.
  intros s a s' ([oi s1] & H1 & H2)%outcome_bind_Ok.
  assert (s1 = s ∧ find_topic_by_uuid h (ftr_topic_id t) = Ok oi) as [-> Hi].
  { apply outcome_bind_Ok in H1 as (x & Hx & [= <- <-]). done. }
  revert H2. clear H1. revert s a s'. change (touches (key_of (metadata_ h) (ReqFetch r))
    (match oi with
     | Some info => parts ← mapM (fetch_partition kernel h info) (ftr_partitions t);
                    mret (mkFetchTopicResponse (ftr_topic_id t) parts)
     | None => mret (mkFetchTopicResponse (ftr_topic_id t) [mkFetchPartitionResponse 0 100 [] (-1) 0 0])
     end : handler FetchTopicResponse)).
  destruct oi as [info|]; [|auto]. apply touches_bind; [|auto]. apply touches_mapM. intros p Hp.
  assert (key_of (metadata_ h) (ReqFetch r) (context_key (ti_name info) (fpr_partition_index p))).
  { eexists _, _. split; [|done]. cbn. apply list_elem_of_In, in_concat. eexists. split.
    - apply in_map, list_elem_of_In, Ht.
    - unfold find_topic_by_uuid, topic_of, vector_at in Hi.
      destruct (uuid_to_topic (metadata_ h) !! ftr_topic_id t) as [i|]; [|done]. cbn in *.
      destruct (topics (metadata_ h) !! i); [|done]. cbn in Hi. injection Hi as ->.
      apply (in_map (λ p, (ti_name info, fpr_partition_index p))), list_elem_of_In, Hp. }
  unfold fetch_partition. apply touches_bind; [auto|]. intros ctx. apply touches_bind; [auto|]. intros []; auto.
Qed.

(** The broker creates contexts only for partitions the request names. *)
Lemma handle_contexts kernel clock h req st resp st' k :
  handle kernel clock h req st = Ok (resp, st') →
  is_Some (partition_contexts_ (br_store st') !! k) →
  is_Some (partition_contexts_ (br_store st) !! k) ∨ key_of (metadata_ h) req k.
Proof.
  intros H. destruct req; cbn [handle] in H;
    first [apply with_store_inv in H as (a & s & Hp & _ & ->)
          |apply with_coordinator_inv in H as (a & s & Hp & _ & ->)
          |apply stateless_inv in H as (a & Hp & _ & ->)]; cbn [br_store]; try by left.
  - by apply (touches_fetch _ _ _ _ _ _ Hp).
  - by apply (touches_list_offsets _ _ _ _ _ Hp).
  - by apply (touches_produce _ _ _ _ _ _ Hp).
Qed.

(** ** What handlers leave alone *)

Definition same_parts (r r' : WorkerReactor) : Prop :=
  rx_contexts_ r' = rx_contexts_ r ∧ reactor_id_ r' = reactor_id_ r.

Lemma same_parts_trans r1 r2 r3 : same_parts r1 r2 → same_parts r2 r3 → same_parts r1 r3.
Proof. intros [H1 H2] [H3 H4]. split; congruence. Qed.

(** The part of [handle_read] that reads a frame. *)
Definition read_frame (cfg : ReactorConfig) (io : Io) (fd : Z) (r : WorkerReactor) : progress :=
  match read_header cfg io fd (set_connection fd (connection r fd) r) with
  | Stop r => Stop r
  | Continue r => read_body io fd r
  end.

Lemma handle_read_frame hash cfg io fd r sh :
  handle_read hash cfg io fd (r, sh) =
  match read_frame cfg io fd r with
  | Stop r => mret (r, sh)
  | Continue r => serve_frame hash cfg io fd (r, sh)
  end.
Proof. unfold handle_read, read_frame. by destruct (read_header _ _ _ _). Qed.

Definition progress_state (p : progress) : WorkerReactor := match p with Continue r | Stop r => r end.

Lemma received_parts io fd total r : same_parts r (progress_state (received fd total (fill io fd total r))).
Proof.
  unfold fill. destruct (socks r !! fd) as [s|]; [|done]. destruct (recv_all _ _ _) as [[d|] s']; [|done].
  cbn [received]. destruct (_ =? 0); [done|]. by destruct (_ <? _).
Qed.

Lemma read_frame_parts cfg io fd r : same_parts r (progress_state (read_frame cfg io fd r)).
Proof.
  unfold read_frame. set (r0 := set_connection fd _ r).
  assert (same_parts r0 (progress_state (read_header cfg io fd r0))) as Hh.
  { unfold read_header. destruct (have_header _); [done|]. destruct (zlen _ <? 4).
    - pose proof (received_parts io fd 4 r0) as H. destruct (received _ _ _); [|done]. by destruct (_ >? _).
    - by destruct (_ >? _). }
  destruct (read_header cfg io fd r0) as [r1|r1]; [|done].
  unfold read_body. destruct (_ <? _); [|done]. eapply same_parts_trans; [done|]. apply received_parts.
Qed.

Lemma advance_parts fd r : same_parts r (advance_write_queue fd r).
Proof. unfold advance_write_queue. by destruct (write_queue_ _). Qed.

Lemma handle_write_parts io fd r r' : handle_write io fd r = Ok r' → same_parts r r'.
Proof.
  unfold handle_write. set (r0 := set_connection fd _ r). assert (same_parts r r0) as H0 by done.
  destruct (_ >? _); [done|]. unfold send_fd.
  assert (∀ on r1, same_parts r r1 → match on with
    | None => mret (close_connection fd (count_error r1))
    | Some n =>
        let c := with_write (connection r0 fd) (write_buf (connection r0 fd)) (write_offset (connection r0 fd) + n)
                   (write_queue_ (connection r0 fd)) in
        let r := count_sent n (set_connection fd c r1) in
        if write_offset c >=? zlen (write_buf c) then
          match submit_splice io fd r with
          | Some r => mret r
          | None => mret (if splice_pending c then r else advance_write_queue fd r)
          end
        else mret r
    end = Ok r' → same_parts r r') as Hr.
  { intros [n|] r1 H1; cbn zeta; [|by intros [= <-]]. destruct (_ >=? _); [|by intros [= <-]].
    unfold submit_splice. destruct (_ && _); [by intros [= <-]|]. destruct (splice_pending _); [by intros [= <-]|].
    intros [= <-]. eapply same_parts_trans; [|apply advance_parts]. done. }
  destruct (socks r0 !! fd) as [s|].
  - destruct (send_all _ _ _) as [on s']. by apply (Hr on).
  - destruct (zdrop _ _); [by apply (Hr (Some 0))|by apply (Hr None)].
Qed.

Lemma harvest_parts cqe r : same_parts r (harvest_completion cqe r).
Proof.
  unfold harvest_completion. destruct (_ =? 0); [by destruct (_ <? 0)|]. destruct (negb _); [by destruct (_ <? 0)|].
  destruct (connections_ r !! _); [|done]. eapply same_parts_trans; [|apply advance_parts]. by destruct (_ <? 0).
Qed.

Lemma handle_accept_parts a r : same_parts r (handle_accept a r).
Proof. destruct a as [|fd [] [] s]; done. Qed.

Lemma deliver_parts fd d c r : same_parts r (deliver fd d c r).
Proof. unfold deliver. by destruct (idle c). Qed.

Lemma accept_response_parts resp r : same_parts r (accept_response resp r).
Proof. unfold accept_response. destruct (connections_ r !! _); [apply deliver_parts|done]. Qed.

(** ** Partitions have one owner *)

Section system.
Context (hash : bytes → Z) (config : Config) (metadata : ClusterMetadata) (fds : nat → Z * Z).

Definition cfg_of (i : nat) : ReactorConfig := reactor_config config metadata (fds i).
Definition owner (t : bytes) (p : Z) : outcome Z := route hash (mkShardRouter (cfg_reactor_count config)) t p.

(** All partitions of the request belong to the reactor that owns the first one. *)
Definition well_routed (req : Request) : Prop :=
  ∀ t p, (t, p) ∈ partitions_of metadata req →
    ∃ k, extract_partition_key req metadata = Ok (Some k) ∧ owner (pk_topic k) (pk_partition k) = owner t p.

Inductive system_step : System → System → Prop :=
| sys_event i e s s' :
    (∀ r r2 req, sys_reactors s !! i = Some r → ev_in e = true →
       read_frame (cfg_of i) (ev_read_io e) (ev_fd e) r = Continue r2 →
       parse_request (zdrop 4 (read_buf (connection r2 (ev_fd e)))) = Ok req → well_routed req) →
    on_reactor i (handle_event hash (cfg_of i) e) s = Ok s' → system_step s s'
| sys_request i io s s' :
    on_reactor i (λ w, o ← drain_request (cfg_of i) io w; mret (default w o)) s = Ok s' → system_step s s'
| sys_response i s s' :
    on_reactor i (λ w, o ← drain_response w; mret (default w o)) s = Ok s' → system_step s s'
| sys_harvest i cqe s s' :
    on_reactor i (λ '(r, sh), mret (harvest_completion cqe r, sh)) s = Ok s' → system_step s s'
| sys_kernel i r r' os s :
    sys_reactors s !! i = Some r → same_parts r r' →
    system_step s (mkSystem (<[i := r']> (sys_reactors s))
                     (mkShared os (sh_coordinator (sys_shared s)) (all_queues_ (sys_shared s)))).

Definition belongs (i : nat) (k : bytes) : Prop := ∃ t p, k = context_key t p ∧ owner t p = Ok (Z.of_nat i).
Definition all_belong (i : nat) (req : Request) : Prop :=
  ∀ t p, (t, p) ∈ partitions_of metadata req → owner t p = Ok (Z.of_nat i).

(** What a reactor promises the others: its contexts, and the requests that wait
    for it, are of its own partitions. *)
Definition queues_owned (sh : Shared) : Prop :=
  ∀ i q fwd, all_queues_ sh !! i = Some q → fwd ∈ requests_ q → all_belong i (fq_request fwd).
Record reactor_owns (i : nat) (r : WorkerReactor) : Prop := {
  ro_id : reactor_id_ r = Z.of_nat i;
  ro_owned : ∀ k, is_Some (rx_contexts_ r !! k) → belongs i k }.
Record system_ok (s : System) : Prop := {
  so_reactors : ∀ i r, sys_reactors s !! i = Some r → reactor_owns i r;
  so_queues : queues_owned (sys_shared s) }.

Lemma owns_parts i r r' : same_parts r r' → reactor_owns i r → reactor_owns i r'.
Proof. intros [Hc Hi] [H1 H2]. split; [by rewrite Hi|by rewrite Hc]. Qed.

Lemma queues_owned_with i f sh sh' :
  with_queue i f sh = Ok sh' → queues_owned sh →
  (∀ q fwd, fwd ∈ requests_ (f q) → fwd ∈ requests_ q ∨ all_belong (Z.to_nat i) (fq_request fwd)) →
  queues_owned sh'.
Proof.
  intros (q & Hq & ->)%with_queue_inv Hok Hf j q' fwd. cbn.
  destruct (decide (j = Z.to_nat i)) as [->|Hne].
  - rewrite list_lookup_insert_eq by (by eapply lookup_lt_Some). intros [= <-] Hin.
    destruct (Hf q fwd Hin) as [H|H]; [|done]. by eapply Hok.
  - rewrite list_lookup_insert_ne by done. apply Hok.
Qed.

Lemma broker_handle_owns i j io req r sh resp r' sh' :
  reactor_owns i r → all_belong i req → broker_handle (cfg_of j) io req (r, sh) = Ok (resp, (r', sh')) →
  reactor_owns i r' ∧ all_queues_ sh' = all_queues_ sh.
Proof.
  intros [Hid Hown] Hreq ([p st] & Hh & [= <- <- <-])%outcome_bind_Ok. split; [|done]. split; [done|].
  intros k Hk. destruct (handle_contexts _ _ _ _ _ _ _ _ Hh Hk) as [H|(t & q & Hin & ->)]; [by apply Hown|].
  exists t, q. split; [done|]. by apply Hreq.
Qed.

Context (Hcount : 0 < cfg_reactor_count config).

Lemma owner_range t p : ∃ i, owner t p = Ok i ∧ 0 ≤ i.
Proof using Hcount. destruct (route_ok hash (mkShardRouter (cfg_reactor_count config)) t p Hcount) as (i & ? & ? & _). by exists i. Qed.

Lemma serve_local_owns i io fd req r sh w' :
  reactor_owns i r → queues_owned sh → all_belong i req → serve_local (cfg_of i) io fd req (r, sh) = Ok w' →
  reactor_owns i w'.1 ∧ queues_owned w'.2.
Proof.
  intros Hr Hq Hreq ([resp [r1 sh1]] & Hb & H)%outcome_bind_Ok.
  destruct (broker_handle_owns _ _ _ _ _ _ _ _ _ Hr Hreq Hb) as [Hr1 Hq1].
  assert (queues_owned sh1) as Hsh by (unfold queues_owned; by rewrite Hq1).
  apply outcome_bind_Ok in H as (data & _ & H). destruct (splice_of resp (splice_fd (connection r1 fd), splice_len (connection r1 fd))) as [sfd slen] eqn:E.
  cbn zeta in H. rewrite E in H. clear E. destruct (_ >? _); injection H as <-.
  - split; [|done]. by apply (owns_parts i r1).
  - split; [|done]. apply (owns_parts i r1); [|done]. by eapply same_parts_trans; [|apply deliver_parts].
Qed.

Lemma serve_frame_owns i io fd r sh w' :
  reactor_owns i r → queues_owned sh →
  (∀ req, parse_request (zdrop 4 (read_buf (connection r fd))) = Ok req → well_routed req) →
  serve_frame hash (cfg_of i) io fd (r, sh) = Ok w' → reactor_owns i w'.1 ∧ queues_owned w'.2.
Proof using Hcount.
  intros Hr Hq Hwell. unfold serve_frame. destruct (parse_request _) as [req| |]; [|intros [= <-]|done].
  2:{ split; [|done]. by apply (owns_parts i r). }
  specialize (Hwell req eq_refl). intros (key & Hk & H)%outcome_bind_Ok. cbn [metadata_ rc_handler cfg_of reactor_config] in Hk.
  destruct key as [k|].
  2:{ apply (serve_local_owns i io fd req r sh); [done|done| |done]. intros t p Htp.
      destruct (Hwell t p Htp) as (k & E & _). congruence. }
  apply outcome_bind_Ok in H as (target & Ht & H).
  assert (∀ t p, (t, p) ∈ partitions_of metadata req → owner t p = Ok target) as Hall.
  { intros t p Htp. destruct (Hwell t p Htp) as (k' & E & <-). rewrite Hk in E. injection E as <-. exact Ht. }
  destruct (Z.eqb_spec target (reactor_id_ r)) as [->|Hne].
  - apply (serve_local_owns i io fd req r sh); [done|done| |done]. intros t p Htp. rewrite Hall by done.
    by rewrite (ro_id _ _ Hr).
  - apply outcome_bind_Ok in H as (sh' & Hw & [= <-]). split; [by apply (owns_parts i r)|].
    eapply queues_owned_with; [done|done|]. intros q fwd. unfold push_request. rewrite (proj1 (wake_fields _)). cbn.
    rewrite elem_of_app, list_elem_of_singleton. intros [Hin | ->]; [by left|right]. cbn. intros t p Htp. rewrite Hall by done.
    destruct (owner_range (pk_topic k) (pk_partition k)) as (i' & E & Hi'). unfold owner in E.
    cbn [shard_router_ cfg_of reactor_config] in Ht. rewrite E in Ht. injection Ht as <-. f_equal. lia.
Qed.

Lemma handle_event_owns i e r sh w' :
  reactor_owns i r → queues_owned sh →
  (∀ r2 req, ev_in e = true → read_frame (cfg_of i) (ev_read_io e) (ev_fd e) r = Continue r2 →
     parse_request (zdrop 4 (read_buf (connection r2 (ev_fd e)))) = Ok req → well_routed req) →
  handle_event hash (cfg_of i) e (r, sh) = Ok w' → reactor_owns i w'.1 ∧ queues_owned w'.2.
Proof using Hcount.
  intros Hr Hq Hwell. unfold handle_event. destruct (_ =? _).
  { intros [= <-]. split; [|done]. apply (owns_parts i r); [apply handle_accept_parts|done]. }
  destruct (_ =? _).
  { intros (sh' & Hw & [= <-])%outcome_bind_Ok. split; [done|]. eapply queues_owned_with; [done|done|]. by left. }
  destruct (ev_error e).
  { intros [= <-]. split; [|done]. by apply (owns_parts i r). }
  intros ([r1 sh1] & Hrd & H)%outcome_bind_Ok. apply outcome_bind_Ok in H as (r2 & Hwr & [= <-]). cbn [fst snd].
  assert (reactor_owns i r1 ∧ queues_owned sh1) as [Hr1 Hq1].
  { destruct (ev_in e); [|by injection Hrd as <- <-]. rewrite handle_read_frame in Hrd.
    pose proof (read_frame_parts (cfg_of i) (ev_read_io e) (ev_fd e) r) as Hp.
    destruct (read_frame _ _ _ _) as [r0|r0] eqn:Ef; cbn [progress_state] in Hp.
    - apply (serve_frame_owns i (ev_read_io e) (ev_fd e) r0 sh (r1, sh1)); [by apply (owns_parts i r)|done| |done].
      intros req. by apply Hwell.
    - injection Hrd as <- <-. split; [|done]. by apply (owns_parts i r). }
  split; [|done]. destruct (ev_out e); [|by injection Hwr as <-]. apply (owns_parts i r1); [|done].
  by eapply handle_write_parts.
Qed.

Lemma pop_incl q fwd :
  (fwd ∈ requests_ (try_pop_request q).2 → fwd ∈ requests_ q) ∧ (fwd ∈ requests_ (try_pop_response q).2 → fwd ∈ requests_ q).
Proof.
  unfold try_pop_request, try_pop_response. split.
  - destruct (requests_ q) eqn:E; cbn [snd requests_]; [by rewrite E|by right].
  - by destruct (responses_ q).
Qed.

Lemma drain_request_owns i io r sh w' :
  reactor_owns i r → queues_owned sh → drain_request (cfg_of i) io (r, sh) = Ok (Some w') →
  reactor_owns i w'.1 ∧ queues_owned w'.2.
Proof.
  intros Hr Hq (q & Hat & H)%outcome_bind_Ok. unfold vector_at in Hat. rewrite (ro_id _ _ Hr), Nat2Z.id in Hat.
  destruct (all_queues_ sh !! i) as [q0|] eqn:El; simplify_eq/=.
  unfold try_pop_request in H. destruct (requests_ q) as [|fwd rest] eqn:Er; [done|].
  apply outcome_bind_Ok in H as (sh1 & Hw1 & H). apply outcome_bind_Ok in H as ([resp [r1 sh2]] & Hb & H).
  assert (all_belong i (fq_request fwd)) as Hall by (apply (Hq i q fwd El); rewrite Er; by left).
  destruct (broker_handle_owns i i io (fq_request fwd) r sh1 resp r1 sh2 Hr Hall Hb) as [Hr1 Hq1].
  apply outcome_bind_Ok in H as (data & _ & H). destruct (splice_of resp (-1, 0)) as [sfd slen].
  apply outcome_bind_Ok in H as (sh3 & Hw3 & [= <-]). cbn [fst snd]. split; [done|].
  assert (queues_owned sh1) as Hsh1.
  { eapply queues_owned_with; [exact Hw1|done|]. intros q1 fwd1 Hin. left. exact (proj1 (pop_incl q1 fwd1) Hin). }
  eapply queues_owned_with; [exact Hw3|unfold queues_owned; by rewrite Hq1|].
  intros q1 fwd1. unfold push_response. rewrite (proj1 (wake_fields _)). by left.
Qed.

Lemma drain_response_owns i r sh w' :
  reactor_owns i r → queues_owned sh → drain_response (r, sh) = Ok (Some w') →
  reactor_owns i w'.1 ∧ queues_owned w'.2.
Proof.
  intros Hr Hq (q & Hat & H)%outcome_bind_Ok. unfold try_pop_response in H.
  destruct (responses_ q) as [|resp rest] eqn:Er; [done|].
  apply outcome_bind_Ok in H as (sh1 & Hw1 & [= <-]). cbn [fst snd]. split.
  - apply (owns_parts i r); [apply accept_response_parts|done].
  - eapply queues_owned_with; [exact Hw1|done|]. intros q1 fwd1 Hin. left. exact (proj2 (pop_incl q1 fwd1) Hin).
Qed.

Lemma on_reactor_ok i f s s' :
  (∀ r sh w', reactor_owns i r → queues_owned sh → sys_reactors s !! i = Some r → f (r, sh) = Ok w' →
     reactor_owns i w'.1 ∧ queues_owned w'.2) →
  on_reactor i f s = Ok s' → system_ok s → system_ok s'.
Proof.
  intros Hf (r & Hr & H)%outcome_bind_Ok [Hrs Hq]. unfold vector_at in Hr.
  destruct (sys_reactors s !! i) as [r0|] eqn:Ei; simplify_eq/=.
  apply outcome_bind_Ok in H as ([r' sh'] & Hstep & [= <-]).
  destruct (Hf r (sys_shared s) (r', sh')) as [Hr' Hq']; [by apply Hrs|done|done|done|]. split; [|done].
  intros j rj. cbn. destruct (decide (j = i)) as [->|Hne].
  - rewrite list_lookup_insert_eq by (by eapply lookup_lt_Some). by intros [= <-].
  - rewrite list_lookup_insert_ne by done. apply Hrs.
Qed.

Lemma system_step_ok s s' : system_step s s' → system_ok s → system_ok s'.
Proof using Hcount.
  intros Hstep Hok. destruct Hstep as [i e s s' Hwell H|i io s s' H|i s s' H|i cqe s s' H|i r r' os s Hi Hp].
  - eapply on_reactor_ok; [|done|done]. intros r sh w' Hr Hq Hi He. eapply handle_event_owns; [done|done| |done]. eauto.
  - eapply on_reactor_ok; [|done|done]. intros r sh w' Hr Hq _ ([w1|] & Hd & [= <-])%outcome_bind_Ok; [|done].
    by eapply drain_request_owns.
  - eapply on_reactor_ok; [|done|done]. intros r sh w' Hr Hq _ ([w1|] & Hd & [= <-])%outcome_bind_Ok; [|done].
    by eapply drain_response_owns.
  - eapply on_reactor_ok; [|done|done]. intros r sh w' Hr Hq _ [= <-]. split; [|done].
    apply (owns_parts i r); [apply harvest_parts|done].
  - destruct Hok as [Hrs Hq]. split; [|done]. intros j rj. cbn. destruct (decide (j = i)) as [->|Hne].
    + rewrite list_lookup_insert_eq by (by eapply lookup_lt_Some). intros [= <-]. eapply owns_parts; [done|by apply Hrs].
    + rewrite list_lookup_insert_ne by done. apply Hrs.
Qed.
End system.

Lemma start_reactors_ok hash config metadata fds i n sh rs sh' :
  start_reactors config metadata fds i n sh = Ok (rs, sh') →
  (∀ q, q ∈ all_queues_ sh → requests_ q = []) →
  (∀ j r, rs !! j = Some r → reactor_owns hash config (i + j) r) ∧ (∀ q, q ∈ all_queues_ sh' → requests_ q = []).
Proof.
  revert i sh rs sh'. induction n as [|n IH]; intros i sh rs sh'; cbn [start_reactors].
  { intros [= <- <-] Hq. split; [|done]. intros j r. by rewrite lookup_nil. }
  intros ([r sh1] & Hnew & H)%outcome_bind_Ok Hq.
  apply outcome_bind_Ok in H as ([rs1 sh2] & Hrest & [= <- <-]).
  assert ((∀ q, q ∈ all_queues_ sh1 → requests_ q = []) ∧ reactor_id_ r = Z.of_nat i ∧ rx_contexts_ r = ∅) as (Hq1 & Hid & Hctx).
  { unfold new_reactor in Hnew. destruct (0 <=? _); [|by injection Hnew as <- <-].
    apply outcome_bind_Ok in Hnew as (sh3 & (q & Hat & ->)%with_queue_inv & [= <- <-]). split_and!; [|done|done].
    cbn. intros q' Hin. apply list_elem_of_lookup in Hin as [j Hj]. destruct (decide (j = Z.to_nat (Z.of_nat i))) as [->|Hne].
    - rewrite list_lookup_insert_eq in Hj by (by eapply lookup_lt_Some). injection Hj as <-. cbn.
      apply Hq. by eapply list_elem_of_lookup_2.
    - rewrite list_lookup_insert_ne in Hj by done. apply Hq. by eapply list_elem_of_lookup_2. }
  destruct (IH (S i) sh1 rs1 sh2 Hrest Hq1) as [Hrs Hq2]. split; [|done].
  intros [|j] r'; cbn.
  - intros [= <-]. rewrite Nat.add_0_r. split; [done|]. intros k. rewrite Hctx, lookup_empty. by intros [].
  - intros Hj. replace (i + S j)%nat with (S i + j)%nat by lia. by apply Hrs.
Qed.

Lemma main_start_ok hash order hc argv file mfile fds os s :
  main_start order hc argv file mfile fds os = Ok (Some s) →
  system_ok hash (load order hc argv file) (match
    parse_cluster_metadata_file (mfile (log_root (load order hc argv file) ++ str "/__cluster_metadata-0/00000000000000000000.log"))
    with Ok m => m | _ => empty_metadata end) s.
Proof.
  unfold main_start. destruct (parse_cluster_metadata_file _) as [m|e|f]; [|done|by destruct f].
  intros ([rs sh] & H & [= <-])%outcome_bind_Ok.
  destruct (start_reactors_ok hash _ _ _ _ _ _ _ _ H) as [Hrs Hq].
  { cbn. intros q Hin. apply elem_of_replicate in Hin as [-> _]. done. }
  split; [exact Hrs|]. intros i q fwd Hi Hin. rewrite (Hq q) in Hin; [|by eapply list_elem_of_lookup_2]. by apply elem_of_nil in Hin.
Qed.

(** C10: every partition has one owner: in every state the program reaches from
    its start, as long as the partitions of each request belong to the same
    reactor, no two reactors have a context of the same partition, so its
    offsets are assigned by one thread. *)
Theorem partition_one_owner hash order hc argv file mfile fds os m s0 s i j ri rj k :
  (∀ props, order props ≡ₚ map_to_list props) → in_uint 32 hc →
  parse_cluster_metadata_file
    (mfile (log_root (load order hc argv file) ++ str "/__cluster_metadata-0/00000000000000000000.log")) = Ok m →
  main_start order hc argv file mfile fds os = Ok (Some s0) →
  rtc (system_step hash (load order hc argv file) m fds) s0 s →
  sys_reactors s !! i = Some ri → sys_reactors s !! j = Some rj →
  is_Some (rx_contexts_ ri !! k) → is_Some (rx_contexts_ rj !! k) → i = j.
Proof.
  intros Ho Hhc Hm Hstart Hs Hi Hj Hki Hkj.
  pose proof (main_start_ok hash _ _ _ _ _ _ _ _ Hstart) as Hok. rewrite Hm in Hok.
  pose proof (cfg_reactors _ (load_ok order hc argv file Ho Hhc)) as [Hcount _].
  assert (system_ok hash (load order hc argv file) m s) as [Hrs _].
  { clear -Hok Hcount Hs. induction Hs as [|s0 s1 s Hstep _ IH]; [done|]. apply IH. by eapply system_step_ok. }
  destruct (ro_owned _ _ _ _ (Hrs i ri Hi) k Hki) as (t & p & -> & Hpi).
  destruct (ro_owned _ _ _ _ (Hrs j rj Hj) _ Hkj) as (t' & p' & E & Hpj).
  apply context_key_inj in E as [-> ->]. rewrite Hpi in Hpj. injection Hpj. lia.
Qed.

(** *** A program with two reactors and a topic with two partitions *)

Definition orders_file : bytes :=
  concat (map enc_batch [meta_batch [a_topic; a_partition]; meta_batch [MPartition 1 1 1 (replicate 16 7) [1; 2; 3]]]).
Definition orders_metadata : ClusterMetadata :=
  mkClusterMetadata [mkTopicInfo (str "orders") (replicate 16 7) [0; 1]]
    {[str "orders" := 0%nat]} {[replicate 16 7 := 0%nat]}.
Definition two_fds (i : nat) : Z * Z := (3 + 10 * Z.of_nat i, 4 + 10 * Z.of_nat i).
Definition two_reactors : outcome (option System) :=
  main_start map_to_list 2 [str "kafka"] None (λ _, Some orders_file) two_fds no_files.
(** With this hash, partition 0 belongs to reactor 1 and partition 1 to reactor 0. *)
Definition flat_hash (name : bytes) : Z := 0.

Definition sys_io : Io := mkIo (λ _, 65536) (λ _, 5) a_kernel true.
Definition sys_event_ (fd : Z) (input output : bool) (a : Accepted) : Event := mkEvent fd false input output a sys_io sys_io.
(** A new client whose first request has arrived. *)
Definition client_with (fd : Z) (req : Request) : Accepted :=
  Client fd true true (mkSock (frame_bytes (encode_request sample_ignored req)) false false [] 65536 false).
Definition produce_to (corr : Z) (ps : list Z) : Request :=
  ReqProduce (mkProduceRequest (mkRequestHeader 0 9 corr)
    [enc_produce_topic (str "orders", map (λ p, (p, Some sample_batch)) ps)]).

Example two_reactors_start :
  match two_reactors with
  | Ok (Some s) => map reactor_id_ (sys_reactors s) = [0; 1] ∧ map wakeup_fd_ (all_queues_ (sys_shared s)) = [4; 14]
  | _ => False
  end.
Proof. vm_compute. by split. Qed.

Lemma well_routed_single m corr p : well_routed flat_hash (load map_to_list 2 [str "kafka"] None) m (produce_to corr [p]).
Proof.
  intros t p' Hin. cbn in Hin. apply list_elem_of_singleton in Hin as [= -> ->].
  eexists. split; [reflexivity|reflexivity].
Qed.

(** Reactor 0 accepts a client, then handles its produce request for partition 1. *)
Definition a_cfg : ReactorConfig := cfg_of (load map_to_list 2 [str "kafka"] None) orders_metadata two_fds 0.
Definition accept_7 : Event := sys_event_ 3 true false (client_with 7 (produce_to 1 [1])).
Definition read_7 : Event := sys_event_ 7 true false NoClient.
Definition one_accepted : outcome System :=
  o ← two_reactors;
  match o with
  | Some s => on_reactor 0 (handle_event flat_hash a_cfg accept_7) s
  | None => Fault undefined_behaviour
  end.
Definition one_produced : outcome System :=
  s ← one_accepted; on_reactor 0 (handle_event flat_hash a_cfg read_7) s.

(** The frame a reactor reads in an event, when it is complete. *)
Definition frame_read (e : Event) (s : System) : option (outcome Request) :=
  r ← sys_reactors s !! 0%nat;
  match read_frame a_cfg (ev_read_io e) (ev_fd e) r with
  | Continue r2 => Some (parse_request (zdrop 4 (read_buf (connection r2 (ev_fd e)))))
  | Stop _ => None
  end.

Lemma one_accepted_facts :
  match two_reactors with Ok (Some s) => frame_read accept_7 s = None | _ => False end ∧
  match one_accepted with Ok s => frame_read read_7 s = Some (Ok (produce_to 1 [1])) | _ => False end ∧
  match one_produced with
  | Ok s =>
      match sys_reactors s !! 0%nat with
      | Some r => bool_decide (is_Some (rx_contexts_ r !! context_key (str "orders") 1)) = true
      | None => False
      end
  | _ => False
  end.
Proof. vm_compute. by split_and!. Qed.

Lemma sys_event_one e s s' :
  (∀ req, frame_read e s = Some (Ok req) → ∃ corr p, req = produce_to corr [p]) →
  on_reactor 0 (handle_event flat_hash a_cfg e) s = Ok s' →
  system_step flat_hash (load map_to_list 2 [str "kafka"] None) orders_metadata two_fds s s'.
Proof.
  intros Hf H. eapply (sys_event _ _ _ _ 0%nat e); [|exact H]. intros r r2 req Hr _ Hread Hp.
  destruct (Hf req) as (corr & p & ->); [|apply well_routed_single].
  unfold frame_read. rewrite Hr. cbn [mbind option_bind]. unfold a_cfg. rewrite Hread. by rewrite Hp.
Qed.

Lemma two_in_range : in_uint 32 2.
Proof. done. Qed.
Lemma orders_parsed : parse_cluster_metadata_file (Some orders_file) = Ok orders_metadata.
Proof. by vm_compute. Qed.

Lemma partition_one_owner_witness :
  match one_produced with
  | Ok s => ∀ j rj, sys_reactors s !! j = Some rj → is_Some (rx_contexts_ rj !! context_key (str "orders") 1) → 0%nat = j
  | _ => False
  end.
Proof.
  pose proof one_accepted_facts as (F0 & F1 & F2).
  destruct one_produced as [s| |] eqn:E; [|exact F2..]. unfold one_produced in E.
  destruct one_accepted as [s1| |] eqn:E1; [|discriminate..]. unfold one_accepted in E1.
  destruct two_reactors as [[s0|]| |] eqn:E0; [|discriminate..]. cbn [mbind outcome_bind] in E, E1.
  destruct (sys_reactors s !! 0%nat) as [r|] eqn:Hr; [|destruct F2]. apply bool_decide_eq_true in F2.
  assert (rtc (system_step flat_hash (load map_to_list 2 [str "kafka"] None) orders_metadata two_fds) s0 s) as Hs.
  { eapply rtc_l; [apply (sys_event_one accept_7 s0 s1)|eapply rtc_l; [apply (sys_event_one read_7 s1 s)|apply rtc_refl]];
      [|exact E1| |exact E].
    - intros req Hq. rewrite F0 in Hq. discriminate.
    - intros req Hq. rewrite F1 in Hq. injection Hq as <-. by eexists _, _. }
  intros j rj Hj Hcj. unfold two_reactors in E0.
  refine (partition_one_owner flat_hash map_to_list 2 [str "kafka"] None (λ _, Some orders_file) two_fds no_files
    orders_metadata s0 s 0 j r rj _ (λ props, reflexivity _) two_in_range orders_parsed E0 Hs Hr Hj F2 Hcj).
Defined.
