(* ===== verification/Forwarding.v ===== *)
(** * Requests between reactors

    A request for a partition of another reactor makes a round trip through the
    queues.  The first part follows it in general; the rest shows, on a program
    with two reactors, what happens to requests the routing does not provide for. *)

From stdpp Require Import relations.
From S2P Require Import Prelude Endian Protocol Parser WireFormat Serializer ResponseFormat Storage PartitionContext.
From S2P Require Import RecordBatch PartitionProperties ClusterMetadata ClusterProperties MetadataHandler RecordHandler.
From S2P Require Import RecordProperties GroupCoordinator Broker Config.
From S2P Require Import Shard Socket Reactor Framing Delivery ReactorInvariant System.

(** ** The round trip *)

Lemma with_queue_at n f sh q :
  all_queues_ sh !! n = Some q →
  with_queue (Z.of_nat n) f sh = Ok (mkShared (sh_os sh) (sh_coordinator sh) (<[n := f q]> (all_queues_ sh))).
Proof. intros Hq. unfold with_queue, vector_at. by rewrite Nat2Z.id, Hq. Qed.

Lemma on_reactor_at i f s r r' sh' :
  sys_reactors s !! i = Some r → f (r, sys_shared s) = Ok (r', sh') →
  on_reactor i f s = Ok (mkSystem (<[i := r']> (sys_reactors s)) sh').
Proof. intros Hr Hf. unfold on_reactor, vector_at. rewrite Hr. cbn [mbind outcome_bind]. by rewrite Hf. Qed.

Section forwarding.
Context (hash : bytes → Z) (config : Config) (metadata : ClusterMetadata) (fds : nat → Z * Z).
Notation cfg := (cfg_of config metadata fds).

(** The request leaves the reactor that read it. *)
Lemma serve_frame_forward i j io fd r sh c req k q :
  reactor_id_ r = Z.of_nat i → i ≠ j → connections_ r !! fd = Some c →
  parse_request (zdrop 4 (read_buf c)) = Ok req → extract_partition_key req metadata = Ok (Some k) →
  owner hash config (pk_topic k) (pk_partition k) = Ok (Z.of_nat j) → all_queues_ sh !! j = Some q →
  serve_frame hash (cfg i) io fd (r, sh) =
  Ok (set_connection fd (with_read c [] (expected_len c) false) (count_request (4 + expected_len c) r),
      mkShared (sh_os sh) (sh_coordinator sh)
        (<[j := push_request (mkForwardedRequest fd (Z.of_nat i) req) q]> (all_queues_ sh))).
Proof.
  intros Hid Hne Hc Hp Hk Ho Hq. unfold serve_frame. rewrite (connection_some _ _ _ Hc), Hp.
  change (metadata_ (rc_handler (cfg i))) with metadata. rewrite Hk. cbn [mbind outcome_bind].
  change (route hash (shard_router_ (cfg i))) with (owner hash config). rewrite Ho. cbn [mbind outcome_bind].
  destruct (Z.eqb_spec (Z.of_nat j) (reactor_id_ r)); [lia|]. unfold forward. rewrite Hid.
  rewrite (with_queue_at _ _ _ _ Hq). cbn [mbind outcome_bind]. by rewrite (connection_some _ _ _ Hc).
Qed.

Lemma drain_request_some cf io r sh j q fwd rest i qi resp st data sfd slen :
  reactor_id_ r = Z.of_nat j → all_queues_ sh !! j = Some q → requests_ q = fwd :: rest → i ≠ j →
  fq_source_reactor_id fwd = Z.of_nat i → all_queues_ sh !! i = Some qi →
  handle (io_kernel io) (io_clock io) (rc_handler cf) (fq_request fwd) (reactor_state r sh) = Ok (resp, st) →
  serialize resp = Ok data → splice_of resp (-1, 0) = (sfd, slen) →
  drain_request cf io (r, sh) =
  Ok (Some (mkReactor (reactor_id_ r) (connections_ r) (partition_contexts_ (br_store st)) (st_calls (br_store st))
              (metrics_ r) (epoll_ r) (socks r) (splices_ r) (cqes_ r),
            mkShared (st_os (br_store st)) (br_coordinator st)
              (<[i := push_response (mkForwardedResponse (fq_client_fd fwd) data sfd slen) qi]>
                 (<[j := mkQueues rest (responses_ q) (wakeup_fd_ q) (wakeup_count q)]> (all_queues_ sh))))).
Proof.
  intros Hid Hq Hr Hij Hsrc Hqi Hh Hs Hsp. unfold drain_request, vector_at. rewrite Hid, Nat2Z.id, Hq.
  cbn [mbind outcome_bind]. unfold try_pop_request at 1. rewrite Hr, (with_queue_at _ _ _ _ Hq). cbn [mbind outcome_bind].
  unfold broker_handle. cbn [sh_os sh_coordinator all_queues_]. unfold reactor_state in Hh. rewrite Hh.
  cbn [mbind outcome_bind mret outcome_ret]. rewrite Hs. cbn [mbind outcome_bind]. rewrite Hsp, Hsrc.
  rewrite (with_queue_at i _ _ qi) by (cbn; by rewrite list_lookup_insert_ne by done). cbn [mbind outcome_bind].
  unfold try_pop_request. rewrite Hr, Hid. done.
Qed.

(** The owner answers the only request that waits for it. *)
Lemma drain_requests_one j ios r sh q fwd i qi resp st data sfd slen :
  reactor_id_ r = Z.of_nat j → all_queues_ sh !! j = Some q → requests_ q = [fwd] → i ≠ j →
  fq_source_reactor_id fwd = Z.of_nat i → all_queues_ sh !! i = Some qi →
  handle (io_kernel (ios 0%nat)) (io_clock (ios 0%nat)) (rc_handler (cfg j)) (fq_request fwd) (reactor_state r sh) = Ok (resp, st) →
  serialize resp = Ok data → splice_of resp (-1, 0) = (sfd, slen) →
  ∃ r' qj', drain_cross_reactor_requests (cfg j) ios (r, sh) =
    Ok (r', mkShared (st_os (br_store st)) (br_coordinator st)
              (<[i := push_response (mkForwardedResponse (fq_client_fd fwd) data sfd slen) qi]>
                 (<[j := qj']> (all_queues_ sh)))) ∧
    reactor_id_ r' = Z.of_nat j ∧ rx_contexts_ r' = partition_contexts_ (br_store st) ∧ connections_ r' = connections_ r.
Proof.
  intros Hid Hq Hr Hij Hsrc Hqi Hh Hs Hsp. unfold drain_cross_reactor_requests, vector_at. cbn [fst snd].
  rewrite Hid, Nat2Z.id, Hq. cbn [mbind outcome_bind]. rewrite Hr. cbn [length drain_requests].
  rewrite (drain_request_some _ _ _ _ j q fwd [] i qi resp st data sfd slen) by done. cbn [mbind outcome_bind].
  set (w' := (_, _) : World). assert (drain_request (cfg j) (ios 1%nat) w' = Ok None) as ->.
  { unfold drain_request, vector_at, w'. cbn [reactor_id_ all_queues_]. rewrite Hid, Nat2Z.id.
    rewrite list_lookup_insert_ne, list_lookup_insert_eq by (done || by eapply lookup_lt_Some). done. }
  cbn [mbind outcome_bind]. eexists _, _. split; [done|]. by split_and!.
Qed.

Lemma drain_response_some r sh i q resp rest :
  reactor_id_ r = Z.of_nat i → all_queues_ sh !! i = Some q → responses_ q = resp :: rest →
  drain_response (r, sh) =
  Ok (Some (accept_response resp r,
            mkShared (sh_os sh) (sh_coordinator sh)
              (<[i := mkQueues (requests_ q) rest (wakeup_fd_ q) (wakeup_count q)]> (all_queues_ sh)))).
Proof.
  intros Hid Hq Hr. unfold drain_response, vector_at. rewrite Hid, Nat2Z.id, Hq. cbn [mbind outcome_bind].
  unfold try_pop_response at 1. rewrite Hr, (with_queue_at _ _ _ _ Hq). cbn [mbind outcome_bind].
  unfold try_pop_response. by rewrite Hr.
Qed.

(** The reactor of the client takes the only response that waits for it. *)
Lemma drain_responses_one i r sh q resp :
  reactor_id_ r = Z.of_nat i → all_queues_ sh !! i = Some q → responses_ q = [resp] →
  ∃ q', drain_cross_reactor_responses (r, sh) =
    Ok (accept_response resp r, mkShared (sh_os sh) (sh_coordinator sh) (<[i := q']> (all_queues_ sh))).
Proof.
  intros Hid Hq Hr. unfold drain_cross_reactor_responses, vector_at. cbn [fst snd].
  rewrite Hid, Nat2Z.id, Hq. cbn [mbind outcome_bind]. rewrite Hr. cbn [length drain_responses].
  rewrite (drain_response_some r sh i q resp []) by done. cbn [mbind outcome_bind].
  set (w' := (_, _) : World). assert (drain_response w' = Ok None) as ->.
  { unfold drain_response, vector_at, w'. rewrite (proj2 (accept_response_parts resp r)), Hid, Nat2Z.id. cbn [all_queues_].
    by rewrite list_lookup_insert_eq by (by eapply lookup_lt_Some). }
  by eexists.
Qed.

(** The connection a response of another reactor is put on. *)
Lemma accept_response_live resp r c sk :
  live r (fs_client_fd resp) c sk → write_ok c → fs_data resp ≠ [] →
  ∃ c', live (accept_response resp r) (fs_client_fd resp) c' sk ∧ pending c' = pending c ++ fs_data resp ∧
    read_buf c' = read_buf c ∧ have_header c' = have_header c ∧
    (splice_fd c', splice_len c') =
      (if 0 <=? fs_splice_fd resp then (fs_splice_fd resp, fs_splice_len resp) else (splice_fd c, splice_len c)).
Proof.
  intros Hl Hok Hd. unfold accept_response. rewrite (live_conn _ _ _ _ Hl).
  set (c1 := if 0 <=? fs_splice_fd resp then _ else c).
  assert (write_ok c1) as Hok1 by (unfold c1; destruct (_ <=? _); [by destruct Hok; split|done]).
  destruct (enqueue_ok (fs_data resp) c1 Hok1 Hd) as (_ & Hpe & _).
  exists (enqueue (fs_data resp) c1). split_and!;
    [eapply deliver_live; [done|unfold c1; by destruct (_ <=? _)|done|done]|rewrite Hpe|unfold enqueue; destruct (idle c1)..];
    unfold c1; by destruct (0 <=? fs_splice_fd resp).
Qed.

(** C11: the round trip of a request for a partition of another reactor, when
    nothing else is in the two queues and the three steps run one after the
    other: the reactor that read it hands it over, the owner handles it with its
    own state and sends the response back, and, the client still being
    connected, the response is put at the end of what it will be sent, with what
    the owner wants spliced noted on its connection; the first reactor's
    partitions are not touched and its connection is ready for the next
    request. *)
Theorem forwarded_answered i j io ios fd s ri rj c sk req k qi qj resp st data sfd slen :
  i ≠ j → sys_reactors s !! i = Some ri → sys_reactors s !! j = Some rj →
  reactor_id_ ri = Z.of_nat i → reactor_id_ rj = Z.of_nat j → live ri fd c sk → write_ok c →
  parse_request (zdrop 4 (read_buf c)) = Ok req → extract_partition_key req metadata = Ok (Some k) →
  owner hash config (pk_topic k) (pk_partition k) = Ok (Z.of_nat j) →
  all_queues_ (sys_shared s) !! i = Some qi → all_queues_ (sys_shared s) !! j = Some qj →
  requests_ qj = [] → responses_ qi = [] →
  handle (io_kernel (ios 0%nat)) (io_clock (ios 0%nat)) (rc_handler (cfg j)) req (reactor_state rj (sys_shared s)) = Ok (resp, st) →
  serialize resp = Ok data → splice_of resp (-1, 0) = (sfd, slen) →
  ∃ s' ri' rj' c',
    (s1 ← on_reactor i (serve_frame hash (cfg i) io fd) s;
     s2 ← on_reactor j (drain_cross_reactor_requests (cfg j) ios) s1;
     on_reactor i drain_cross_reactor_responses s2) = Ok s' ∧
    sys_reactors s' !! i = Some ri' ∧ sys_reactors s' !! j = Some rj' ∧
    live ri' fd c' sk ∧ pending c' = pending c ++ data ∧ read_buf c' = [] ∧ have_header c' = false ∧
    (splice_fd c', splice_len c') = (if 0 <=? sfd then (sfd, slen) else (splice_fd c, splice_len c)) ∧
    rx_contexts_ ri' = rx_contexts_ ri ∧ rx_contexts_ rj' = partition_contexts_ (br_store st).
Proof.
  intros Hij Hi Hj Hidi Hidj Hl Hok Hp Hk Ho Hqi Hqj Hrq Hrs Hh Hs Hsp.
  set (c1 := with_read c [] (expected_len c) false).
  set (r1 := set_connection fd c1 (count_request (4 + expected_len c) ri)).
  rewrite (on_reactor_at i _ s ri _ _ Hi (serve_frame_forward i j io fd ri _ c req k qj Hidi Hij (live_conn _ _ _ _ Hl) Hp Hk Ho Hqj)).
  cbn [mbind outcome_bind]. set (fwd := mkForwardedRequest fd (Z.of_nat i) req).
  set (sh1 := mkShared _ _ _). set (s1 := mkSystem _ _).
  destruct (drain_requests_one j ios rj sh1 (push_request fwd qj) fwd i qi resp st data sfd slen)
    as (rj' & qj' & E2 & Hid2 & Hctx2 & _); try done.
  { cbn. rewrite list_lookup_insert_eq; [done|]. by eapply lookup_lt_Some. }
  { unfold push_request. rewrite (proj1 (wake_fields _)). cbn. by rewrite Hrq. }
  { cbn. by rewrite list_lookup_insert_ne by done. }
  rewrite (on_reactor_at j _ s1 rj rj' _) with (2 := E2) by (cbn; by rewrite list_lookup_insert_ne by done).
  cbn [mbind outcome_bind]. set (back := mkForwardedResponse fd data sfd slen). set (sh2 := mkShared _ _ _).
  set (s2 := mkSystem _ _).
  destruct (drain_responses_one i r1 sh2 (push_response back qi) back) as (q' & E3); [done|..].
  { cbn. rewrite list_lookup_insert_eq; [done|]. rewrite !length_insert. by eapply lookup_lt_Some. }
  { unfold push_response. rewrite (proj1 (proj2 (wake_fields _))). cbn. by rewrite Hrs. }
  assert (sys_reactors s2 !! i = Some r1) as Hi2.
  { cbn. rewrite list_lookup_insert_ne, list_lookup_insert_eq by (done || by eapply lookup_lt_Some). done. }
  rewrite (on_reactor_at i _ s2 r1 _ _ Hi2 E3).
  assert (live r1 fd c1 sk) as Hl1 by (by apply (live_set _ fd c); [apply live_metrics|]).
  assert (write_ok c1) as Hok1 by (by destruct Hok; split).
  destruct (accept_response_live back r1 c1 sk Hl1 Hok1 (serialize_nonempty _ _ Hs)) as (c' & Hl' & Hpe & Hrb & Hhh & Hsp').
  eexists _, _, rj', c'. split; [done|]. cbn [sys_reactors]. split_and!; [| |exact Hl'|by rewrite Hpe|done..| |done].
  - rewrite list_lookup_insert_eq by (by eapply lookup_lt_Some). done.
  - rewrite list_lookup_insert_ne by done. cbn. rewrite list_lookup_insert_eq; [done|]. rewrite length_insert.
    by eapply lookup_lt_Some.
  - by rewrite (proj1 (accept_response_parts back r1)).
Qed.
End forwarding.

(** *** Two reactors at work *)

Definition two_config : Config := load map_to_list 2 [str "kafka"] None.
Definition two_cfg (i : nat) : ReactorConfig := cfg_of two_config orders_metadata two_fds i.

(** The program handles events, given with the reactor each belongs to. *)
Inductive action :=
| Ev (i : nat) (e : Event)
| DrainRequests (i : nat)
| DrainResponses (i : nat).

Definition act (a : action) (s : System) : outcome System :=
  match a with
  | Ev i e => on_reactor i (handle_event flat_hash (two_cfg i) e) s
  | DrainRequests i => on_reactor i (drain_cross_reactor_requests (two_cfg i) (λ _, sys_io)) s
  | DrainResponses i => on_reactor i drain_cross_reactor_responses s
  end.

Definition run_program (l : list action) : outcome System :=
  o ← two_reactors;
  match o with
  | Some s => fold_left (λ s a, s ← s; act a s) l (mret s)
  | None => Fault undefined_behaviour
  end.

(** What a client has been sent, and what is queued for it. *)
Definition received_by (s : System) (i : nat) (fd : Z) : option (bytes * bytes) :=
  r ← sys_reactors s !! i; k ← socks r !! fd; Some (s_out k, pending (connection r fd)).

(** The answer to a produce request for partition [ps], all accepted with base
    offset [base]. *)
Definition produced (corr base : Z) (ps : list Z) : bytes :=
  match serialize (RespProduce (mkProduceResponse corr 0
          [mkProduceTopicResponse (str "orders") (map (λ p, mkProducePartitionResponse p 0 base 1700000000000 0) ps)])) with
  | Ok b => b
  | _ => []
  end.

(** A produce request for partition 0 (of reactor 1) read by reactor 0. *)
Definition a_forward : bytes := encode_request sample_ignored (produce_to 1 [0]).
Definition waiting : Connection := with_read new_connection (frame_bytes a_forward) (zlen a_forward) true.
Definition waiting_system : System :=
  mkSystem
    [mkReactor 0 {[7 := waiting]} ∅ 0 (mkMetrics 0 0 0 0)
       {[7 := false]} {[7 := a_socket]} [] [];
     mkReactor 1 ∅ ∅ 0 (mkMetrics 0 0 0 0) ∅ ∅ [] []]
    (mkShared no_files new_coordinator [new_queues; new_queues]).

Lemma waiting_live :
  live (mkReactor 0 {[7 := waiting]} ∅ 0 (mkMetrics 0 0 0 0) {[7 := false]} {[7 := a_socket]} [] []) 7 waiting a_socket.
Proof. by split. Qed.
Lemma waiting_ok : write_ok waiting.
Proof. split; [done|done|constructor]. Qed.
Lemma a_forward_owner : owner flat_hash two_config (str "orders") 0 = Ok (Z.of_nat 1).
Proof. by vm_compute. Qed.

Definition a_start_state : BrokerState := mkBrokerState (mkStore ∅ no_files 0) new_coordinator.

Lemma a_forward_facts :
  match parse_request a_forward with
  | Ok req =>
      match handle a_kernel (λ _, 5) (rc_handler (two_cfg 1)) req a_start_state with
      | Ok (resp, st) =>
          extract_partition_key req orders_metadata = Ok (Some (mkPartitionKey (str "orders") 0)) ∧
          serialize resp = Ok (produced 1 0 [0]) ∧ splice_of resp (-1, 0) = (-1, 0) ∧
          bool_decide (is_Some (partition_contexts_ (br_store st) !! context_key (str "orders") 0)) = true
      | _ => False
      end
  | _ => False
  end.
Proof. vm_compute. by split_and!. Qed.

Lemma forwarded_answered_witness :
  ∃ s' ri' rj' c',
    (s1 ← on_reactor 0 (serve_frame flat_hash (two_cfg 0) sys_io 7) waiting_system;
     s2 ← on_reactor 1 (drain_cross_reactor_requests (two_cfg 1) (λ _, sys_io)) s1;
     on_reactor 0 drain_cross_reactor_responses s2) = Ok s' ∧
    sys_reactors s' !! 0%nat = Some ri' ∧ sys_reactors s' !! 1%nat = Some rj' ∧
    live ri' 7 c' a_socket ∧ pending c' = pending new_connection ++ produced 1 0 [0] ∧
    rx_contexts_ ri' = ∅ ∧ is_Some (rx_contexts_ rj' !! context_key (str "orders") 0).
Proof.
  pose proof a_forward_facts as F.
  destruct (parse_request a_forward) as [req| |] eqn:Ep; [|destruct F..].
  destruct (handle a_kernel (λ _, 5) (rc_handler (two_cfg 1)) req a_start_state) as [[resp st]| |] eqn:Eh; [|destruct F..].
  destruct F as (Ek & Es & Esp & Ec). apply bool_decide_eq_true in Ec.
  destruct (forwarded_answered flat_hash two_config orders_metadata two_fds 0 1 sys_io (λ _, sys_io) 7 waiting_system
    _ _ waiting a_socket req
    (mkPartitionKey (str "orders") 0) new_queues new_queues resp st (produced 1 0 [0]) (-1) 0 (O_S 0) eq_refl eq_refl
    eq_refl eq_refl waiting_live waiting_ok Ep Ek a_forward_owner
    eq_refl eq_refl eq_refl eq_refl Eh Es Esp)
    as (s' & ri' & rj' & c' & E & Hi & Hj & Hl & Hp & _ & _ & _ & Hci & Hcj).
  exists s', ri', rj', c'. split; [exact E|]. split; [exact Hi|]. split; [exact Hj|]. split; [exact Hl|].
  split; [exact Hp|]. split; [exact Hci|]. rewrite Hcj. exact Ec.
Defined.

(** Routing looks at the first partition of a request only: when a produce
    request names partitions of two reactors, the one that owns the first
    handles both, with a context of its own for the second, and the owner of the
    second assigns the same offsets again to the next request: two batches are
    acknowledged with base offset 0 in one partition. *)
Theorem split_request_duplicates_offsets :
  match run_program
    [Ev 0 (sys_event_ 3 true false (client_with 7 (produce_to 1 [1; 0]))); Ev 0 (sys_event_ 7 true false NoClient);
     Ev 1 (sys_event_ 13 true false (client_with 8 (produce_to 2 [0]))); Ev 1 (sys_event_ 8 true false NoClient)] with
  | Ok s =>
      received_by s 0 7 = Some ([], produced 1 0 [1; 0]) ∧ received_by s 1 8 = Some ([], produced 2 0 [0]) ∧
      map (λ r, current_offset <$> rx_contexts_ r !! context_key (str "orders") 0) (sys_reactors s) = [Some 2; Some 2]
  | _ => False
  end.
Proof. vm_compute. by split_and!. Qed.

Definition api_versions (corr : Z) : Request := ReqApiVersions (mkApiVersionsRequest (mkRequestHeader 18 4 corr)).
Definition frames (l : list Request) : bytes := concat (map (λ q, frame_bytes (encode_request sample_ignored q)) l).

Definition versions (corr : Z) : bytes :=
  match serialize (RespApiVersions (handle_api_versions (mkApiVersionsRequest (mkRequestHeader 18 4 corr)))) with
  | Ok b => b
  | _ => []
  end.

(** Responses can be sent in another order than their requests: a client
    sends a produce request for a partition of another reactor and then an
    ApiVersions request on the same connection; the second is answered at once,
    the first when the other reactor has handled it. *)
Theorem forwarded_overtaken :
  match run_program
    [Ev 0 (sys_event_ 3 true false (Client 7 true true (mkSock (frames [produce_to 1 [0]; api_versions 2]) false false [] 65536 false)));
     Ev 0 (sys_event_ 7 true false NoClient); Ev 0 (sys_event_ 7 true false NoClient);
     DrainRequests 1; DrainResponses 0] with
  | Ok s => received_by s 0 7 = Some ([], versions 2 ++ produced 1 0 [0])
  | _ => False
  end.
Proof. vm_compute. reflexivity. Qed.

(** A response is addressed to a descriptor: when the client of a forwarded
    request goes away and another one is given its descriptor before the
    response is back, the response is delivered to the new client, which has not
    asked for anything. *)
Theorem forwarded_to_wrong_client :
  match run_program
    [Ev 0 (sys_event_ 3 true false (client_with 7 (produce_to 1 [0]))); Ev 0 (sys_event_ 7 true false NoClient);
     Ev 0 (mkEvent 7 true false false NoClient sys_io sys_io);
     Ev 0 (sys_event_ 3 true false (Client 7 true true (mkSock [] false false [] 65536 false)));
     DrainRequests 1; DrainResponses 0; Ev 0 (sys_event_ 7 false true NoClient)] with
  | Ok s => received_by s 0 7 = Some (produced 1 0 [0], [])
  | _ => False
  end.
Proof. vm_compute. reflexivity. Qed.
